(** * micrometa: dataset model, vendor parsers and mosaic assembly

    A shallow embedding of [micrometa/dataset.py], [micrometa/fluoview.py]
    and the tile configuration of [micrometa/imagej.py] (Python 2), with
    the properties of the dataset model, the OIR byte scanner, the two
    FluoView project parsers and the tile configuration proved over it.

    Layout:
    - [Py]       the fragment of Python the code relies on: exceptions,
                 binary64 floats, [str] methods, [sorted], logging;
    - [Dataset]  [dataset.py]: [ImageData*] and [MosaicData*];
    - [FluoView] [fluoview.py]: [FluoViewMosaic] and [FluoView3kMosaic];
    - [ImageJ]   [imagej.py]: [gen_tile_config]. *)

From Stdlib Require Import ZArith List String Ascii Bool Lia Permutation Sorted.
From Stdlib Require Import Floats.SpecFloat.
From stdpp Require Import gmap strings.

Import ListNotations.
Local Open Scope string_scope.
Local Open Scope Z_scope.
Set Warnings "-register-all".

(* ===================================================================== *)
(** * The Python substrate *)
(* ===================================================================== *)

Module Py.

(** Exception classes raised or caught by the code.  Messages are not
    modelled; the class alone decides which handler catches. *)
Inductive exn : Type :=
  | IOError | ValueError | TypeError | NotImplementedError
  | AssertionError | AttributeError | KeyError | IndexError
  | OverflowError | RuntimeError | NoSectionError | NoOptionError
  | ParseError.

Definition exn_eqb (a b : exn) : bool :=
  match a, b with
  | IOError, IOError | ValueError, ValueError | TypeError, TypeError
  | NotImplementedError, NotImplementedError
  | AssertionError, AssertionError | AttributeError, AttributeError
  | KeyError, KeyError | IndexError, IndexError
  | OverflowError, OverflowError | RuntimeError, RuntimeError
  | NoSectionError, NoSectionError | NoOptionError, NoOptionError
  | ParseError, ParseError => true
  | _, _ => false
  end.

(** [isinstance(e, cls)] for an instance [e] of one of the classes above.
    Among them the only subclass is [NotImplementedError], which derives
    from [RuntimeError]. *)
Definition is_instance (e cls : exn) : bool :=
  exn_eqb cls e || (exn_eqb cls RuntimeError && exn_eqb e NotImplementedError).

(** [t == s] for the text [t] of an XML element ([None] for an element
    without text) and a string [s]. *)
Definition text_eqb (t : option string) (s : string) : bool :=
  match t with Some x => String.eqb x s | None => false end.

(** Outcome of evaluating an expression: a value or a raised exception. *)
Inductive res (A : Type) : Type :=
  | Ok (a : A)
  | Raise (e : exn).
Arguments Ok {A} a.
Arguments Raise {A} e.

Definition is_ok {A} (r : res A) : bool :=
  match r with Ok _ => true | Raise _ => false end.

Definition res_bind {A B} (r : res A) (k : A -> res B) : res B :=
  match r with Ok a => k a | Raise e => Raise e end.

(** ** binary64 floats

    Python's [float] is IEEE 754 binary64; the operations are those of
    [SpecFloat] at precision 53 and maximal exponent 1024. *)

Definition float := spec_float.
Definition prec : Z := 53.
Definition emax : Z := 1024.

Definition fsub : float -> float -> float := SFsub prec emax.
Definition fmul : float -> float -> float := SFmul prec emax.
Definition fdiv : float -> float -> float := SFdiv prec emax.
Definition feqb : float -> float -> bool := SFeqb.
Definition fltb : float -> float -> bool := SFltb.
Definition fleb : float -> float -> bool := SFleb.

Definition is_nan (f : float) : bool :=
  match f with S754_nan => true | _ => false end.

Definition is_finite (f : float) : bool :=
  match f with S754_zero _ | S754_finite _ _ _ => true | _ => false end.

Definition is_zero (f : float) : bool :=
  match f with S754_zero _ => true | _ => false end.

(** [float(n)] for an [int]/[long] [n]: correctly rounded (to nearest,
    ties to even); [OverflowError] when [n] is beyond the finite range. *)
Definition float_of_int (n : Z) : res float :=
  match binary_normalize prec emax n 0 false with
  | S754_infinity _ => Raise OverflowError
  | f => Ok f
  end.

(** The literals [100.0], [100] (as a float operand) and [5.0]. *)
Definition f100 : float := S754_finite false 7036874417766400 (-46).
Definition f5 : float := S754_finite false 5629499534213120 (-50).

(** ** Values

    The few shapes of Python values that are stored in the untyped
    [supplement] dicts, passed as numbers, or handed to the logger. *)
Inductive pyval : Type :=
  | PNone
  | PInt (n : Z)
  | PFloat (f : float)
  | PStr (s : string)
  | PTuple (l : list pyval).

(** Coercion of a numeric operand to [float] in mixed arithmetic. *)
Definition to_float (v : pyval) : res float :=
  match v with
  | PInt n => float_of_int n
  | PFloat f => Ok f
  | _ => Raise TypeError
  end.

(** [v[i]] on a tuple. *)
Definition index (v : pyval) (i : nat) : res pyval :=
  match v with
  | PTuple l => match nth_error l i with Some x => Ok x | None => Raise IndexError end
  | _ => Raise TypeError
  end.

(** [v <= 5.0].  Python 2 orders [None] below every number and every
    number below strings and tuples; an [int] is compared exactly. *)
Definition le_5 (v : pyval) : bool :=
  match v with
  | PNone => true
  | PInt n => n <=? 5
  | PFloat f => fleb f f5
  | PStr _ | PTuple _ => false
  end.

(** ** Strings *)

(** [sub in s] *)
Fixpoint contains (sub s : string) : bool :=
  String.prefix sub s ||
  match s with
  | EmptyString => false
  | String _ t => contains sub t
  end.

(** [s.rfind(sub)] computed on the suffix of [s] that starts at index [i]:
    the highest index at which [sub] occurs, or [-1]. *)
Fixpoint rfind_from (sub s : string) (i : Z) : Z :=
  match s with
  | EmptyString => if String.prefix sub s then i else -1
  | String _ t =>
      let r := rfind_from sub t (i + 1) in
      if 0 <=? r then r else if String.prefix sub s then i else -1
  end.

Definition rfind (s sub : string) : Z := rfind_from sub s 0.

Definition len (s : string) : Z := Z.of_nat (String.length s).

(** [s[:n]] *)
Definition slice_to (s : string) (n : Z) : string :=
  if n <? 0 then substring 0 (Z.to_nat (len s + n)) s
  else substring 0 (Z.to_nat n) s.

(** [s[-n:]] for a positive literal [n] *)
Definition last_chars (n : nat) (s : string) : string :=
  substring (String.length s - n)%nat n s.

(** [s.replace(old, new)]: every non-overlapping occurrence of [old],
    found left to right, is replaced; an empty [old] matches before every
    character and at the end.  [skip] counts the characters of a matched
    occurrence that are still to be dropped. *)
Fixpoint replace_go (old new s : string) (skip : nat) : string :=
  match s with
  | EmptyString => EmptyString
  | String c t =>
      match skip with
      | S k => replace_go old new t k
      | O =>
          if String.prefix old s
          then String.append new (replace_go old new t (String.length old - 1)%nat)
          else String c (replace_go old new t O)
      end
  end.

Fixpoint intersperse (new s : string) : string :=
  match s with
  | EmptyString => new
  | String c t => String.append new (String c (intersperse new t))
  end.

Definition replace (s old new : string) : string :=
  match old with
  | EmptyString => intersperse new s
  | _ => replace_go old new s O
  end.

(** [c in string.whitespace] and [c in string.printable] for a one-byte
    string [c]: the printable characters are the bytes 32..126 together
    with tab, line feed, vertical tab, form feed and carriage return. *)
Definition is_space (c : ascii) : bool :=
  let n := Z.of_nat (nat_of_ascii c) in (n =? 32) || ((9 <=? n) && (n <=? 13)).

Definition printable (c : ascii) : bool :=
  let n := Z.of_nat (nat_of_ascii c) in
  ((32 <=? n) && (n <=? 126)) || ((9 <=? n) && (n <=? 13)).

Definition is_digit (c : ascii) : bool :=
  let n := Z.of_nat (nat_of_ascii c) in (48 <=? n) && (n <=? 57).

Fixpoint lstrip (s : string) : string :=
  match s with
  | String c t => if is_space c then lstrip t else s
  | EmptyString => EmptyString
  end.

Fixpoint all_space (s : string) : bool :=
  match s with
  | String c t => is_space c && all_space t
  | EmptyString => true
  end.

Fixpoint digits_value (s : string) (acc : Z) : option Z :=
  match s with
  | EmptyString => Some acc
  | String c t =>
      if is_digit c
      then digits_value t (10 * acc + (Z.of_nat (nat_of_ascii c) - 48))
      else if all_space s then Some acc else None
  end.

(** [int(s)] for a byte string [s]: surrounding whitespace, an optional
    sign and at least one decimal digit; anything else is a [ValueError]. *)
Definition int_of_str (s : string) : res Z :=
  let s := lstrip s in
  let '(neg, body) :=
    match s with
    | String "-"%char t => (true, t)
    | String "+"%char t => (false, t)
    | _ => (false, s)
    end in
  match body with
  | String c _ =>
      if is_digit c
      then match digits_value body 0 with
           | Some v => Ok (if neg then - v else v)
           | None => Raise ValueError
           end
      else Raise ValueError
  | EmptyString => Raise ValueError
  end.

(** [x in l] for a list of strings. *)
Definition str_in (x : string) (l : list string) : bool :=
  existsb (String.eqb x) l.

(** The one-character string holding a double quote. *)
Definition dq : string := String "034"%char EmptyString.

(** [int(v)]: strings are parsed, integers returned, floats truncated
    towards zero. *)
Definition py_int (v : pyval) : res Z :=
  match v with
  | PStr s => int_of_str s
  | PInt n => Ok n
  | PFloat (S754_zero _) => Ok 0
  | PFloat (S754_finite s m e) =>
      let a := if 0 <=? e then Z.shiftl (Zpos m) e else Z.shiftr (Zpos m) (- e) in
      Ok (if s then - a else a)
  | PFloat (S754_infinity _) => Raise OverflowError
  | PFloat S754_nan => Raise ValueError
  | PNone | PTuple _ => Raise TypeError
  end.

(** ** [sorted]

    [sorted(l, key=key, reverse=r)] compares keys with [<] only and is
    stable.  The sort is the insertion of each element, left to right,
    behind the elements already placed that are not greater; with
    [reverse] the list is reversed before and after, which keeps elements
    with equal keys in their original order.  For keys on which [<] is a
    strict weak order the result does not depend on the merge strategy of
    the interpreter's sort; keys that are not so ordered (a NaN among
    floats) are outside this model. *)
Fixpoint insert_by {A} (lt : A -> A -> bool) (x : A) (l : list A) : list A :=
  match l with
  | [] => [x]
  | y :: l' => if lt x y then x :: l else y :: insert_by lt x l'
  end.

Fixpoint sort_onto {A} (lt : A -> A -> bool) (placed l : list A) : list A :=
  match l with
  | [] => placed
  | x :: l' => sort_onto lt (insert_by lt x placed) l'
  end.

Definition sorted {A K} (l : list A) (key : A -> K) (lt : K -> K -> bool)
    (reverse : bool) : list A :=
  let lt_key a b := lt (key a) (key b) in
  if reverse then rev (sort_onto lt_key [] (rev l)) else sort_onto lt_key [] l.

(** Outcome of a loop body that may [return] from the enclosing function. *)
Inductive flow (R C : Type) : Type :=
  | Return (r : R)
  | Continue (c : C).
Arguments Return {R C} r.
Arguments Continue {R C} c.

(** [f.read(size)] on a file object whose unread content is [fin]: the
    bytes read and the content left. *)
Fixpoint file_read (fin : string) (size : Z) : string * string :=
  match fin with
  | EmptyString => (EmptyString, EmptyString)
  | String c t =>
      if size <=? 0 then (EmptyString, fin)
      else let '(chunk, rest) := file_read t (size - 1) in (String c chunk, rest)
  end.

(** ** Logging

    A record of the [log.<level>(fmt, args...)] calls, oldest first;
    arguments are kept unformatted. *)
Inductive level : Type := DEBUG | INFO | WARN | ERROR.

Record log_entry : Type := LogEntry {
  log_level : level;
  log_fmt : string;
  log_args : list pyval
}.

(** The part of the program state that is not an object attribute: the
    log, and the paths of the image files on which a format-specific
    dimension parser ([_parse_dimensions]) has been started. *)
Record Env : Type := mkEnv {
  env_log : list log_entry;
  env_parsed : list string
}.

Definition env0 : Env := mkEnv [] [].

(** ** The method monad

    A method body is a computation over the object it is invoked on
    ([self]) and the environment; it returns a value or raises, and the
    mutations made before a raise persist. *)
Definition M (O A : Type) : Type := O * Env -> res A * (O * Env).

Definition ret {O A} (a : A) : M O A := fun s => (Ok a, s).
Definition raise {O A} (e : exn) : M O A := fun s => (Raise e, s).
Definition bind {O A B} (m : M O A) (k : A -> M O B) : M O B :=
  fun s => match m s with
           | (Ok a, s') => k a s'
           | (Raise e, s') => (Raise e, s')
           end.
Definition lift {O A} (r : res A) : M O A := fun s => (r, s).

Definition self {O} : M O O := fun s => (Ok (fst s), s).
Definition set_self {O} (o : O) : M O unit := fun s => (Ok tt, (o, snd s)).
Definition update {O} (f : O -> O) : M O unit :=
  fun s => (Ok tt, (f (fst s), snd s)).

Definition log {O} (l : level) (fmt : string) (args : list pyval) : M O unit :=
  fun s => (Ok tt, (fst s, mkEnv (env_log (snd s) ++ [LogEntry l fmt args])
                                 (env_parsed (snd s)))).

Definition mark_parsed {O} (path : string) : M O unit :=
  fun s => (Ok tt, (fst s, mkEnv (env_log (snd s))
                                 (env_parsed (snd s) ++ [path]))).

(** [try: body except <classes>: handler]. *)
Definition try_except {O A} (body : M O A) (catches : exn -> bool)
    (handler : exn -> M O A) : M O A :=
  fun s => match body s with
           | (Ok a, s') => (Ok a, s')
           | (Raise e, s') => if catches e then handler e s' else (Raise e, s')
           end.

(** A method call [o.m(...)] on an object [o] held in a local variable of
    the caller: the callee runs with [o] as its [self]; the caller gets
    the result together with the object as the call left it. *)
Definition call {O P A} (o : P) (m : M P A) : M O (A * P) :=
  fun s => match m (o, snd s) with
           | (Ok a, (o', env')) => (Ok (a, o'), (fst s, env'))
           | (Raise e, (_, env')) => (Raise e, (fst s, env'))
           end.

Declare Scope py_scope.
Delimit Scope py_scope with py.
Notation "'do' x <- m ; k" := (bind m (fun x => k))
  (at level 10, x pattern, m at level 100, k at level 200) : py_scope.
Notation "m ;; k" := (bind m (fun _ => k))
  (at level 100, k at level 200, right associativity) : py_scope.

End Py.

Import Py.
Local Open Scope py_scope.


(* ===================================================================== *)
(** * dataset.py *)
(* ===================================================================== *)

Module Dataset.

(** The dict returned by [imcflibs.pathtools.parse_path], with the
    ['type'] key that [DataSet.__init__] adds to it. *)
Record PathInfo : Type := mkPath {
  orig : string;
  full : string;
  path : string;
  dname : string;
  fname : string;
  ext : string;
  st_type : option string
}.

Definition with_type (p : PathInfo) (t : string) : PathInfo :=
  mkPath (orig p) (full p) (path p) (dname p) (fname p) (ext p) (Some t).

(** What the code consumes from outside the package: path resolution and
    the existence test of [imcflibs], the contents of the image containers
    as the decoding libraries ([codecs]/[ConfigParser], [olefile],
    [xml.etree]) deliver them, each with the exception it may raise. *)
Record World : Type := mkWorld {
  (** [parse_path(p)] *)
  parse_path : string -> PathInfo;
  (** [exists(p)] *)
  path_exists : string -> bool;
  (** [strip_prefix(s, prefix)] *)
  strip_prefix : string -> string -> string;
  (** the section/option table [RawConfigParser.readfp] builds from the
      UTF-16 text of an [.oif] file *)
  read_oif : string -> res (gmap string (gmap string string));
  (** [olefile.OleFileIO(p)]: whether the container opens *)
  ole_open : string -> res unit;
  (** the table built from the decoded text of a named stream of an
      [.oib] container *)
  read_oib_stream : string -> string -> res (gmap string (gmap string string));
  (** the bytes of a file opened with [open(p, 'rb')] *)
  read_bytes : string -> res string;
  (** [etree.fromstring] and the lookups of [_parse_frameprops]: the
      integer values of [base:width], [base:height], [base:bitCounts] *)
  frameprops : string -> res (res Z * res Z * res Z);
  (** [etree.fromstring] and the axis search of [_parse_imageprops]: the
      value computed for [dim_z] *)
  imageprops : string -> res Z
}.

(** ** [class DataSet] *)

Record DataSet : Type := mkDataSet {
  ds_type : string;
  storage : PathInfo;
  supplement : gmap string pyval
}.

(** ** [class ImageData] and its subclasses

    One record holds the attributes of the whole hierarchy; [cls] is the
    concrete class, which selects the overridden methods. *)
Inductive image_class : Type := ImageDataOIF | ImageDataOIB | ImageDataOIR.

Record ImageData : Type := mkImageData {
  base : DataSet;
  _dim : option (gmap string Z);
  position_stage : pyval;
  position_relative : option (list float);
  parser : option (gmap string (gmap string string));
  _xml : option (gmap string string);
  cls : image_class
}.

Definition set_base (b : DataSet) (d : ImageData) : ImageData :=
  mkImageData b (_dim d) (position_stage d) (position_relative d) (parser d) (_xml d) (cls d).
Definition set_dim (v : option (gmap string Z)) (d : ImageData) : ImageData :=
  mkImageData (base d) v (position_stage d) (position_relative d) (parser d) (_xml d) (cls d).
Definition set_stage (v : pyval) (d : ImageData) : ImageData :=
  mkImageData (base d) (_dim d) v (position_relative d) (parser d) (_xml d) (cls d).
Definition set_relative (v : option (list float)) (d : ImageData) : ImageData :=
  mkImageData (base d) (_dim d) (position_stage d) v (parser d) (_xml d) (cls d).
Definition set_parser (v : option (gmap string (gmap string string))) (d : ImageData) : ImageData :=
  mkImageData (base d) (_dim d) (position_stage d) (position_relative d) v (_xml d) (cls d).
Definition set_xml (v : option (gmap string string)) (d : ImageData) : ImageData :=
  mkImageData (base d) (_dim d) (position_stage d) (position_relative d) (parser d) v (cls d).
Definition set_storage (p : PathInfo) (d : ImageData) : ImageData :=
  set_base (mkDataSet (ds_type (base d)) p (supplement (base d))) d.
Definition set_supplement (k : string) (v : pyval) (d : ImageData) : ImageData :=
  set_base (mkDataSet (ds_type (base d)) (storage (base d)) (<[k := v]> (supplement (base d)))) d.

(** [d[k]] on a dict of integers *)
Definition dim_get (d : gmap string Z) (k : string) : res Z :=
  match d !! k with Some v => Ok v | None => Raise KeyError end.

(** [supplement[k]] *)
Definition supplement_get (d : ImageData) (k : string) : res pyval :=
  match supplement (base d) !! k with Some v => Ok v | None => Raise KeyError end.

(** [RawConfigParser.get(section, option)] *)
Definition parser_get (p : gmap string (gmap string string)) (section option : string)
    : res string :=
  match p !! section with
  | None => Raise NoSectionError
  | Some opts =>
      match opts !! option with
      | None => Raise NoOptionError
      | Some v => Ok v
      end
  end.

(** A second [readfp] on the same parser: options read later override. *)
Definition parser_merge (later earlier : gmap string (gmap string string))
    : gmap string (gmap string string) :=
  union_with (fun l e => Some (l ∪ e)) later earlier.

(** The attributes of a [MosaicDataCuboid] (with those it inherits from
    [MosaicData]). *)
Record MosaicDataCuboid : Type := mkMosaic {
  m_base : DataSet;
  subvol : list ImageData;
  dim : gmap string Z;
  overlap : pyval;
  overlap_units : string
}.

(** [x[1][i]] on a tile [x = [fname, coords]].  The tiles built by
    [files_and_coords] have at least two coordinates, so the lookups of
    the sort keys succeed; NaN stands for a missing component. *)
Definition coord (i : nat) (tile : string * list float) : float :=
  nth i (snd tile) S754_nan.

Section WithWorld.

Variable w : World.

(** [DataSet.__init__] *)
Definition DataSet_init {O} (ds_type st_type st_path : string) : M O DataSet :=
  log DEBUG "Creating a 'Dataset' object." [] ;;
  if negb (str_in ds_type ["mosaic"; "stack"; "single"]) then raise TypeError else
  if negb (str_in st_type ["single"; "tree"; "sequence"]) then raise TypeError else
  let storage := with_type (parse_path w st_path) st_type in
  if String.eqb st_type "single" && String.eqb (fname storage) "" then raise TypeError else
  ret (mkDataSet ds_type storage ∅).

(** [ImageData.__init__]; the class of the object under construction is
    passed along. *)
Definition ImageData_init {O} (c : image_class) (ds_type st_type st_path : string)
    : M O ImageData :=
  do b <- DataSet_init ds_type st_type st_path ;
  log DEBUG "Creating an 'ImageData' object." [] ;;
  log DEBUG "ds_type: '%s'" [PStr (Dataset.ds_type b)] ;;
  ret (mkImageData b
         (Some (list_to_map [("B", 0); ("C", 0); ("T", 0); ("X", 0); ("Y", 0); ("Z", 0)]))
         PNone None None None c).

(** [ImageData.set_stagecoords] *)
Definition set_stagecoords (coords : pyval) : M ImageData unit :=
  log DEBUG "Setting stage coordinates: %s." [coords] ;;
  update (set_stage coords).

(** [ImageData.set_tilenumbers] *)
Definition set_tilenumbers (tileno_x tileno_y tileno_z : pyval) : M ImageData unit :=
  log DEBUG "Tile grid indices x / y / z: %s / %s / %s" [tileno_x; tileno_y; tileno_z] ;;
  update (set_supplement "tileno" (PTuple [tileno_x; tileno_y; tileno_z])).

(** [ImageDataOlympus.validate_filepath] *)
Definition validate_filepath : M ImageData PathInfo :=
  do d <- self ;
  let fpath := storage (base d) in
  let ext := ext fpath in
  log DEBUG "Validating file path: %s" [PStr (full fpath)] ;;
  do fpath <-
    (if negb (path_exists w (full fpath)) then
       let fpath := parse_path w (replace (orig fpath) ext (String.append "_01" ext)) in
       log DEBUG "Trying next path: %s" [PStr (full fpath)] ;;
       ret fpath
     else ret fpath) ;
  if negb (path_exists w (full fpath)) then raise IOError
  else ret fpath.

(** [ImageDataOlympus.__init__] *)
Definition ImageDataOlympus_init {O} (c : image_class) (st_path : string) : M O ImageData :=
  do d <- ImageData_init c "stack" "tree" st_path ;
  do r <- call d validate_filepath ;
  let '(fpath, d) := r in
  ret (set_dim None (set_parser None (set_storage fpath d))).

(** [ImageDataOIF.setup_parser] *)
Definition setup_parser_OIF : M ImageData (gmap string (gmap string string)) :=
  do d <- self ;
  let oif := full (storage (base d)) in
  log INFO "Parsing OIF file: %s" [PStr oif] ;;
  do parser <- lift (read_oif w oif) ;
  log DEBUG "Finished parsing OIF file." [] ;;
  ret parser.

(** [ImageDataOIF.__init__] *)
Definition ImageDataOIF_init {O} (st_path : string) : M O ImageData :=
  log DEBUG "ImageDataOIF(%s)" [PStr st_path] ;;
  do d <- ImageDataOlympus_init ImageDataOIF st_path ;
  do r <- call d setup_parser_OIF ;
  let '(p, d) := r in
  ret (set_dim None (set_parser (Some p) d)).

(** [ImageDataOIB.setup_parser] *)
Definition setup_parser_OIB : M ImageData (gmap string (gmap string string)) :=
  let oibinfo := "OibInfo.txt" in
  let expected_version := "2.0.0.0" in
  do d <- self ;
  let oib := full (storage (base d)) in
  log INFO "Parsing OIB file: %s" [PStr oib] ;;
  try_except (lift (ole_open w oib)) (exn_eqb IOError) (fun _ => raise IOError) ;;
  log INFO ("Parsing OIB description file " ++ dq ++ "%s" ++ dq ++ ".") [PStr oibinfo] ;;
  do info <- lift (read_oib_stream w oib oibinfo) ;
  do oibver <- lift (parser_get info "OibSaveInfo" "Version") ;
  do mainfile <- lift (parser_get info "OibSaveInfo" "MainFileName") ;
  (if negb (String.eqb oibver expected_version)
   then log WARN "WARNING: OIB has unknown format version %s!" [PStr oibver]
   else log INFO "OIB Format Version: %s" [PStr oibver]) ;;
  log DEBUG "Main File Name: %s" [PStr mainfile] ;;
  log INFO "Finished parsing OIB description file." [] ;;
  do main <- lift (read_oib_stream w oib mainfile) ;
  log DEBUG "Finished parsing OIB file." [] ;;
  ret (parser_merge main info).

(** [ImageDataOIB.__init__] *)
Definition ImageDataOIB_init {O} (st_path : string) : M O ImageData :=
  log DEBUG "ImageDataOIB(%s)" [PStr st_path] ;;
  do d <- ImageDataOlympus_init ImageDataOIB st_path ;
  do r <- call d setup_parser_OIB ;
  let '(p, d) := r in
  ret (set_parser (Some p) d).

(** [ImageDataOIR.__init__] *)
Definition ImageDataOIR_init {O} (st_path : string) : M O ImageData :=
  log DEBUG "ImageDataOIR(%s)" [PStr st_path] ;;
  do d <- ImageDataOlympus_init ImageDataOIR st_path ;
  log DEBUG "[DONE] creating ImageDataOIR(%s)" [PStr st_path] ;;
  ret (set_xml None d).

(** [cls(st_path)]: instantiation of the class held in a variable. *)
Definition image_init {O} (c : image_class) (st_path : string) : M O ImageData :=
  match c with
  | ImageDataOIF => ImageDataOIF_init st_path
  | ImageDataOIB => ImageDataOIB_init st_path
  | ImageDataOIR => ImageDataOIR_init st_path
  end.

(** *** [ImageDataOIR]: the XML blocks of an [.oir] file *)

Definition search_tags : list string :=
  ["lsmframe:frameProperties"; "lsmimage:imageProperties"].

(** The [for tag in search_tags] loop of [_get_xml_sections], run on a
    collected sequence that passed the length and [<?xml] tests. *)
Fixpoint scan_tags (tags : list string) (collected : string)
    (found : gmap string string)
    : flow (gmap string string) (gmap string string) :=
  match tags with
  | [] => Continue found
  | tag :: tags' =>
      if contains (String.append "<" tag) collected then
        let xml_close := rfind collected ">" + 1 in
        let found := <[tag := slice_to collected xml_close]> found in
        if Z.of_nat (size found) =? Z.of_nat (length search_tags)
        then Return found
        else scan_tags tags' collected found
      else scan_tags tags' collected found
  end.

(** The [for char in chunk] loop. *)
Fixpoint scan_chunk (min_len : Z) (chunk collected : string)
    (found : gmap string string)
    : flow (gmap string string) (string * gmap string string) :=
  match chunk with
  | EmptyString => Continue (collected, found)
  | String char chunk' =>
      if printable char then
        scan_chunk min_len chunk' (String.append collected (String char EmptyString)) found
      else if (len collected <? min_len) || negb (contains "<?xml" collected) then
        scan_chunk min_len chunk' EmptyString found
      else
        match scan_tags search_tags collected found with
        | Return found' => Return found'
        | Continue found' => scan_chunk min_len chunk' EmptyString found'
        end
  end.

(** The [while True] loop over the chunks.  [fuel] bounds the number of
    [read] calls; [None] is the bound running out. *)
Fixpoint read_loop (fuel : nat) (size min_len : Z) (fin collected : string)
    (found : gmap string string) : option (res (gmap string string)) :=
  match fuel with
  | O => None
  | S fuel' =>
      let '(chunk, fin') := file_read fin size in
      match chunk with
      | EmptyString => Some (Raise ValueError)
      | _ =>
          match scan_chunk min_len chunk collected found with
          | Return found' => Some (Ok found')
          | Continue (collected', found') =>
              read_loop fuel' size min_len fin' collected' found'
          end
      end
  end.

(** The scan of a whole file with chunk size [size].  Every [read] but
    the last returns at least one byte, so one more call than the file has
    bytes always suffices. *)
Definition scan_file (size min_len : Z) (content : string)
    : option (res (gmap string string)) :=
  read_loop (S (String.length content)) size min_len content EmptyString ∅.

Definition chunk_size : Z := 1048576.

(** [ImageDataOIR._get_xml_sections].  The loop bound running out takes
    the place of the [return None] that follows the loop in the source. *)
Definition _get_xml_sections (min_len : Z) : M ImageData (option (gmap string string)) :=
  do d <- self ;
  do content <- lift (read_bytes w (full (storage (base d)))) ;
  match scan_file chunk_size min_len content with
  | Some (Ok found) => ret (Some found)
  | Some (Raise e) => raise e
  | None => ret None
  end.

(** [ImageDataOIR.xml] *)
Definition xml : M ImageData (gmap string string) :=
  do d <- self ;
  (match _xml d with
   | None =>
       log DEBUG "Lazy initialization of OIR, reading XML now..." [] ;;
       do x <- _get_xml_sections 100 ;
       update (set_xml x)
   | Some _ => ret tt
   end) ;;
  do d <- self ;
  match _xml d with
  | None =>
      log ERROR "unable to locate XML in %s!" [PStr (fname (storage (base d)))] ;;
      raise ValueError
  | Some x => ret x
  end.

(** [self._dim[k] = v] *)
Definition dim_setitem (k : string) (v : Z) : M ImageData unit :=
  do d <- self ;
  match _dim d with
  | None => raise TypeError
  | Some m => update (set_dim (Some (<[k := v]> m)))
  end.

(** [xml[k]] on the dict of XML blocks *)
Definition xml_getitem (x : gmap string string) (k : string) : res string :=
  match x !! k with Some v => Ok v | None => Raise KeyError end.

(** [ImageDataOIR._parse_frameprops] *)
Definition _parse_frameprops (x : string) : M ImageData unit :=
  log DEBUG "Trying to parse frameProperties XML..." [] ;;
  do r <- lift (frameprops w x) ;
  let '(width, height, bit_counts) := r in
  do v <- lift width ; dim_setitem "X" v ;;
  do v <- lift height ; dim_setitem "Y" v ;;
  do v <- lift bit_counts ; dim_setitem "B" v ;;
  log DEBUG "[DONE] parsing frameProperties XML." [].

(** [ImageDataOIR._parse_imageprops] *)
Definition _parse_imageprops (x : string) : M ImageData unit :=
  log DEBUG "Trying to parse imageProperties XML..." [] ;;
  do dim_z <- lift (imageprops w x) ;
  dim_setitem "Z" dim_z ;;
  log DEBUG "[DONE] parsing imageProperties XML." [].

(** [ImageDataOIR._parse_dimensions] *)
Definition _parse_dimensions_OIR : M ImageData unit :=
  do d <- self ;
  log DEBUG "Parsing dimensions for [%s]..." [PStr (fname (storage (base d)))] ;;
  mark_parsed (full (storage (base d))) ;;
  update (set_dim (Some (list_to_map
    [("X", 0); ("Y", 0); ("Z", 0); ("C", 0); ("B", 0); ("T", 0)]))) ;;
  try_except
    (do x <- xml ;
     do fp <- lift (xml_getitem x "lsmframe:frameProperties") ;
     _parse_frameprops fp ;;
     do x <- xml ;
     do ip <- lift (xml_getitem x "lsmimage:imageProperties") ;
     _parse_imageprops ip)
    (fun _ => true)
    (fun e =>
       log ERROR "Error parsing dimensions from %s!" [PStr (full (storage (base d)))] ;;
       raise e) ;;
  log INFO "Parsed dimensions: %s" [].

(** *** [ImageDataOlympus]: dimensions from the configuration table *)

(** The comparison operand [u'"Z"'] and its siblings: the axis name
    between double quotes. *)
Definition quoted (s : string) : string := String.append dq (String.append s dq).

(** [ImageDataOlympus._parse_dimensions] *)
Definition _parse_dimensions_Olympus : M ImageData unit :=
  do d <- self ;
  log DEBUG "Parsing dimensions for [%s]..." [PStr (fname (storage (base d)))] ;;
  mark_parsed (full (storage (base d))) ;;
  do p <- match parser d with Some p => ret p | None => raise AttributeError end ;
  let get := parser_get p in
  do vals <-
    try_except
      (do dim_b <- lift (get "Reference Image Parameter" "ValidBitCounts") ;
       do dim_x <- lift (get "Reference Image Parameter" "ImageHeight") ;
       do dim_y <- lift (get "Reference Image Parameter" "ImageWidth") ;
       do dim_z <- lift (get "Axis 3 Parameters Common" "MaxSize") ;
       do axis_z <- lift (get "Axis 3 Parameters Common" "AxisName") ;
       do dim_c <- lift (get "Axis 2 Parameters Common" "MaxSize") ;
       do axis_c <- lift (get "Axis 2 Parameters Common" "AxisName") ;
       do dim_t <- lift (get "Axis 4 Parameters Common" "MaxSize") ;
       do axis_t <- lift (get "Axis 4 Parameters Common" "AxisName") ;
       ret (dim_b, dim_x, dim_y, (dim_z, axis_z), (dim_c, axis_c), (dim_t, axis_t)))
      (exn_eqb NoOptionError)
      (fun _ => raise ValueError) ;
  let '(dim_b, dim_x, dim_y, (dim_z, axis_z), (dim_c, axis_c), (dim_t, axis_t)) := vals in
  do dim_z <-
    (if negb (String.eqb axis_z (quoted "Z")) then
       log WARN "WARNING: couldn't find Z axis in metadata!" [] ;; ret (PInt 0)
     else ret (PStr dim_z)) ;
  do dim_c <-
    (if negb (String.eqb axis_c (quoted "Ch")) then
       log WARN "WARNING: couldn't find channels in metadata!" [] ;; ret (PInt 0)
     else ret (PStr dim_c)) ;
  do dim_t <-
    (if negb (String.eqb axis_t (quoted "T")) then
       log WARN "WARNING: couldn't find timepoints in metadata!" [] ;; ret (PInt 0)
     else ret (PStr dim_t)) ;
  do b <- lift (py_int (PStr dim_b)) ;
  do c <- lift (py_int dim_c) ;
  do t <- lift (py_int dim_t) ;
  do x <- lift (py_int (PStr dim_x)) ;
  do y <- lift (py_int (PStr dim_y)) ;
  do z <- lift (py_int dim_z) ;
  update (set_dim (Some (list_to_map
    [("B", b); ("C", c); ("T", t); ("X", x); ("Y", y); ("Z", z)]))) ;;
  log INFO "Parsed image dimensions: %s" [].

(** [self._parse_dimensions()], dispatched on the class of [self]. *)
Definition _parse_dimensions : M ImageData unit :=
  do d <- self ;
  match cls d with
  | ImageDataOIF | ImageDataOIB => _parse_dimensions_Olympus
  | ImageDataOIR => _parse_dimensions_OIR
  end.

(** [ImageDataOlympus.get_dimensions] *)
Definition get_dimensions : M ImageData (option (gmap string Z)) :=
  do d <- self ;
  (match _dim d with
   | None => _parse_dimensions
   | Some _ => ret tt
   end) ;;
  do d <- self ;
  ret (_dim d).

(** [dims[k]] on the value returned by [get_dimensions] *)
Definition dims_getitem (dims : option (gmap string Z)) (k : string) : res Z :=
  match dims with
  | None => Raise TypeError
  | Some m => dim_get m k
  end.

(** [size * ratio] with an [int] on the left and a [float] on the right *)
Definition int_times_float (n : Z) (f : float) : res float :=
  res_bind (float_of_int n) (fun a => Ok (fmul a f)).

(** [f * v] with a [float] on the left *)
Definition float_times (f : float) (v : pyval) : res float :=
  res_bind (to_float v) (fun b => Ok (fmul f b)).

(** [ImageDataOlympus.set_relpos] *)
Definition set_relpos (overlap : pyval) : M ImageData unit :=
  log DEBUG "Calculating relative position from %s%% overlap..." [overlap] ;;
  do ov <- lift (to_float overlap) ;
  let ratio := fdiv (fsub f100 ov) f100 in
  do dims <- get_dimensions ;
  do size_x <- lift (dims_getitem dims "X") ;
  do dims <- get_dimensions ;
  do size_y <- lift (dims_getitem dims "Y") ;
  do d <- self ;
  do tileno <- lift (supplement_get d "tileno") ;
  do tileno_x <- lift (index tileno 0) ;
  do tileno <- lift (supplement_get d "tileno") ;
  do tileno_y <- lift (index tileno 1) ;
  do sx <- lift (int_times_float size_x ratio) ;
  do pos_x <- lift (float_times sx tileno_x) ;
  do sy <- lift (int_times_float size_y ratio) ;
  do pos_y <- lift (float_times sy tileno_y) ;
  log DEBUG "Setting relative position: %s, %s." [PFloat pos_x; PFloat pos_y] ;;
  update (set_relative (Some [pos_x; pos_y])).

(** ** [class MosaicData] and [class MosaicDataCuboid] *)

Definition MosaicData_init {O} (st_type st_path : string) : M O MosaicDataCuboid :=
  do b <- DataSet_init "mosaic" st_type st_path ;
  ret (mkMosaic b [] ∅ PNone EmptyString).

(** [MosaicDataCuboid.__init__] *)
Definition MosaicDataCuboid_init {O} (st_type st_path : string) (dim : Z * Z * Z)
    : M O MosaicDataCuboid :=
  do m <- MosaicData_init st_type st_path ;
  let '(dim0, dim1, dim2) := dim in
  log INFO "Mosaic: %ix%ix%i" [PInt dim0; PInt dim1; PInt dim2] ;;
  ret (mkMosaic (m_base m) (subvol m)
         (list_to_map [("X", dim0); ("Y", dim1); ("Z", dim2)])
         (PInt 0) "px").

(** [MosaicData.add_subvol] *)
Definition add_subvol (img_ds : ImageData) : M MosaicDataCuboid unit :=
  log DEBUG "Dataset type: %s" [] ;;
  update (fun m => mkMosaic (m_base m) (subvol m ++ [img_ds]) (dim m)
                     (overlap m) (overlap_units m)).

(** The coordinate list built for one sub-volume in [files_and_coords]:
    three components if [pos[2]] exists, otherwise two. *)
Definition tile_coords (pos : option (list float)) : res (list float) :=
  match pos with
  | None => Raise TypeError
  | Some (p0 :: p1 :: p2 :: _) => Ok [p0; p1; p2]
  | Some [p0; p1] => Ok [p0; p1]
  | Some _ => Raise IndexError
  end.

(** The [for vol in self.subvol] loop of [files_and_coords]. *)
Fixpoint collect_tiles (m : MosaicDataCuboid) (vols : list ImageData)
    (tiles : list (string * list float)) : res (list (string * list float)) :=
  match vols with
  | [] => Ok tiles
  | vol :: vols' =>
      let fname := strip_prefix w (full (storage (base vol))) (path (storage (m_base m))) in
      let fname := replace fname "\" "/" in
      match tile_coords (position_relative vol) with
      | Ok coords => collect_tiles m vols' (tiles ++ [(fname, coords)])
      | Raise e => Raise e
      end
  end.

(** [MosaicData.files_and_coords] *)
Definition files_and_coords (m : MosaicDataCuboid) (sort : bool)
    : res (list (string * list float)) :=
  res_bind (collect_tiles m (subvol m) [])
    (fun tiles =>
       Ok (if sort
           then sorted (sorted tiles (coord 0) fltb true) (coord 1) fltb true
           else tiles)).

(** [MosaicDataCuboid.set_overlap] *)
Definition set_overlap (value : pyval) (units : string) : M MosaicDataCuboid unit :=
  log DEBUG "Setting overlap to %s %s." [value; PStr units] ;;
  if negb (str_in units ["px"; "pct"; "um"; "nm"; "mm"]) then raise TypeError else
  (if String.eqb units "pct" && le_5 value then
     log WARN "Low overlap %.1f%%!" [value]
   else if negb (String.eqb units "pct") then
     log WARN ("Minimum overlap check not implemented for " ++ dq ++ "%s" ++ dq ++ "!")
       [PStr units]
   else ret tt) ;;
  update (fun m => mkMosaic (m_base m) (subvol m) (dim m) value units).

(** [MosaicDataCuboid.get_overlap] *)
Definition get_overlap (units : string) : M MosaicDataCuboid pyval :=
  if negb (str_in units ["pct"]) then raise TypeError else
  do m <- self ;
  if negb (String.eqb units (overlap_units m)) then raise NotImplementedError else
  ret (overlap m).

End WithWorld.

End Dataset.

(* ===================================================================== *)
(** * fluoview.py *)
(* ===================================================================== *)

Module FluoView.

Import Dataset.

(** [Experiment.add_dataset] appends to the list the experiment object is;
    both project classes share it through [append_dataset] below. *)

(** ** [class FluoViewMosaic]: projects described by a [MATL_Mosaic.log] *)

Module FluoViewMosaic.

(** An [ImageInfo] element.  Each field is the outcome of the lookup and
    conversion the parser applies to the child of that name:
    [img.find(p).text], [int(...)] or [float(...)] of it. *)
Record ImageInfo : Type := mkImageInfo {
  Filename : res string;
  XPos : res float;
  YPos : res float;
  Xno : res Z;
  Yno : res Z;
  No : res Z
}.

(** A [Mosaic] element, in the same way; [attrib_No] is
    [int(tree.attrib["No"])]. *)
Record MosaicTree : Type := mkMosaicTree {
  attrib_No : res Z;
  XScanDirection : res string;
  YScanDirection : res string;
  XImages : res Z;
  YImages : res Z;
  IndexRatio : res float;
  ImageInfos : list ImageInfo
}.

(** The attributes of a [FluoViewMosaic] object; [datasets] is the list
    the object itself is. *)
Record t : Type := mk {
  datasets : list MosaicDataCuboid;
  infile : PathInfo;
  supplement : gmap string pyval;
  mosaictrees : list MosaicTree
}.

Definition append_dataset (dset : MosaicDataCuboid) (e : t) : t :=
  mk (datasets e ++ [dset]) (infile e) (supplement e) (mosaictrees e).

Definition set_mosaic_supplement (k : string) (v : pyval) (m : MosaicDataCuboid)
    : MosaicDataCuboid :=
  mkMosaic (mkDataSet (ds_type (m_base m)) (storage (m_base m))
              (<[k := v]> (Dataset.supplement (m_base m))))
    (subvol m) (dim m) (overlap m) (overlap_units m).

Section WithWorld.

Variable w : World.

(** [Experiment.add_dataset] *)
Definition add_dataset (dset : MosaicDataCuboid) : M t unit :=
  log DEBUG "Adding a dataset." [] ;;
  update (append_dataset dset).

(** The body of the [try] in the [ImageInfo] loop: the sub-volume is
    instantiated, positioned and appended; the mosaic with the new
    sub-volume is the result. *)
Definition read_subvol (img : ImageInfo) (subvol_reader : image_class)
    (subvol_fname : string) (mosaic_ds : MosaicDataCuboid) : M t MosaicDataCuboid :=
  do e <- self ;
  let st_path := String.append (path (infile e)) subvol_fname in
  do subvol_ds <- image_init w subvol_reader st_path ;
  do xpos <- lift (XPos img) ;
  do ypos <- lift (YPos img) ;
  do r <- call subvol_ds (set_stagecoords (PTuple [PFloat xpos; PFloat ypos])) ;
  let subvol_ds := snd r in
  do xno <- lift (Xno img) ;
  do yno <- lift (Yno img) ;
  do r <- call subvol_ds (set_tilenumbers (PInt xno) (PInt yno) PNone) ;
  let subvol_ds := snd r in
  do r <- call mosaic_ds (get_overlap "pct") ;
  let '(ov, mosaic_ds) := r in
  do r <- call subvol_ds (set_relpos w ov) ;
  let subvol_ds := snd r in
  do no <- lift (No img) ;
  let subvol_ds := set_supplement "index" (PInt no) subvol_ds in
  do r <- call mosaic_ds (add_subvol subvol_ds) ;
  ret (snd r).

(** The [for img in tree.findall("ImageInfo")] loop of [add_mosaic].  The
    result is the value of [mosaic_ds] after the loop ([None] once a
    sub-volume was found broken) and the last value bound to
    [subvol_fname]. *)
Fixpoint image_loop (imgs : list ImageInfo) (mosaic_ds : MosaicDataCuboid)
    (subvol_fname : option string)
    : M t (option MosaicDataCuboid * option string) :=
  match imgs with
  | [] => ret (Some mosaic_ds, subvol_fname)
  | img :: imgs' =>
      do subvol_fname <- lift (Filename img) ;
      do subvol_reader <-
        (if String.eqb (last_chars 3 subvol_fname) "oif" then ret ImageDataOIF
         else if String.eqb (last_chars 3 subvol_fname) "oib" then ret ImageDataOIB
         else raise IOError) ;
      do r <-
        try_except
          (do m <- read_subvol img subvol_reader subvol_fname mosaic_ds ;
           ret (Some m))
          (exn_eqb IOError)
          (fun _ =>
             log INFO "Broken/missing image data: %s" [] ;;
             ret None) ;
      match r with
      | Some mosaic_ds' => image_loop imgs' mosaic_ds' (Some subvol_fname)
      | None => ret (None, Some subvol_fname)
      end
  end.

Definition opt_str (s : option string) : pyval :=
  match s with Some x => PStr x | None => PNone end.

(** [assert v == expected] on the text of a child element *)
Definition assert_eq {O} (v : res string) (expected : string) : M O unit :=
  do s <- lift v ;
  if String.eqb s expected then ret tt else raise AssertionError.

(** The first part of [add_mosaic], up to the [ImageInfo] loop: the index
    (read from the tree for the default [-1]), the two assertions, and the
    empty [MosaicDataCuboid] with its overlap and index set. *)
Definition open_mosaic (tree : MosaicTree) (index : Z) : M t (Z * MosaicDataCuboid) :=
  do index <- (if index =? -1 then lift (attrib_No tree) else ret index) ;
  assert_eq (XScanDirection tree) "LeftToRight" ;;
  assert_eq (YScanDirection tree) "TopToBottom" ;;
  do e <- self ;
  do ximages <- lift (XImages tree) ;
  do yimages <- lift (YImages tree) ;
  do mosaic_ds <- MosaicDataCuboid_init w "tree" (orig (infile e)) (ximages, yimages, 1) ;
  do ratio <- lift (IndexRatio tree) ;
  do r <- call mosaic_ds (set_overlap (PFloat (fsub f100 ratio)) "pct") ;
  ret (index, set_mosaic_supplement "index" (PInt index) (snd r)).

(** [FluoViewMosaic.add_mosaic] *)
Definition add_mosaic (tree : MosaicTree) (index : Z) : M t unit :=
  do r <- open_mosaic tree index ;
  let '(index, mosaic_ds) := r in
  do r <- image_loop (ImageInfos tree) mosaic_ds None ;
  let '(mosaic_ds, subvol_fname) := r in
  match mosaic_ds with
  | Some mosaic_ds => add_dataset mosaic_ds
  | None =>
      log WARN "Mosaic %s: incomplete subvolumes, SKIPPING!" [PInt index] ;;
      log WARN "First incomplete/missing subvolume: %s" [opt_str subvol_fname]
  end.

(** The loop of [FluoViewMosaic.add_mosaics] over a list of trees. *)
Fixpoint add_mosaics_loop (trees : list MosaicTree) : M t unit :=
  match trees with
  | [] => ret tt
  | tree :: trees' => add_mosaic tree (-1) ;; add_mosaics_loop trees'
  end.

(** [FluoViewMosaic.add_mosaics] *)
Definition add_mosaics : M t unit :=
  do e <- self ;
  add_mosaics_loop (mosaictrees e).

End WithWorld.

(** The root element of a parsed [MATL_Mosaic.log]: its tag, the text of
    the children [validate_xml] reads ([AttributeError] for a child that
    is not there, [None] for one without text), [int] of the mosaic
    count, and the [Mosaic] children. *)
Record XYStage : Type := mkXYStage {
  root_tag : string;
  XAxisDirection : res (option string);
  YAxisDirection : res (option string);
  NumberOfMosaics : res Z;
  Mosaics : list MosaicTree
}.

Definition set_supplement (v : gmap string pyval) (e : t) : t :=
  mk (datasets e) (infile e) v (mosaictrees e).

Definition set_mosaictrees (v : list MosaicTree) (e : t) : t :=
  mk (datasets e) (infile e) (supplement e) v.

Section WithProject.

Variable w : World.

(** [etree.parse(path)] on a project file, with the exception it may
    raise. *)
Variable parse_xml : string -> res XYStage.

(** [Experiment.__init__] followed by the rest of
    [MosaicExperiment.__init__]: the object before any attribute of the
    subclass is set.  The dict logged by the second call is left out of
    the record. *)
Definition MosaicExperiment_init {O} (infile : string) : M O t :=
  log INFO "Creating an 'Experiment' object." [] ;;
  let infile := parse_path w infile in
  log DEBUG "Experiment original file: %s" [] ;;
  ret (mk [] infile ∅ []).

(** [FluoViewMosaic.validate_xml] *)
Definition validate_xml : M t XYStage :=
  log INFO "Validating FluoView Mosaic XML..." [] ;;
  do e <- self ;
  do tree <- lift (parse_xml (full (infile e))) ;
  if negb (String.eqb (root_tag tree) "XYStage") then raise TypeError else
  do xdir <- lift (XAxisDirection tree) ;
  do ydir <- lift (YAxisDirection tree) ;
  do mcount <- lift (NumberOfMosaics tree) ;
  if negb (text_eqb xdir "LeftToRight") || negb (text_eqb ydir "TopToBottom")
  then raise TypeError else
  update (set_supplement
            (list_to_map [("xdir", opt_str xdir); ("ydir", opt_str ydir);
                          ("mcount", PInt mcount)])) ;;
  log INFO "Finished validating XML." [] ;;
  ret tree.

(** [FluoViewMosaic.find_mosaictrees], on the tree [validate_xml]
    returned. *)
Definition find_mosaictrees (tree : XYStage) : M t (list MosaicTree) :=
  let trees := Mosaics tree in
  log INFO "Found %i potential mosaics in XML." [PInt (Z.of_nat (length trees))] ;;
  ret trees.

(** [FluoViewMosaic.__init__] *)
Definition __init__ {O} (infile : string) (runparser : bool) : M O t :=
  do e <- MosaicExperiment_init infile ;
  do r <- call e validate_xml ;
  let '(tree, e) := r in
  do r <- call e (find_mosaictrees tree) ;
  let '(trees, e) := r in
  let e := set_mosaictrees trees e in
  do r <- call e (if runparser then add_mosaics w else ret tt) ;
  ret (snd r).

End WithProject.

End FluoViewMosaic.

(** ** [class FluoView3kMosaic]: projects described by a [matl.omp2info] *)

Module FluoView3kMosaic.

(** A [matl:area] element: outcomes of [tft(tree, "matl:image")] and of
    [tfi] on the two grid indices. *)
Record Area : Type := mkArea {
  image : res string;
  xIndex : res Z;
  yIndex : res Z
}.

(** A [matl:group] element of a tiling type, field by field as
    [parse_mosaic] reads it. *)
Record RoiGroup : Type := mkRoiGroup {
  objectId : res string;
  regionInfo_type : res string;
  regionInfo_shape : res string;
  enable : res string;
  protocolGroupId : res string;
  numOfXAreas : res Z;
  numOfYAreas : res Z;
  areaWidth : res Z;
  areaHeight : res Z;
  areas : list Area
}.

(** The attributes of a [FluoView3kMosaic] object.  [tile_size] holds
    whatever [get_dimensions] returned once it has been assigned. *)
Record t : Type := mk {
  datasets : list MosaicDataCuboid;
  infile : PathInfo;
  supplement : gmap string pyval;
  tile_size : option (gmap string Z);
  common_tile_size : bool;
  mosaictrees : list RoiGroup
}.

Definition append_dataset (dset : MosaicDataCuboid) (e : t) : t :=
  mk (datasets e ++ [dset]) (infile e) (supplement e) (tile_size e)
     (common_tile_size e) (mosaictrees e).

Definition set_tile_size (v : option (gmap string Z)) (e : t) : t :=
  mk (datasets e) (infile e) (supplement e) v (common_tile_size e) (mosaictrees e).

(** The value [__init__] gives [self.tile_size]. *)
Definition tile_size_unset : gmap string Z := list_to_map [("X", -1); ("Y", -1)].

Section WithWorld.

Variable w : World.

(** [Experiment.add_dataset] *)
Definition add_dataset (dset : MosaicDataCuboid) : M t unit :=
  log DEBUG "Adding a dataset." [] ;;
  update (append_dataset dset).

(** [self.supplement[k]] *)
Definition supplement_getitem (k : string) : M t pyval :=
  do e <- self ;
  match supplement e !! k with Some v => ret v | None => raise KeyError end.

(** [self.tile_size[k]] *)
Definition tile_size_getitem (k : string) : M t Z :=
  do e <- self ;
  lift (dims_getitem (tile_size e) k).

(** The [if self.common_tile_size:] block of [parse_area]. *)
Definition share_tile_size (subvol_ds : ImageData) : M t ImageData :=
  do e <- self ;
  if common_tile_size e then
    do x <- tile_size_getitem "X" ;
    do unset <- (if x =? -1 then ret true
                 else do y <- tile_size_getitem "Y" ; ret (y =? -1)) ;
    do subvol_ds <-
      (if unset : bool then
         do r <- call subvol_ds (get_dimensions w) ;
         let '(dims, subvol_ds) := r in
         update (set_tile_size dims) ;;
         do x <- tile_size_getitem "X" ;
         do y <- tile_size_getitem "Y" ;
         log WARN "Using common tile size %sx%s" [PInt x; PInt y] ;;
         ret subvol_ds
       else ret subvol_ds) ;
    do e <- self ;
    ret (set_dim (tile_size e) subvol_ds)
  else ret subvol_ds.

(** [FluoView3kMosaic.parse_area] *)
Definition parse_area (tree : Area) : M t ImageData :=
  do r <-
    try_except
      (do fname <- lift (image tree) ;
       do grid_x <- lift (xIndex tree) ;
       do grid_y <- lift (yIndex tree) ;
       log DEBUG ("File " ++ dq ++ "%s" ++ dq ++ " grid position: %s / %s")
         [PStr fname; PInt grid_x; PInt grid_y] ;;
       do e <- self ;
       do subvol_ds <- ImageDataOIR_init w (String.append (path (infile e)) fname) ;
       do r <- call subvol_ds (set_stagecoords (PTuple [PNone; PNone])) ;
       let subvol_ds := snd r in
       do r <- call subvol_ds (set_tilenumbers (PInt grid_x) (PInt grid_y) PNone) ;
       let subvol_ds := snd r in
       do subvol_ds <- share_tile_size subvol_ds ;
       do ov <- supplement_getitem "overlap" ;
       do r <- call subvol_ds (set_relpos w ov) ;
       ret (fname, grid_x, grid_y, snd r))
      (fun _ => true)
      (fun _ =>
         log ERROR "Error parsing XML from OIR: %s" [] ;;
         raise IOError) ;
  let '(fname, grid_x, grid_y, subvol_ds) := r in
  log INFO ("Parsed " ++ dq ++ "%s" ++ dq ++ ", positions: grid=[%s/%s] relative=%s")
    [PStr fname; PInt grid_x; PInt grid_y] ;;
  ret subvol_ds.

(** The [for area in areas] loop of [assemble_mosaic_ds]. *)
Fixpoint area_loop (areas : list Area) (mosaic_ds : MosaicDataCuboid)
    : M t MosaicDataCuboid :=
  match areas with
  | [] => ret mosaic_ds
  | area :: areas' =>
      do mosaic_ds <-
        try_except
          (log DEBUG "Trying to parse sub-volume %s" [] ;;
           do subvol_ds <- parse_area area ;
           do r <- call mosaic_ds (add_subvol subvol_ds) ;
           ret (snd r))
          (fun _ => true)
          (fun err =>
             if exn_eqb IOError err then
               log ERROR "Group has broken image data: %s" [] ;;
               log INFO "Corresponding XML section:\n----\n%s\n----" [] ;;
               raise IOError
             else
               log ERROR "Unexpected parsing error: %s" [] ;;
               log INFO "Corresponding XML section:\n----\n%s\n----" [] ;;
               raise RuntimeError) ;
      area_loop areas' mosaic_ds
  end.

(** [FluoView3kMosaic.assemble_mosaic_ds] *)
Definition assemble_mosaic_ds (areas : list Area) (count_x count_y : Z)
    : M t MosaicDataCuboid :=
  do e <- self ;
  do mosaic_ds <- MosaicDataCuboid_init w "tree" (orig (infile e)) (count_x, count_y, 1) ;
  do ov <- supplement_getitem "overlap" ;
  do r <- call mosaic_ds (set_overlap ov "pct") ;
  area_loop areas (snd r).

Definition set_mosaic_supplement (k : string) (v : pyval) (m : MosaicDataCuboid)
    : MosaicDataCuboid :=
  mkMosaic (mkDataSet (ds_type (m_base m)) (storage (m_base m))
              (<[k := v]> (Dataset.supplement (m_base m))))
    (subvol m) (dim m) (overlap m) (overlap_units m).

(** [FluoView3kMosaic.parse_mosaic] *)
Definition parse_mosaic (tree : RoiGroup) : M t MosaicDataCuboid :=
  do oid <- lift (objectId tree) ;
  log INFO "Processing ROI group %s..." [PStr oid] ;;
  do roii_type <- lift (regionInfo_type tree) ;
  (if negb (String.eqb roii_type "marker:rectangleRegion")
      && negb (String.eqb roii_type "marker:polygonRegion")
   then
     log WARN ("Group <%s>: unsupported region type " ++ dq ++ "%s" ++ dq ++ ".")
       [PStr oid; PStr roii_type] ;;
     raise NotImplementedError
   else ret tt) ;;
  do shape <- lift (regionInfo_shape tree) ;
  (if str_in shape ["Rectangle"; "Polygon"] then ret tt else raise AssertionError) ;;
  do shape <- lift (regionInfo_shape tree) ;
  log DEBUG "Region shape: %s" [PStr shape] ;;
  do en <- lift (enable tree) ;
  (if negb (String.eqb en "true") then
     log WARN ("Group <%s> marked as " ++ dq ++ "disabled" ++ dq ++ ".") [PStr oid] ;;
     raise ValueError
   else ret tt) ;;
  do gid <- lift (protocolGroupId tree) ;
  log DEBUG (" - group ID: " ++ dq ++ "%s" ++ dq) [PStr gid] ;;
  do count_x <- lift (numOfXAreas tree) ;
  do count_y <- lift (numOfYAreas tree) ;
  log DEBUG " - number of areas X / Y: %s / %s" [PInt count_x; PInt count_y] ;;
  do aw <- lift (areaWidth tree) ;
  do ah <- lift (areaHeight tree) ;
  log DEBUG " - tile size: %s x %s nm" [PInt aw; PInt ah] ;;
  log INFO "Found %s area sections (i.e. tiles)."
    [PInt (Z.of_nat (length (areas tree)))] ;;
  do mosaic_ds <- assemble_mosaic_ds (areas tree) count_x count_y ;
  ret (set_mosaic_supplement "gid" (PStr gid)
         (set_mosaic_supplement "oid" (PStr oid) mosaic_ds)).

(** [FluoView3kMosaic.add_mosaic] *)
Definition add_mosaic (tree : RoiGroup) (index : Z) : M t unit :=
  do mosaic_ds <- parse_mosaic tree ;
  add_dataset (set_mosaic_supplement "index" (PInt index) mosaic_ds).

(** The loop of [FluoView3kMosaic.add_mosaics], from position [i] of the
    enumeration on. *)
Fixpoint add_mosaics_loop (i : Z) (trees : list RoiGroup) : M t unit :=
  match trees with
  | [] => ret tt
  | tree :: trees' =>
      try_except (add_mosaic tree i)
        (fun e => is_instance e ValueError || is_instance e RuntimeError)
        (fun e =>
           if is_instance e ValueError
           then log WARN "Skipping mosaic %s: %s" [PInt i]
           else log WARN "Error parsing mosaic %s, SKIPPING: %s" [PInt i]) ;;
      add_mosaics_loop (i + 1) trees'
  end.

(** [FluoView3kMosaic.add_mosaics] *)
Definition add_mosaics : M t unit :=
  do e <- self ;
  add_mosaics_loop 0 (mosaictrees e).

End WithWorld.

(** A [matl:group] element as [find_matrix_roi_groups] sees it: the
    value of its [xsi:type] attribute ([KeyError] without one) and the
    element itself. *)
Record Group : Type := mkGroup {
  xsi_type : res string;
  group : RoiGroup
}.

(** The root element of a parsed [matl.omp2info]: its tag, the
    attributes [validate_xml] reads ([KeyError] for a missing one), the
    text of the stage name ([AttributeError] without a stage or a name
    element), [int] of the stage overlap, and the [matl:group]
    children. *)
Record Properties : Type := mkProperties {
  root_tag : string;
  attrib_version : res string;
  attrib_applicationVersion : res string;
  attrib_platformVersion : res string;
  attrib_id : res string;
  stage_name : res (option string);
  stage_overlap : res Z;
  groups : list Group
}.

Definition set_supplement (k : string) (v : pyval) (e : t) : t :=
  mk (datasets e) (infile e) (<[k := v]> (supplement e)) (tile_size e)
     (common_tile_size e) (mosaictrees e).

Definition set_mosaictrees (v : list RoiGroup) (e : t) : t :=
  mk (datasets e) (infile e) (supplement e) (tile_size e) (common_tile_size e) v.

Definition ns_base : string := "http://www.olympus.co.jp/hpf".

Section WithProject.

Variable w : World.

(** [etree.parse(path)] on a project file, with the exception it may
    raise. *)
Variable parse_xml : string -> res Properties.

(** [FluoView3kMosaic.validate_xml] *)
Definition validate_xml : M t Properties :=
  let rt_expected :=
    String.append "{" (String.append ns_base "/protocol/matl/model/matl}properties") in
  do e <- self ;
  log DEBUG "Validating FluoView 3000 MATL XML (%s)" [PStr (full (infile e))] ;;
  do tree <- lift (parse_xml (full (infile e))) ;
  log DEBUG ("Checking XML root tag to be " ++ dq ++ "%s" ++ dq) [PStr rt_expected] ;;
  if negb (String.eqb (root_tag tree) rt_expected) then raise TypeError else
  log DEBUG "Multi Area Time Lapse properties:" [] ;;
  do v <- lift (attrib_version tree) ;
  log DEBUG " - version: %s" [PStr v] ;;
  do v <- lift (attrib_applicationVersion tree) ;
  log DEBUG " - application version: %s" [PStr v] ;;
  do v <- lift (attrib_platformVersion tree) ;
  log DEBUG " - platform version: %s" [PStr v] ;;
  do v <- lift (attrib_id tree) ;
  log DEBUG " - id: %s" [PStr v] ;;
  do version <- lift (attrib_version tree) ;
  if negb (String.eqb version "2.2") then raise ValueError else
  do name <- lift (stage_name tree) ;
  if negb (text_eqb name "PRIOR,H101F") then raise ValueError else
  log DEBUG "Correct stage found (%s)." [FluoViewMosaic.opt_str name] ;;
  do overlap <- lift (stage_overlap tree) ;
  log DEBUG "Found stage overlap to be %s." [PInt overlap] ;;
  update (set_supplement "overlap" (PInt overlap)) ;;
  log INFO "Finished validating XML." [] ;;
  ret tree.

(** The [for grp in groups] loop of [find_matrix_roi_groups]. *)
Fixpoint groups_loop (grps : list Group) (matrix_groups : list RoiGroup)
    : M t (list RoiGroup) :=
  match grps with
  | [] => ret matrix_groups
  | grp :: grps' =>
      do grp_type <- lift (xsi_type grp) ;
      do matrix_groups <-
        (if String.eqb grp_type "matl:DefineMatrixROI" then
           do oid <- lift (objectId (group grp)) ;
           log DEBUG "Group %s is a Matrix ROI." [PStr oid] ;;
           ret (matrix_groups ++ [group grp])%list
         else ret matrix_groups) ;
      do matrix_groups <-
        (if String.eqb grp_type "matl:MosaicROI" then
           do oid <- lift (objectId (group grp)) ;
           log DEBUG "Group %s is a Mosaic ROI." [PStr oid] ;;
           ret (matrix_groups ++ [group grp])%list
         else ret matrix_groups) ;
      groups_loop grps' matrix_groups
  end.

(** [FluoView3kMosaic.find_matrix_roi_groups], on the tree
    [validate_xml] returned. *)
Definition find_matrix_roi_groups (tree : Properties) : M t (list RoiGroup) :=
  log DEBUG "Looking for Matrix ROI groups (tiling datasets)." [] ;;
  do matrix_groups <- groups_loop (groups tree) [] ;
  log INFO "Found %i Matrix ROIs (tiling datasets)."
    [PInt (Z.of_nat (length matrix_groups))] ;;
  ret matrix_groups.

(** [FluoView3kMosaic.__init__]; the dict logged by [Experiment.__init__]
    is left out of the record. *)
Definition __init__ {O} (infile : string) (runparser assume_same_size : bool)
    : M O t :=
  log INFO "Creating FluoView3kMosaic object from [%s]..." [PStr infile] ;;
  log INFO "Creating an 'Experiment' object." [] ;;
  let infile := parse_path w infile in
  log DEBUG "Experiment original file: %s" [] ;;
  let e := mk [] infile ∅ (Some tile_size_unset) assume_same_size [] in
  do r <- call e validate_xml ;
  let '(tree, e) := r in
  do r <- call e (find_matrix_roi_groups tree) ;
  let '(trees, e) := r in
  let e := set_mosaictrees trees e in
  do r <- call e (if runparser then add_mosaics w else ret tt) ;
  log DEBUG "FluoView3kMosaic initialization completed." [] ;;
  ret (snd r).

End WithProject.

End FluoView3kMosaic.

End FluoView.

(* ===================================================================== *)
(** * imagej.py *)
(* ===================================================================== *)

Module ImageJ.

Import Dataset.

(** The one-character string holding a line feed. *)
Definition nl : string := String "010"%char EmptyString.

(** [s.rindex(sub)] *)
Definition rindex (s sub : string) : res Z :=
  let r := rfind s sub in
  if r <? 0 then Raise ValueError else Ok r.

(** A method call on [self.subvol[0]]: the first sub-volume is the
    callee's [self], and it stays in the list as the call left it, also
    when the call raises. *)
Definition call_subvol0 {A} (m : M ImageData A) : M MosaicDataCuboid A :=
  fun s =>
    match subvol (fst s) with
    | [] => (Raise IndexError, s)
    | vol :: vols =>
        let '(r, (vol', env')) := m (vol, snd s) in
        (r, (mkMosaic (m_base (fst s)) (vol' :: vols) (dim (fst s))
               (overlap (fst s)) (overlap_units (fst s)), env'))
    end.

Section WithWorld.

Variable w : World.

(** [__version__]: a placeholder in the source that is filled in when
    the package is built. *)
Variable version : string.

(** ['%f' % x] for a float [x]. *)
Variable format_f : float -> string.

(** [fmt % tuple(args)] for a format string whose only conversion
    specifier is [%f]: too few and too many arguments are a
    [TypeError]. *)
Fixpoint percent_f (fmt : string) (args : list float) : res string :=
  match fmt with
  | EmptyString =>
      match args with
      | [] => Ok EmptyString
      | _ :: _ => Raise TypeError
      end
  | String c rest =>
      let literal :=
        res_bind (percent_f rest args) (fun out => Ok (String c out)) in
      match rest with
      | String c2 rest2 =>
          if Ascii.eqb c "%" && Ascii.eqb c2 "f" then
            match args with
            | a :: args' =>
                res_bind (percent_f rest2 args')
                  (fun out => Ok (String.append (format_f a) out))
            | [] => Raise TypeError
            end
          else literal
      | EmptyString => literal
      end
  end.

(** The [if suffix:] block in the loop of [gen_tile_config]. *)
Definition replace_suffix {O} (fname suffix : string) : M O string :=
  if negb (String.eqb suffix "") then
    try_except
      (do i <- lift (rindex fname ".") ;
       ret (String.append (slice_to fname i) suffix))
      (fun e => is_instance e ValueError)
      (fun _ =>
         log ERROR "File name doesn't contain a dot: %s" [PStr fname] ;;
         raise ValueError)
  else ret fname.

(** The [for tile_details in tiles] loop of [gen_tile_config]. *)
Fixpoint tile_lines {O} (tiles : list (string * list float))
    (suffix coord_format : string) (conf : list string) : M O (list string) :=
  match tiles with
  | [] => ret conf
  | tile_details :: tiles' =>
      do fname <- replace_suffix (fst tile_details) suffix ;
      let line := String.append fname "; ; " in
      do coords <- lift (percent_f coord_format (snd tile_details)) ;
      let line := String.append line coords in
      tile_lines tiles' suffix coord_format (conf ++ [line])%list
  end.

(** [gen_tile_config], a function of the module, run with the mosaic as
    the object of the state.  The booleans logged are left out of the
    record. *)
Definition gen_tile_config (sort : bool) (suffix : string) (force_2d : bool)
    : M MosaicDataCuboid (list string) :=
  do mosaic <- self ;
  log DEBUG "Mosaic storage path: %s" [PStr (path (storage (m_base mosaic)))] ;;
  do tiles <- lift (files_and_coords w mosaic sort) ;
  let conf :=
    [String.append "# Generated by micrometa.imagej ("
       (String.append version
          (String.append ")." (String.append nl (String.append "#" nl))));
     String.append "# Define the number of dimensions we are working on" nl] in
  do tile0 <- lift (match tiles with
                    | tile :: _ => Ok tile
                    | [] => Raise IndexError
                    end) ;
  let coords_are_3d := 2 <? Z.of_nat (length (snd tile0)) in
  log DEBUG "Tile coordinates are given in 3D: %s" [] ;;
  do dims <- call_subvol0 (get_dimensions w) ;
  do z <- lift (dims_getitem dims "Z") ;
  let is_stack := 1 <? z in
  log DEBUG "Original dataset is a stack: %s" [] ;;
  let is_stack := is_stack && negb force_2d in
  let '(conf, coord_format) :=
    if is_stack then
      ((conf ++ [String.append "dim = 3" nl])%list,
       if coords_are_3d then String.append "(%f, %f, %f)" nl
       else String.append "(%f, %f, 0.0)" nl)
    else
      ((conf ++ [String.append "dim = 2" nl])%list, String.append "(%f, %f)" nl) in
  let conf :=
    (conf ++ [String.append "# Define the image coordinates (in pixels)" nl])%list in
  tile_lines tiles suffix coord_format conf.

End WithWorld.

End ImageJ.

(* ===================================================================== *)
(** * Specification-level definitions and example data *)
(* ===================================================================== *)

Import Dataset.

(** ** The XML blocks of an [.oir] file, run by run

    The description of the scanner in terms of runs of printable
    characters, against which [scan_file] is compared. *)
Module ScanSpec.

(** The maximal runs of printable characters of [content] that are ended
    by a non-printable byte, in order; [run] is the run under way. *)
Fixpoint terminated_runs (content run : string) : list string :=
  match content with
  | EmptyString => []
  | String c content' =>
      if printable c
      then terminated_runs content' (String.append run (String c EmptyString))
      else run :: terminated_runs content' EmptyString
  end.

(** A run is a candidate if it has at least [min_len] characters and
    contains the XML declaration marker. *)
Definition is_candidate (min_len : Z) (run : string) : bool :=
  (min_len <=? len run) && contains "<?xml" run.

(** A candidate is accepted for a tag if it contains its opening marker. *)
Definition accepts (tag run : string) : bool :=
  contains (String.append "<" tag) run.

(** The accepted fragment: the run cut after its last [>]. *)
Definition fragment (run : string) : string :=
  slice_to run (rfind run ">" + 1).

(** The (tag, fragment) pairs a run contributes, in the order of [tags]. *)
Definition run_acceptances (min_len : Z) (tags : list string) (run : string)
    : list (string * string) :=
  if is_candidate min_len run
  then flat_map (fun tag => if accepts tag run then [(tag, fragment run)] else []) tags
  else [].

(** All acceptances of a file, in scanning order. *)
Definition acceptances (min_len : Z) (content : string) : list (string * string) :=
  flat_map (run_acceptances min_len search_tags) (terminated_runs content EmptyString).

(** Record the acceptances one by one and stop at the first moment both
    tags have a fragment. *)
Fixpoint first_complete (acc : list (string * string)) (found : gmap string string)
    : flow (gmap string string) (gmap string string) :=
  match acc with
  | [] => Continue found
  | (tag, frag) :: acc' =>
      let found := <[tag := frag]> found in
      if Nat.eqb (size found) 2 then Return found else first_complete acc' found
  end.

(** The result of the extraction: both fragments, or the format error
    raised at the end of the file. *)
Definition xml_sections (min_len : Z) (content : string) : res (gmap string string) :=
  match first_complete (acceptances min_len content) ∅ with
  | Return found => Ok found
  | Continue _ => Raise ValueError
  end.

(** What [_get_xml_sections] returns or raises for a file of that
    content. *)
Definition get_xml_sections_outcome (min_len : Z) (content : string)
    : res (option (gmap string string)) :=
  match xml_sections min_len content with
  | Ok found => Ok (Some found)
  | Raise e => Raise e
  end.

End ScanSpec.

(** ** Example data *)
Module Demo.

(** A rendering of [imcflibs.pathtools.parse_path] for POSIX paths. *)
Definition from_index (i : Z) (s : string) : string :=
  substring (Z.to_nat i) (String.length s) s.

Definition posix_parse_path (p : string) : PathInfo :=
  let full := replace p "\" "/" in
  let i := rfind full "/" in
  let folder := slice_to full (Z.max i 0) in
  let path := String.append folder "/" in
  let fname := from_index (i + 1) full in
  let dname := from_index (rfind folder "/" + 1) folder in
  let j := rfind fname "." in
  let ext := if j <=? 0 then EmptyString else from_index j fname in
  mkPath p full path dname fname ext None.

(** The configuration table of an image of 512 x 512 pixels, 12 bit,
    with a Z axis of 30 sections and a channel axis of 2; the fourth
    axis is not a time axis. *)
Definition table : gmap string (gmap string string) :=
  list_to_map
    [("Reference Image Parameter",
      list_to_map [("ValidBitCounts", "12"); ("ImageHeight", "512"); ("ImageWidth", "512")]);
     ("Axis 3 Parameters Common",
      list_to_map [("MaxSize", "30"); ("AxisName", quoted "Z")]);
     ("Axis 2 Parameters Common",
      list_to_map [("MaxSize", "2"); ("AxisName", quoted "Ch")]);
     ("Axis 4 Parameters Common",
      list_to_map [("MaxSize", "none"); ("AxisName", quoted "X")])].

(** Filler of 100 printable characters. *)
Definition pad : string :=
  "<!--67890123456789012345678901234567890123456789012345678901234567890123456789012345678901234567-->".

Definition nul : string := String "000"%char EmptyString.

Definition frame_block : string :=
  String.append "<?xml version='1.0'?><lsmframe:frameProperties>"
    (String.append pad "</lsmframe:frameProperties>").

Definition image_block : string :=
  String.append "<?xml version='1.0'?><lsmimage:imageProperties>"
    (String.append pad "</lsmimage:imageProperties>").

(** An [.oir]-like byte stream: garbage, the frame block followed by
    trailing printable garbage, padding, the image block. *)
Definition oir_bytes : string :=
  String.append "OLYMPUS" (String.append nul
    (String.append frame_block (String.append "xyz" (String.append nul
      (String.append nul (String.append image_block nul)))))).

(** A stream with the frame block only. *)
Definition oir_bytes_frame_only : string :=
  String.append "OLYMPUS" (String.append nul (String.append frame_block nul)).

(** A world in which exactly the files of [files] exist; every [.oif] and
    [.oib] holds [table], every [.oir] holds [oir_bytes] describing a
    512 x 512 image of 16 bit and one plane. *)
Definition world (files : list string) : World :=
  mkWorld posix_parse_path
    (fun p => str_in p files)
    (fun s pre => if String.prefix pre s then from_index (len pre) s else s)
    (fun p => if str_in p files then Ok table else Raise IOError)
    (fun p => if str_in p files then Ok tt else Raise IOError)
    (fun p _ => if str_in p files then Ok table else Raise IOError)
    (fun p => if str_in p files then Ok oir_bytes else Raise IOError)
    (fun _ => Ok (Ok 512, Ok 512, Ok 16))
    (fun _ => Ok 1).

(** An [.oif] image as its constructor returns it, with [table] read. *)
Definition oif_image : ImageData :=
  mkImageData
    (mkDataSet "stack" (posix_parse_path "/data/Slide1/Slide1_01.oif") ∅)
    None PNone None (Some table) None ImageDataOIF.

(** The dimensions [_parse_dimensions] reads from [table], and the
    environment after that first parse. *)
Definition oif_dims : gmap string Z :=
  list_to_map [("B", 12); ("C", 2); ("T", 0); ("X", 512); ("Y", 512); ("Z", 30)].

Definition oif_env : Env :=
  mkEnv [LogEntry DEBUG "Parsing dimensions for [%s]..." [PStr "Slide1_01.oif"];
         LogEntry WARN "WARNING: couldn't find timepoints in metadata!" [];
         LogEntry INFO "Parsed image dimensions: %s" []]
        ["/data/Slide1/Slide1_01.oif"].

(** The floats [10.0], [20.0], [90.0] and [180.0]. *)
Definition f10 : float := S754_finite false 5629499534213120 (-49).
Definition f20 : float := S754_finite false 5629499534213120 (-48).
Definition f90 : float := S754_finite false 6333186975989760 (-46).
Definition f180 : float := S754_finite false 6333186975989760 (-45).

(** A tile of 100 x 100 pixels whose dimensions are known. *)
Definition tile_100 : ImageData :=
  mkImageData
    (mkDataSet "stack" (posix_parse_path "/data/Slide1/Slide1_01.oif") ∅)
    (Some (list_to_map [("B", 12); ("C", 1); ("T", 1); ("X", 100); ("Y", 100); ("Z", 1)]))
    PNone None (Some table) None ImageDataOIF.

(** The same tile after [set_stagecoords((10.0, 20.0))] and
    [set_tilenumbers(1, 2)]. *)
Definition tile_100_at_1_2 : ImageData :=
  set_supplement "tileno" (PTuple [PInt 1; PInt 2; PNone])
    (set_stage (PTuple [PFloat f10; PFloat f20]) tile_100).

(** An [.oir] image as its constructor returns it. *)
Definition oir_image : ImageData :=
  mkImageData
    (mkDataSet "stack" (posix_parse_path "/data/tile.oir") ∅)
    None PNone None None None ImageDataOIR.

(** A tile at a given relative position. *)
Definition tile_at (name : string) (x y : float) : ImageData :=
  mkImageData
    (mkDataSet "stack" (posix_parse_path (String.append "/data/" name)) ∅)
    None PNone (Some [x; y]) None None ImageDataOIF.

(** A mosaic of 2 x 2 tiles of 100 x 100 pixels with 10 percent
    overlap, in discovery order. *)
Definition mosaic_2x2 : MosaicDataCuboid :=
  mkMosaic (mkDataSet "mosaic"
              (with_type (posix_parse_path "/data/MATL_Mosaic.log") "tree") ∅)
    [tile_at "t00.oif" (S754_zero false) (S754_zero false);
     tile_at "t10.oif" f90 (S754_zero false);
     tile_at "t01.oif" (S754_zero false) f90;
     tile_at "t11.oif" f90 f90]
    (list_to_map [("X", 2); ("Y", 2); ("Z", 1)]) (PInt 10) "pct".

(** A [MATL_Mosaic.log] project in [/data/] with one mosaic of two tiles,
    of which only the first has its image file. *)
Definition tile_info (name : string) (xno yno no : Z) : FluoView.FluoViewMosaic.ImageInfo :=
  FluoView.FluoViewMosaic.mkImageInfo (Ok name) (Ok f10) (Ok f20) (Ok xno) (Ok yno) (Ok no).

Definition mosaic_tree : FluoView.FluoViewMosaic.MosaicTree :=
  FluoView.FluoViewMosaic.mkMosaicTree (Ok 0) (Ok "LeftToRight") (Ok "TopToBottom")
    (Ok 2) (Ok 1) (Ok f90)
    [tile_info "Slide1\Slide1.oif" 0 0 0; tile_info "Slide2\Slide2.oif" 1 0 1].

Definition complete_tree : FluoView.FluoViewMosaic.MosaicTree :=
  FluoView.FluoViewMosaic.mkMosaicTree (Ok 1) (Ok "LeftToRight") (Ok "TopToBottom")
    (Ok 1) (Ok 1) (Ok f90)
    [tile_info "Slide1\Slide1.oif" 0 0 0].

Definition project : FluoView.FluoViewMosaic.t :=
  FluoView.FluoViewMosaic.mk [] (posix_parse_path "/data/MATL_Mosaic.log")
    (list_to_map [("xdir", PStr "LeftToRight"); ("ydir", PStr "TopToBottom");
                  ("mcount", PInt 1)])
    [mosaic_tree; complete_tree].

Definition project_files : list string := ["/data/Slide1/Slide1_01.oif"].

(** A [matl.omp2info] project in [/data/] with the tile-size sharing
    switched on, and the three areas of one of its groups. *)
Definition project_3k : FluoView.FluoView3kMosaic.t :=
  FluoView.FluoView3kMosaic.mk [] (posix_parse_path "/data/matl.omp2info")
    (list_to_map [("overlap", PInt 10)])
    (Some FluoView.FluoView3kMosaic.tile_size_unset) true [].

Definition areas_3k : list FluoView.FluoView3kMosaic.Area :=
  [FluoView.FluoView3kMosaic.mkArea (Ok "a0.oir") (Ok 0) (Ok 0);
   FluoView.FluoView3kMosaic.mkArea (Ok "a1.oir") (Ok 1) (Ok 0);
   FluoView.FluoView3kMosaic.mkArea (Ok "a2.oir") (Ok 2) (Ok 0)].

Definition files_3k : list string :=
  ["/data/a0.oir"; "/data/a1.oir"; "/data/a2.oir"].

Definition no_path : PathInfo :=
  mkPath EmptyString EmptyString EmptyString EmptyString EmptyString EmptyString None.

(** A mosaic of 2 x 2 tiles as [MosaicDataCuboid.__init__] leaves it. *)
Definition fresh_mosaic : MosaicDataCuboid :=
  mkMosaic (mkDataSet "mosaic"
              (with_type (posix_parse_path "/data/MATL_Mosaic.log") "tree") ∅) []
    (list_to_map [("X", 2); ("Y", 2); ("Z", 1)]) (PInt 0) "px".

(** The areas and files of a second mosaic of the project. *)
Definition areas_3k_b : list FluoView.FluoView3kMosaic.Area :=
  [FluoView.FluoView3kMosaic.mkArea (Ok "b0.oir") (Ok 0) (Ok 0);
   FluoView.FluoView3kMosaic.mkArea (Ok "b1.oir") (Ok 1) (Ok 0)].

Definition files_3k_b : list string := ["/data/b0.oir"; "/data/b1.oir"].

(** An enabled rectangular group over [areas_3k], a disabled one, and
    one with a region type that is not supported. *)
Definition group_3k : FluoView.FluoView3kMosaic.RoiGroup :=
  FluoView.FluoView3kMosaic.mkRoiGroup (Ok "7") (Ok "marker:rectangleRegion")
    (Ok "Rectangle") (Ok "true") (Ok "g7") (Ok 3) (Ok 1) (Ok 1000) (Ok 1000)
    areas_3k.

Definition group_3k_disabled : FluoView.FluoView3kMosaic.RoiGroup :=
  FluoView.FluoView3kMosaic.mkRoiGroup (Ok "8") (Ok "marker:rectangleRegion")
    (Ok "Rectangle") (Ok "false") (Ok "g8") (Ok 3) (Ok 1) (Ok 1000) (Ok 1000)
    areas_3k.

Definition group_3k_ellipse : FluoView.FluoView3kMosaic.RoiGroup :=
  FluoView.FluoView3kMosaic.mkRoiGroup (Ok "9") (Ok "marker:ellipseRegion")
    (Ok "Ellipse") (Ok "true") (Ok "g9") (Ok 3) (Ok 1) (Ok 1000) (Ok 1000)
    areas_3k.

Definition group_3k_b : FluoView.FluoView3kMosaic.RoiGroup :=
  FluoView.FluoView3kMosaic.mkRoiGroup (Ok "10") (Ok "marker:rectangleRegion")
    (Ok "Rectangle") (Ok "true") (Ok "g10") (Ok 2) (Ok 1) (Ok 1000) (Ok 1000)
    areas_3k_b.

(** The root of a [matl.omp2info] with the three groups and a group of
    another kind, and the parser that finds it at its path only. *)
Definition properties_3k : FluoView.FluoView3kMosaic.Properties :=
  FluoView.FluoView3kMosaic.mkProperties
    "{http://www.olympus.co.jp/hpf/protocol/matl/model/matl}properties"
    (Ok "2.2") (Ok "2.1.1.98") (Ok "2.1.1.98") (Ok "0")
    (Ok (Some "PRIOR,H101F")) (Ok 10)
    [FluoView.FluoView3kMosaic.mkGroup (Ok "matl:DefineMatrixROI") group_3k_disabled;
     FluoView.FluoView3kMosaic.mkGroup (Ok "matl:DefinePointROI") group_3k;
     FluoView.FluoView3kMosaic.mkGroup (Ok "matl:MosaicROI") group_3k].

Definition parse_xml_3k (p : string) : res FluoView.FluoView3kMosaic.Properties :=
  if String.eqb p "/data/matl.omp2info" then Ok properties_3k else Raise IOError.

(** The root of a [MATL_Mosaic.log] with the two example trees. *)
Definition xystage : FluoView.FluoViewMosaic.XYStage :=
  FluoView.FluoViewMosaic.mkXYStage "XYStage"
    (Ok (Some "LeftToRight")) (Ok (Some "TopToBottom")) (Ok 1)
    [mosaic_tree; complete_tree].

Definition parse_xml_log (p : string) : res FluoView.FluoViewMosaic.XYStage :=
  if String.eqb p "/data/MATL_Mosaic.log" then Ok xystage else Raise IOError.

(** A mosaic of two stacks of 30 planes side by side, the tables of
    their files read but their dimensions not parsed yet. *)
Definition mosaic_stacks : MosaicDataCuboid :=
  mkMosaic (mkDataSet "mosaic"
              (with_type (posix_parse_path "/data/MATL_Mosaic.log") "tree") ∅)
    [set_parser (Some table) (tile_at "t00.oif" (S754_zero false) (S754_zero false));
     set_parser (Some table) (tile_at "t10.oif" f90 (S754_zero false))]
    (list_to_map [("X", 2); ("Y", 1); ("Z", 1)]) (PInt 10) "pct".

(** ['%f' % x] for the two coordinates of the examples. *)
Definition format_f (x : float) : string :=
  if feqb x f90 then "90.000000" else "0.000000".

End Demo.

(** ** Outcome of a scan *)

(** The scan of a file ends by returning the blocks found or, when the
    file is exhausted first, by raising [ValueError]. *)
Definition flow_outcome {R C} (f : flow R C) : res R :=
  match f with
  | Return r => Ok r
  | Continue _ => Raise ValueError
  end.

(** ** Order of floats and of tiles *)

(** A key that orders the floats other than NaN as the comparison
    operators do: by class (negative infinity, negative, zero, positive,
    positive infinity), then exponent, then mantissa; the two zeros share
    a key. *)
Definition fkey (f : float) : Z * Z * Z :=
  match f with
  | S754_infinity true => (-2, 0, 0)
  | S754_finite true m e => (-1, - e, Zneg m)
  | S754_zero _ => (0, 0, 0)
  | S754_finite false m e => (1, e, Zpos m)
  | S754_infinity false => (2, 0, 0)
  | S754_nan => (3, 0, 0)
  end.

Definition key_cmp (a b : Z * Z * Z) : comparison :=
  let '(a1, a2, a3) := a in
  let '(b1, b2, b3) := b in
  match a1 ?= b1 with
  | Eq => match a2 ?= b2 with Eq => a3 ?= b3 | c => c end
  | c => c
  end.

(** Neither element is below the other. *)
Definition equiv_by {A} (lt : A -> A -> bool) (a b : A) : bool :=
  negb (lt a b) && negb (lt b a).

(** The order the tiles are returned in: [a] may precede [b] if [a]'s
    second coordinate is greater, or equal with [a]'s first coordinate at
    least [b]'s. *)
Definition scan_order (a b : string * list float) : Prop :=
  fltb (coord 1 b) (coord 1 a) = true
  \/ (feqb (coord 1 a) (coord 1 b) = true /\ fleb (coord 0 b) (coord 0 a) = true).

(** Both sort keys of a tile are numbers, not NaN. *)
Definition has_position (t : string * list float) : Prop :=
  is_nan (coord 0 t) = false /\ is_nan (coord 1 t) = false.

(** A sub-volume has a relative position: a tuple of at least two
    numbers. *)
Definition positioned (vol : ImageData) : Prop :=
  match position_relative vol with
  | Some (x :: y :: _) => is_nan x = false /\ is_nan y = false
  | _ => False
  end.

(** ** Frames *)

(** A method body that leaves the object it runs on as it is. *)
Definition keeps_self {O A} (m : M O A) : Prop :=
  forall s, fst (snd (m s)) = fst s.

(** A method body that starts no dimension parser. *)
Definition keeps_parsed {O A} (m : M O A) : Prop :=
  forall s, env_parsed (snd (snd (m s))) = env_parsed (snd s).

(** ** The common tile size *)

(** The experiment holds a tile size other than the initial [-1]
    markers. *)
Definition size_cached (e : FluoView.FluoView3kMosaic.t) : Prop :=
  exists ts x y,
    FluoView.FluoView3kMosaic.tile_size e = Some ts
    /\ ts !! "X" = Some x /\ ts !! "Y" = Some y /\ x <> -1 /\ y <> -1.

(** The image sizes the XML decoder delivers are never negative. *)
Definition sizes_nonnegative (w : World) : Prop :=
  forall x px py b, frameprops w x = Ok (Ok px, Ok py, b) -> 0 <= px /\ 0 <= py.

(** The tile size of a project is either the placeholder [__init__] set
    or a parsed size. *)
Definition size_known_or_unset (e : FluoView.FluoView3kMosaic.t) : Prop :=
  FluoView.FluoView3kMosaic.tile_size e = Some FluoView.FluoView3kMosaic.tile_size_unset
  \/ size_cached e.

(** A run from [(e, env)] to [(e', env')], whatever its outcome, under
    the sharing of the tile size: the sharing stays on, at most one
    dimension parser has been started, and none if a size was cached
    before, which is then still the cached size. *)
Definition cache_kept (e : FluoView.FluoView3kMosaic.t) (env : Env)
    (e' : FluoView.FluoView3kMosaic.t) (env' : Env) : Prop :=
  FluoView.FluoView3kMosaic.common_tile_size e' = true
  /\ size_known_or_unset e'
  /\ (exists l, env_parsed env' = (env_parsed env ++ l)%list /\ (length l <= 1)%nat)
  /\ (size_cached e ->
      FluoView.FluoView3kMosaic.tile_size e' = FluoView.FluoView3kMosaic.tile_size e
      /\ env_parsed env' = env_parsed env).

(** A run that returned and built the tiles [vols], in this order: either
    no parser was started and the cached size is as before, or no size
    was cached before, the one parser run was on the file of the first
    tile, and its dimensions are the size cached now.  Every tile holds
    the size cached at the end. *)
Definition tiles_share_size (e : FluoView.FluoView3kMosaic.t) (env : Env)
    (e' : FluoView.FluoView3kMosaic.t) (env' : Env) (vols : list ImageData) : Prop :=
  FluoView.FluoView3kMosaic.common_tile_size e' = true
  /\ ((FluoView.FluoView3kMosaic.tile_size e' = FluoView.FluoView3kMosaic.tile_size e
       /\ env_parsed env' = env_parsed env
       /\ (vols <> [] -> size_cached e))
      \/ (FluoView.FluoView3kMosaic.tile_size e
          = Some FluoView.FluoView3kMosaic.tile_size_unset
          /\ size_cached e'
          /\ exists first rest,
               vols = first :: rest
               /\ env_parsed env'
                  = (env_parsed env ++ [full (storage (base first))])%list
               /\ FluoView.FluoView3kMosaic.tile_size e' = _dim first))
  /\ Forall (fun sub => _dim sub = FluoView.FluoView3kMosaic.tile_size e') vols.

(** The tiles of a list of mosaics, mosaic by mosaic. *)
Definition tiles_of (ms : list MosaicDataCuboid) : list ImageData :=
  concat (map subvol ms).
(** What an operation that failed before any tile was parsed leaves. *)
Definition untouched (e : FluoView.FluoView3kMosaic.t) (env : Env)
    (s' : FluoView.FluoView3kMosaic.t * Env) : Prop :=
  FluoView.FluoView3kMosaic.tile_size (fst s') = FluoView.FluoView3kMosaic.tile_size e
  /\ FluoView.FluoView3kMosaic.common_tile_size (fst s')
     = FluoView.FluoView3kMosaic.common_tile_size e
  /\ env_parsed (snd s') = env_parsed env.

(** ** Geometry *)

(** The coordinate [set_relpos] computes for one axis from the tile size,
    the overlap and the tile index, all as floats:
    [size * ((100.0 - overlap) / 100) * tileno]. *)
Definition axis_position (size : float) (ov : float) (tileno : float) : float :=
  fmul (fmul size (fdiv (fsub f100 ov) f100)) tileno.

(** ** Magnitudes of binary64 values

    [fits m e k]: the value [m * 2^e] is below [2^k].  [below k f]: the
    float [f] is a zero or a finite value of magnitude below [2^k];
    [within k j f] bounds its exponent by [j] as well. *)
Definition fits (m e k : Z) : Prop := e <= k /\ m < 2 ^ (k - e).

Definition within (k j : Z) (f : float) : Prop :=
  match f with
  | S754_zero _ => True
  | S754_finite _ m e => fits (Zpos m) e k /\ e <= j
  | _ => False
  end.

Definition below (k : Z) (f : float) : Prop :=
  match f with
  | S754_zero _ => True
  | S754_finite _ m e => fits (Zpos m) e k
  | _ => False
  end.

(** The attributes of an image dataset other than the cached dimensions
    and XML blocks. *)
Definition rest (d : ImageData) :=
  (base d, position_stage d, position_relative d, parser d, cls d).

(** A method body that changes no attribute but those two caches. *)
Definition keeps_rest {A} (m : M ImageData A) : Prop :=
  forall s, rest (fst (snd (m s))) = rest (fst s).

(** ** Tiles and mosaics of a [MATL_Mosaic.log] project *)

(** The sub-volume [add_mosaic] builds from an [ImageInfo] element: an
    existing image file of the class chosen by the file name, the stage
    position and the grid indices of the element, its running number
    under ['index'], and a relative position of two coordinates. *)
Definition tile_of (w : World) (img : FluoView.FluoViewMosaic.ImageInfo)
    (vol : ImageData) : Prop :=
  path_exists w (full (storage (base vol))) = true
  /\ (exists fname,
        FluoView.FluoViewMosaic.Filename img = Ok fname
        /\ ((last_chars 3 fname = "oif" /\ cls vol = ImageDataOIF)
            \/ (last_chars 3 fname = "oib" /\ cls vol = ImageDataOIB)))
  /\ (exists xp yp,
        FluoView.FluoViewMosaic.XPos img = Ok xp
        /\ FluoView.FluoViewMosaic.YPos img = Ok yp
        /\ position_stage vol = PTuple [PFloat xp; PFloat yp])
  /\ (exists xno yno no,
        FluoView.FluoViewMosaic.Xno img = Ok xno
        /\ FluoView.FluoViewMosaic.Yno img = Ok yno
        /\ FluoView.FluoViewMosaic.No img = Ok no
        /\ supplement (base vol)
           = <["index" := PInt no]>
               (<["tileno" := PTuple [PInt xno; PInt yno; PNone]]> ∅))
  /\ exists x y, position_relative vol = Some [x; y].

(** A mosaic with further sub-volumes appended. *)
Definition with_subvols (m : MosaicDataCuboid) (vols : list ImageData)
    : MosaicDataCuboid :=
  mkMosaic (m_base m) (subvol m ++ vols) (dim m) (overlap m) (overlap_units m).

(** ** Tiles and mosaics of a [matl.omp2info] project *)

(** The attributes of a [FluoView3kMosaic] object other than its
    datasets and the cached tile size. *)
Definition project_settings (e : FluoView.FluoView3kMosaic.t) :=
  (FluoView.FluoView3kMosaic.infile e, FluoView.FluoView3kMosaic.supplement e,
   FluoView.FluoView3kMosaic.common_tile_size e,
   FluoView.FluoView3kMosaic.mosaictrees e).

(** The sub-volume [parse_area] builds from a [matl:area] element: an
    existing [.oir] file, no stage position, the grid indices of the
    element, and a relative position of two coordinates. *)
Definition tile_of_area (w : World) (area : FluoView.FluoView3kMosaic.Area)
    (vol : ImageData) : Prop :=
  cls vol = ImageDataOIR
  /\ path_exists w (full (storage (base vol))) = true
  /\ position_stage vol = PTuple [PNone; PNone]
  /\ (exists fname gx gy,
        FluoView.FluoView3kMosaic.image area = Ok fname
        /\ FluoView.FluoView3kMosaic.xIndex area = Ok gx
        /\ FluoView.FluoView3kMosaic.yIndex area = Ok gy
        /\ supplement (base vol)
           = <["tileno" := PTuple [PInt gx; PInt gy; PNone]]> ∅)
  /\ exists x y, position_relative vol = Some [x; y].

(** A group [parse_mosaic] reads to the end: every field is there, the
    region is a rectangle or a polygon, and the group is enabled. *)
Definition group_accepted (tree : FluoView.FluoView3kMosaic.RoiGroup) : Prop :=
  (exists oid, FluoView.FluoView3kMosaic.objectId tree = Ok oid)
  /\ (FluoView.FluoView3kMosaic.regionInfo_type tree = Ok "marker:rectangleRegion"
      \/ FluoView.FluoView3kMosaic.regionInfo_type tree = Ok "marker:polygonRegion")
  /\ (FluoView.FluoView3kMosaic.regionInfo_shape tree = Ok "Rectangle"
      \/ FluoView.FluoView3kMosaic.regionInfo_shape tree = Ok "Polygon")
  /\ FluoView.FluoView3kMosaic.enable tree = Ok "true"
  /\ (exists gid, FluoView.FluoView3kMosaic.protocolGroupId tree = Ok gid)
  /\ (exists cx, FluoView.FluoView3kMosaic.numOfXAreas tree = Ok cx)
  /\ (exists cy, FluoView.FluoView3kMosaic.numOfYAreas tree = Ok cy)
  /\ (exists aw, FluoView.FluoView3kMosaic.areaWidth tree = Ok aw)
  /\ (exists ah, FluoView.FluoView3kMosaic.areaHeight tree = Ok ah).

(** The mosaic [parse_mosaic] builds from a group of the project [e]:
    one tile per area, in the order of the areas, the grid size of the
    group, the overlap of the stage in percent, the project file as
    storage, and the two identifiers of the group. *)
Definition mosaic_of_group (w : World) (e : FluoView.FluoView3kMosaic.t)
    (tree : FluoView.FluoView3kMosaic.RoiGroup) (m : MosaicDataCuboid) : Prop :=
  group_accepted tree
  /\ Forall2 (tile_of_area w) (FluoView.FluoView3kMosaic.areas tree) (subvol m)
  /\ overlap_units m = "pct"
  /\ FluoView.FluoView3kMosaic.supplement e !! "overlap" = Some (overlap m)
  /\ (exists cx cy,
        FluoView.FluoView3kMosaic.numOfXAreas tree = Ok cx
        /\ FluoView.FluoView3kMosaic.numOfYAreas tree = Ok cy
        /\ dim m = list_to_map [("X", cx); ("Y", cy); ("Z", 1)])
  /\ ds_type (m_base m) = "mosaic"
  /\ storage (m_base m)
     = with_type (parse_path w (orig (FluoView.FluoView3kMosaic.infile e))) "tree"
  /\ exists oid gid,
       FluoView.FluoView3kMosaic.objectId tree = Ok oid
       /\ FluoView.FluoView3kMosaic.protocolGroupId tree = Ok gid
       /\ supplement (m_base m) !! "oid" = Some (PStr oid)
       /\ supplement (m_base m) !! "gid" = Some (PStr gid).

(** [enumerate(l)], counting from [i]. *)
Fixpoint enumerate {A} (i : Z) (l : list A) : list (Z * A) :=
  match l with
  | [] => []
  | x :: l' => (i, x) :: enumerate (i + 1) l'
  end.

(** The groups [find_matrix_roi_groups] keeps. *)
Definition is_tiling_group (g : FluoView.FluoView3kMosaic.Group) : bool :=
  match FluoView.FluoView3kMosaic.xsi_type g with
  | Ok ty => String.eqb ty "matl:DefineMatrixROI" || String.eqb ty "matl:MosaicROI"
  | Raise _ => false
  end.

(** ** Lines of a tile configuration *)

(** The name a tile has in the configuration: its file name or, with a
    suffix, the file name up to its last dot followed by the suffix. *)
Definition config_name (suffix fname name : string) : Prop :=
  (suffix = "" /\ name = fname)
  \/ (suffix <> ""
      /\ exists i, ImageJ.rindex fname "." = Ok i
                   /\ name = String.append (slice_to fname i) suffix).

(** The coordinates of a tile as they are written for a stack and for a
    plane, between parentheses and with the line feed. *)
Definition coords_text (format_f : float -> string) (stack : bool)
    (coords : list float) : option string :=
  let close := String.append ")" ImageJ.nl in
  match coords, stack with
  | [x; y], false =>
      Some (String.append "(" (String.append (format_f x)
              (String.append ", " (String.append (format_f y) close))))
  | [x; y], true =>
      Some (String.append "(" (String.append (format_f x)
              (String.append ", " (String.append (format_f y)
                 (String.append ", 0.0" close)))))
  | [x; y; z], true =>
      Some (String.append "(" (String.append (format_f x)
              (String.append ", " (String.append (format_f y)
                 (String.append ", " (String.append (format_f z) close))))))
  | _, _ => None
  end.

(** The four lines in front of the tiles. *)
Definition config_header (version : string) (stack : bool) : list string :=
  [String.append "# Generated by micrometa.imagej ("
     (String.append version
        (String.append ")." (String.append ImageJ.nl (String.append "#" ImageJ.nl))));
   String.append "# Define the number of dimensions we are working on" ImageJ.nl;
   String.append (if stack then "dim = 3" else "dim = 2") ImageJ.nl;
   String.append "# Define the image coordinates (in pixels)" ImageJ.nl].

(** The line of a tile. *)
Definition config_line (format_f : float -> string) (stack : bool)
    (suffix : string) (tile : string * list float) (line : string) : Prop :=
  exists name text,
    config_name suffix (fst tile) name
    /\ coords_text format_f stack (snd tile) = Some text
    /\ line = String.append (String.append name "; ; ") text.

(** ** Call sequences *)

(** A sequence of [set_overlap(value, units)] calls on one mosaic; a call
    that raises is passed over, as a caller catching the error would. *)
Fixpoint set_overlaps (calls : list (pyval * string))
    (s : MosaicDataCuboid * Env) : MosaicDataCuboid * Env :=
  match calls with
  | [] => s
  | (value, units) :: calls' => set_overlaps calls' (snd (set_overlap value units s))
  end.

(* ===================================================================== *)
(** * Properties *)
(* ===================================================================== *)

Local Open Scope list_scope.

(** ** Running method bodies *)

Lemma bind_ok {O A B} (m : M O A) (k : A -> M O B) s a s' :
  m s = (Ok a, s') -> bind m k s = k a s'.
Proof. intros H. unfold bind. now rewrite H. Qed.

Lemma bind_raise {O A B} (m : M O A) (k : A -> M O B) s e s' :
  m s = (Raise e, s') -> bind m k s = (Raise e, s').
Proof. intros H. unfold bind. now rewrite H. Qed.

Lemma bind_inv_ok {O A B} (m : M O A) (k : A -> M O B) s b s'' :
  bind m k s = (Ok b, s'') ->
  exists a s', m s = (Ok a, s') /\ k a s' = (Ok b, s'').
Proof.
  unfold bind. destruct (m s) as [[a|e] s'] eqn:E; intros H.
  - eauto.
  - discriminate.
Qed.

(** ** [MosaicDataCuboid]: the overlap and its unit *)

Lemma str_in_pct units : str_in units ["pct"] = true -> units = "pct".
Proof.
  unfold str_in. simpl. rewrite orb_false_r. apply String.eqb_eq.
Qed.

Lemma if_app {A B} (c : bool) (f g : A -> B) (s : A) :
  (if c then f else g) s = if c then f s else g s.
Proof. now destruct c. Qed.

(** Unfold the monad operations and run the state through the
    conditionals. *)
Ltac munfold1 :=
  cbv beta iota delta
    [bind ret raise lift self set_self update log mark_parsed try_except call
     fst snd negb andb orb].

Ltac munfold := munfold1; repeat (rewrite !if_app; munfold1).

Ltac munfold_in H :=
  cbv beta iota delta
    [bind ret raise lift self set_self update log mark_parsed try_except call
     fst snd negb andb orb] in H.

Local Arguments String.eqb : simpl never.

Lemma get_overlap_ok_inv units m env v s :
  get_overlap units (m, env) = (Ok v, s) ->
  units = "pct" /\ overlap_units m = "pct" /\ v = overlap m /\ s = (m, env).
Proof.
  unfold get_overlap. destruct (str_in units ["pct"]) eqn:E; munfold.
  - apply str_in_pct in E. subst units.
    destruct (String.eqb "pct" (overlap_units m)) eqn:E2; munfold.
    + apply String.eqb_eq in E2. intros H. inversion H. subst. repeat split; congruence.
    + discriminate.
  - discriminate.
Qed.

Lemma get_overlap_raises units m env :
  units <> overlap_units m \/ units <> "pct" ->
  exists e, get_overlap units (m, env) = (Raise e, (m, env)).
Proof.
  intros H. unfold get_overlap.
  destruct (str_in units ["pct"]) eqn:E; munfold.
  - apply str_in_pct in E. subst units.
    destruct (String.eqb "pct" (overlap_units m)) eqn:E2; munfold.
    + apply String.eqb_eq in E2. destruct H; congruence.
    + eexists. reflexivity.
  - eexists. reflexivity.
Qed.

Lemma get_overlap_pct m env :
  overlap_units m = "pct" ->
  get_overlap "pct" (m, env) = (Ok (overlap m), (m, env)).
Proof.
  intros H. unfold get_overlap. change (str_in "pct" ["pct"]) with true.
  munfold. rewrite H. reflexivity.
Qed.

Lemma set_overlap_ok_inv value units m env m' env' :
  set_overlap value units (m, env) = (Ok tt, (m', env')) ->
  overlap m' = value /\ overlap_units m' = units /\
  str_in units ["px"; "pct"; "um"; "nm"; "mm"] = true.
Proof.
  unfold set_overlap. munfold.
  destruct (str_in units _); munfold; [|discriminate].
  destruct (String.eqb units "pct"), (le_5 value); munfold;
    intros H; inversion H; auto.
Qed.

Lemma set_overlap_raise_inv value units m env e s :
  set_overlap value units (m, env) = (Raise e, s) -> fst s = m.
Proof.
  unfold set_overlap. munfold.
  destruct (str_in units _); munfold.
  - destruct (String.eqb units "pct"), (le_5 value); munfold; discriminate.
  - intros H. inversion H. reflexivity.
Qed.

(** C8.  After [set_overlap(value, units)], [get_overlap(requested)] with
    a [requested] unit other than [units] raises and leaves the object
    as it is; with [requested = units = 'pct'] it returns [value]
    unchanged. *)
Theorem get_overlap_after_set_overlap value units requested m env m' env' :
  set_overlap value units (m, env) = (Ok tt, (m', env')) ->
  (requested <> units ->
     exists e, get_overlap requested (m', env') = (Raise e, (m', env')))
  /\ (requested = units -> units = "pct" ->
     get_overlap requested (m', env') = (Ok value, (m', env'))).
Proof.
  intros Hset. apply set_overlap_ok_inv in Hset as (Hv & Hu & _). split.
  - intros Hne. apply get_overlap_raises. left. congruence.
  - intros -> ->. rewrite get_overlap_pct by assumption. now rewrite Hv.
Qed.

Lemma get_overlap_after_set_overlap_witness :
  (exists e, get_overlap "um"
     (mkMosaic (m_base Demo.fresh_mosaic) [] (dim Demo.fresh_mosaic) (PInt 10) "pct",
      mkEnv [LogEntry DEBUG "Setting overlap to %s %s." [PInt 10; PStr "pct"]] [])
     = (Raise e,
        (mkMosaic (m_base Demo.fresh_mosaic) [] (dim Demo.fresh_mosaic) (PInt 10) "pct",
         mkEnv [LogEntry DEBUG "Setting overlap to %s %s." [PInt 10; PStr "pct"]] [])))
  /\ get_overlap "pct"
     (mkMosaic (m_base Demo.fresh_mosaic) [] (dim Demo.fresh_mosaic) (PInt 10) "pct",
      mkEnv [LogEntry DEBUG "Setting overlap to %s %s." [PInt 10; PStr "pct"]] [])
     = (Ok (PInt 10),
        (mkMosaic (m_base Demo.fresh_mosaic) [] (dim Demo.fresh_mosaic) (PInt 10) "pct",
         mkEnv [LogEntry DEBUG "Setting overlap to %s %s." [PInt 10; PStr "pct"]] [])).
Proof.
  assert (Hset : set_overlap (PInt 10) "pct" (Demo.fresh_mosaic, env0)
    = (Ok tt, (mkMosaic (m_base Demo.fresh_mosaic) [] (dim Demo.fresh_mosaic) (PInt 10) "pct",
         mkEnv [LogEntry DEBUG "Setting overlap to %s %s." [PInt 10; PStr "pct"]] [])))
    by reflexivity.
  destruct (get_overlap_after_set_overlap _ _ "um" _ _ _ _ Hset) as [H1 _].
  destruct (get_overlap_after_set_overlap _ _ "pct" _ _ _ _ Hset) as [_ H2].
  split.
  - apply H1. discriminate.
  - apply H2; reflexivity.
Defined.

Lemma DataSet_init_inv {O} w ds_type0 st_type0 st_path (s s' : O * Env) b :
  DataSet_init w ds_type0 st_type0 st_path s = (Ok b, s') ->
  ds_type b = ds_type0 /\ supplement b = ∅ /\ fst s' = fst s.
Proof.
  unfold DataSet_init. munfold.
  destruct (str_in ds_type0 _); munfold; [|discriminate].
  destruct (str_in st_type0 _); munfold; [|discriminate].
  destruct (String.eqb st_type0 "single"); munfold.
  - destruct (String.eqb _ ""); munfold; [discriminate|].
    intros H. inversion H. subst. destruct s. auto.
  - intros H. inversion H. subst. destruct s. auto.
Qed.

Lemma MosaicDataCuboid_init_inv {O} w st_type0 st_path dim0 (s s' : O * Env) m :
  MosaicDataCuboid_init w st_type0 st_path dim0 s = (Ok m, s') ->
  overlap m = PInt 0 /\ overlap_units m = "px" /\ subvol m = [] /\ fst s' = fst s.
Proof.
  unfold MosaicDataCuboid_init, MosaicData_init. intros H.
  apply bind_inv_ok in H as (m0 & s0 & H0 & H).
  apply bind_inv_ok in H0 as (b & s1 & Hb & H0).
  apply DataSet_init_inv in Hb as (_ & _ & Hs1).
  destruct dim0 as [[d0 d1] d2]. munfold.
  inversion H0. subst. inversion H. subst. cbn. auto.
Qed.

Lemma set_overlaps_origin calls : forall m env units v st,
  get_overlap units (set_overlaps calls (m, env)) = (Ok v, st) ->
  (overlap_units m = "pct" /\ v = overlap m)
  \/ exists pre post, calls = pre ++ (v, "pct") :: post.
Proof.
  induction calls as [|[v0 u0] calls IH]; intros m env units v st H.
  - cbn in H. apply get_overlap_ok_inv in H. left. tauto.
  - cbn [set_overlaps] in H.
    destruct (set_overlap v0 u0 (m, env)) as [[[]|e] [m' env']] eqn:E;
      cbn [snd] in H; apply IH in H.
    + apply set_overlap_ok_inv in E as (Hv & Hu & _).
      destruct H as [[H1 H2]|(pre & post & ->)].
      * right. exists [], calls. cbn. congruence.
      * right. exists ((v0, u0) :: pre), post. reflexivity.
    + apply set_overlap_raise_inv in E. cbn in E. subst m'.
      destruct H as [H|(pre & post & ->)]; [now left|].
      right. exists ((v0, u0) :: pre), post. reflexivity.
Qed.

(** C10.  A [MosaicDataCuboid] as its constructor returns it holds
    overlap [0] in unit ['px']; [get_overlap()] with the default unit
    raises [NotImplementedError], every other unit raises as well, and
    after any sequence of [set_overlap] calls a successful [get_overlap]
    returns a value that one of the calls set with unit ['pct']. *)
Theorem get_overlap_before_set_overlap {O} w st_type0 st_path dim0
    (s s' : O * Env) m :
  MosaicDataCuboid_init w st_type0 st_path dim0 s = (Ok m, s') ->
  (overlap m = PInt 0 /\ overlap_units m = "px")
  /\ (forall env,
        get_overlap "pct" (m, env) = (Raise NotImplementedError, (m, env)))
  /\ (forall units env,
        exists e, get_overlap units (m, env) = (Raise e, (m, env)))
  /\ (forall calls units env v st,
        get_overlap units (set_overlaps calls (m, env)) = (Ok v, st) ->
        units = "pct" /\ exists pre post, calls = pre ++ (v, "pct") :: post).
Proof.
  intros H. apply MosaicDataCuboid_init_inv in H as (Hov & Hu & _ & _).
  repeat split; try assumption.
  - intros env. unfold get_overlap. change (str_in "pct" ["pct"]) with true.
    munfold. rewrite Hu. reflexivity.
  - intros units env. apply get_overlap_raises.
    destruct (String.eqb_spec units "pct"); [left|right]; congruence.
  - destruct (set_overlaps calls (m, env)) as [m1 env1].
    apply get_overlap_ok_inv in H. tauto.
  - apply set_overlaps_origin in H as [[H _]|H]; [congruence|assumption].
Qed.

Lemma get_overlap_before_set_overlap_witness :
  get_overlap "pct" (Demo.fresh_mosaic, env0)
  = (Raise NotImplementedError, (Demo.fresh_mosaic, env0)).
Proof.
  assert (H : MosaicDataCuboid_init (Demo.world []) "tree"
                "/data/MATL_Mosaic.log" (2, 2, 1) (tt, env0)
              = (Ok Demo.fresh_mosaic,
                 (tt, mkEnv [LogEntry DEBUG "Creating a 'Dataset' object." [];
                             LogEntry INFO "Mosaic: %ix%ix%i" [PInt 2; PInt 2; PInt 1]] [])))
    by (vm_compute; reflexivity).
  exact (proj1 (proj2 (get_overlap_before_set_overlap _ _ _ _ _ _ _ H)) env0).
Defined.

(** ** Inversion of method bodies *)

Lemma bind_inv {O A B} (m : M O A) (k : A -> M O B) s r s' :
  bind m k s = (r, s') ->
  (exists e, m s = (Raise e, s') /\ r = Raise e)
  \/ (exists a s1, m s = (Ok a, s1) /\ k a s1 = (r, s')).
Proof.
  unfold bind. destruct (m s) as [[a|e] s1]; intros H.
  - right. eauto.
  - left. inversion H. subst. eauto.
Qed.

(** Case analysis on the innermost scrutinee of the goal. *)
Ltac break_match :=
  match goal with
  | |- context [match ?x with _ => _ end] =>
      lazymatch x with
      | context [match _ with _ => _ end] => fail
      | _ => destruct x eqn:?
      end
  end.

Ltac inv_pair :=
  repeat match goal with
         | H : (_, _) = (_, _) |- _ => inversion H; clear H; subst
         end.

(** Run a loop-free method body on all its paths. *)
Ltac run_paths :=
  munfold1; repeat (break_match; munfold1); intros; inv_pair.

(** ** Outcomes of method bodies

    [wp m s Q]: running [m] from state [s] ends in an outcome and a state
    related by [Q]. *)
Definition wp {O A} (m : M O A) (s : O * Env) (Q : res A -> O * Env -> Prop) : Prop :=
  Q (fst (m s)) (snd (m s)).

Lemma wp_elim {O A} (m : M O A) s Q r s' :
  wp m s Q -> m s = (r, s') -> Q r s'.
Proof. unfold wp. intros H E. now rewrite E in H. Qed.

Lemma wp_exists {O A} (m : M O A) s Q :
  wp m s Q -> exists r s', m s = (r, s') /\ Q r s'.
Proof. unfold wp. intros H. exists (fst (m s)), (snd (m s)). now destruct (m s). Qed.

Lemma wp_eq {O A} (m m' : M O A) s Q :
  m s = m' s -> wp m' s Q -> wp m s Q.
Proof. unfold wp. now intros ->. Qed.

Lemma wp_val {O A} (m : M O A) s (Q : res A -> O * Env -> Prop) r s' :
  m s = (r, s') -> Q r s' -> wp m s Q.
Proof. unfold wp. now intros ->. Qed.

Lemma wp_intro {O A} (m : M O A) s (Q : res A -> O * Env -> Prop) :
  (forall r s', m s = (r, s') -> Q r s') -> wp m s Q.
Proof. unfold wp. intros H. apply H. now destruct (m s). Qed.

Lemma wp_conseq {O A} (m : M O A) s (Q Q' : res A -> O * Env -> Prop) :
  wp m s Q -> (forall r s', Q r s' -> Q' r s') -> wp m s Q'.
Proof. unfold wp. auto. Qed.

Lemma wp_ret {O A} (a : A) (s : O * Env) Q : Q (Ok a) s -> wp (ret a) s Q.
Proof. auto. Qed.

Lemma wp_raise {O A} e (s : O * Env) (Q : res A -> O * Env -> Prop) :
  Q (Raise e) s -> wp (raise e) s Q.
Proof. auto. Qed.

Lemma wp_lift {O A} (r : res A) (s : O * Env) Q : Q r s -> wp (lift r) s Q.
Proof. auto. Qed.

Lemma wp_self {O} (s : O * Env) Q : Q (Ok (fst s)) s -> wp self s Q.
Proof. auto. Qed.

Lemma wp_update {O} (f : O -> O) (s : O * Env) Q :
  Q (Ok tt) (f (fst s), snd s) -> wp (update f) s Q.
Proof. auto. Qed.

Lemma wp_log {O} l fmt args (s : O * Env) Q :
  Q (Ok tt) (fst s, mkEnv (env_log (snd s) ++ [LogEntry l fmt args]) (env_parsed (snd s))) ->
  wp (log l fmt args) s Q.
Proof. auto. Qed.

Lemma wp_mark_parsed {O} p (s : O * Env) Q :
  Q (Ok tt) (fst s, mkEnv (env_log (snd s)) (env_parsed (snd s) ++ [p])) ->
  wp (mark_parsed p) s Q.
Proof. auto. Qed.

Lemma wp_bind {O A B} (m : M O A) (k : A -> M O B) s Q :
  wp m s (fun r s' => match r with
                      | Ok a => wp (k a) s' Q
                      | Raise e => Q (Raise e) s'
                      end) ->
  wp (bind m k) s Q.
Proof. unfold wp, bind. destruct (m s) as [[a|e] s']; auto. Qed.

Lemma wp_try_except {O A} (body : M O A) (catches : exn -> bool)
    (handler : exn -> M O A) s Q :
  wp body s (fun r s' => match r with
                         | Ok a => Q (Ok a) s'
                         | Raise e => if catches e then wp (handler e) s' Q
                                      else Q (Raise e) s'
                         end) ->
  wp (try_except body catches handler) s Q.
Proof.
  unfold wp, try_except. destruct (body s) as [[a|e] s']; cbn; auto.
  destruct (catches e); auto.
Qed.

Lemma wp_call {O P A} (o : P) (m : M P A) (s : O * Env) Q :
  wp m (o, snd s) (fun r s' => match r with
                               | Ok a => Q (Ok (a, fst s')) (fst s, snd s')
                               | Raise e => Q (Raise e) (fst s, snd s')
                               end) ->
  wp (call o m) s Q.
Proof.
  unfold wp, call. destruct (m (o, snd s)) as [[a|e] [o' env']]; auto.
Qed.

Global Opaque wp.

(** Projections of updated records and pairs. *)
Ltac fsimp :=
  cbn [negb andb orb fst snd base _dim position_stage position_relative parser _xml cls
       set_base set_dim set_stage set_relative set_parser set_xml set_storage
       set_supplement ds_type storage supplement env_log env_parsed
       m_base subvol dim overlap overlap_units].

Ltac fsimp_in H :=
  cbn [negb andb orb fst snd base _dim position_stage position_relative parser _xml cls
       set_base set_dim set_stage set_relative set_parser set_xml set_storage
       set_supplement ds_type storage supplement env_log env_parsed
       m_base subvol dim overlap overlap_units] in H.

(** One step of symbolic execution. *)
Ltac wp_step :=
  cbv beta iota; fsimp;
  lazymatch goal with
  | |- wp (bind _ _) _ _ => apply wp_bind
  | |- wp (ret _) _ _ => apply wp_ret
  | |- wp (raise _) _ _ => apply wp_raise
  | |- wp (lift ?r) _ _ => apply wp_lift
  | |- wp self _ _ => apply wp_self
  | |- wp (update _) _ _ => apply wp_update
  | |- wp (log _ _ _) _ _ => apply wp_log
  | |- wp (mark_parsed _) _ _ => apply wp_mark_parsed
  | |- wp (try_except _ _ _) _ _ => apply wp_try_except
  | |- wp (call _ _) _ _ => apply wp_call
  | |- wp (match ?x with _ => _ end) _ _ => destruct x eqn:?
  | |- match ?x with _ => _ end => destruct x eqn:?
  end.

Ltac wp_run := repeat wp_step; cbv beta.

(** Continue with the proved outcome of a called method. *)
Ltac wp_use lem := eapply wp_conseq; [apply lem|]; cbv beta; intros ? ?.

(** ** [get_dimensions]: lazy parsing with a cache *)

Section DimensionsCache.

Variable w : World.

Lemma get_dimensions_cached d env dims :
  _dim d = Some dims ->
  get_dimensions w (d, env) = (Ok (Some dims), (d, env)).
Proof.
  intros H. unfold get_dimensions. munfold. rewrite H. munfold.
  rewrite H. reflexivity.
Qed.

Lemma _parse_dimensions_Olympus_ok s :
  wp _parse_dimensions_Olympus s (fun r s' =>
    r = Ok tt ->
    (exists dims, _dim (fst s') = Some dims)
    /\ env_parsed (snd s') = env_parsed (snd s) ++ [full (storage (base (fst s)))]).
Proof.
  unfold _parse_dimensions_Olympus. wp_run; try discriminate.
  all: cbn; eauto.
Qed.

Lemma _get_xml_sections_spec min_len s :
  wp (_get_xml_sections w min_len) s (fun r s' => s' = s).
Proof.
  unfold _get_xml_sections. wp_run; now destruct s.
Qed.

Lemma xml_spec s :
  wp (xml w) s (fun r s' =>
    base (fst s') = base (fst s) /\ _dim (fst s') = _dim (fst s)
    /\ env_parsed (snd s') = env_parsed (snd s)).
Proof.
  unfold xml. wp_run.
  all: try (eapply wp_conseq; [apply _get_xml_sections_spec|]; intros r s' ->; wp_run).
  all: fsimp; auto.
Qed.

Lemma _parse_frameprops_spec fp s :
  wp (_parse_frameprops w fp) s (fun r s' =>
    base (fst s') = base (fst s)
    /\ env_parsed (snd s') = env_parsed (snd s)
    /\ (r = Ok tt ->
        exists m x y b,
          _dim (fst s) = Some m
          /\ _dim (fst s') = Some (<["B" := b]> (<["Y" := y]> (<["X" := x]> m)))
          /\ frameprops w fp = Ok (Ok x, Ok y, Ok b))).
Proof.
  unfold _parse_frameprops, dim_setitem. wp_run.
  all: fsimp; repeat split; auto; try discriminate.
  intros _. repeat match goal with H : Some _ = Some _ |- _ => inversion H; clear H; subst end.
  eauto 10.
Qed.

Lemma _parse_imageprops_spec ip s :
  wp (_parse_imageprops w ip) s (fun r s' =>
    base (fst s') = base (fst s)
    /\ env_parsed (snd s') = env_parsed (snd s)
    /\ (r = Ok tt ->
        exists m z,
          _dim (fst s) = Some m /\ _dim (fst s') = Some (<["Z" := z]> m))).
Proof.
  unfold _parse_imageprops, dim_setitem. wp_run.
  all: fsimp; repeat split; auto; try discriminate.
  eauto.
Qed.

Lemma _parse_dimensions_OIR_spec s :
  wp (_parse_dimensions_OIR w) s (fun r s' =>
    base (fst s') = base (fst s)
    /\ env_parsed (snd s') = env_parsed (snd s) ++ [full (storage (base (fst s)))]
    /\ (r = Ok tt ->
        exists dims x y fp b,
          _dim (fst s') = Some dims
          /\ dims !! "X" = Some x /\ dims !! "Y" = Some y
          /\ frameprops w fp = Ok (Ok x, Ok y, b))).
Proof.
  unfold _parse_dimensions_OIR. wp_run.
  wp_use xml_spec. intros (Hb1 & Hd1 & He1). fsimp_in Hb1. fsimp_in Hd1. fsimp_in He1.
  wp_run; try solve [fsimp; repeat split; auto; congruence].
  wp_use _parse_frameprops_spec; intros (Hb2 & He2 & Hd2).
  wp_run; try solve [fsimp; repeat split; auto; congruence].
  wp_use xml_spec; intros (Hb3 & Hd3 & He3).
  wp_run; try solve [fsimp; repeat split; auto; congruence].
  wp_use _parse_imageprops_spec; intros (Hb4 & He4 & Hd4).
  wp_run; try solve [fsimp; repeat split; auto; congruence].
  fsimp.
  repeat split; try congruence. intros _.
  destruct Hd2 as (m & x & y & b & Hm & Hm' & Hfp);
    [match goal with |- Ok ?a = _ => now destruct a end|].
  destruct Hd4 as (m2 & z & Hm2 & Hm2');
    [match goal with |- Ok ?a = _ => now destruct a end|].
  match type of Hfp with frameprops _ ?fp = _ =>
    exists (<["Z" := z]> m2), x, y, fp, (Ok b) end.
  rewrite Hd3, Hm' in Hm2. inversion Hm2. subst m2.
  repeat split; auto.
  - rewrite lookup_insert_ne by done. rewrite lookup_insert_ne by done.
    rewrite lookup_insert_ne by done. apply lookup_insert_eq.
  - rewrite lookup_insert_ne by done. rewrite lookup_insert_ne by done.
    apply lookup_insert_eq.
Qed.

Lemma _parse_dimensions_spec s :
  wp (_parse_dimensions w) s (fun r s' =>
    r = Ok tt ->
    (exists dims, _dim (fst s') = Some dims)
    /\ env_parsed (snd s') = env_parsed (snd s) ++ [full (storage (base (fst s)))]).
Proof.
  unfold _parse_dimensions. wp_run.
  - apply _parse_dimensions_Olympus_ok.
  - apply _parse_dimensions_Olympus_ok.
  - wp_use _parse_dimensions_OIR_spec. intros (_ & He & Hd) Hr. split; [|assumption].
    destruct (Hd Hr) as (dims & _ & _ & _ & _ & H & _). eauto.
Qed.

Lemma get_dimensions_spec s :
  wp (get_dimensions w) s (fun r s' =>
    forall v, r = Ok v ->
      (exists dims, v = Some dims /\ _dim (fst s') = Some dims)
      /\ (_dim (fst s) = None ->
          env_parsed (snd s') = env_parsed (snd s) ++ [full (storage (base (fst s)))])
      /\ (forall dims, _dim (fst s) = Some dims -> s' = s)).
Proof.
  unfold get_dimensions. wp_run.
  - intros v Hv. inversion Hv. subst v. destruct s as [d env]. fsimp.
    match goal with H : _dim _ = Some _ |- _ => fsimp_in H; rewrite H end.
    repeat split; eauto. congruence.
  - wp_use _parse_dimensions_spec. intros Hp. wp_run; try discriminate.
    intros v Hv. inversion Hv. subst v.
    destruct Hp as ((dims & Hd) & He);
      [match goal with |- Ok ?a = _ => now destruct a end|].
    repeat split; eauto. intros dims' Hd'. congruence.
Qed.

End DimensionsCache.

(** ** [_parse_dimensions] of the text and compound-container formats *)

Section OlympusDimensions.

Variable w : World.

Lemma In_app_mid {A} (x : A) l1 l2 : In x (l1 ++ x :: l2).
Proof. apply in_or_app. right. now left. Qed.

(** C7.  With all nine fields present and the bit depth, height and
    width numeric, [_parse_dimensions] of an [.oif]/[.oib] image succeeds
    whatever the three axis names are: an axis whose name is not the
    quoted sentinel gets size 0 and a warning, whatever its size field
    holds; an axis with the right name gets its size as parsed; bit
    depth, X and Y are as parsed. *)
Theorem _parse_dimensions_axis_mismatch d env p vb vh vw vz az vc ac vt at_ b x y z c t :
  cls d = ImageDataOIF \/ cls d = ImageDataOIB ->
  parser d = Some p ->
  parser_get p "Reference Image Parameter" "ValidBitCounts" = Ok vb ->
  parser_get p "Reference Image Parameter" "ImageHeight" = Ok vh ->
  parser_get p "Reference Image Parameter" "ImageWidth" = Ok vw ->
  parser_get p "Axis 3 Parameters Common" "MaxSize" = Ok vz ->
  parser_get p "Axis 3 Parameters Common" "AxisName" = Ok az ->
  parser_get p "Axis 2 Parameters Common" "MaxSize" = Ok vc ->
  parser_get p "Axis 2 Parameters Common" "AxisName" = Ok ac ->
  parser_get p "Axis 4 Parameters Common" "MaxSize" = Ok vt ->
  parser_get p "Axis 4 Parameters Common" "AxisName" = Ok at_ ->
  int_of_str vb = Ok b -> int_of_str vh = Ok x -> int_of_str vw = Ok y ->
  (az = quoted "Z" -> int_of_str vz = Ok z) -> (az <> quoted "Z" -> z = 0) ->
  (ac = quoted "Ch" -> int_of_str vc = Ok c) -> (ac <> quoted "Ch" -> c = 0) ->
  (at_ = quoted "T" -> int_of_str vt = Ok t) -> (at_ <> quoted "T" -> t = 0) ->
  exists env',
    _parse_dimensions w (d, env)
    = (Ok tt,
       (set_dim (Some (list_to_map
          [("B", b); ("C", c); ("T", t); ("X", x); ("Y", y); ("Z", z)])) d, env'))
    /\ (az <> quoted "Z" ->
        In (LogEntry WARN "WARNING: couldn't find Z axis in metadata!" []) (env_log env'))
    /\ (ac <> quoted "Ch" ->
        In (LogEntry WARN "WARNING: couldn't find channels in metadata!" []) (env_log env'))
    /\ (at_ <> quoted "T" ->
        In (LogEntry WARN "WARNING: couldn't find timepoints in metadata!" []) (env_log env')).
Proof.
  intros Hcls Hp Hvb Hvh Hvw Hvz Haz Hvc Hac Hvt Hat Hb Hx Hy Hz1 Hz0 Hc1 Hc0 Ht1 Ht0.
  assert (H : wp (_parse_dimensions w) (d, env) (fun r s' =>
    r = Ok tt
    /\ fst s' = set_dim (Some (list_to_map
         [("B", b); ("C", c); ("T", t); ("X", x); ("Y", y); ("Z", z)])) d
    /\ (az <> quoted "Z" ->
        In (LogEntry WARN "WARNING: couldn't find Z axis in metadata!" []) (env_log (snd s')))
    /\ (ac <> quoted "Ch" ->
        In (LogEntry WARN "WARNING: couldn't find channels in metadata!" []) (env_log (snd s')))
    /\ (at_ <> quoted "T" ->
        In (LogEntry WARN "WARNING: couldn't find timepoints in metadata!" []) (env_log (snd s'))))).
  { assert (Hbody : _parse_dimensions w (d, env) = _parse_dimensions_Olympus (d, env)).
    { unfold _parse_dimensions. munfold1. now destruct Hcls as [-> | ->]. }
    apply (wp_eq _ _ _ _ Hbody).
    unfold _parse_dimensions_Olympus, py_int.
    repeat (cbv beta iota zeta;
            lazymatch goal with
            | |- wp (match parser d with _ => _ end) _ _ => rewrite Hp
            | |- wp (lift (parser_get _ ?sec ?opt)) _ _ =>
                match goal with
                | H : parser_get _ sec opt = _ |- _ => rewrite H
                end; wp_step
            | |- wp (lift (int_of_str ?v)) _ _ =>
                match goal with
                | H : int_of_str v = _ |- _ => rewrite H
                | H : _ -> int_of_str v = _ |- _ => rewrite H by assumption
                end; wp_step
            | |- wp (if negb (String.eqb ?a ?q) then _ else _) _ _ =>
                destruct (String.eqb_spec a q)
            | _ => wp_step
            end).
    all: repeat match goal with
                | H : ?a <> _, H0 : ?a <> _ -> ?v = 0 |- _ =>
                    pose proof (H0 H); subst v; clear H0
                end.
    all: fsimp.
    all: split; [reflexivity|].
    all: split; [reflexivity|].
    all: repeat split; intros Hne; try contradiction.
    all: repeat (apply in_or_app; first [right; left; reflexivity | left]). }
  apply wp_exists in H as (r & [d' env'] & E & -> & Hd & Hlog).
  cbn [fst snd] in Hd, Hlog. subst d'. eauto.
Qed.

End OlympusDimensions.

Lemma _parse_dimensions_axis_mismatch_witness :
  exists env',
    _parse_dimensions (Demo.world []) (Demo.oif_image, env0)
    = (Ok tt, (set_dim (Some Demo.oif_dims) Demo.oif_image, env'))
    /\ In (LogEntry WARN "WARNING: couldn't find timepoints in metadata!" [])
          (env_log env').
Proof.
  assert (Hne : quoted "X" <> quoted "T") by discriminate.
  destruct (_parse_dimensions_axis_mismatch (Demo.world []) Demo.oif_image env0
              Demo.table "12" "512" "512" "30" (quoted "Z") "2" (quoted "Ch")
              "none" (quoted "X") 12 512 512 30 2 0)
    as (env' & E & _ & _ & Ht).
  - left. reflexivity.
  - reflexivity.
  - vm_compute. reflexivity.
  - vm_compute. reflexivity.
  - vm_compute. reflexivity.
  - vm_compute. reflexivity.
  - vm_compute. reflexivity.
  - vm_compute. reflexivity.
  - vm_compute. reflexivity.
  - vm_compute. reflexivity.
  - vm_compute. reflexivity.
  - vm_compute. reflexivity.
  - vm_compute. reflexivity.
  - vm_compute. reflexivity.
  - intros _. vm_compute. reflexivity.
  - intros H. exfalso. apply H. reflexivity.
  - intros _. vm_compute. reflexivity.
  - intros H. exfalso. apply H. reflexivity.
  - intros H. exfalso. apply Hne. exact H.
  - intros _. reflexivity.
  - exists env'. split; [exact E|]. apply Ht. exact Hne.
Defined.

(** ** The range of binary64 results *)

Section Binary64Range.

Lemma digits2_pos_size p : digits2_pos p = Pos.size p.
Proof. induction p; cbn; congruence. Qed.

Lemma Zdigits2_nonneg m : 0 <= Zdigits2 m.
Proof. destruct m; cbn; lia. Qed.

Lemma Zdigits2_gt m : 0 <= m -> m < 2 ^ Zdigits2 m.
Proof.
  destruct m as [|p|p]; cbn [Zdigits2]; intros H; [reflexivity| |lia].
  rewrite digits2_pos_size. pose proof (Pos.size_gt p) as G.
  apply Pos2Z.pos_lt_pos in G. now rewrite Pos2Z.inj_pow in G.
Qed.

Lemma Zdigits2_bound m k : 0 <= m -> 0 <= k -> m < 2 ^ k -> Zdigits2 m <= k.
Proof.
  destruct m as [|p|p]; cbn [Zdigits2]; intros H Hk Hm; [assumption| |lia].
  rewrite digits2_pos_size. pose proof (Pos.size_le p) as G.
  apply Pos2Z.pos_le_pos in G. rewrite Pos2Z.inj_pow in G.
  assert (L : 2 ^ Z.pos (Pos.size p) < 2 ^ (k + 1)).
  { rewrite Z.pow_add_r by lia. change (Z.pos p~0) with (2 * Z.pos p) in G. lia. }
  apply Z.pow_lt_mono_r_iff in L; lia.
Qed.

Lemma fits_digits m e k : 0 <= m -> fits m e k -> Zdigits2 m + e <= k.
Proof.
  intros Hm [He Hlt]. pose proof (Zdigits2_bound m (k - e) Hm). lia.
Qed.

Lemma fits_mono m e k k' : fits m e k -> k <= k' -> fits m e k'.
Proof.
  intros [He Hlt] Hk. split; [lia|].
  eapply Z.lt_le_trans; [exact Hlt|]. apply Z.pow_le_mono_r; lia.
Qed.

Lemma fits_shift m m' e n k :
  0 <= m' -> 0 <= n -> 2 ^ n * m' <= m -> fits m e k -> e + n <= k ->
  fits m' (e + n) k.
Proof.
  intros Hm' Hn Hle [He Hlt] Hen. split; [assumption|].
  replace (k - e) with (n + (k - (e + n))) in Hlt by lia.
  rewrite Z.pow_add_r in Hlt by lia.
  assert (P : 0 < 2 ^ n) by (apply Z.pow_pos_nonneg; lia).
  nia.
Qed.

Lemma fits_succ m e k : 0 <= m -> fits m e k -> fits (m + 1) e (k + 1).
Proof.
  intros Hm [He Hlt]. split; [lia|].
  replace (k + 1 - e) with (1 + (k - e)) by lia.
  rewrite Z.pow_add_r by lia. change (2 ^ 1) with 2. lia.
Qed.

Lemma fexp_eq x : fexp prec emax x = Z.max (x - 53) (-1074).
Proof. reflexivity. Qed.

Lemma shr_1_m mrs :
  0 <= shr_m mrs ->
  0 <= shr_m (shr_1 mrs) /\ 2 * shr_m (shr_1 mrs) <= shr_m mrs.
Proof. destruct mrs as [m r s]. destruct m as [|[p|p|]|p]; cbn; lia. Qed.

Lemma iter_shr_1_m p : forall mrs,
  0 <= shr_m mrs ->
  0 <= shr_m (SpecFloat.iter_pos shr_1 p mrs)
  /\ 2 ^ Zpos p * shr_m (SpecFloat.iter_pos shr_1 p mrs) <= shr_m mrs.
Proof.
  induction p as [p IH|p IH|]; intros mrs H; cbn [SpecFloat.iter_pos].
  - destruct (shr_1_m mrs H) as [H1 L1].
    destruct (IH _ H1) as [H2 L2]. destruct (IH _ H2) as [H3 L3].
    split; [assumption|].
    rewrite Pos2Z.inj_xI.
    replace (2 * Z.pos p + 1) with (Z.pos p + Z.pos p + 1) by lia.
    rewrite !Z.pow_add_r by lia. change (2 ^ 1) with 2.
    assert (P : 0 < 2 ^ Z.pos p) by (apply Z.pow_pos_nonneg; lia). nia.
  - destruct (IH _ H) as [H2 L2]. destruct (IH _ H2) as [H3 L3].
    split; [assumption|].
    replace (2 ^ Z.pos p~0) with (2 ^ Z.pos p * 2 ^ Z.pos p)
      by (rewrite <- Z.pow_add_r by lia; f_equal; lia).
    assert (P : 0 < 2 ^ Z.pos p) by (apply Z.pow_pos_nonneg; lia). nia.
  - destruct (shr_1_m mrs H) as [H1 L1]. split; [assumption|].
    change (2 ^ 1) with 2. lia.
Qed.

Lemma shr_m_of_loc m l : shr_m (shr_record_of_loc m l) = m.
Proof. destruct l as [|[]]; reflexivity. Qed.

Lemma shr_fexp_spec m e l mrs' e' :
  0 <= m -> shr_fexp prec emax m e l = (mrs', e') ->
  0 <= shr_m mrs'
  /\ e' = Z.max e (fexp prec emax (Zdigits2 m + e))
  /\ 2 ^ (e' - e) * shr_m mrs' <= m.
Proof.
  intros Hm. unfold shr_fexp, shr.
  destruct (fexp prec emax (Zdigits2 m + e) - e) as [|p|p] eqn:E;
    intros [= <- <-].
  - rewrite shr_m_of_loc, Z.sub_diag, Z.pow_0_r. repeat split; lia.
  - destruct (iter_shr_1_m p (shr_record_of_loc m l)) as [H1 L1];
      [now rewrite shr_m_of_loc|].
    rewrite shr_m_of_loc in L1.
    replace (e + Z.pos p - e) with (Z.pos p) by lia.
    repeat split; [assumption|lia|assumption].
  - rewrite shr_m_of_loc, Z.sub_diag, Z.pow_0_r. repeat split; lia.
Qed.

Lemma round_nearest_even_bound m l :
  0 <= m -> m <= round_nearest_even m l <= m + 1.
Proof.
  intros H. unfold round_nearest_even.
  destruct l as [|[]]; try destruct (Z.even m); lia.
Qed.

Lemma binary_round_aux_within sx m e l k :
  0 <= m -> fits m e k -> -1074 <= k -> k + 1 <= 1024 -> e <= 971 ->
  within (k + 1) (Z.max e (Z.max (k - 52) (-1074)))
    (binary_round_aux prec emax sx m e l).
Proof.
  intros Hm Hfit Hk Hk' He. unfold binary_round_aux.
  destruct (shr_fexp prec emax m e l) as [mrs1 e1] eqn:E1.
  apply shr_fexp_spec in E1 as (H1 & -> & L1); [|assumption].
  pose proof (fits_digits m e k Hm Hfit) as D. pose proof Hfit as [Hek _].
  rewrite fexp_eq in *.
  set (e1 := Z.max e (Z.max (Zdigits2 m + e - 53) (-1074))) in *.
  assert (F1 : fits (shr_m mrs1) e1 k).
  { replace e1 with (e + (e1 - e)) by lia.
    apply fits_shift with (m := m); try assumption; unfold e1; lia. }
  pose proof (round_nearest_even_bound (shr_m mrs1) (loc_of_shr_record mrs1) H1) as R.
  set (m2 := round_nearest_even (shr_m mrs1) (loc_of_shr_record mrs1)) in *.
  assert (F2 : fits m2 e1 (k + 1)).
  { pose proof (fits_succ _ _ _ H1 F1) as [A B]. split; [lia|lia]. }
  destruct (shr_fexp prec emax m2 e1 loc_Exact) as [mrs3 e3] eqn:E3.
  apply shr_fexp_spec in E3 as (H3 & -> & L3); [|lia].
  assert (Hm2 : 0 <= m2) by lia.
  pose proof (fits_digits m2 e1 (k + 1) Hm2 F2) as D2.
  rewrite fexp_eq in *.
  set (e3 := Z.max e1 (Z.max (Zdigits2 m2 + e1 - 53) (-1074))) in *.
  assert (F3 : fits (shr_m mrs3) e3 (k + 1)).
  { replace e3 with (e1 + (e3 - e1)) by lia.
    apply fits_shift with (m := m2); try assumption; unfold e3, e1; lia. }
  destruct (shr_m mrs3) as [|p|p] eqn:E; [exact I| |lia].
  assert (B : e3 <= Z.max e (Z.max (k - 52) (-1074))) by (unfold e3, e1; lia).
  replace (e3 <=? emax - prec) with true
    by (symmetry; apply Z.leb_le; change (emax - prec) with 971; lia).
  split; assumption.
Qed.

Lemma within_mono k j k' j' f :
  within k j f -> k <= k' -> j <= j' -> within k' j' f.
Proof.
  destruct f; cbn; trivial. intros [F E] Hk Hj.
  split; [eapply fits_mono; eassumption|lia].
Qed.

Lemma within_below k j f : within k j f -> below k f.
Proof. destruct f; cbn; tauto. Qed.

Lemma within_finite k j f : within k j f -> is_finite f = true.
Proof. destruct f; cbn; tauto. Qed.

Lemma fmul_within a b ka ja kb jb :
  within ka ja a -> within kb jb b ->
  -1074 <= ka + kb -> ka + kb + 1 <= 1024 -> ja + jb <= 971 ->
  is_finite (fmul a b) = true.
Proof.
  destruct a as [sa| | |sa ma ea], b as [sb| | |sb mb eb]; cbn [within];
    try tauto; try reflexivity.
  intros [[Ea Fa] Ja] [[Eb Fb] Jb] Hk Hk' Hj.
  unfold fmul, SFmul.
  eapply within_finite. apply binary_round_aux_within with (k := ka + kb);
    try lia.
  split; [lia|].
  replace (ka + kb - (ea + eb)) with ((ka - ea) + (kb - eb)) by lia.
  rewrite Z.pow_add_r by lia. rewrite Pos2Z.inj_mul.
  apply Z.mul_lt_mono_nonneg; lia.
Qed.

Lemma pos_iter_xO m d : Zpos (Pos.iter xO m d) = Zpos m * 2 ^ Zpos d.
Proof.
  induction d as [|d IH] using Pos.peano_ind.
  - cbn. lia.
  - rewrite Pos.iter_succ, Pos2Z.inj_succ, Z.pow_succ_r by lia.
    change (Z.pos (Pos.iter xO m d)~0) with (2 * Z.pos (Pos.iter xO m d)).
    rewrite IH. lia.
Qed.

Lemma shl_align_spec mx ex ex' mz ez :
  shl_align mx ex ex' = (mz, ez) ->
  ez = Z.min ex ex' /\ Zpos mz = Zpos mx * 2 ^ (ex - ez).
Proof.
  unfold shl_align. destruct (ex' - ex) as [|d|d] eqn:E; intros [= <- <-].
  - rewrite Z.sub_diag, Z.pow_0_r. split; lia.
  - rewrite Z.sub_diag, Z.pow_0_r. split; lia.
  - split; [lia|]. rewrite pos_iter_xO. f_equal. f_equal. lia.
Qed.

Lemma fits_shl m m' e e' k :
  e' <= e -> m' = m * 2 ^ (e - e') -> fits m e k -> fits m' e' k.
Proof.
  intros He -> [Hk Hlt]. split; [lia|].
  replace (k - e') with ((k - e) + (e - e')) by lia.
  rewrite Z.pow_add_r by lia.
  apply Z.mul_lt_mono_pos_r; [apply Z.pow_pos_nonneg; lia|assumption].
Qed.

Lemma binary_round_within sx mx ex k :
  fits (Zpos mx) ex k -> -1074 <= k -> k + 1 <= 1024 -> ex <= 971 ->
  within (k + 1) (Z.max ex (Z.max (k - 52) (-1074)))
    (binary_round prec emax sx mx ex).
Proof.
  intros Hfit Hk Hk' He. unfold binary_round.
  destruct (shl_align mx ex _) as [mz ez] eqn:E.
  apply shl_align_spec in E as [Hez Hmz].
  eapply within_mono;
    [apply binary_round_aux_within with (k := k); try lia| |]; try lia.
  eapply fits_shl; [|exact Hmz|exact Hfit]. lia.
Qed.

Lemma binary_normalize_within m e s k :
  fits (Z.abs m) e k -> -1074 <= k -> k + 1 <= 1024 -> e <= 971 ->
  within (k + 1) (Z.max e (Z.max (k - 52) (-1074)))
    (binary_normalize prec emax m e s).
Proof.
  destruct m; cbn [binary_normalize Z.abs]; intros; [exact I| |];
    now apply binary_round_within.
Qed.

Lemma float_of_int_within n f k :
  Z.abs n < 2 ^ k -> 0 <= k <= 1023 -> float_of_int n = Ok f ->
  within (k + 1) (Z.max 0 (k - 52)) f.
Proof.
  intros Hn Hk. unfold float_of_int.
  assert (W : within (k + 1) (Z.max 0 (Z.max (k - 52) (-1074)))
                (binary_normalize prec emax n 0 false)).
  { apply binary_normalize_within; try lia. split; [lia|].
    now rewrite Z.sub_0_r. }
  destruct (binary_normalize prec emax n 0 false); intros [= <-];
    (eapply within_mono; [exact W|lia|lia]).
Qed.

Lemma fsub_within sa ma ea b ka ja kb K :
  within ka ja (S754_finite sa ma ea) -> below kb b ->
  ka < K -> kb < K -> -1074 <= K -> K + 1 <= 1024 -> ja <= 971 ->
  within (K + 1) (Z.max ja (Z.max (K - 52) (-1074)))
    (fsub (S754_finite sa ma ea) b).
Proof.
  intros Wa Wb Hka Hkb HK HK' Hja.
  destruct b as [sb| | |sb mb eb]; cbn [below] in Wb; try tauto.
  - apply (within_mono ka ja _ _ (S754_finite sa ma ea) Wa); lia.
  - destruct Wa as [[Ea Fa] Ja]. destruct Wb as [Eb Fb].
    unfold fsub, SFsub. cbv zeta.
    destruct (shl_align ma ea (Z.min ea eb)) as [ma' ea'] eqn:A.
    destruct (shl_align mb eb (Z.min ea eb)) as [mb' eb'] eqn:B.
    apply shl_align_spec in A as [-> HA].
    apply shl_align_spec in B as [-> HB]. cbn [fst].
    set (ez := Z.min ea eb) in *.
    replace (Z.min ea ez) with ez in HA by lia.
    replace (Z.min eb ez) with ez in HB by lia.
    eapply within_mono;
      [apply binary_normalize_within with (k := K); try lia| |]; try lia.
    split; [lia|].
    assert (PA : Zpos ma' < 2 ^ (K - 1 - ez)).
    { rewrite HA. replace (K - 1 - ez) with ((K - 1 - ea) + (ea - ez)) by lia.
      rewrite Z.pow_add_r by lia.
      apply Z.mul_lt_mono_pos_r; [apply Z.pow_pos_nonneg; lia|].
      eapply Z.lt_le_trans; [exact Fa|]. apply Z.pow_le_mono_r; lia. }
    assert (PB : Zpos mb' < 2 ^ (K - 1 - ez)).
    { rewrite HB. replace (K - 1 - ez) with ((K - 1 - eb) + (eb - ez)) by lia.
      rewrite Z.pow_add_r by lia.
      apply Z.mul_lt_mono_pos_r; [apply Z.pow_pos_nonneg; lia|].
      eapply Z.lt_le_trans; [exact Fb|]. apply Z.pow_le_mono_r; lia. }
    replace (K - ez) with (1 + (K - 1 - ez)) by lia.
    rewrite Z.pow_add_r by lia. change (2 ^ 1) with 2.
    destruct sa, sb; cbn [cond_Zopp]; lia.
Qed.

Lemma fdiv_within a sb mb eb ka c :
  below ka a -> 0 <= c - eb -> 2 ^ (c - eb) <= Zpos mb ->
  -1074 <= ka - c -> ka - c + 1 <= 1024 ->
  within (ka - c + 1) (Z.max (ka - c - 52) (-1074))
    (fdiv a (S754_finite sb mb eb)).
Proof.
  intros Wa Hc Hmb Hk Hk'.
  destruct a as [sa| | |sa ma ea]; cbn [below] in Wa; try tauto.
  destruct Wa as [Ea Fa].
  unfold fdiv, SFdiv, SFdiv_core_binary. cbv zeta.
  pose proof (Zdigits2_gt (Zpos mb) ltac:(lia)) as Gb.
  assert (Db : c - eb < Zdigits2 (Zpos mb)).
  { apply (Z.pow_lt_mono_r_iff 2); [lia|apply Zdigits2_nonneg|lia]. }
  pose proof (fits_digits (Zpos ma) ea ka ltac:(lia) (conj Ea Fa)) as Da.
  rewrite fexp_eq.
  set (e' := Z.min _ (ea - eb)).
  assert (He' : e' <= Z.max (ka - c - 54) (-1074)) by (unfold e'; lia).
  assert (Hs : 0 <= ea - eb - e') by (unfold e'; lia).
  set (m' := match ea - eb - e' with
             | 0 => Zpos ma | Zpos _ => Z.shiftl (Zpos ma) (ea - eb - e')
             | Zneg _ => 0 end).
  assert (Hm' : m' = Zpos ma * 2 ^ (ea - eb - e')).
  { unfold m'. destruct (ea - eb - e') as [|s|s] eqn:S.
    - rewrite Z.pow_0_r. lia.
    - now rewrite Z.shiftl_mul_pow2.
    - lia. }
  clearbody m'.
  pose proof (Z_div_mod m' (Zpos mb) ltac:(lia)) as DM.
  destruct (Z.div_eucl m' (Zpos mb)) as [q r]. destruct DM as [Hq Hr].
  assert (P : 0 < 2 ^ (ea - eb - e')) by (apply Z.pow_pos_nonneg; lia).
  assert (Hq0 : 0 <= q) by nia.
  eapply within_mono;
    [apply binary_round_aux_within with (k := ka - c); try lia| |]; try lia.
  split; [lia|].
  assert (Q : 0 < 2 ^ (c - eb)) by (apply Z.pow_pos_nonneg; lia).
  assert (L : q * 2 ^ (c - eb) < 2 ^ (ka - c - e') * 2 ^ (c - eb)).
  { rewrite <- Z.pow_add_r by lia.
    replace (ka - c - e' + (c - eb)) with ((ka - ea) + (ea - eb - e')) by lia.
    rewrite Z.pow_add_r by lia.
    assert (M : m' < 2 ^ (ka - ea) * 2 ^ (ea - eb - e')).
    { rewrite Hm'. apply Z.mul_lt_mono_pos_r; assumption. }
    nia. }
  nia.
Qed.

Lemma f100_within : within 7 (-46) f100.
Proof. cbn. repeat split; lia. Qed.

Lemma f100_lower : 2 ^ (6 - -46) <= 7036874417766400.
Proof. cbn. lia. Qed.

(** The tile size scaled by the overlap ratio is finite for every image
    size below [2^64] and every overlap of magnitude below [2^512]. *)
Lemma scaled_size_finite size fx ov :
  Z.abs size < 2 ^ 64 -> float_of_int size = Ok fx -> below 512 ov ->
  is_finite (fmul fx (fdiv (fsub f100 ov) f100)) = true.
Proof.
  intros Hsize Hfx Hov.
  pose proof (float_of_int_within size fx 64 Hsize ltac:(lia) Hfx) as Wx.
  pose proof (fsub_within false 7036874417766400 (-46) ov 7 (-46) 512 513
                f100_within Hov ltac:(lia) ltac:(lia) ltac:(lia) ltac:(lia)
                ltac:(lia)) as Wd.
  apply within_below in Wd.
  pose proof (fdiv_within _ false 7036874417766400 (-46) (513 + 1) 6 Wd
                ltac:(lia) f100_lower ltac:(lia) ltac:(lia)) as Wr.
  eapply fmul_within; [exact Wx|exact Wr|lia|lia|lia].
Qed.

End Binary64Range.

(** ** [set_relpos]: the relative position of a tile *)

Example float_literals :
  float_of_int 10 = Ok Demo.f10 /\ float_of_int 20 = Ok Demo.f20
  /\ float_of_int 90 = Ok Demo.f90 /\ float_of_int 180 = Ok Demo.f180.
Proof. repeat split. Qed.

Example tile_setters :
  bind (set_stagecoords (PTuple [PFloat Demo.f10; PFloat Demo.f20]))
       (fun _ => set_tilenumbers (PInt 1) (PInt 2) PNone) (Demo.tile_100, env0)
  = (Ok tt,
     (Demo.tile_100_at_1_2,
      mkEnv [LogEntry DEBUG "Setting stage coordinates: %s."
               [PTuple [PFloat Demo.f10; PFloat Demo.f20]];
             LogEntry DEBUG "Tile grid indices x / y / z: %s / %s / %s"
               [PInt 1; PInt 2; PNone]] [])).
Proof. reflexivity. Qed.

Lemma fmul_zero_r (a : float) (s : bool) :
  is_finite a = true -> is_zero (fmul a (S754_zero s)) = true.
Proof. destruct a; cbn; congruence. Qed.

Section RelativePosition.

Variable w : World.

(** C1.  With the dimensions known and the tile indices set,
    [set_relpos(overlap)] stores, per axis, the binary64 product
    [size * ((100.0 - overlap) / 100) * tileno] and starts no parser; at
    tile index 0 the stored coordinate is a zero, for every tile size
    below [2^64] and every overlap of magnitude below [2^512]. *)
Theorem set_relpos_position d env overlap dims size_x size_y tx ty tz
    ov fx fy ftx fty :
  _dim d = Some dims ->
  dims !! "X" = Some size_x -> dims !! "Y" = Some size_y ->
  supplement (base d) !! "tileno" = Some (PTuple [PInt tx; PInt ty; tz]) ->
  to_float overlap = Ok ov ->
  float_of_int size_x = Ok fx -> float_of_int size_y = Ok fy ->
  float_of_int tx = Ok ftx -> float_of_int ty = Ok fty ->
  (exists env',
     set_relpos w overlap (d, env)
     = (Ok tt,
        (set_relative (Some [axis_position fx ov ftx; axis_position fy ov fty]) d, env'))
     /\ env_parsed env' = env_parsed env)
  /\ (tx = 0 -> Z.abs size_x < 2 ^ 64 -> below 512 ov ->
      is_zero (axis_position fx ov ftx) = true)
  /\ (ty = 0 -> Z.abs size_y < 2 ^ 64 -> below 512 ov ->
      is_zero (axis_position fy ov fty) = true).
Proof.
  intros Hd Hx Hy Ht Hov Hfx Hfy Hftx Hfty. split; [|split].
  - assert (H : wp (set_relpos w overlap) (d, env) (fun r s' =>
      r = Ok tt
      /\ fst s' = set_relative
           (Some [axis_position fx ov ftx; axis_position fy ov fty]) d
      /\ env_parsed (snd s') = env_parsed env)).
    { assert (HX : dims_getitem (Some dims) "X" = Ok size_x)
        by (unfold dims_getitem, dim_get; now rewrite Hx).
      assert (HY : dims_getitem (Some dims) "Y" = Ok size_y)
        by (unfold dims_getitem, dim_get; now rewrite Hy).
      assert (HT : supplement_get d "tileno" = Ok (PTuple [PInt tx; PInt ty; tz]))
        by (unfold supplement_get; now rewrite Ht).
      assert (HSX : forall r, int_times_float size_x r = Ok (fmul fx r))
        by (intros r; unfold int_times_float; now rewrite Hfx).
      assert (HSY : forall r, int_times_float size_y r = Ok (fmul fy r))
        by (intros r; unfold int_times_float; now rewrite Hfy).
      assert (HTX : forall f, float_times f (PInt tx) = Ok (fmul f ftx))
        by (intros f; unfold float_times, to_float; now rewrite Hftx).
      assert (HTY : forall f, float_times f (PInt ty) = Ok (fmul f fty))
        by (intros f; unfold float_times, to_float; now rewrite Hfty).
      unfold set_relpos, axis_position.
      repeat (cbv beta iota zeta;
              lazymatch goal with
              | |- wp (lift (to_float overlap)) _ _ => rewrite Hov; wp_step
              | |- wp (get_dimensions w) _ _ =>
                  apply (wp_eq _ (ret (Some dims)));
                  [apply get_dimensions_cached; exact Hd|]
              | |- wp (lift (dims_getitem _ _)) _ _ => rewrite ?HX, ?HY; wp_step
              | |- wp (lift (supplement_get _ _)) _ _ => rewrite HT; wp_step
              | |- wp (lift (int_times_float _ _)) _ _ => rewrite ?HSX, ?HSY; wp_step
              | |- wp (lift (float_times _ _)) _ _ => rewrite ?HTX, ?HTY; wp_step
              | |- wp (lift (index _ _)) _ _ => cbn [index nth_error]; wp_step
              | _ => wp_step
              end).
      fsimp. auto. }
    apply wp_exists in H as (r & [d' env'] & E & -> & Hd' & He).
    cbn [fst snd] in Hd', He. subst d'. eauto.
  - intros -> Hsize Hbelow. unfold axis_position. inversion Hftx.
    apply fmul_zero_r. now apply scaled_size_finite with (size := size_x).
  - intros -> Hsize Hbelow. unfold axis_position. inversion Hfty.
    apply fmul_zero_r. now apply scaled_size_finite with (size := size_y).
Qed.

End RelativePosition.

Lemma set_relpos_position_witness :
  exists env',
    set_relpos (Demo.world []) (PInt 10) (Demo.tile_100_at_1_2, env0)
    = (Ok tt, (set_relative (Some [Demo.f90; Demo.f180]) Demo.tile_100_at_1_2, env')).
Proof.
  destruct (set_relpos_position (Demo.world []) Demo.tile_100_at_1_2 env0 (PInt 10)
              (list_to_map [("B", 12); ("C", 1); ("T", 1); ("X", 100); ("Y", 100); ("Z", 1)])
              100 100 1 2 PNone Demo.f10 f100 f100
              (S754_finite false 4503599627370496 (-52))
              (S754_finite false 4503599627370496 (-51)))
    as [(env' & E & _) _].
  - reflexivity.
  - vm_compute. reflexivity.
  - vm_compute. reflexivity.
  - vm_compute. reflexivity.
  - reflexivity.
  - reflexivity.
  - reflexivity.
  - reflexivity.
  - reflexivity.
  - exists env'. exact E.
Defined.

(** A tile in the first column of the grid: index 0 gives a zero. *)
Example set_relpos_first_column :
  let s := snd (set_tilenumbers (PInt 0) (PInt 2) PNone (Demo.tile_100, env0)) in
  position_relative (fst (snd (set_relpos (Demo.world []) (PInt 10) s)))
  = Some [S754_zero false; Demo.f180].
Proof. vm_compute. reflexivity. Qed.

(** Percentages given as integers are within the range of
    [set_relpos_position]. *)
Example percentages_below n f :
  0 <= n <= 100 -> to_float (PInt n) = Ok f -> below 512 f.
Proof.
  intros Hn Hf. cbn [to_float] in Hf.
  assert (Hlt : Z.abs n < 2 ^ 7) by (change (2 ^ 7) with 128; lia).
  pose proof (float_of_int_within n f 7 Hlt ltac:(lia) Hf) as W.
  apply within_below in W. destruct f; cbn [below] in *; trivial.
  eapply fits_mono; [exact W|lia].
Qed.

(** ** [_get_xml_sections]: the scan for XML blocks *)

Section XmlScan.

Import ScanSpec.

Lemma append_nil s : String.append EmptyString s = s.
Proof. reflexivity. Qed.

Lemma append_cons c s t : String.append (String c s) t = String c (String.append s t).
Proof. reflexivity. Qed.

Lemma length_append s1 s2 :
  String.length (String.append s1 s2) = (String.length s1 + String.length s2)%nat.
Proof.
  induction s1 as [|c s1 IH]; rewrite ?append_nil, ?append_cons; cbn;
    [reflexivity|now rewrite IH].
Qed.

Lemma file_read_split fin : forall size chunk rest,
  file_read fin size = (chunk, rest) -> fin = String.append chunk rest.
Proof.
  induction fin as [|c t IH]; intros size chunk rest; cbn.
  - intros H. inversion H. reflexivity.
  - destruct (size <=? 0).
    + intros H. inversion H. reflexivity.
    + destruct (file_read t (size - 1)) as [a b] eqn:E. intros H. inversion H. subst.
      rewrite append_cons. f_equal. eauto.
Qed.

Lemma file_read_nonempty c t size :
  0 < size -> exists chunk rest, file_read (String c t) size = (String c chunk, rest).
Proof.
  intros H. cbn. destruct (size <=? 0) eqn:E; [lia|].
  destruct (file_read t (size - 1)) as [a b]. eauto.
Qed.

(** The character loop run over two pieces in turn is the loop run over
    their concatenation: chunk boundaries do not matter. *)
Lemma scan_chunk_app min_len a : forall b collected found,
  scan_chunk min_len (String.append a b) collected found
  = match scan_chunk min_len a collected found with
    | Return f => Return f
    | Continue (collected', found') => scan_chunk min_len b collected' found'
    end.
Proof.
  induction a as [|c a IH]; intros b collected found;
    rewrite ?append_nil, ?append_cons; cbn [scan_chunk].
  - reflexivity.
  - destruct (printable c); [apply IH|].
    destruct ((len collected <? min_len) || negb (contains "<?xml" collected));
      [apply IH|].
    destruct (scan_tags search_tags collected found); [reflexivity|apply IH].
Qed.

Lemma read_loop_scan_chunk size min_len : 0 < size ->
  forall fuel fin collected found,
    (String.length fin < fuel)%nat ->
    read_loop fuel size min_len fin collected found
    = Some (flow_outcome (scan_chunk min_len fin collected found)).
Proof.
  intros Hsize. induction fuel as [|fuel IH]; intros fin collected found Hlen; [lia|].
  cbn [read_loop]. destruct fin as [|c t].
  - reflexivity.
  - destruct (file_read_nonempty c t size Hsize) as (chunk & rest & E). rewrite E.
    pose proof (file_read_split _ _ _ _ E) as Hsplit. rewrite Hsplit.
    rewrite scan_chunk_app.
    destruct (scan_chunk min_len (String c chunk) collected found) as [f|[c' f']].
    + reflexivity.
    + apply IH. rewrite Hsplit, length_append in Hlen. cbn in Hlen. lia.
Qed.

Lemma size_test (found : gmap string string) :
  (Z.of_nat (size found) =? Z.of_nat (length search_tags)) = Nat.eqb (size found) 2.
Proof.
  change (Z.of_nat (length search_tags)) with 2.
  destruct (Nat.eqb_spec (size found) 2), (Z.eqb_spec (Z.of_nat (size found)) 2);
    reflexivity || lia.
Qed.

Lemma first_complete_app l1 : forall l2 found,
  first_complete (l1 ++ l2) found
  = match first_complete l1 found with
    | Return f => Return f
    | Continue f => first_complete l2 f
    end.
Proof.
  induction l1 as [|[tag frag] l1 IH]; intros l2 found; cbn; [reflexivity|].
  destruct (Nat.eqb _ 2); [reflexivity|apply IH].
Qed.

Lemma scan_tags_first_complete tags run : forall found,
  scan_tags tags run found
  = first_complete
      (flat_map (fun tag => if accepts tag run then [(tag, fragment run)] else []) tags)
      found.
Proof.
  induction tags as [|tag tags IH]; intros found; cbn [scan_tags flat_map];
    [reflexivity|].
  unfold accepts at 1. destruct (contains (String.append "<" tag) run).
  - cbn [app first_complete]. rewrite size_test. unfold fragment at 1.
    destruct (Nat.eqb _ 2); [reflexivity|apply IH].
  - cbn [app]. apply IH.
Qed.

(** The character loop against the description by runs. *)
Lemma scan_chunk_runs min_len content : forall collected found,
  flow_outcome (scan_chunk min_len content collected found)
  = flow_outcome
      (first_complete
         (flat_map (run_acceptances min_len search_tags)
            (terminated_runs content collected)) found).
Proof.
  induction content as [|c content IH]; intros collected found;
    cbn [scan_chunk terminated_runs]; [reflexivity|].
  destruct (printable c); [apply IH|].
  cbn [flat_map]. rewrite first_complete_app. unfold run_acceptances at 1.
  unfold is_candidate.
  replace (len collected <? min_len) with (negb (min_len <=? len collected))
    by (destruct (Z.leb_spec min_len (len collected)), (Z.ltb_spec (len collected) min_len);
        cbn; lia || reflexivity).
  rewrite <- negb_andb.
  destruct ((min_len <=? len collected) && contains "<?xml" collected); cbn [negb].
  - rewrite scan_tags_first_complete.
    destruct (first_complete _ found); [reflexivity|apply IH].
  - cbn [first_complete]. apply IH.
Qed.

Lemma scan_file_xml_sections size min_len content :
  0 < size -> scan_file size min_len content = Some (xml_sections min_len content).
Proof.
  intros Hsize. unfold scan_file. rewrite read_loop_scan_chunk by (assumption || lia).
  f_equal. rewrite scan_chunk_runs. unfold xml_sections, acceptances.
  now destruct (first_complete _ ∅).
Qed.

Lemma first_complete_return acc : forall found f,
  first_complete acc found = Return f ->
  size f = 2%nat
  /\ forall tag frag, f !! tag = Some frag ->
       found !! tag = Some frag \/ In (tag, frag) acc.
Proof.
  induction acc as [|[t fr] acc IH]; intros found f; cbn [first_complete];
    [discriminate|].
  destruct (Nat.eqb_spec (size (<[t := fr]> found)) 2) as [E|E].
  - intros H. inversion H. subst f. split; [assumption|].
    intros tag frag. destruct (decide (t = tag)) as [->|Hne].
    + rewrite lookup_insert_eq. intros H'. inversion H'. right. now left.
    + rewrite lookup_insert_ne by assumption. auto.
  - intros H. apply IH in H as [Hs Hk]. split; [assumption|].
    intros tag frag Hl. destruct (Hk tag frag Hl) as [H'|H']; [|right; now right].
    destruct (decide (t = tag)) as [->|Hne].
    + rewrite lookup_insert_eq in H'. inversion H'. right. now left.
    + rewrite lookup_insert_ne in H' by assumption. auto.
Qed.

Lemma acceptances_inv min_len content tag frag :
  In (tag, frag) (acceptances min_len content) ->
  In tag search_tags
  /\ exists run,
       In run (terminated_runs content EmptyString)
       /\ is_candidate min_len run = true /\ accepts tag run = true
       /\ frag = fragment run.
Proof.
  unfold acceptances. rewrite in_flat_map. intros (run & Hrun & Hin).
  unfold run_acceptances in Hin.
  destruct (is_candidate min_len run) eqn:Hc; [|contradiction].
  rewrite in_flat_map in Hin. destruct Hin as (t & Ht & Hin).
  destruct (accepts t run) eqn:Ha; [|contradiction].
  destruct Hin as [Hin|[]]. inversion Hin. subst. eauto 10.
Qed.

Lemma xml_sections_ok_inv min_len content found :
  xml_sections min_len content = Ok found ->
  size found = 2%nat
  /\ forall tag frag, found !! tag = Some frag ->
       In tag search_tags
       /\ exists run,
            In run (terminated_runs content EmptyString)
            /\ is_candidate min_len run = true /\ accepts tag run = true
            /\ frag = fragment run.
Proof.
  unfold xml_sections.
  destruct (first_complete (acceptances min_len content) ∅) as [f|f] eqn:E;
    [|discriminate].
  intros H. inversion H. subst f. apply first_complete_return in E as [Hs Hk].
  split; [assumption|]. intros tag frag Hl.
  destruct (Hk tag frag Hl) as [H'|H']; [now rewrite lookup_empty in H'|].
  now apply acceptances_inv in H'.
Qed.

Lemma xml_sections_raises min_len content e :
  xml_sections min_len content = Raise e -> e = ValueError.
Proof.
  unfold xml_sections. destruct (first_complete _ ∅); congruence.
Qed.

Lemma xml_sections_needs_both min_len content tag :
  In tag search_tags ->
  (forall run, In run (terminated_runs content EmptyString) ->
     is_candidate min_len run = true -> accepts tag run = false) ->
  xml_sections min_len content = Raise ValueError.
Proof.
  intros Htag Hnever.
  destruct (xml_sections min_len content) as [found|e] eqn:E;
    [|f_equal; eapply xml_sections_raises; eassumption].
  exfalso. apply xml_sections_ok_inv in E as [Hsize Hkeys].
  assert (Hother : exists k, forall x, x ∈ dom found -> x = k).
  { assert (Hx : forall x, x ∈ dom found -> In x search_tags /\ x <> tag).
    { intros x Hx. apply elem_of_dom in Hx as [frag Hfrag].
      destruct (Hkeys x frag Hfrag) as (Hin & run & Hrun & Hc & Ha & _).
      split; [assumption|]. intros ->. rewrite (Hnever run Hrun Hc) in Ha.
      discriminate. }
    destruct Htag as [<-|[<-|[]]].
    - exists "lsmimage:imageProperties". intros x Hd.
      destruct (Hx x Hd) as [[<-|[<-|[]]] Hne]; congruence.
    - exists "lsmframe:frameProperties". intros x Hd.
      destruct (Hx x Hd) as [[<-|[<-|[]]] Hne]; congruence. }
  destruct Hother as [k Hk].
  assert (Hsub : dom found ⊆ ({[k]} : gset string)).
  { intros x Hx. apply elem_of_singleton. auto. }
  apply subseteq_size in Hsub. rewrite size_dom, size_singleton in Hsub. lia.
Qed.

Variable w : World.

(** C3.  [_get_xml_sections] on a file of content [content] returns or
    raises what the description by runs says, for every positive chunk
    size and without using up its loop bound: the terminated runs of
    printable characters are taken in order; a run counts only if it has
    at least 100 characters and contains [<?xml]; it yields a fragment for
    a tag only if it contains [<tag], the fragment being the run cut
    after its last [>]; the scan returns at the first moment both tags
    have a fragment and raises [ValueError] if the file ends before, in
    particular when one of the two tags occurs in no such run. *)
Theorem _get_xml_sections_by_runs d env content :
  read_bytes w (full (storage (base d))) = Ok content ->
  _get_xml_sections w 100 (d, env) = (get_xml_sections_outcome 100 content, (d, env))
  /\ (forall size, 0 < size ->
        scan_file size 100 content = Some (xml_sections 100 content))
  /\ (forall found, xml_sections 100 content = Ok found ->
        size found = 2%nat
        /\ forall tag frag, found !! tag = Some frag ->
             In tag search_tags
             /\ exists run,
                  In run (terminated_runs content EmptyString)
                  /\ (100 <=? len run) = true
                  /\ contains "<?xml" run = true
                  /\ contains (String.append "<" tag) run = true
                  /\ frag = slice_to run (rfind run ">" + 1))
  /\ (forall e, xml_sections 100 content = Raise e -> e = ValueError)
  /\ (forall tag, In tag search_tags ->
        (forall run, In run (terminated_runs content EmptyString) ->
           (100 <=? len run) = true -> contains "<?xml" run = true ->
           contains (String.append "<" tag) run = false) ->
        _get_xml_sections w 100 (d, env) = (Raise ValueError, (d, env))).
Proof.
  intros Hread.
  assert (Hrun : _get_xml_sections w 100 (d, env)
                 = (get_xml_sections_outcome 100 content, (d, env))).
  { unfold _get_xml_sections. munfold1. rewrite Hread. munfold1.
    rewrite scan_file_xml_sections by reflexivity.
    unfold get_xml_sections_outcome.
    now destruct (xml_sections 100 content). }
  split; [exact Hrun|]. split; [|split; [|split]].
  - intros size Hsize. now apply scan_file_xml_sections.
  - intros found Hok. apply xml_sections_ok_inv in Hok as [Hs Hk].
    split; [assumption|]. intros tag frag Hl.
    destruct (Hk tag frag Hl) as (Hin & run & Hrun' & Hc & Ha & Hf).
    split; [assumption|]. exists run. unfold is_candidate in Hc.
    apply andb_true_iff in Hc as [Hc1 Hc2]. auto 10.
  - apply xml_sections_raises.
  - intros tag Htag Hnever. rewrite Hrun. unfold get_xml_sections_outcome.
    rewrite (xml_sections_needs_both 100 content tag); [reflexivity|assumption|].
    intros run Hin Hc. unfold is_candidate in Hc.
    apply andb_true_iff in Hc as [Hc1 Hc2]. now apply Hnever.
Qed.

End XmlScan.

Example scan_two_blocks :
  scan_file chunk_size 100 Demo.oir_bytes
  = Some (Ok (list_to_map [("lsmframe:frameProperties", Demo.frame_block);
                           ("lsmimage:imageProperties", Demo.image_block)])).
Proof. vm_compute. reflexivity. Qed.

Example scan_small_chunks :
  scan_file 7 100 Demo.oir_bytes = scan_file chunk_size 100 Demo.oir_bytes.
Proof. vm_compute. reflexivity. Qed.

Example scan_one_block :
  scan_file chunk_size 100 Demo.oir_bytes_frame_only = Some (Raise ValueError).
Proof. vm_compute. reflexivity. Qed.

Lemma _get_xml_sections_by_runs_witness :
  _get_xml_sections (Demo.world ["/data/tile.oir"]) 100 (Demo.oir_image, env0)
  = (Ok (Some (list_to_map [("lsmframe:frameProperties", Demo.frame_block);
                            ("lsmimage:imageProperties", Demo.image_block)])),
     (Demo.oir_image, env0)).
Proof.
  assert (Hread : read_bytes (Demo.world ["/data/tile.oir"])
                    (full (storage (base Demo.oir_image))) = Ok Demo.oir_bytes)
    by reflexivity.
  destruct (_get_xml_sections_by_runs (Demo.world ["/data/tile.oir"])
              Demo.oir_image env0 Demo.oir_bytes Hread) as [H _].
  rewrite H. vm_compute. reflexivity.
Defined.

(** ** [validate_filepath]: the file name repair *)

Section ValidateFilepath.

Variable w : World.

(** An existing literal path is used as it is. *)
Lemma validate_filepath_found d env :
  path_exists w (full (storage (base d))) = true ->
  exists env',
    validate_filepath w (d, env) = (Ok (storage (base d)), (d, env')).
Proof.
  intros H. unfold validate_filepath. munfold1. rewrite H. munfold1.
  rewrite H. munfold1. eauto.
Qed.

(** A missing literal path: one more path is tried, the original with
    every occurrence of the extension replaced. *)
Lemma validate_filepath_repair d env :
  path_exists w (full (storage (base d))) = false ->
  let fpath := storage (base d) in
  let repaired :=
    parse_path w (replace (orig fpath) (ext fpath) (String.append "_01" (ext fpath))) in
  exists env',
    validate_filepath w (d, env)
    = (if path_exists w (full repaired) then Ok repaired else Raise IOError, (d, env')).
Proof.
  intros H. unfold validate_filepath. munfold1. rewrite H. munfold1.
  destruct (path_exists w (full (parse_path w _))); munfold1; eauto.
Qed.

End ValidateFilepath.

(** C6, on a path in which the extension occurs twice.  Only
    [/data/scan.oib/tile_01.oib] exists.  For [/data/scan.oib/tile.oib]
    the repair does not try that file: [str.replace] rewrites both
    occurrences of [.oib], the path tried is
    [/data/scan_01.oib/tile_01.oib], and the constructor raises
    [IOError]. *)
Theorem validate_filepath_replaces_every_occurrence :
  let w := Demo.world ["/data/scan.oib/tile_01.oib"] in
  let out := ImageDataOIB_init w "/data/scan.oib/tile.oib" (tt, env0) in
  path_exists w "/data/scan.oib/tile.oib" = false
  /\ path_exists w "/data/scan.oib/tile_01.oib" = true
  /\ replace "/data/scan.oib/tile.oib" ".oib" "_01.oib" = "/data/scan_01.oib/tile_01.oib"
  /\ fst out = Raise IOError
  /\ In (LogEntry DEBUG "Trying next path: %s" [PStr "/data/scan_01.oib/tile_01.oib"])
        (env_log (snd (snd out))).
Proof. vm_compute. repeat split; auto 10. Qed.

(** The same constructor finds the repaired file when the extension
    occurs once. *)
Example validate_filepath_single_occurrence :
  let w := Demo.world ["/data/scan/tile_01.oib"] in
  fst (ImageDataOlympus_init w ImageDataOIB "/data/scan/tile.oib" (tt, env0))
  = Ok (mkImageData
          (mkDataSet "stack" (Demo.posix_parse_path "/data/scan/tile_01.oib") ∅)
          None PNone None None None ImageDataOIB).
Proof. vm_compute. reflexivity. Qed.

(** A file name without extension: the empty [ext] matches everywhere. *)
Example validate_filepath_no_extension :
  replace "tile" "" "_01" = "_01t_01i_01l_01e_01".
Proof. reflexivity. Qed.

(** ** Comparison of floats *)

Lemma SFcompare_key a b :
  is_nan a = false -> is_nan b = false ->
  SFcompare a b = Some (key_cmp (fkey a) (fkey b)).
Proof.
  destruct a as [sa|sa| |sa ma ea], b as [sb|sb| |sb mb eb]; try discriminate;
    intros _ _; destruct sa, sb; cbn; try reflexivity.
  rewrite Z.compare_opp, (Z.compare_antisym ea eb).
  destruct (ea ?= eb); reflexivity.
Qed.

Lemma key_cmp_refl a : key_cmp a a = Eq.
Proof. destruct a as [[a1 a2] a3]. cbn. now rewrite !Z.compare_refl. Qed.

Ltac key_cases :=
  repeat match goal with
         | k : (Z * Z * Z)%type |- _ => destruct k as [[? ?] ?]
         end;
  unfold key_cmp;
  repeat match goal with
         | |- context [?x ?= ?y] => destruct (Z.compare_spec x y)
         end;
  cbn [CompOpp]; try congruence; try lia.

Lemma key_cmp_lt_trans a b c :
  key_cmp a b = Lt -> key_cmp b c = Lt -> key_cmp a c = Lt.
Proof. key_cases. Qed.

Lemma key_cmp_ge_trans a b c :
  key_cmp a b <> Lt -> key_cmp b c <> Lt -> key_cmp a c <> Lt.
Proof. key_cases. Qed.

Lemma key_cmp_antisym a b : key_cmp b a = CompOpp (key_cmp a b).
Proof. key_cases. Qed.

Section FloatOrder.

Variables a b c : float.
Hypothesis Ha : is_nan a = false.
Hypothesis Hb : is_nan b = false.
Hypothesis Hc : is_nan c = false.

Lemma fltb_key : fltb a b = (match key_cmp (fkey a) (fkey b) with Lt => true | _ => false end).
Proof. unfold fltb, SFltb. now rewrite SFcompare_key. Qed.

Lemma fltb_irrefl : fltb a a = false.
Proof. unfold fltb, SFltb. rewrite SFcompare_key by assumption. now rewrite key_cmp_refl. Qed.

End FloatOrder.

Lemma fltb_trans a b c :
  is_nan a = false -> is_nan b = false -> is_nan c = false ->
  fltb a b = true -> fltb b c = true -> fltb a c = true.
Proof.
  intros Ha Hb Hc. rewrite !fltb_key by assumption.
  pose proof (key_cmp_lt_trans (fkey a) (fkey b) (fkey c)) as T.
  destruct (key_cmp (fkey a) (fkey b)), (key_cmp (fkey b) (fkey c)); try discriminate.
  now rewrite T.
Qed.

Lemma fltb_ge_trans a b c :
  is_nan a = false -> is_nan b = false -> is_nan c = false ->
  fltb a b = false -> fltb b c = false -> fltb a c = false.
Proof.
  intros Ha Hb Hc. rewrite !fltb_key by assumption.
  pose proof (key_cmp_ge_trans (fkey a) (fkey b) (fkey c)) as T.
  destruct (key_cmp (fkey a) (fkey b)), (key_cmp (fkey b) (fkey c)); try discriminate;
    intros _ _; destruct (key_cmp (fkey a) (fkey c)); try reflexivity;
    exfalso; apply T; congruence.
Qed.

Lemma fltb_false_cases a b :
  is_nan a = false -> is_nan b = false ->
  fltb a b = false -> fltb b a = true \/ feqb a b = true.
Proof.
  intros Ha Hb. rewrite !fltb_key by assumption. unfold feqb, SFeqb.
  rewrite SFcompare_key by assumption. rewrite (key_cmp_antisym (fkey a) (fkey b)).
  destruct (key_cmp (fkey a) (fkey b)); cbn; auto.
Qed.

Lemma fltb_false_fleb a b :
  is_nan a = false -> is_nan b = false ->
  fltb a b = false -> fleb b a = true.
Proof.
  intros Ha Hb. rewrite !fltb_key by assumption. unfold fleb, SFleb.
  rewrite SFcompare_key by assumption. rewrite (key_cmp_antisym (fkey a) (fkey b)).
  destruct (key_cmp (fkey a) (fkey b)); cbn; auto.
Qed.

Lemma equiv_by_feqb a b :
  is_nan a = false -> is_nan b = false ->
  equiv_by fltb a b = feqb a b.
Proof.
  intros Ha Hb. unfold equiv_by. rewrite !fltb_key by assumption.
  unfold feqb, SFeqb. rewrite SFcompare_key by assumption.
  rewrite (key_cmp_antisym (fkey a) (fkey b)).
  now destruct (key_cmp (fkey a) (fkey b)).
Qed.

(** ** [sorted]: permutation, order and stability *)

Section StableSort.

Context {A : Type}.
Variable lt : A -> A -> bool.

(** The elements the order is well behaved on. *)
Variable good : A -> Prop.
Hypothesis lt_irrefl : forall a, good a -> lt a a = false.
Hypothesis lt_trans : forall a b c, good a -> good b -> good c ->
  lt a b = true -> lt b c = true -> lt a c = true.
Hypothesis ge_trans : forall a b c, good a -> good b -> good c ->
  lt a b = false -> lt b c = false -> lt a c = false.

Lemma lt_asym a b : good a -> good b -> lt a b = true -> lt b a = false.
Proof.
  intros Ha Hb H. destruct (lt b a) eqn:E; [|reflexivity].
  rewrite <- (lt_irrefl a Ha). symmetry. now apply (lt_trans a b a).
Qed.

Lemma equiv_by_refl a : good a -> equiv_by lt a a = true.
Proof. intros H. unfold equiv_by. now rewrite lt_irrefl. Qed.

Lemma insert_by_perm x l : Permutation (insert_by lt x l) (x :: l).
Proof.
  induction l as [|y l IH]; cbn; [reflexivity|].
  destruct (lt x y); [reflexivity|].
  rewrite IH. apply perm_swap.
Qed.

Lemma sort_onto_perm l : forall placed,
  Permutation (sort_onto lt placed l) (placed ++ l).
Proof.
  induction l as [|x l IH]; intros placed; cbn.
  - now rewrite app_nil_r.
  - rewrite IH, insert_by_perm. cbn. apply Permutation_middle.
Qed.

Lemma insert_by_Forall (P : A -> Prop) x l :
  P x -> Forall P l -> Forall P (insert_by lt x l).
Proof.
  intros Hx Hl. eapply Permutation_Forall; [symmetry; apply insert_by_perm|].
  now constructor.
Qed.

(** Ascending: no element is below an earlier one. *)
Lemma insert_by_sorted x l :
  good x -> Forall good l ->
  StronglySorted (fun a b => lt b a = false) l ->
  StronglySorted (fun a b => lt b a = false) (insert_by lt x l).
Proof.
  intros Hx. induction l as [|y l IH]; intros Hg Hs; cbn.
  - repeat constructor.
  - inversion Hg as [|? ? Hy Hgl]. inversion Hs as [|? ? Hsl Hyl]. subst.
    destruct (lt x y) eqn:E.
    + constructor; [assumption|]. constructor.
      * now apply lt_asym.
      * rewrite List.Forall_forall in *. intros z Hz.
        apply (ge_trans z y x); auto. now apply lt_asym.
    + constructor; [now apply IH|].
      apply insert_by_Forall; assumption.
Qed.

Lemma sort_onto_sorted l : forall placed,
  Forall good placed -> Forall good l ->
  StronglySorted (fun a b => lt b a = false) placed ->
  StronglySorted (fun a b => lt b a = false) (sort_onto lt placed l).
Proof.
  induction l as [|x l IH]; intros placed Hp Hl Hs; cbn; [assumption|].
  inversion Hl; subst. apply IH; [|assumption|].
  - apply insert_by_Forall; assumption.
  - apply insert_by_sorted; assumption.
Qed.

(** Stability: the elements equivalent to [k] keep their order. *)
Lemma insert_by_filter k x l :
  good k -> good x -> Forall good l ->
  StronglySorted (fun a b => lt b a = false) l ->
  List.filter (equiv_by lt k) (insert_by lt x l)
  = List.filter (equiv_by lt k) l ++ List.filter (equiv_by lt k) [x].
Proof.
  intros Hk Hx. induction l as [|y l IH]; intros Hg Hs; [reflexivity|].
  inversion Hg as [|? ? Hy Hgl]. inversion Hs as [|? ? Hsl Hyl]. subst.
  cbn [insert_by]. destruct (lt x y) eqn:E.
  - destruct (equiv_by lt k x) eqn:Ekx.
    + (* nothing from [y] on is equivalent to [k] *)
      assert (Hnone : forall z, In z (y :: l) -> equiv_by lt k z = false).
      { intros z Hz. assert (Hgz : good z)
          by (rewrite List.Forall_forall in Hg; auto).
        assert (Hxz : lt x z = true).
        { destruct Hz as [<-|Hz]; [assumption|].
          destruct (lt x z) eqn:Exz; [reflexivity|].
          rewrite List.Forall_forall in Hyl. rewrite <- E. symmetry.
          apply (ge_trans x z y); auto. }
        unfold equiv_by in Ekx. apply andb_true_iff in Ekx as [Ekx1 Ekx2].
        apply negb_true_iff in Ekx1. apply negb_true_iff in Ekx2.
        unfold equiv_by. destruct (lt k z) eqn:Ekz; [reflexivity|]. exfalso.
        assert (lt x z = false) by (apply (ge_trans x k z); auto).
        congruence. }
      assert (Hnil : List.filter (equiv_by lt k) (y :: l) = []).
      { clear -Hnone. induction (y :: l) as [|z l' IHl]; [reflexivity|].
        cbn. rewrite (Hnone z) by now left. apply IHl. intros z' Hz'.
        apply Hnone. now right. }
      change (List.filter (equiv_by lt k) (x :: y :: l))
        with (if equiv_by lt k x then x :: List.filter (equiv_by lt k) (y :: l)
              else List.filter (equiv_by lt k) (y :: l)).
      rewrite Hnil, Ekx. cbn [List.filter app]. now rewrite Ekx.
    + change (List.filter (equiv_by lt k) (x :: y :: l))
        with (if equiv_by lt k x then x :: List.filter (equiv_by lt k) (y :: l)
              else List.filter (equiv_by lt k) (y :: l)).
      rewrite Ekx. cbn [List.filter]. rewrite Ekx. now rewrite app_nil_r.
  - change (List.filter (equiv_by lt k) (y :: insert_by lt x l))
      with (if equiv_by lt k y then y :: List.filter (equiv_by lt k) (insert_by lt x l)
            else List.filter (equiv_by lt k) (insert_by lt x l)).
    rewrite IH by assumption. cbn [List.filter].
    destruct (equiv_by lt k y); reflexivity.
Qed.

Lemma sort_onto_filter k l : forall placed,
  good k -> Forall good placed -> Forall good l ->
  StronglySorted (fun a b => lt b a = false) placed ->
  List.filter (equiv_by lt k) (sort_onto lt placed l)
  = List.filter (equiv_by lt k) placed ++ List.filter (equiv_by lt k) l.
Proof.
  induction l as [|x l IH]; intros placed Hk Hp Hl Hs; cbn [sort_onto].
  - now rewrite app_nil_r.
  - inversion Hl; subst. rewrite IH; try assumption.
    + rewrite insert_by_filter by assumption.
      rewrite <- app_assoc. f_equal. cbn [List.filter app].
      destruct (equiv_by lt k x); reflexivity.
    + apply insert_by_Forall; assumption.
    + apply insert_by_sorted; assumption.
Qed.

End StableSort.

Lemma StronglySorted_snoc {A} (R : A -> A -> Prop) l x :
  StronglySorted R l -> Forall (fun a => R a x) l -> StronglySorted R (l ++ [x]).
Proof.
  induction 1 as [|a l Hs IH Ha]; intros Hx; cbn.
  - repeat constructor.
  - inversion Hx; subst. constructor; [now apply IH|].
    apply Forall_app. split; [assumption|]. now repeat constructor.
Qed.

Lemma StronglySorted_rev {A} (R : A -> A -> Prop) l :
  StronglySorted R l -> StronglySorted (fun a b => R b a) (rev l).
Proof.
  induction 1 as [|a l Hs IH Ha]; cbn; [constructor|].
  apply StronglySorted_snoc; [assumption|].
  apply List.Forall_forall. intros b Hb. apply in_rev in Hb.
  rewrite List.Forall_forall in Ha. auto.
Qed.

Lemma StronglySorted_filter {A} (R : A -> A -> Prop) f l :
  StronglySorted R l -> StronglySorted R (List.filter f l).
Proof.
  induction 1 as [|a l Hs IH Ha]; cbn; [constructor|].
  destruct (f a); [|assumption]. constructor; [assumption|].
  rewrite List.Forall_forall in *. intros b Hb. apply List.filter_In in Hb. apply Ha, Hb.
Qed.

Lemma List_filter_rev {A} (f : A -> bool) l :
  List.filter f (rev l) = rev (List.filter f l).
Proof.
  induction l as [|a l IH]; [reflexivity|]. cbn [rev List.filter].
  rewrite List.filter_app, IH. cbn [List.filter].
  destruct (f a); cbn [rev]; [reflexivity|now rewrite app_nil_r].
Qed.

Lemma StronglySorted_middle {A} (R : A -> A -> Prop) l1 a l2 b l3 :
  StronglySorted R (l1 ++ a :: l2 ++ b :: l3) -> R a b.
Proof.
  induction l1 as [|x l1 IH]; cbn; intros H; inversion H as [|? ? Hs Hf]; subst.
  - rewrite List.Forall_forall in Hf. apply Hf. apply in_or_app. right. now left.
  - now apply IH.
Qed.

(** Sorting by a second key with a stable sort what is sorted by a first. *)
Lemma StronglySorted_two_keys {A} (S T : A -> A -> Prop) (E : A -> A -> bool) l :
  (forall a, In a l -> E a a = true) ->
  StronglySorted S l ->
  (forall k, In k l -> StronglySorted T (List.filter (E k) l)) ->
  StronglySorted (fun a b => S a b /\ (E a b = true -> T a b)) l.
Proof.
  induction l as [|a l IH]; intros Hrefl Hs Ht; [constructor|].
  inversion Hs as [|? ? Hsl Hal]; subst. constructor.
  - apply IH; [intros; apply Hrefl; now right|assumption|].
    intros k Hk. specialize (Ht k (or_intror Hk)). cbn in Ht.
    destruct (E k a); [now inversion Ht|assumption].
  - specialize (Ht a (or_introl eq_refl)). cbn in Ht.
    rewrite (Hrefl a) in Ht by now left. inversion Ht as [|? ? _ Hfa]; subst.
    rewrite List.Forall_forall in *. intros b Hb. split; [auto|].
    intros Eab. apply Hfa. apply List.filter_In. auto.
Qed.

(** ** [sorted(..., reverse=True)] by a float key *)

Section SortedDescending.

Context {A : Type}.
Variable key : A -> float.

Lemma sorted_reverse_perm l : Permutation (sorted l key fltb true) l.
Proof.
  unfold sorted. rewrite <- Permutation_rev, sort_onto_perm. cbn.
  symmetry. apply Permutation_rev.
Qed.

Lemma sorted_reverse_Forall (P : A -> Prop) l :
  Forall P l -> Forall P (sorted l key fltb true).
Proof.
  intros H. eapply Permutation_Forall; [symmetry; apply sorted_reverse_perm|assumption].
Qed.

Lemma ltk_irrefl (a : A) :
  is_nan (key a) = false -> (fun a b => fltb (key a) (key b)) a a = false.
Proof. apply fltb_irrefl. Qed.

Lemma ltk_trans (a b c : A) :
  is_nan (key a) = false -> is_nan (key b) = false -> is_nan (key c) = false ->
  (fun a b => fltb (key a) (key b)) a b = true ->
  (fun a b => fltb (key a) (key b)) b c = true ->
  (fun a b => fltb (key a) (key b)) a c = true.
Proof. apply fltb_trans. Qed.

Lemma ltk_ge_trans (a b c : A) :
  is_nan (key a) = false -> is_nan (key b) = false -> is_nan (key c) = false ->
  (fun a b => fltb (key a) (key b)) a b = false ->
  (fun a b => fltb (key a) (key b)) b c = false ->
  (fun a b => fltb (key a) (key b)) a c = false.
Proof. apply fltb_ge_trans. Qed.

(** Descending: no element is below a later one. *)
Lemma sorted_reverse_descending l :
  Forall (fun a => is_nan (key a) = false) l ->
  StronglySorted (fun a b => fltb (key a) (key b) = false) (sorted l key fltb true).
Proof.
  intros Hg. unfold sorted.
  apply (StronglySorted_rev (fun a b => fltb (key b) (key a) = false)).
  apply (sort_onto_sorted _ _ ltk_irrefl ltk_trans ltk_ge_trans).
  - constructor.
  - apply Forall_rev. exact Hg.
  - constructor.
Qed.

(** Stable: elements with equal keys keep their order. *)
Lemma sorted_reverse_stable k l :
  is_nan (key k) = false ->
  Forall (fun a => is_nan (key a) = false) l ->
  List.filter (equiv_by (fun a b => fltb (key a) (key b)) k) (sorted l key fltb true)
  = List.filter (equiv_by (fun a b => fltb (key a) (key b)) k) l.
Proof.
  intros Hk Hg. unfold sorted. rewrite List_filter_rev.
  rewrite (sort_onto_filter _ _ ltk_irrefl ltk_trans ltk_ge_trans k (rev l) []);
    try assumption; try constructor.
  - cbn. rewrite List_filter_rev. apply rev_involutive.
  - apply Forall_rev. exact Hg.
Qed.

End SortedDescending.

(** ** [files_and_coords]: the tiles and their order *)

Section FilesAndCoords.

Variable w : World.

Lemma tile_coords_positioned vol :
  positioned vol ->
  exists coords x y,
    tile_coords (position_relative vol) = Ok coords
    /\ nth 0 coords S754_nan = x /\ nth 1 coords S754_nan = y
    /\ is_nan x = false /\ is_nan y = false.
Proof.
  unfold positioned. destruct (position_relative vol) as [[|x [|y [|z rest]]]|];
    try contradiction; intros [Hx Hy]; cbn; eauto 10.
Qed.

Lemma collect_tiles_positioned m vols : forall tiles,
  Forall positioned vols ->
  exists new,
    collect_tiles w m vols tiles = Ok (tiles ++ new) /\ Forall has_position new.
Proof.
  induction vols as [|vol vols IH]; intros tiles Hp; cbn [collect_tiles].
  - exists []. rewrite app_nil_r. auto.
  - inversion Hp as [|? ? Hvol Hvols]; subst.
    destruct (tile_coords_positioned vol Hvol) as (coords & x & y & -> & Hx & Hy & Nx & Ny).
    destruct (IH (tiles ++ [(replace (strip_prefix w (full (storage (base vol)))
                                        (path (storage (m_base m)))) "\" "/", coords)])
                 Hvols) as (new & -> & Hnew).
    eexists (_ :: new). rewrite <- app_assoc. split; [reflexivity|].
    constructor; [|assumption]. unfold has_position, coord. cbn [snd].
    rewrite Hx, Hy. auto.
Qed.

(** C2.  For a mosaic whose sub-volumes all have a relative position,
    [files_and_coords(sort=True)] returns a permutation of what
    [files_and_coords(sort=False)] returns, and of any two tiles of the
    sorted list the earlier has the greater second coordinate or, that
    being equal, a first coordinate that is not smaller. *)
Theorem files_and_coords_sort_order m :
  Forall positioned (subvol m) ->
  exists tiles sorted_tiles,
    files_and_coords w m false = Ok tiles
    /\ files_and_coords w m true = Ok sorted_tiles
    /\ Permutation sorted_tiles tiles
    /\ forall l1 a l2 b l3,
         sorted_tiles = l1 ++ a :: l2 ++ b :: l3 -> scan_order a b.
Proof.
  intros Hp. destruct (collect_tiles_positioned m (subvol m) [] Hp) as (tiles & E & Hg).
  cbn [app] in E. unfold files_and_coords. rewrite E. cbn [res_bind].
  exists tiles, (sorted (sorted tiles (coord 0) fltb true) (coord 1) fltb true).
  split; [reflexivity|]. split; [reflexivity|].
  set (pass1 := sorted tiles (coord 0) fltb true).
  set (pass2 := sorted pass1 (coord 1) fltb true).
  assert (Hperm1 : Permutation pass1 tiles) by apply sorted_reverse_perm.
  assert (Hperm2 : Permutation pass2 pass1) by apply sorted_reverse_perm.
  assert (Hg1 : Forall has_position pass1)
    by (eapply Permutation_Forall; [symmetry; exact Hperm1|exact Hg]).
  assert (Hg2 : Forall has_position pass2)
    by (eapply Permutation_Forall; [symmetry; exact Hperm2|exact Hg1]).
  split; [now rewrite Hperm2|].
  assert (Hs : StronglySorted
                 (fun a b => fltb (coord 1 a) (coord 1 b) = false
                             /\ (equiv_by (fun a b => fltb (coord 1 a) (coord 1 b)) a b = true ->
                                 fltb (coord 0 a) (coord 0 b) = false)) pass2).
  { apply StronglySorted_two_keys.
    - intros a Ha. rewrite List.Forall_forall in Hg2. destruct (Hg2 a Ha) as [_ Hy].
      unfold equiv_by. now rewrite fltb_irrefl.
    - apply sorted_reverse_descending.
      eapply List.Forall_impl; [|exact Hg1]. now intros a [_ Hy].
    - intros k Hk. unfold pass2. rewrite sorted_reverse_stable.
      + apply StronglySorted_filter. apply sorted_reverse_descending.
        eapply List.Forall_impl; [|exact Hg]. now intros a [Hx _].
      + rewrite List.Forall_forall in Hg2. now destruct (Hg2 k Hk).
      + eapply List.Forall_impl; [|exact Hg1]. now intros a [_ Hy]. }
  intros l1 a l2 b l3 Heq.
  assert (Ha : has_position a).
  { rewrite List.Forall_forall in Hg2. apply Hg2. rewrite Heq.
    apply in_or_app. right. now left. }
  assert (Hb : has_position b).
  { rewrite List.Forall_forall in Hg2. apply Hg2. rewrite Heq.
    apply in_or_app. right. right. apply in_or_app. right. now left. }
  rewrite Heq in Hs. apply StronglySorted_middle in Hs as [Hy Hx].
  destruct Ha as [Hax Hay], Hb as [Hbx Hby]. unfold scan_order.
  destruct (fltb_false_cases _ _ Hay Hby Hy) as [Hlt|Heqy]; [now left|].
  right. split; [assumption|]. apply fltb_false_fleb; try assumption.
  apply Hx.
  change (equiv_by fltb (coord 1 a) (coord 1 b) = true).
  rewrite equiv_by_feqb by assumption. exact Heqy.
Qed.

End FilesAndCoords.

Lemma files_and_coords_sort_order_witness :
  exists tiles sorted_tiles,
    files_and_coords (Demo.world []) Demo.mosaic_2x2 false = Ok tiles
    /\ files_and_coords (Demo.world []) Demo.mosaic_2x2 true = Ok sorted_tiles
    /\ Permutation sorted_tiles tiles
    /\ forall l1 a l2 b l3,
         sorted_tiles = l1 ++ a :: l2 ++ b :: l3 -> scan_order a b.
Proof.
  apply (files_and_coords_sort_order (Demo.world []) Demo.mosaic_2x2).
  repeat constructor.
Defined.

Example files_and_coords_2x2 :
  files_and_coords (Demo.world []) Demo.mosaic_2x2 true
  = Ok [("t11.oif", [Demo.f90; Demo.f90]); ("t01.oif", [S754_zero false; Demo.f90]);
        ("t10.oif", [Demo.f90; S754_zero false]);
        ("t00.oif", [S754_zero false; S754_zero false])].
Proof. vm_compute. reflexivity. Qed.

(** ** Frame rules *)

Lemma keeps_self_ret {O A} (a : A) : keeps_self (@ret O A a).
Proof. intros s. reflexivity. Qed.

Lemma keeps_self_raise {O A} e : keeps_self (@raise O A e).
Proof. intros s. reflexivity. Qed.

Lemma keeps_self_lift {O A} (r : res A) : keeps_self (@lift O A r).
Proof. intros s. reflexivity. Qed.

Lemma keeps_self_self {O} : keeps_self (@self O).
Proof. intros s. reflexivity. Qed.

Lemma keeps_self_log {O} l fmt args : keeps_self (@log O l fmt args).
Proof. intros s. reflexivity. Qed.

Lemma keeps_self_bind {O A B} (m : M O A) (k : A -> M O B) :
  keeps_self m -> (forall a, keeps_self (k a)) -> keeps_self (bind m k).
Proof.
  intros Hm Hk s. unfold bind. specialize (Hm s).
  destruct (m s) as [[a|e] s']; cbn in *; [|assumption].
  rewrite Hk. assumption.
Qed.

Lemma keeps_self_try_except {O A} (body : M O A) catches handler :
  keeps_self body -> (forall e, keeps_self (handler e)) ->
  keeps_self (try_except body catches handler).
Proof.
  intros Hb Hh s. unfold try_except. specialize (Hb s).
  destruct (body s) as [[a|e] s']; cbn in *; [assumption|].
  destruct (catches e); [|assumption]. rewrite Hh. assumption.
Qed.

Lemma keeps_self_call {O P A} (o : P) (m : M P A) : keeps_self (@call O P A o m).
Proof.
  intros s. unfold call. now destruct (m (o, snd s)) as [[a|e] [o' env']].
Qed.

(** Decompose a body into its statements. *)
Ltac keeps_self_tac :=
  repeat first
    [ match goal with H : context [keeps_self] |- _ => simple apply H end
    | apply keeps_self_ret | apply keeps_self_raise | apply keeps_self_lift
    | apply keeps_self_self | apply keeps_self_log | apply keeps_self_call
    | apply keeps_self_bind; [|intros ?]
    | apply keeps_self_try_except; [|intros ?]
    | match goal with
      | |- keeps_self (match ?x with _ => _ end) => destruct x
      end
    | assumption
    | progress cbv beta zeta ].

Section KeepsSelf.

Variable w : World.
Context {O : Type}.

Lemma DataSet_init_keeps_self a b c : keeps_self (@DataSet_init w O a b c).
Proof. unfold DataSet_init. keeps_self_tac. Qed.

Lemma MosaicDataCuboid_init_keeps_self a b c :
  keeps_self (@MosaicDataCuboid_init w O a b c).
Proof.
  unfold MosaicDataCuboid_init, MosaicData_init.
  pose proof DataSet_init_keeps_self. keeps_self_tac.
Qed.

Lemma image_init_keeps_self c p : keeps_self (@image_init w O c p).
Proof.
  unfold image_init, ImageDataOIF_init, ImageDataOIB_init, ImageDataOIR_init,
    ImageDataOlympus_init, ImageData_init.
  pose proof DataSet_init_keeps_self. keeps_self_tac.
Qed.

End KeepsSelf.

(** ** [FluoViewMosaic.add_mosaic]: a mosaic with a missing tile *)

Section IncompleteMosaic.

Import FluoView.FluoViewMosaic.

Variable w : World.

Lemma read_subvol_keeps_self img c fname m : keeps_self (read_subvol w img c fname m).
Proof.
  unfold read_subvol. pose proof (@image_init_keeps_self w t). keeps_self_tac.
Qed.

Lemma image_loop_keeps_self imgs : forall m f, keeps_self (image_loop w imgs m f).
Proof.
  induction imgs as [|img imgs IH]; intros m f; cbn [image_loop].
  - apply keeps_self_ret.
  - pose proof read_subvol_keeps_self. keeps_self_tac.
Qed.

Lemma open_mosaic_keeps_self tree index : keeps_self (open_mosaic w tree index).
Proof.
  unfold open_mosaic, assert_eq.
  pose proof (@MosaicDataCuboid_init_keeps_self w t). keeps_self_tac.
Qed.

(** The loop over a list of tiles, the first part of which is read
    without failure, continues with the rest. *)
Lemma image_loop_app pre : forall rest m f s m1 f1 s1,
  image_loop w pre m f s = (Ok (Some m1, f1), s1) ->
  image_loop w (pre ++ rest) m f s = image_loop w rest m1 f1 s1.
Proof.
  induction pre as [|img pre IH]; intros rest m f s m1 f1 s1 H.
  - cbn in H. inversion H. reflexivity.
  - cbn [app image_loop] in *.
    apply bind_inv_ok in H as (fname & s2 & H1 & H). rewrite (bind_ok _ _ _ _ _ H1).
    apply bind_inv_ok in H as (c & s3 & H2 & H). rewrite (bind_ok _ _ _ _ _ H2).
    apply bind_inv_ok in H as (r & s4 & H3 & H). rewrite (bind_ok _ _ _ _ _ H3).
    destruct r as [m'|].
    + now apply IH.
    + inversion H.
Qed.

(** The suffix test of the loop. *)
Lemma subvol_reader_choice (fname : string) (c : image_class) (s : t * Env) :
  (last_chars 3 fname = "oif" /\ c = ImageDataOIF)
  \/ (last_chars 3 fname = "oib" /\ c = ImageDataOIB) ->
  (if String.eqb (last_chars 3 fname) "oif" then ret ImageDataOIF
   else if String.eqb (last_chars 3 fname) "oib" then ret ImageDataOIB
   else raise IOError) s = (Ok c, s).
Proof.
  intros [[-> ->]|[-> ->]]; reflexivity.
Qed.

(** C4.  In [add_mosaic], let the tiles before [img] be read without
    failure and let the instantiation of the dataset for [img] raise
    [IOError].  Then [add_mosaic] returns normally with the experiment
    object as it was (no dataset added, none partially filled), its last
    two log entries are the warnings naming the mosaic index and the file
    name of [img], and the loop of [add_mosaics] goes on with the trees
    that follow. *)
Theorem add_mosaic_skips_incomplete_mosaic tree index e env
    index' m0 e0 env0 pre img post m1 last e1 env1 fname c :
  open_mosaic w tree index (e, env) = (Ok (index', m0), (e0, env0)) ->
  ImageInfos tree = pre ++ img :: post ->
  image_loop w pre m0 None (e0, env0) = (Ok (Some m1, last), (e1, env1)) ->
  Filename img = Ok fname ->
  (last_chars 3 fname = "oif" /\ c = ImageDataOIF)
  \/ (last_chars 3 fname = "oib" /\ c = ImageDataOIB) ->
  fst (image_init w c (String.append (path (infile e1)) fname) (e1, env1))
  = Raise IOError ->
  exists env',
    add_mosaic w tree index (e, env) = (Ok tt, (e, env'))
    /\ (exists l, env_log env'
          = l ++ [LogEntry WARN "Mosaic %s: incomplete subvolumes, SKIPPING!" [PInt index'];
                  LogEntry WARN "First incomplete/missing subvolume: %s" [PStr fname]])
    /\ (index = -1 -> forall trees,
          add_mosaics_loop w (tree :: trees) (e, env)
          = add_mosaics_loop w trees (e, env')).
Proof.
  intros Hopen Himgs Hpre Hname Hreader Hinit.
  assert (He0 : e0 = e).
  { pose proof (open_mosaic_keeps_self tree index (e, env)) as K.
    rewrite Hopen in K. exact K. }
  subst e0.
  assert (He1 : e1 = e).
  { pose proof (image_loop_keeps_self pre m0 None (e, env0)) as K.
    rewrite Hpre in K. exact K. }
  subst e1.
  destruct (image_init w c (String.append (path (infile e)) fname) (e, env1))
    as [r [e2 env2]] eqn:Einit.
  cbn [fst] in Hinit. subst r.
  assert (He2 : e2 = e).
  { pose proof (image_init_keeps_self w c (String.append (path (infile e)) fname)
                  (e, env1)) as K.
    rewrite Einit in K. exact K. }
  subst e2.
  set (env3 := mkEnv (env_log env2 ++ [LogEntry INFO "Broken/missing image data: %s" []])
                 (env_parsed env2)).
  assert (Hloop : image_loop w (ImageInfos tree) m0 None (e, env0)
                  = (Ok (None, Some fname), (e, env3))).
  { rewrite Himgs, (image_loop_app pre (img :: post) _ _ _ _ _ _ Hpre).
    cbn [image_loop]. unfold bind at 1. unfold lift at 1. rewrite Hname.
    unfold bind at 1. rewrite (subvol_reader_choice fname c _ Hreader).
    unfold bind at 1. unfold try_except. unfold bind at 1. unfold read_subvol.
    unfold bind at 1. unfold self at 1. cbn [fst].
    unfold bind at 1. rewrite Einit. reflexivity. }
  set (env' := mkEnv
    ((env_log env3 ++ [LogEntry WARN "Mosaic %s: incomplete subvolumes, SKIPPING!" [PInt index']])
       ++ [LogEntry WARN "First incomplete/missing subvolume: %s" [PStr fname]])
    (env_parsed env3)).
  assert (Hadd : add_mosaic w tree index (e, env) = (Ok tt, (e, env'))).
  { unfold add_mosaic. unfold bind at 1. rewrite Hopen.
    unfold bind at 1. rewrite Hloop. reflexivity. }
  exists env'. split; [exact Hadd|]. split.
  - exists (env_log env3). unfold env'. cbn [env_log]. now rewrite <- app_assoc.
  - intros -> trees. cbn [add_mosaics_loop]. unfold bind at 1. now rewrite Hadd.
Qed.

End IncompleteMosaic.

Lemma add_mosaic_skips_incomplete_mosaic_witness :
  exists env',
    FluoView.FluoViewMosaic.add_mosaic (Demo.world Demo.project_files)
      Demo.mosaic_tree (-1) (Demo.project, env0)
    = (Ok tt, (Demo.project, env'))
    /\ exists l, env_log env'
         = l ++ [LogEntry WARN "Mosaic %s: incomplete subvolumes, SKIPPING!" [PInt 0];
                 LogEntry WARN "First incomplete/missing subvolume: %s"
                   [PStr "Slide2\Slide2.oif"]].
Proof.
  edestruct (add_mosaic_skips_incomplete_mosaic (Demo.world Demo.project_files)
               Demo.mosaic_tree (-1) Demo.project env0)
    with (pre := [Demo.tile_info "Slide1\Slide1.oif" 0 0 0])
         (img := Demo.tile_info "Slide2\Slide2.oif" 1 0 1)
         (post := @nil FluoView.FluoViewMosaic.ImageInfo)
         (c := ImageDataOIF)
    as (env' & Hadd & Hlog & _).
  - vm_compute. reflexivity.
  - reflexivity.
  - vm_compute. reflexivity.
  - reflexivity.
  - left. split; reflexivity.
  - vm_compute. reflexivity.
  - exists env'. split; [exact Hadd|exact Hlog].
Defined.

(** The loop of [add_mosaics] on the example project: the first mosaic is
    skipped, the second is added. *)
Example add_mosaics_continues :
  let out := FluoView.FluoViewMosaic.add_mosaics (Demo.world Demo.project_files)
               (Demo.project, env0) in
  fst out = Ok tt
  /\ map (fun m => (supplement (m_base m) !! "index", length (subvol m)))
         (FluoView.FluoViewMosaic.datasets (fst (snd out)))
     = [(Some (PInt 1), 1%nat)].
Proof. vm_compute. split; reflexivity. Qed.

(** ** Parser runs *)

Lemma keeps_parsed_ret {O A} (a : A) : keeps_parsed (@ret O A a).
Proof. intros s. reflexivity. Qed.

Lemma keeps_parsed_raise {O A} e : keeps_parsed (@raise O A e).
Proof. intros s. reflexivity. Qed.

Lemma keeps_parsed_lift {O A} (r : res A) : keeps_parsed (@lift O A r).
Proof. intros s. reflexivity. Qed.

Lemma keeps_parsed_self {O} : keeps_parsed (@self O).
Proof. intros s. reflexivity. Qed.

Lemma keeps_parsed_update {O} f : keeps_parsed (@update O f).
Proof. intros s. reflexivity. Qed.

Lemma keeps_parsed_log {O} l fmt args : keeps_parsed (@log O l fmt args).
Proof. intros s. reflexivity. Qed.

Lemma keeps_parsed_bind {O A B} (m : M O A) (k : A -> M O B) :
  keeps_parsed m -> (forall a, keeps_parsed (k a)) -> keeps_parsed (bind m k).
Proof.
  intros Hm Hk s. unfold bind. specialize (Hm s).
  destruct (m s) as [[a|e] s']; cbn in *; [|assumption].
  rewrite Hk. assumption.
Qed.

Lemma keeps_parsed_try_except {O A} (body : M O A) catches handler :
  keeps_parsed body -> (forall e, keeps_parsed (handler e)) ->
  keeps_parsed (try_except body catches handler).
Proof.
  intros Hb Hh s. unfold try_except. specialize (Hb s).
  destruct (body s) as [[a|e] s']; cbn in *; [assumption|].
  destruct (catches e); [|assumption]. rewrite Hh. assumption.
Qed.

Lemma keeps_parsed_call {O P A} (o : P) (m : M P A) :
  keeps_parsed m -> keeps_parsed (@call O P A o m).
Proof.
  intros Hm s. unfold call. specialize (Hm (o, snd s)).
  now destruct (m (o, snd s)) as [[a|e] [o' env']].
Qed.

Ltac keeps_parsed_tac :=
  repeat first
    [ match goal with H : context [keeps_parsed] |- _ => simple apply H end
    | apply keeps_parsed_ret | apply keeps_parsed_raise | apply keeps_parsed_lift
    | apply keeps_parsed_self | apply keeps_parsed_log | apply keeps_parsed_update
    | apply keeps_parsed_call
    | apply keeps_parsed_bind; [|intros ?]
    | apply keeps_parsed_try_except; [|intros ?]
    | match goal with
      | |- keeps_parsed (match ?x with _ => _ end) => destruct x
      end
    | assumption
    | progress cbv beta zeta ].

Section ParserRuns.

Variable w : World.

Lemma image_init_keeps_parsed {O} c p : keeps_parsed (@image_init w O c p).
Proof.
  unfold image_init, ImageDataOIF_init, ImageDataOIB_init, ImageDataOIR_init,
    ImageDataOlympus_init, ImageData_init, DataSet_init, validate_filepath,
    setup_parser_OIF, setup_parser_OIB.
  keeps_parsed_tac.
Qed.

Lemma MosaicDataCuboid_init_keeps_parsed {O} a b c :
  keeps_parsed (@MosaicDataCuboid_init w O a b c).
Proof.
  unfold MosaicDataCuboid_init, MosaicData_init, DataSet_init. keeps_parsed_tac.
Qed.

Lemma set_overlap_keeps_parsed v u : keeps_parsed (set_overlap v u).
Proof. unfold set_overlap. keeps_parsed_tac. Qed.

Lemma add_subvol_keeps_parsed d : keeps_parsed (add_subvol d).
Proof. unfold add_subvol. keeps_parsed_tac. Qed.

(** A fresh [ImageDataOIR] has no dimensions yet. *)
Lemma ImageDataOIR_init_dim {O} p (s : O * Env) :
  wp (ImageDataOIR_init w p) s (fun r s' =>
    forall d, r = Ok d -> _dim d = None /\ cls d = ImageDataOIR).
Proof.
  unfold ImageDataOIR_init, ImageDataOlympus_init, ImageData_init, DataSet_init,
    validate_filepath.
  wp_run; intros d H; inversion H; subst; fsimp; auto.
Qed.

(** With the dimensions cached, [set_relpos] starts no parser and keeps
    the dimensions and the storage of the object. *)
Lemma set_relpos_cached ov d env dims :
  _dim d = Some dims ->
  wp (set_relpos w ov) (d, env) (fun r s' =>
    env_parsed (snd s') = env_parsed env
    /\ (r = Ok tt -> _dim (fst s') = Some dims /\ base (fst s') = base d)).
Proof.
  intros Hd. unfold set_relpos.
  repeat (cbv beta iota zeta;
          lazymatch goal with
          | |- wp (get_dimensions w) _ _ =>
              apply (wp_eq _ (ret (Some dims)));
              [apply get_dimensions_cached; exact Hd|]
          | _ => wp_step
          end).
  all: fsimp; split; try reflexivity; try discriminate.
  intros _. auto.
Qed.

End ParserRuns.

(** ** [FluoView3kMosaic]: one parsed tile size for all tiles *)

Section CommonTileSize.

Import FluoView.FluoView3kMosaic.

Variable w : World.

Ltac esimp :=
  cbn [fst snd datasets infile supplement tile_size common_tile_size mosaictrees
       set_tile_size append_dataset env_log env_parsed].

Ltac wp_go :=
  repeat (cbv beta iota zeta; esimp; fsimp; wp_step);
  cbv beta iota zeta; esimp; fsimp.

Lemma ImageDataOIR_init_spec p (s : t * Env) :
  wp (ImageDataOIR_init w p) s (fun r s' =>
    fst s' = fst s /\ env_parsed (snd s') = env_parsed (snd s)
    /\ forall d, r = Ok d -> _dim d = None /\ cls d = ImageDataOIR).
Proof.
  apply wp_intro. intros r s' E.
  pose proof (image_init_keeps_self w ImageDataOIR p s) as K1.
  pose proof (image_init_keeps_parsed w ImageDataOIR p s) as K2.
  cbn [image_init] in K1, K2. rewrite E in K1, K2. cbn [snd] in K1, K2.
  split; [assumption|]. split; [assumption|].
  exact (wp_elim _ _ _ _ _ (ImageDataOIR_init_dim w p s) E).
Qed.

Lemma get_dimensions_OIR_fresh d env :
  cls d = ImageDataOIR -> _dim d = None ->
  wp (get_dimensions w) (d, env) (fun r s' =>
    env_parsed (snd s') = env_parsed env ++ [full (storage (base d))]
    /\ base (fst s') = base d
    /\ forall v, r = Ok v ->
         exists dims x y fp b,
           v = Some dims /\ _dim (fst s') = Some dims
           /\ dims !! "X" = Some x /\ dims !! "Y" = Some y
           /\ frameprops w fp = Ok (Ok x, Ok y, b)).
Proof.
  intros Hcls Hdim. unfold get_dimensions, _parse_dimensions.
  repeat (cbv beta iota zeta; fsimp; rewrite ?Hdim, ?Hcls; wp_step).
  cbv beta iota zeta; fsimp; rewrite ?Hdim, ?Hcls; cbv beta iota.
  wp_use _parse_dimensions_OIR_spec. fsimp. intros (Hb & He & Hd).
  wp_run; fsimp; repeat split; try assumption; try discriminate.
  intros v Hv. inversion Hv; subst.
  destruct Hd as (dims & x & y & fp & b & Hd1 & Hx & Hy & Hfp);
    [match goal with |- Ok ?a = _ => now destruct a end|].
  exists dims, x, y, fp, b. auto.
Qed.

(** With a tile size cached, the sharing block forces it on the tile. *)
Lemma share_tile_size_cached d e env :
  common_tile_size e = true -> size_cached e ->
  share_tile_size w d (e, env) = (Ok (set_dim (tile_size e) d), (e, env)).
Proof.
  intros Hc (ts & x & y & Hts & Hx & Hy & Nx & Ny).
  unfold share_tile_size, tile_size_getitem, dims_getitem, dim_get.
  munfold1. rewrite Hc. munfold1. rewrite Hts, Hx. munfold1.
  destruct (Z.eqb_spec x (-1)) as [|_]; [contradiction|]. munfold1.
  rewrite Hts, Hy. munfold1.
  destruct (Z.eqb_spec y (-1)) as [|_]; [contradiction|]. munfold1.
  now rewrite Hts.
Qed.

(** Without one, the tile's own parser runs once, and on success its
    result becomes the cached size. *)
Lemma share_tile_size_fresh d e env :
  common_tile_size e = true -> tile_size e = Some tile_size_unset ->
  cls d = ImageDataOIR -> _dim d = None ->
  wp (share_tile_size w d) (e, env) (fun r s' =>
    env_parsed (snd s') = env_parsed env ++ [full (storage (base d))]
    /\ common_tile_size (fst s') = true
    /\ infile (fst s') = infile e /\ supplement (fst s') = supplement e
    /\ forall sub, r = Ok sub ->
         base sub = base d
         /\ exists dims x y fp b,
              _dim sub = Some dims /\ tile_size (fst s') = Some dims
              /\ dims !! "X" = Some x /\ dims !! "Y" = Some y
              /\ frameprops w fp = Ok (Ok x, Ok y, b)).
Proof.
  intros Hc Hts Hcls Hdim.
  unfold share_tile_size, tile_size_getitem.
  repeat (cbv beta iota zeta; esimp; rewrite ?Hc, ?Hts;
          try change (dims_getitem (Some tile_size_unset) "X") with (@Ok Z (-1));
          try change (-1 =? -1) with true;
          wp_step).
  cbv beta iota zeta; esimp.
  eapply wp_conseq; [apply get_dimensions_OIR_fresh; assumption|].
  cbv beta. intros r s'.
  intros (He & Hb & Hd).
  wp_run; esimp; fsimp; repeat split; try assumption; try discriminate;
    try reflexivity.
  all: match goal with H : Ok _ = Ok _ |- _ => inversion H; subst end.
  - fsimp. assumption.
  - destruct (Hd a eq_refl) as (dims & x & y & fp & b & Hv & Hd' & Hx & Hy & Hfp).
    subst a. fsimp. exists dims, x, y, fp, b. auto.
Qed.

(** With a tile size cached, [parse_area] starts no parser, leaves the
    experiment object as it is, and returns a tile holding that size. *)
Lemma parse_area_cached tree e env :
  common_tile_size e = true -> size_cached e ->
  wp (parse_area w tree) (e, env) (fun r s' =>
    fst s' = e /\ env_parsed (snd s') = env_parsed env
    /\ forall sub, r = Ok sub -> _dim sub = tile_size e).
Proof.
  intros Hc Hsize. pose proof Hsize as (ts & x & y & Hts & _).
  unfold parse_area, set_stagecoords, set_tilenumbers, supplement_getitem.
  wp_go; try solve [repeat split; (reflexivity || discriminate)].
  wp_use ImageDataOIR_init_spec. esimp. intros (Hfst & Hpar & Hdim).
  wp_go; rewrite ?Hfst, ?Hpar;
    try solve [repeat split; (reflexivity || discriminate)].
  eapply wp_val; [apply share_tile_size_cached; assumption|].
  wp_go; rewrite ?Hpar; try solve [repeat split; (reflexivity || discriminate)].
  eapply wp_conseq; [apply (set_relpos_cached w _ _ _ ts); fsimp; exact Hts|].
  cbv beta. intros r1 s1 (Hpar1 & Hdim1). fsimp_in Hpar1.
  wp_go; rewrite ?Hpar1, ?Hpar;
    try solve [repeat split; (reflexivity || discriminate)].
  repeat split; try reflexivity. intros sub Hsub. inversion Hsub; subst.
  rewrite Hts. apply Hdim1. match goal with |- Ok ?a = _ => now destruct a end.
Qed.

(** Without a cached size, [parse_area] runs the parser of its tile, at
    most once on any outcome; on success the parsed dimensions are those
    of the tile and the size cached in the experiment. *)
Lemma parse_area_fresh tree e env :
  sizes_nonnegative w ->
  common_tile_size e = true -> tile_size e = Some tile_size_unset ->
  wp (parse_area w tree) (e, env) (fun r s' =>
    common_tile_size (fst s') = true
    /\ infile (fst s') = infile e /\ supplement (fst s') = supplement e
    /\ (exists l, env_parsed (snd s') = env_parsed env ++ l /\ (length l <= 1)%nat)
    /\ forall sub, r = Ok sub ->
         env_parsed (snd s') = env_parsed env ++ [full (storage (base sub))]
         /\ tile_size (fst s') = _dim sub /\ size_cached (fst s')).
Proof.
  intros Hnn Hc Hts.
  assert (Hnil : exists l, env_parsed env = env_parsed env ++ l /\ (length l <= 1)%nat)
    by (exists []; rewrite app_nil_r; cbn; auto).
  unfold parse_area, set_stagecoords, set_tilenumbers, supplement_getitem.
  wp_go; try solve [repeat split; try assumption; (reflexivity || discriminate)].
  wp_use ImageDataOIR_init_spec. esimp. intros (Hfst & Hpar & Hdim).
  wp_go; rewrite ?Hfst, ?Hpar;
    try solve [repeat split; try assumption; (reflexivity || discriminate)].
  match goal with
  | H : forall d, Ok ?a = Ok d -> _ |- _ => destruct (H a eq_refl) as [Hd0 Hcls0]
  end.
  eapply wp_conseq;
    [apply share_tile_size_fresh; try assumption; fsimp; assumption|].
  cbv beta. fsimp. intros r1 s1 (Hpar1 & Hc1 & Hin1 & Hsup1 & Hsub1).
  assert (Hone : exists l, env_parsed (snd s1) = env_parsed env ++ l /\ (length l <= 1)%nat)
    by (eexists; split; [rewrite Hpar1, ?Hpar; reflexivity|cbn; auto]).
  wp_go; try solve [repeat split; try assumption; (reflexivity || discriminate)].
  match goal with
  | H : forall sub, Ok ?a = Ok sub -> _ |- _ =>
      destruct (H a eq_refl) as (Hbase & dims & x & y & fp & b & Hdims & Hts1 & Hx & Hy & Hfp)
  end.
  eapply wp_conseq; [apply (set_relpos_cached w _ _ _ dims); exact Hdims|].
  cbv beta. intros r2 s2 (Hpar2 & Hdim2).
  wp_go; rewrite ?Hpar2;
    try solve [repeat split; try assumption; (reflexivity || discriminate)].
  destruct Hdim2 as [Hd2 Hb2]; [match goal with |- Ok ?a = _ => now destruct a end|].
  destruct (Hnn _ _ _ _ Hfp) as [Hx0 Hy0].
  split; [assumption|]. split; [assumption|]. split; [assumption|].
  split; [rewrite Hpar1, ?Hpar; eexists; split; [reflexivity|cbn; auto]|].
  intros sub Hsub. inversion Hsub; subst. clear Hsub.
  split; [rewrite Hpar1, ?Hpar, Hb2, Hbase; reflexivity|].
  split; [congruence|].
  exists dims, x, y. repeat split; try assumption; lia.
Qed.

End CommonTileSize.

Example sizes_nonnegative_demo files : sizes_nonnegative (Demo.world files).
Proof. intros x px py b H. inversion H. lia. Qed.

(** ** The constructors of the image classes *)

Section Constructors.

Variable w : World.

Lemma image_init_outcome {O} c st_path (s : O * Env) :
  wp (image_init w c st_path) s (fun r s' =>
    let literal := parse_path w st_path in
    let repaired :=
      parse_path w (replace (orig literal) (ext literal)
                      (String.append "_01" (ext literal))) in
    (path_exists w (full literal) = false ->
     path_exists w (full repaired) = false -> r = Raise IOError)
    /\ forall d, r = Ok d ->
      cls d = c
      /\ ds_type (base d) = "stack" /\ supplement (base d) = ∅
      /\ _dim d = None /\ position_stage d = PNone /\ position_relative d = None
      /\ path_exists w (full (storage (base d))) = true
      /\ (if path_exists w (full literal)
          then storage (base d) = with_type literal "tree"
          else storage (base d) = repaired)
      /\ match c with
         | ImageDataOIF =>
             exists p, parser d = Some p
                       /\ read_oif w (full (storage (base d))) = Ok p
         | ImageDataOIB => exists p, parser d = Some p
         | ImageDataOIR => parser d = None /\ _xml d = None
         end).
Proof.
  unfold image_init, ImageDataOIF_init, ImageDataOIB_init, ImageDataOIR_init,
    ImageDataOlympus_init, ImageData_init, DataSet_init, validate_filepath,
    setup_parser_OIF, setup_parser_OIB.
  wp_run; cbv zeta; (split; [|intros d H; inversion H; subst; clear H; fsimp]).
  all: cbn [with_type full orig ext] in *.
  all: repeat match goal with
       | H : negb ?b = true |- _ => apply negb_true_iff in H
       | H : negb ?b = false |- _ => apply negb_false_iff in H
       end.
  all: try discriminate.
  all: try (intros Hl Hr; congruence).
  all: repeat match goal with H : path_exists _ _ = _ |- _ => rewrite H end.
  all: repeat split; eauto.
Qed.

(** X1.  An image dataset that the constructor of [ImageDataOIF],
    [ImageDataOIB] or [ImageDataOIR] returns is a ['stack'] with an empty
    supplement, no dimensions and no position yet, and its storage path
    exists: it is the path given, tagged ['tree'], if that exists, and
    otherwise the repaired path as [parse_path] returns it, without the
    tag.  An [.oif] dataset holds the table read from that very file. *)
Theorem image_init_storage {O} c st_path (s s' : O * Env) d :
  image_init w c st_path s = (Ok d, s') ->
  let literal := parse_path w st_path in
  let repaired :=
    parse_path w (replace (orig literal) (ext literal)
                    (String.append "_01" (ext literal))) in
  cls d = c
  /\ ds_type (base d) = "stack" /\ supplement (base d) = ∅
  /\ _dim d = None /\ position_stage d = PNone /\ position_relative d = None
  /\ path_exists w (full (storage (base d))) = true
  /\ (if path_exists w (full literal)
      then storage (base d) = with_type literal "tree"
      else storage (base d) = repaired)
  /\ match c with
     | ImageDataOIF =>
         exists p, parser d = Some p
                   /\ read_oif w (full (storage (base d))) = Ok p
     | ImageDataOIB => exists p, parser d = Some p
     | ImageDataOIR => parser d = None /\ _xml d = None
     end.
Proof.
  intros H.
  exact (proj2 (wp_elim _ _ _ _ _ (image_init_outcome c st_path s) H) d eq_refl).
Qed.

End Constructors.

Lemma image_init_storage_witness :
  exists d,
    fst (image_init (Demo.world ["/data/scan/tile_01.oif"]) ImageDataOIF
           "/data/scan/tile.oif" (tt, env0)) = Ok d
    /\ storage (base d) = Demo.posix_parse_path "/data/scan/tile_01.oif"
    /\ st_type (storage (base d)) = None.
Proof.
  destruct (image_init (Demo.world ["/data/scan/tile_01.oif"]) ImageDataOIF
              "/data/scan/tile.oif" (tt, env0)) as [r s'] eqn:E.
  assert (Hr : is_ok r = true).
  { replace r with (fst (image_init (Demo.world ["/data/scan/tile_01.oif"])
                           ImageDataOIF "/data/scan/tile.oif" (tt, env0)))
      by now rewrite E.
    vm_compute. reflexivity. }
  destruct r as [d|]; [|discriminate]. exists d. split; [reflexivity|].
  pose proof (image_init_storage _ _ _ _ _ _ E) as (_ & _ & _ & _ & _ & _ & _ & Hst & _).
  cbv zeta in Hst.
  change (path_exists (Demo.world ["/data/scan/tile_01.oif"])
            (full (parse_path (Demo.world ["/data/scan/tile_01.oif"])
                     "/data/scan/tile.oif"))) with false in Hst.
  cbv iota in Hst. rewrite Hst. split; reflexivity.
Defined.

(** ** [_parse_dimensions]: what a failed parse leaves behind *)

Section FailedParse.

Import ScanSpec.

Variable w : World.

Lemma int_of_str_raises s e : int_of_str s = Raise e -> e = ValueError.
Proof.
  unfold int_of_str.
  destruct (lstrip s) as [|c t]; [cbn; congruence|].
  repeat (break_match; try congruence).
Qed.

Lemma py_int_str_raises v e :
  (exists s, v = PStr s) \/ v = PInt 0 -> py_int v = Raise e -> e = ValueError.
Proof.
  intros [[s ->]| ->]; cbn; [apply int_of_str_raises|discriminate].
Qed.

Lemma parser_get_raises p sec opt e :
  parser_get p sec opt = Raise e -> e = NoSectionError \/ e = NoOptionError.
Proof.
  unfold parser_get. destruct (p !! sec) as [opts|]; [|intros [= <-]; auto].
  destruct (opts !! opt); [discriminate|intros [= <-]; auto].
Qed.

Lemma _parse_dimensions_Olympus_outcome d env :
  wp _parse_dimensions_Olympus (d, env) (fun r s' =>
    env_parsed (snd s') = env_parsed env ++ [full (storage (base d))]
    /\ forall e, r = Raise e ->
         fst s' = d
         /\ (e = ValueError \/ e = NoSectionError
             \/ (e = AttributeError /\ parser d = None))).
Proof.
  unfold _parse_dimensions_Olympus.
  wp_run; (split; [reflexivity|]); intros err Herr; inversion Herr; subst;
    clear Herr; fsimp; (split; [reflexivity|]); auto.
  all: try discriminate.
  all: try (left; eapply py_int_str_raises; [|eassumption]; eauto).
  all: match goal with
       | H : parser_get _ _ _ = Raise ?e |- _ =>
           apply parser_get_raises in H as [-> | ->]; auto; discriminate
       end.
Qed.

(** X2.  A failed [_parse_dimensions] of an [.oif] or [.oib] dataset
    leaves the object exactly as it was, with no dimensions cached; the
    error is a [ValueError] or, for a missing section, the parser
    library's own [NoSectionError]; and the next [get_dimensions] starts
    the parser on the file again. *)
Theorem get_dimensions_Olympus_failure d env e d1 env1 :
  cls d = ImageDataOIF \/ cls d = ImageDataOIB ->
  _dim d = None -> parser d <> None ->
  get_dimensions w (d, env) = (Raise e, (d1, env1)) ->
  d1 = d
  /\ (e = ValueError \/ e = NoSectionError)
  /\ env_parsed env1 = env_parsed env ++ [full (storage (base d))]
  /\ env_parsed (snd (snd (get_dimensions w (d1, env1))))
     = env_parsed env1 ++ [full (storage (base d))].
Proof.
  intros Hcls Hdim Hparser.
  assert (Hrun : forall env0,
    wp (get_dimensions w) (d, env0) (fun r s' =>
      env_parsed (snd s') = env_parsed env0 ++ [full (storage (base d))]
      /\ forall e, r = Raise e ->
           fst s' = d
           /\ (e = ValueError \/ e = NoSectionError
             \/ (e = AttributeError /\ parser d = None)))).
  { intros env0. unfold get_dimensions, _parse_dimensions.
    repeat (cbv beta iota zeta; fsimp; rewrite ?Hdim; wp_step).
    cbv beta iota zeta; fsimp; rewrite ?Hdim; cbv beta iota.
    all: try (exfalso; destruct Hcls; congruence).
    all: wp_use _parse_dimensions_Olympus_outcome;
      fsimp; intros (He & Hr); wp_run; fsimp; (split; [assumption|]).
    all: intros err Herr; try discriminate Herr.
    all: inversion Herr; subst; apply Hr; reflexivity. }
  intros H. pose proof (wp_elim _ _ _ _ _ (Hrun env) H) as (He & Hr).
  cbn [fst snd] in He, Hr. destruct (Hr e eq_refl) as [Hd1 Hcases]. subst d1.
  split; [reflexivity|]. split; [|split; [assumption|]].
  - destruct Hcases as [?|[?|[_ ?]]]; auto. contradiction.
  - destruct (get_dimensions w (d, env1)) as [r2 s2] eqn:E2.
    exact (proj1 (wp_elim _ _ _ _ _ (Hrun env1) E2)).
Qed.

End FailedParse.

Lemma get_dimensions_Olympus_failure_witness :
  get_dimensions (Demo.world []) (set_parser (Some ∅) Demo.oif_image, env0)
  = (Raise NoSectionError,
     (set_parser (Some ∅) Demo.oif_image,
      mkEnv [LogEntry DEBUG "Parsing dimensions for [%s]..." [PStr "Slide1_01.oif"]]
        ["/data/Slide1/Slide1_01.oif"]))
  /\ env_parsed (snd (snd (get_dimensions (Demo.world [])
       (set_parser (Some ∅) Demo.oif_image,
        mkEnv [LogEntry DEBUG "Parsing dimensions for [%s]..." [PStr "Slide1_01.oif"]]
          ["/data/Slide1/Slide1_01.oif"]))))
     = ["/data/Slide1/Slide1_01.oif"; "/data/Slide1/Slide1_01.oif"].
Proof.
  assert (H : get_dimensions (Demo.world []) (set_parser (Some ∅) Demo.oif_image, env0)
    = (Raise NoSectionError,
       (set_parser (Some ∅) Demo.oif_image,
        mkEnv [LogEntry DEBUG "Parsing dimensions for [%s]..." [PStr "Slide1_01.oif"]]
          ["/data/Slide1/Slide1_01.oif"])))
    by (vm_compute; reflexivity).
  split; [exact H|].
  pose proof (get_dimensions_Olympus_failure (Demo.world [])
                (set_parser (Some ∅) Demo.oif_image) env0 _ _ _
                (or_introl eq_refl) eq_refl ltac:(discriminate) H)
    as (_ & _ & _ & Hagain).
  exact Hagain.
Defined.

(** ** [ImageDataOIR]: from the bytes of the file to the dimensions *)

Section OirDimensions.

Import ScanSpec.

Variable w : World.

(** The dict [_parse_dimensions] starts from. *)
Let zeros : gmap string Z :=
  list_to_map [("X", 0); ("Y", 0); ("Z", 0); ("C", 0); ("B", 0); ("T", 0)].

Lemma xml_outcome d env :
  wp (xml w) (d, env) (fun r s' =>
    env_parsed (snd s') = env_parsed env
    /\ (forall x0, _xml d = Some x0 -> s' = (d, env) /\ r = Ok x0)
    /\ exists xm,
         fst s' = set_xml xm d
         /\ forall x, r = Ok x ->
              xm = Some x
              /\ (_xml d = None ->
                  exists content,
                    read_bytes w (full (storage (base d))) = Ok content
                    /\ xml_sections 100 content = Ok x)).
Proof.
  unfold xml, _get_xml_sections.
  repeat (cbv beta iota zeta; fsimp; wp_step).
  all: cbv beta iota zeta; fsimp.
  all: repeat match goal with
       | H : _xml (set_xml _ _) = _ |- _ => progress fsimp_in H
       | H : _xml (fst (_, _)) = _ |- _ => progress fsimp_in H
       end.
  all: try (rewrite scan_file_xml_sections in * by reflexivity).
  all: repeat match goal with
       | H : Some _ = Some _ |- _ => inversion H; clear H; subst
       | H : Some _ = None |- _ => discriminate H
       | H : None = Some _ |- _ => discriminate H
       end.
  all: (split; [reflexivity|]).
  all: (split; [intros x0 Hx0; try congruence|]).
  all: try (split; congruence).
  all: match goal with
       | |- exists xm, set_xml ?v _ = set_xml xm _ /\ _ => exists v
       | |- exists xm, ?d = set_xml xm ?d /\ _ => exists (_xml d)
       end.
  all: (split; [try reflexivity; destruct d; reflexivity|]).
  all: intros x Hx; try congruence.
  all: split; [congruence|intros Hn; try discriminate Hn; eauto].
Qed.

Lemma zeros_insert_other k v (m : gmap string Z) key :
  k <> key -> (<[k := v]> m) !! key = m !! key.
Proof. intros H. now rewrite lookup_insert_ne. Qed.

Lemma _parse_frameprops_outcome fp d env :
  wp (_parse_frameprops w fp) (d, env) (fun r s' =>
    env_parsed (snd s') = env_parsed env
    /\ (forall m, _dim d = Some m ->
          exists m', fst s' = set_dim (Some m') d
            /\ m' !! "C" = m !! "C" /\ m' !! "T" = m !! "T" /\ m' !! "Z" = m !! "Z"
            /\ (r = Ok tt ->
                exists x y b,
                  frameprops w fp = Ok (Ok x, Ok y, Ok b)
                  /\ m' = <["B" := b]> (<["Y" := y]> (<["X" := x]> m))))).
Proof.
  unfold _parse_frameprops, dim_setitem.
  wp_run; fsimp; (split; [reflexivity|]); intros m Hm.
  all: repeat match goal with
       | H : _dim (set_dim _ _) = _ |- _ => progress fsimp_in H
       | H : _dim (fst (_, _)) = _ |- _ => progress fsimp_in H
       end.
  all: repeat match goal with
       | H : Some _ = Some _ |- _ => inversion H; clear H; subst
       end.
  all: try congruence.
  all: destruct d; cbn [set_dim base _dim position_stage position_relative
                        parser _xml cls] in *; subst.
  all: eexists; split; [reflexivity|].
  all: rewrite ?lookup_insert_ne by done.
  all: repeat split; try discriminate.
  all: intros _; eauto.
Qed.

Lemma _parse_imageprops_outcome ip d env :
  wp (_parse_imageprops w ip) (d, env) (fun r s' =>
    env_parsed (snd s') = env_parsed env
    /\ (forall m, _dim d = Some m ->
          match r with
          | Ok _ => exists z, imageprops w ip = Ok z
                              /\ fst s' = set_dim (Some (<["Z" := z]> m)) d
          | Raise _ => fst s' = d
          end)).
Proof.
  unfold _parse_imageprops, dim_setitem.
  wp_run; fsimp; (split; [reflexivity|]); intros m Hm.
  all: repeat match goal with
       | H : _dim (fst (_, _)) = _ |- _ => progress fsimp_in H
       end.
  all: try congruence.
  all: try reflexivity.
  eexists. split; [reflexivity|]. congruence.
Qed.

Lemma _parse_dimensions_OIR_outcome d env :
  wp (_parse_dimensions_OIR w) (d, env) (fun r s' =>
    env_parsed (snd s') = env_parsed env ++ [full (storage (base d))]
    /\ base (fst s') = base d /\ cls (fst s') = cls d
    /\ exists dims,
         _dim (fst s') = Some dims
         /\ dims !! "C" = Some 0 /\ dims !! "T" = Some 0
         /\ match r with
            | Raise _ => dims !! "Z" = Some 0
            | Ok _ =>
                exists found fp ip x y b z,
                  _xml (fst s') = Some found
                  /\ found !! "lsmframe:frameProperties" = Some fp
                  /\ found !! "lsmimage:imageProperties" = Some ip
                  /\ frameprops w fp = Ok (Ok x, Ok y, Ok b)
                  /\ imageprops w ip = Ok z
                  /\ dims = <["Z" := z]> (<["B" := b]> (<["Y" := y]> (<["X" := x]> zeros)))
                  /\ (_xml d = None ->
                      exists content,
                        read_bytes w (full (storage (base d))) = Ok content
                        /\ xml_sections 100 content = Ok found)
            end).
Proof.
  unfold _parse_dimensions_OIR. wp_run.
  wp_use xml_outcome. fsimp. intros (He1 & _ & xm1 & Hs1 & Hx1).
  destruct s' as [d1 env1]. cbn [fst snd] in Hs1, He1. subst d1.
  wp_run; try solve [fsimp; split;
                     [congruence|split; [reflexivity|split; [reflexivity|]];
                      exists zeros; repeat split; reflexivity]].
  match goal with H : forall x, Ok ?a = Ok x -> _ |- _ =>
    destruct (H a eq_refl) as (-> & Hfile); clear H end.
  unfold xml_getitem in *.
  match goal with H : match ?a !! _ with _ => _ end = Ok ?fp |- _ =>
    destruct (a !! "lsmframe:frameProperties") as [fp0|] eqn:Hfp;
      inversion H; subst; clear H end.
  match goal with |- wp _ (?d1, ?e1) _ =>
    eapply wp_conseq; [apply (_parse_frameprops_outcome _ d1 e1)|] end.
  cbv beta. intros r2 [d2 env2] (He2 & Hd2). cbn [fst snd] in He2, Hd2.
  destruct (Hd2 zeros eq_refl) as (m2 & Hs2 & HC & HT & HZ & Hok2). clear Hd2.
  subst d2.
  wp_run; try solve [fsimp; split;
                     [congruence|split; [reflexivity|split; [reflexivity|]];
                      exists m2; repeat split; assumption]].
  wp_use xml_outcome. fsimp. intros (He3 & Hc3 & _).
  destruct (Hc3 _ eq_refl) as (-> & ->). clear Hc3 He3.
  wp_run; try solve [fsimp; split;
                     [congruence|split; [reflexivity|split; [reflexivity|]];
                      exists m2; repeat split; assumption]].
  match goal with H : match ?a !! _ with _ => _ end = Ok ?ip |- _ =>
    destruct (a !! "lsmimage:imageProperties") as [ip0|] eqn:Hip;
      inversion H; subst; clear H end.
  match goal with |- wp _ (?d1, ?e1) _ =>
    eapply wp_conseq; [apply (_parse_imageprops_outcome _ d1 e1)|] end.
  cbv beta. intros r4 [d4 env4] (He4 & Hd4). cbn [fst snd] in He4, Hd4.
  specialize (Hd4 m2 eq_refl).
  destruct Hok2 as (x & y & b & Hfp2 & ->);
    [match goal with |- Ok ?u = _ => now destruct u end|].
  wp_run.
  - destruct Hd4 as (z & Hz & ->). fsimp.
    split; [congruence|]. split; [reflexivity|]. split; [reflexivity|].
    eexists. split; [reflexivity|].
    rewrite !lookup_insert_ne by done. repeat split; try reflexivity.
    exists a; do 2 eexists; exists x, y, b, z.
    repeat split; try eassumption; reflexivity.
  - subst d4. fsimp.
    split; [congruence|]. split; [reflexivity|]. split; [reflexivity|].
    eexists. split; [reflexivity|].
    rewrite !lookup_insert_ne by done. repeat split; reflexivity.
Qed.

Lemma get_dimensions_OIR_outcome d env :
  cls d = ImageDataOIR -> _dim d = None ->
  wp (get_dimensions w) (d, env) (fun r s' =>
    env_parsed (snd s') = env_parsed env ++ [full (storage (base d))]
    /\ base (fst s') = base d /\ cls (fst s') = cls d
    /\ exists dims,
         _dim (fst s') = Some dims
         /\ dims !! "C" = Some 0 /\ dims !! "T" = Some 0
         /\ match r with
            | Raise _ => dims !! "Z" = Some 0
            | Ok v =>
                v = Some dims
                /\ exists found fp ip x y b z,
                  _xml (fst s') = Some found
                  /\ found !! "lsmframe:frameProperties" = Some fp
                  /\ found !! "lsmimage:imageProperties" = Some ip
                  /\ frameprops w fp = Ok (Ok x, Ok y, Ok b)
                  /\ imageprops w ip = Ok z
                  /\ dims = <["Z" := z]> (<["B" := b]> (<["Y" := y]> (<["X" := x]> zeros)))
                  /\ (_xml d = None ->
                      exists content,
                        read_bytes w (full (storage (base d))) = Ok content
                        /\ xml_sections 100 content = Ok found)
            end).
Proof.
  intros Hcls Hdim. unfold get_dimensions, _parse_dimensions.
  repeat (cbv beta iota zeta; fsimp; rewrite ?Hdim, ?Hcls; wp_step).
  cbv beta iota zeta; fsimp; rewrite ?Hdim, ?Hcls; cbv beta iota.
  wp_use _parse_dimensions_OIR_outcome. fsimp.
  intros (He & Hb & Hc & dims & Hd & HC & HT & Hr).
  wp_run; fsimp; (split; [assumption|]); (split; [assumption|]);
    (split; [congruence|]); exists dims; repeat split; try assumption.
Qed.

(** X3.  A [get_dimensions] on an [.oir] dataset that fails leaves the
    dict of zeros, filled in as far as the parse got, in place of the
    dimensions: channels, timepoints and Z are [0] in it.  The next
    [get_dimensions] returns that dict without an error and without
    starting the parser again. *)
Theorem get_dimensions_OIR_failure d env e d1 env1 :
  cls d = ImageDataOIR -> _dim d = None ->
  get_dimensions w (d, env) = (Raise e, (d1, env1)) ->
  exists dims,
    _dim d1 = Some dims
    /\ dims !! "C" = Some 0 /\ dims !! "T" = Some 0 /\ dims !! "Z" = Some 0
    /\ get_dimensions w (d1, env1) = (Ok (Some dims), (d1, env1)).
Proof.
  intros Hcls Hdim H.
  pose proof (wp_elim _ _ _ _ _ (get_dimensions_OIR_outcome d env Hcls Hdim) H)
    as (_ & _ & _ & dims & Hd & HC & HT & HZ).
  cbn [fst] in Hd. exists dims. repeat split; try assumption.
  now apply get_dimensions_cached.
Qed.

(** X4.  The dimensions [get_dimensions] returns for a fresh [.oir]
    dataset come from the two XML blocks the scan of the file finds:
    X, Y and the bit depth are width, height and bit count of the frame
    properties, Z is the value computed from the image properties, and
    channels and timepoints are always [0]. *)
Theorem get_dimensions_OIR_from_file d env content v d1 env1 :
  cls d = ImageDataOIR -> _dim d = None -> _xml d = None ->
  read_bytes w (full (storage (base d))) = Ok content ->
  get_dimensions w (d, env) = (Ok v, (d1, env1)) ->
  exists found fp ip x y b z,
    xml_sections 100 content = Ok found
    /\ found !! "lsmframe:frameProperties" = Some fp
    /\ found !! "lsmimage:imageProperties" = Some ip
    /\ frameprops w fp = Ok (Ok x, Ok y, Ok b)
    /\ imageprops w ip = Ok z
    /\ v = Some (<["Z" := z]> (<["B" := b]> (<["Y" := y]> (<["X" := x]>
           (list_to_map [("X", 0); ("Y", 0); ("Z", 0); ("C", 0); ("B", 0); ("T", 0)])))))
    /\ _dim d1 = v /\ _xml d1 = Some found.
Proof.
  intros Hcls Hdim Hxml Hread H.
  pose proof (wp_elim _ _ _ _ _ (get_dimensions_OIR_outcome d env Hcls Hdim) H)
    as (_ & _ & _ & dims & Hd & _ & _ & -> & found & fp & ip & x & y & b & z
        & Hx & Hfp & Hip & Hf & Hi & -> & Hfile).
  destruct (Hfile Hxml) as (content' & Hread' & Hsec).
  rewrite Hread in Hread'. inversion Hread'. subst content'.
  exists found, fp, ip, x, y, b, z. cbn [fst] in Hd, Hx. repeat split; assumption.
Qed.

End OirDimensions.

Lemma get_dimensions_OIR_failure_witness :
  exists e d1 env1,
    get_dimensions (Demo.world []) (Demo.oir_image, env0) = (Raise e, (d1, env1))
    /\ get_dimensions (Demo.world []) (d1, env1)
       = (Ok (Some (list_to_map
            [("X", 0); ("Y", 0); ("Z", 0); ("C", 0); ("B", 0); ("T", 0)])), (d1, env1)).
Proof.
  destruct (get_dimensions (Demo.world []) (Demo.oir_image, env0))
    as [r [d1 env1]] eqn:E.
  assert (Hr : r = Raise IOError
               /\ _dim d1 = Some (list_to_map
                    [("X", 0); ("Y", 0); ("Z", 0); ("C", 0); ("B", 0); ("T", 0)])).
  { replace r with (fst (get_dimensions (Demo.world []) (Demo.oir_image, env0)))
      by now rewrite E.
    replace d1 with (fst (snd (get_dimensions (Demo.world []) (Demo.oir_image, env0))))
      by now rewrite E.
    vm_compute. split; reflexivity. }
  destruct Hr as [-> Hd1].
  destruct (get_dimensions_OIR_failure (Demo.world []) Demo.oir_image env0 _ _ _
              eq_refl eq_refl E) as (dims & Hd & _ & _ & _ & Hagain).
  exists IOError, d1, env1. split; [reflexivity|].
  rewrite Hd in Hd1. inversion Hd1. subst dims. exact Hagain.
Defined.

Lemma get_dimensions_OIR_from_file_witness :
  fst (get_dimensions (Demo.world ["/data/tile.oir"]) (Demo.oir_image, env0))
  = Ok (Some (list_to_map
         [("X", 512); ("Y", 512); ("Z", 1); ("C", 0); ("B", 16); ("T", 0)])).
Proof.
  destruct (get_dimensions (Demo.world ["/data/tile.oir"]) (Demo.oir_image, env0))
    as [r [d1 env1]] eqn:E.
  assert (Hr : is_ok r = true).
  { replace r with (fst (get_dimensions (Demo.world ["/data/tile.oir"])
                           (Demo.oir_image, env0))) by now rewrite E.
    vm_compute. reflexivity. }
  destruct r as [v|]; [|discriminate].
  destruct (get_dimensions_OIR_from_file (Demo.world ["/data/tile.oir"])
              Demo.oir_image env0 Demo.oir_bytes v d1 env1
              eq_refl eq_refl eq_refl eq_refl E)
    as (found & fp & ip & x & y & b & z & _ & _ & _ & Hf & Hi & -> & _).
  vm_compute in Hf, Hi. inversion Hf. inversion Hi. subst. cbn [fst].
  reflexivity.
Defined.

(** ** [get_dimensions]: lazy parsing, and what a failure leaves *)

Section LazyDimensions.

Variable w : World.

Lemma get_dimensions_first_run d env :
  _dim d = None ->
  wp (get_dimensions w) (d, env) (fun r s' =>
    env_parsed (snd s') = env_parsed env ++ [full (storage (base d))]
    /\ forall e, r = Raise e -> cls d <> ImageDataOIR -> fst s' = d).
Proof.
  intros Hdim. unfold get_dimensions, _parse_dimensions.
  wp_step. wp_step. fsimp. rewrite Hdim. wp_step. wp_step. wp_step. fsimp.
  destruct (cls d) eqn:Hcls.
  1,2: wp_use _parse_dimensions_Olympus_outcome; fsimp; intros (He & Hr);
    wp_run; fsimp; (split; [assumption|]); intros err Herr _;
    try discriminate Herr; inversion Herr; subst;
    exact (proj1 (Hr _ eq_refl)).
  wp_use _parse_dimensions_OIR_outcome. fsimp. intros (He & _).
  wp_run; fsimp; (split; [assumption|]); intros err _ Hn; contradiction.
Qed.

(** C5.  [get_dimensions] parses lazily.  With dimensions cached, a call
    returns them and changes nothing.  With none cached, a call runs the
    format-specific parser exactly once and ends as the parser ends: it
    returns what the parser cached, or raises what the parser raised.  A
    call that returns leaves the returned dimensions cached, so that the
    next call returns the same value with the object, the log and the
    record of parser runs untouched.  A call on an [.oif] or [.oib]
    dataset that raises leaves the object as it was, with nothing
    cached, and the next call starts the parser again. *)
Theorem get_dimensions_lazy_parsing d env r d1 env1 :
  get_dimensions w (d, env) = (r, (d1, env1)) ->
  (forall dims, _dim d = Some dims -> r = Ok (Some dims) /\ d1 = d /\ env1 = env)
  /\ (_dim d = None ->
      env_parsed env1 = env_parsed env ++ [full (storage (base d))]
      /\ match _parse_dimensions w (d, env) with
         | (Ok _, s1) => r = Ok (_dim (fst s1)) /\ (d1, env1) = s1
         | (Raise e, s1) => r = Raise e /\ (d1, env1) = s1
         end)
  /\ (forall v, r = Ok v ->
        (exists dims, v = Some dims /\ _dim d1 = Some dims)
        /\ get_dimensions w (d1, env1) = (Ok v, (d1, env1)))
  /\ (forall e, r = Raise e -> cls d <> ImageDataOIR ->
        d1 = d
        /\ env_parsed (snd (snd (get_dimensions w (d1, env1))))
           = env_parsed env1 ++ [full (storage (base d))]).
Proof.
  intros H. split; [|split; [|split]].
  - intros dims Hd. rewrite (get_dimensions_cached w d env dims Hd) in H.
    inversion H. auto.
  - intros Hd. split.
    + exact (proj1 (wp_elim _ _ _ _ _ (get_dimensions_first_run d env Hd) H)).
    + revert H. unfold get_dimensions. munfold. rewrite Hd.
      destruct (_parse_dimensions w (d, env)) as [[[]|e] s1];
        intros H; inversion H; split; reflexivity.
  - intros v ->.
    pose proof (wp_elim _ _ _ _ _ (get_dimensions_spec w (d, env)) H) as Hs.
    cbv beta in Hs. destruct (Hs v eq_refl) as ((dims & -> & Hd1) & _ & _).
    fsimp_in Hd1. split; [eauto|]. now apply get_dimensions_cached.
  - intros e -> Hcls.
    assert (Hd : _dim d = None).
    { destruct (_dim d) as [dims|] eqn:Hd; [|reflexivity].
      rewrite (get_dimensions_cached w d env dims Hd) in H. discriminate H. }
    destruct (wp_elim _ _ _ _ _ (get_dimensions_first_run d env Hd) H)
      as (_ & Hsame).
    cbn [fst] in Hsame. rewrite (Hsame e eq_refl Hcls). split; [reflexivity|].
    destruct (get_dimensions w (d, env1)) as [r2 s2] eqn:E2.
    exact (proj1 (wp_elim _ _ _ _ _ (get_dimensions_first_run d env1 Hd) E2)).
Qed.

End LazyDimensions.

Lemma get_dimensions_lazy_parsing_witness :
  get_dimensions (Demo.world []) (Demo.oif_image, env0)
  = (Ok (Some Demo.oif_dims), (set_dim (Some Demo.oif_dims) Demo.oif_image, Demo.oif_env))
  /\ get_dimensions (Demo.world [])
       (set_dim (Some Demo.oif_dims) Demo.oif_image, Demo.oif_env)
     = (Ok (Some Demo.oif_dims), (set_dim (Some Demo.oif_dims) Demo.oif_image, Demo.oif_env)).
Proof.
  assert (H : get_dimensions (Demo.world []) (Demo.oif_image, env0)
    = (Ok (Some Demo.oif_dims), (set_dim (Some Demo.oif_dims) Demo.oif_image, Demo.oif_env)))
    by (vm_compute; reflexivity).
  split; [exact H|].
  destruct (get_dimensions_lazy_parsing _ _ _ _ _ _ H) as (_ & _ & Hok & _).
  exact (proj2 (Hok _ eq_refl)).
Defined.

(** C5, counterexample.  An [.oif] file without the section of the
    fourth axis: both of two calls in a row raise, and the parser has
    been started twice. *)
Lemma get_dimensions_parses_again_after_failure :
  let d := set_parser (Some (delete "Axis 4 Parameters Common" Demo.table))
             Demo.oif_image in
  let first := get_dimensions (Demo.world []) (d, env0) in
  let second := get_dimensions (Demo.world []) (snd first) in
  fst first = Raise NoSectionError
  /\ fst second = Raise NoSectionError
  /\ env_parsed (snd (snd second))
     = ["/data/Slide1/Slide1_01.oif"; "/data/Slide1/Slide1_01.oif"].
Proof. vm_compute. repeat split. Qed.

(** ** [set_relpos]: what it writes *)


Lemma keeps_rest_ret {A} (a : A) : keeps_rest (ret a).
Proof. intros s. reflexivity. Qed.

Lemma keeps_rest_raise {A} e : keeps_rest (@raise ImageData A e).
Proof. intros s. reflexivity. Qed.

Lemma keeps_rest_lift {A} (r : res A) : keeps_rest (lift r).
Proof. intros s. reflexivity. Qed.

Lemma keeps_rest_self : keeps_rest self.
Proof. intros s. reflexivity. Qed.

Lemma keeps_rest_log l fmt args : keeps_rest (log l fmt args).
Proof. intros s. reflexivity. Qed.

Lemma keeps_rest_mark_parsed p : keeps_rest (mark_parsed p).
Proof. intros s. reflexivity. Qed.

Lemma keeps_rest_set_dim v : keeps_rest (update (set_dim v)).
Proof. intros s. reflexivity. Qed.

Lemma keeps_rest_set_xml v : keeps_rest (update (set_xml v)).
Proof. intros s. reflexivity. Qed.

Lemma keeps_rest_bind {A B} (m : M ImageData A) (k : A -> M ImageData B) :
  keeps_rest m -> (forall a, keeps_rest (k a)) -> keeps_rest (bind m k).
Proof.
  intros Hm Hk s. unfold bind. specialize (Hm s).
  destruct (m s) as [[a|e] s']; cbn [fst snd] in *; [|assumption].
  rewrite Hk. assumption.
Qed.

Lemma keeps_rest_try_except {A} (body : M ImageData A) catches handler :
  keeps_rest body -> (forall e, keeps_rest (handler e)) ->
  keeps_rest (try_except body catches handler).
Proof.
  intros Hb Hh s. unfold try_except. specialize (Hb s).
  destruct (body s) as [[a|e] s']; cbn [fst snd] in *; [assumption|].
  destruct (catches e); [|assumption]. rewrite Hh. assumption.
Qed.

Ltac keeps_rest_tac :=
  repeat first
    [ match goal with H : context [keeps_rest] |- _ => simple apply H end
    | apply keeps_rest_ret | apply keeps_rest_raise | apply keeps_rest_lift
    | apply keeps_rest_self | apply keeps_rest_log | apply keeps_rest_mark_parsed
    | apply keeps_rest_set_dim | apply keeps_rest_set_xml
    | apply keeps_rest_bind; [|intros ?]
    | apply keeps_rest_try_except; [|intros ?]
    | match goal with
      | |- keeps_rest (match ?x with _ => _ end) => destruct x
      end
    | assumption
    | progress cbv beta zeta ].

Section RelposFrame.

Variable w : World.

Lemma get_dimensions_keeps_rest : keeps_rest (get_dimensions w).
Proof.
  unfold get_dimensions, _parse_dimensions, _parse_dimensions_Olympus,
    _parse_dimensions_OIR, xml, _get_xml_sections, _parse_frameprops,
    _parse_imageprops, dim_setitem.
  keeps_rest_tac.
Qed.

Lemma set_relpos_outcome ov d env :
  wp (set_relpos w ov) (d, env) (fun r s' =>
    base (fst s') = base d /\ position_stage (fst s') = position_stage d
    /\ parser (fst s') = parser d /\ cls (fst s') = cls d
    /\ match r with
       | Ok _ =>
           exists x y t,
             position_relative (fst s') = Some [x; y]
             /\ supplement (base d) !! "tileno" = Some t
       | Raise e => position_relative (fst s') = position_relative d
       end).
Proof.
  assert (G : forall s r s', get_dimensions w s = (r, s') ->
                rest (fst s') = rest (fst s)).
  { intros s r s' E. pose proof (get_dimensions_keeps_rest s) as K.
    now rewrite E in K. }
  unfold set_relpos.
  repeat (cbv beta iota zeta; fsimp;
          lazymatch goal with
          | |- wp (get_dimensions w) ?s _ =>
              apply wp_intro;
              let r := fresh "r" in let s' := fresh "s" in let E := fresh "E" in
              intros r s' E; apply G in E; unfold rest in E; fsimp_in E;
              destruct s' as [? ?]; fsimp_in E;
              inversion E; clear E
          | _ => wp_step
          end).
  all: cbv beta iota zeta; fsimp.
  all: try (repeat split; congruence).
  repeat split; try congruence.
  match goal with
  | H : supplement_get ?i "tileno" = Ok ?t |- _ =>
      unfold supplement_get in H;
      destruct (supplement (base i) !! "tileno") as [t0|] eqn:L; [|discriminate H];
      assert (Hb : base d = base i) by congruence
  end.
  do 3 eexists. split; reflexivity.
Qed.

(** X5.  [set_relpos] writes nothing but the relative position (and the
    caches [get_dimensions] fills): storage, supplement, stage position,
    parser and class stay as they are.  When it returns, the relative
    position is a pair and the tile numbers had been set before; when it
    raises, the relative position is the one from before the call. *)
Theorem set_relpos_writes_position ov d env r d1 env1 :
  set_relpos w ov (d, env) = (r, (d1, env1)) ->
  base d1 = base d /\ position_stage d1 = position_stage d
  /\ parser d1 = parser d /\ cls d1 = cls d
  /\ match r with
     | Ok _ =>
         exists x y t,
           position_relative d1 = Some [x; y]
           /\ supplement (base d) !! "tileno" = Some t
     | Raise e => position_relative d1 = position_relative d
     end.
Proof.
  intros H. exact (wp_elim _ _ _ _ _ (set_relpos_outcome ov d env) H).
Qed.

End RelposFrame.

Lemma set_relpos_writes_position_witness :
  (exists x y,
     position_relative
       (fst (snd (set_relpos (Demo.world []) (PInt 10) (Demo.tile_100_at_1_2, env0))))
     = Some [x; y])
  /\ position_relative
       (fst (snd (set_relpos (Demo.world []) (PInt 10) (Demo.tile_100, env0))))
     = None.
Proof.
  split.
  - destruct (set_relpos (Demo.world []) (PInt 10) (Demo.tile_100_at_1_2, env0))
      as [r [d1 env1]] eqn:E.
    assert (Hr : is_ok r = true).
    { replace r with (fst (set_relpos (Demo.world []) (PInt 10)
                             (Demo.tile_100_at_1_2, env0))) by now rewrite E.
      vm_compute. reflexivity. }
    destruct r as [u|]; [|discriminate].
    destruct (set_relpos_writes_position _ _ _ _ _ _ _ E)
      as (_ & _ & _ & _ & x & y & t & Hp & _).
    exists x, y. exact Hp.
  - destruct (set_relpos (Demo.world []) (PInt 10) (Demo.tile_100, env0))
      as [r [d1 env1]] eqn:E.
    assert (Hr : is_ok r = false).
    { replace r with (fst (set_relpos (Demo.world []) (PInt 10)
                             (Demo.tile_100, env0))) by now rewrite E.
      vm_compute. reflexivity. }
    destruct r as [u|e]; [discriminate|].
    destruct (set_relpos_writes_position _ _ _ _ _ _ _ E) as (_ & _ & _ & _ & Hp).
    cbn [fst snd]. rewrite Hp. reflexivity.
Defined.

(** ** [files_and_coords]: the shape of the result *)

Section TileList.

Variable w : World.

Lemma prefix_char c s :
  String.prefix (String c EmptyString) s
  = match s with String a _ => if Ascii.ascii_dec c a then true else false
               | EmptyString => false end.
Proof.
  destruct s as [|a t]; [reflexivity|]. cbn.
  destruct (Ascii.ascii_dec c a); [|reflexivity]. now destruct t.
Qed.

Lemma replace_go_char c c' s :
  c <> c' ->
  contains (String c EmptyString)
    (replace_go (String c EmptyString) (String c' EmptyString) s O) = false.
Proof.
  intros Hne. induction s as [|a t IH]; [reflexivity|].
  cbn [replace_go]. rewrite prefix_char.
  destruct (Ascii.ascii_dec c a) as [->|Ha].
  - cbn [String.length Nat.sub]. rewrite append_cons, append_nil.
    cbn [contains]. rewrite prefix_char.
    destruct (Ascii.ascii_dec a c'); [congruence|]. exact IH.
  - cbn [contains]. rewrite prefix_char.
    destruct (Ascii.ascii_dec c a); [congruence|]. exact IH.
Qed.

Lemma replace_backslash s : contains "\" (replace s "\" "/") = false.
Proof. apply replace_go_char. discriminate. Qed.

Lemma tile_coords_firstn pos coords :
  tile_coords pos = Ok coords ->
  exists p x y rest, pos = Some p /\ p = x :: y :: rest /\ coords = firstn 3 p
    /\ (length coords = 2 \/ length coords = 3)%nat.
Proof.
  destruct pos as [[|x [|y [|z rest]]]|]; cbn; intros [= <-]; eauto 10.
Qed.

Lemma collect_tiles_shape m vols : forall acc tiles,
  collect_tiles w m vols acc = Ok tiles ->
  exists new,
    tiles = acc ++ new
    /\ Forall2 (fun vol t =>
         fst t = replace (strip_prefix w (full (storage (base vol)))
                            (path (storage (m_base m)))) "\" "/"
         /\ exists x y rest, position_relative vol = Some (x :: y :: rest)
                             /\ snd t = firstn 3 (x :: y :: rest))
       vols new
    /\ Forall (fun t => contains "\" (fst t) = false
                        /\ (length (snd t) = 2 \/ length (snd t) = 3)%nat) new.
Proof.
  induction vols as [|vol vols IH]; intros acc tiles; cbn [collect_tiles].
  - intros [= <-]. exists []. rewrite app_nil_r. repeat constructor.
  - destruct (tile_coords (position_relative vol)) as [coords|e] eqn:E; [|discriminate].
    intros H. apply IH in H as (new & -> & H2 & HF).
    apply tile_coords_firstn in E as (p & x & y & rest & Hp & Hxy & Hc & Hlen).
    eexists (_ :: new). rewrite <- app_assoc. split; [reflexivity|]. split.
    + constructor; [|assumption]. cbn [fst snd]. split; [reflexivity|].
      subst p. eauto.
    + constructor; [|assumption]. cbn [fst snd]. split; [|assumption].
      apply replace_backslash.
Qed.

Lemma collect_tiles_fails m vols : forall acc e,
  collect_tiles w m vols acc = Raise e ->
  exists pre vol post,
    vols = pre ++ vol :: post
    /\ Forall (fun v => exists x y rest, position_relative v = Some (x :: y :: rest)) pre
    /\ ((position_relative vol = None /\ e = TypeError)
        \/ (exists p, position_relative vol = Some p /\ (length p < 2)%nat
                      /\ e = IndexError)).
Proof.
  induction vols as [|vol vols IH]; intros acc e; cbn [collect_tiles]; [discriminate|].
  destruct (tile_coords (position_relative vol)) as [coords|e'] eqn:E.
  - intros H. apply IH in H as (pre & v & post & -> & Hpre & Hv).
    exists (vol :: pre), v, post. split; [reflexivity|]. split; [|assumption].
    constructor; [|assumption].
    apply tile_coords_firstn in E as (p & x & y & rest & Hp & -> & _). eauto.
  - intros [= <-]. exists [], vol, vols. split; [reflexivity|]. split; [constructor|].
    destruct (position_relative vol) as [[|x [|y [|z rest]]]|]; cbn in E;
      inversion E; subst; eauto 10.
Qed.

Lemma files_and_coords_total m sort :
  Forall (fun v => exists x y rest, position_relative v = Some (x :: y :: rest))
    (subvol m) ->
  exists tiles,
    files_and_coords w m sort = Ok tiles /\ length tiles = length (subvol m).
Proof.
  intros HF. unfold files_and_coords.
  destruct (collect_tiles w m (subvol m) []) as [ts|e] eqn:E; cbn [res_bind].
  - apply collect_tiles_shape in E as (new & -> & H2 & _). cbn [app].
    assert (Hlen : length new = length (subvol m))
      by (symmetry; eapply Forall2_length; eassumption).
    eexists. split; [reflexivity|]. destruct sort; [|assumption].
    rewrite <- Hlen. apply Permutation_length.
    etransitivity; apply sorted_reverse_perm.
  - exfalso. apply collect_tiles_fails in E as (pre & vol & post & Hv & _ & Hbad).
    rewrite Hv in HF. apply Forall_app in HF as [_ HF].
    inversion HF as [|? ? (x & y & rest & Hp) _]; subst.
    destruct Hbad as [[Hn _]|(p & Hp' & Hlen & _)]; [congruence|].
    rewrite Hp in Hp'. inversion Hp'. subst p. cbn in Hlen. lia.
Qed.

(** X6.  The list [files_and_coords] returns has one tile per
    sub-volume; no file name in it contains a backslash; every
    coordinate list has two or three entries.  Unsorted, the tiles come in
    the order of the sub-volumes, each with the first three coordinates
    of its relative position and its path stripped of the mosaic's
    directory. *)
Theorem files_and_coords_tiles m sort tiles :
  files_and_coords w m sort = Ok tiles ->
  length tiles = length (subvol m)
  /\ Forall (fun t => contains "\" (fst t) = false
                      /\ (length (snd t) = 2 \/ length (snd t) = 3)%nat) tiles
  /\ (sort = false ->
      Forall2 (fun vol t =>
         fst t = replace (strip_prefix w (full (storage (base vol)))
                            (path (storage (m_base m)))) "\" "/"
         /\ exists x y rest, position_relative vol = Some (x :: y :: rest)
                             /\ snd t = firstn 3 (x :: y :: rest))
        (subvol m) tiles).
Proof.
  unfold files_and_coords.
  destruct (collect_tiles w m (subvol m) []) as [ts|e] eqn:E; [|discriminate].
  cbn [res_bind]. intros [= <-].
  apply collect_tiles_shape in E as (new & -> & H2 & HF). cbn [app] in *.
  assert (Hlen : length new = length (subvol m))
    by (symmetry; eapply Forall2_length; eassumption).
  destruct sort.
  - assert (P : Permutation
                  (sorted (sorted new (coord 0) fltb true) (coord 1) fltb true) new).
    { etransitivity; apply sorted_reverse_perm. }
    split; [|split; [|discriminate]].
    + rewrite <- Hlen. now apply Permutation_length.
    + eapply Permutation_Forall; [symmetry; exact P|exact HF].
  - auto.
Qed.

(** X7.  [files_and_coords] returns exactly when every sub-volume has a
    relative position of at least two coordinates.  Otherwise it raises
    for the first sub-volume that has not: [TypeError] if it has no
    position at all, [IndexError] if the position is too short. *)
Theorem files_and_coords_needs_positions m sort :
  ((exists tiles, files_and_coords w m sort = Ok tiles)
   <-> Forall (fun v => exists x y rest, position_relative v = Some (x :: y :: rest))
         (subvol m))
  /\ forall e, files_and_coords w m sort = Raise e ->
       exists pre vol post,
         subvol m = pre ++ vol :: post
         /\ Forall (fun v => exists x y rest,
                      position_relative v = Some (x :: y :: rest)) pre
         /\ ((position_relative vol = None /\ e = TypeError)
             \/ (exists p, position_relative vol = Some p /\ (length p < 2)%nat
                           /\ e = IndexError)).
Proof.
  unfold files_and_coords.
  destruct (collect_tiles w m (subvol m) []) as [ts|e] eqn:E; cbn [res_bind].
  - split; [|discriminate]. split; [|eauto]. intros _.
    apply collect_tiles_shape in E as (new & _ & H2 & _).
    induction H2 as [|vol t vols new' [_ (x & y & rest & Hp & _)] _ IH];
      constructor; eauto.
  - split.
    + split; [intros [tiles H]; discriminate|]. intros HF. exfalso.
      apply collect_tiles_fails in E as (pre & vol & post & Hv & _ & Hbad).
      rewrite Hv in HF. apply Forall_app in HF as [_ HF].
      inversion HF as [|? ? (x & y & rest & Hp) _]; subst.
      destruct Hbad as [[Hn _]|(p & Hp' & Hlen & _)]; [congruence|].
      rewrite Hp in Hp'. inversion Hp'. subst p. cbn in Hlen. lia.
    + intros e0 [= <-]. now apply collect_tiles_fails in E.
Qed.

End TileList.

Lemma files_and_coords_tiles_witness :
  exists tiles,
    files_and_coords (Demo.world []) Demo.mosaic_2x2 true = Ok tiles
    /\ length tiles = 4%nat
    /\ Forall (fun t => contains "\" (fst t) = false
                        /\ (length (snd t) = 2 \/ length (snd t) = 3)%nat) tiles.
Proof.
  destruct (files_and_coords (Demo.world []) Demo.mosaic_2x2 true) as [tiles|e] eqn:E;
    [|vm_compute in E; discriminate E].
  exists tiles. split; [reflexivity|].
  destruct (files_and_coords_tiles (Demo.world []) Demo.mosaic_2x2 true tiles E)
    as (Hlen & HF & _).
  split; [exact Hlen|exact HF].
Defined.

(** A mosaic holding a tile that was never positioned cannot be listed. *)
Example files_and_coords_unpositioned :
  files_and_coords (Demo.world [])
    (mkMosaic (m_base Demo.mosaic_2x2) (subvol Demo.mosaic_2x2 ++ [Demo.tile_100])
       (dim Demo.mosaic_2x2) (PInt 10) "pct") false
  = Raise TypeError.
Proof. vm_compute. reflexivity. Qed.

(** ** Combining outcomes *)

Lemma wp_and {O A} (m : M O A) s (Q1 Q2 : res A -> O * Env -> Prop) :
  wp m s Q1 -> wp m s Q2 -> wp m s (fun r s' => Q1 r s' /\ Q2 r s').
Proof.
  intros H1 H2. apply wp_intro. intros r s' E.
  split; [exact (wp_elim _ _ _ _ _ H1 E)|exact (wp_elim _ _ _ _ _ H2 E)].
Qed.

Lemma wp_keeps_self {O A} (m : M O A) s :
  keeps_self m -> wp m s (fun _ s' => fst s' = fst s).
Proof.
  intros K. apply wp_intro. intros r s' E. specialize (K s). now rewrite E in K.
Qed.

(** ** [FluoViewMosaic.add_mosaic]: the mosaics that are added *)

Section CompleteMosaic.

Import FluoView.FluoViewMosaic.

Variable w : World.

Lemma get_overlap_outcome units m env :
  wp (get_overlap units) (m, env) (fun r s' =>
    s' = (m, env)
    /\ forall v, r = Ok v -> v = overlap m /\ overlap_units m = "pct").
Proof.
  apply wp_intro. intros r s' E. destruct r as [v|e].
  - apply get_overlap_ok_inv in E as (_ & Hu & -> & ->). split; [reflexivity|].
    intros v0 [= <-]. auto.
  - split; [|discriminate]. revert E. unfold get_overlap. munfold.
    destruct (str_in units ["pct"]); munfold; [|congruence].
    destruct (String.eqb units (overlap_units m)); munfold; congruence.
Qed.

Lemma read_subvol_outcome img c fname m e env :
  Filename img = Ok fname ->
  (last_chars 3 fname = "oif" /\ c = ImageDataOIF)
  \/ (last_chars 3 fname = "oib" /\ c = ImageDataOIB) ->
  wp (read_subvol w img c fname m) (e, env) (fun r s' =>
    fst s' = e
    /\ forall m', r = Ok m' ->
         overlap_units m = "pct"
         /\ exists vol, m' = with_subvols m [vol] /\ tile_of w img vol).
Proof.
  intros Hname Hc. unfold read_subvol.
  wp_step. wp_step. fsimp. wp_step.
  eapply wp_conseq;
    [apply wp_and; [apply (image_init_outcome w c)
                   |apply wp_keeps_self, image_init_keeps_self]|].
  cbv beta. intros r1 [e1 env1] ((_ & Hvol) & He1). cbn [fst] in He1. subst e1.
  wp_step; [|split; [reflexivity|discriminate]].
  destruct (Hvol _ eq_refl) as (Hcls & _ & Hsup & _ & _ & _ & Hex & _ & _).
  clear Hvol.
  unfold set_stagecoords, set_tilenumbers, add_subvol.
  repeat (cbv beta iota zeta; fsimp;
          lazymatch goal with
          | |- wp (get_overlap _) _ _ =>
              eapply wp_conseq; [apply get_overlap_outcome|];
              cbv beta; intros ? ? [-> Hov]
          | |- wp (set_relpos _ _) _ _ =>
              eapply wp_conseq; [apply set_relpos_outcome|];
              cbv beta; intros ? [? ?] (Hb & Hst & Hpa & Hcl & Hpos)
          | _ => wp_step
          end).
  all: cbv beta iota zeta; fsimp; (split; [reflexivity|]); try discriminate.
  intros m' [= <-].
  match goal with H : Ok ?v = Ok _ |- _ => idtac | _ => idtac end.
  destruct (Hov _ eq_refl) as [_ Hu]. split; [exact Hu|].
  eexists. split; [unfold with_subvols; reflexivity|].
  fsimp_in Hb. fsimp_in Hst. fsimp_in Hcl. fsimp_in Hpos.
  destruct Hpos as (x & y & t0 & Hpos & _).
  unfold tile_of. fsimp. rewrite Hb, Hst, Hcl. fsimp.
  split; [exact Hex|]. split.
  { exists fname. split; [exact Hname|]. rewrite Hcls.
    destruct Hc as [[? ?]|[? ?]]; [left|right]; split; assumption. }
  split; [eauto 10|]. split; [|eauto].
  do 3 eexists. repeat split; try eassumption. rewrite Hsup. reflexivity.
Qed.

Lemma with_subvols_app m l1 l2 :
  with_subvols (with_subvols m l1) l2 = with_subvols m (l1 ++ l2).
Proof. unfold with_subvols. cbn. now rewrite app_assoc. Qed.

Lemma with_subvols_nil m : with_subvols m [] = m.
Proof. destruct m. unfold with_subvols. cbn. now rewrite app_nil_r. Qed.

(** The loop over the [ImageInfo] elements: it raises [IOError] for a
    file name of neither kind, gives up the mosaic at a missing file, and
    otherwise appends one sub-volume per element. *)
Lemma image_loop_outcome imgs : forall m f e env,
  wp (image_loop w imgs m f) (e, env) (fun r s' =>
    fst s' = e
    /\ forall mo fo, r = Ok (mo, fo) ->
         match mo with
         | Some m' =>
             (imgs <> [] -> overlap_units m = "pct")
             /\ exists vols, m' = with_subvols m vols
                             /\ Forall2 (tile_of w) imgs vols
         | None => exists fname, fo = Some fname
         end).
Proof.
  induction imgs as [|img imgs IH]; intros m f e env; cbn [image_loop].
  - wp_run. split; [reflexivity|]. intros mo fo [= <- <-].
    split; [congruence|]. exists []. split; [now rewrite with_subvols_nil|constructor].
  - wp_step. wp_step. destruct (Filename img) as [fname|e0] eqn:Hname;
      [|split; [reflexivity|discriminate]].
    wp_step.
    assert (Hreader : forall c,
      (last_chars 3 fname = "oif" /\ c = ImageDataOIF)
      \/ (last_chars 3 fname = "oib" /\ c = ImageDataOIB) ->
      wp (do r <- try_except
                    (do m0 <- read_subvol w img c fname m; ret (Some m0))
                    (exn_eqb IOError)
                    (fun _ => log INFO "Broken/missing image data: %s" [];; ret None);
          match r with
          | Some mosaic_ds' => image_loop w imgs mosaic_ds' (Some fname)
          | None => ret (None, Some fname)
          end) (e, env)
         (fun r s' =>
            fst s' = e
            /\ forall mo fo, r = Ok (mo, fo) ->
                 match mo with
                 | Some m' =>
                     (img :: imgs <> [] -> overlap_units m = "pct")
                     /\ exists vols, m' = with_subvols m vols
                                     /\ Forall2 (tile_of w) (img :: imgs) vols
                 | None => exists fname, fo = Some fname
                 end)).
    { intros c Hc. wp_step. wp_step. wp_step.
      eapply wp_conseq; [apply (read_subvol_outcome img c fname m e env Hname Hc)|].
      cbv beta. intros r1 [e1 env1] (He1 & Hm1). cbn [fst] in He1. subst e1.
      wp_run; try (split; [reflexivity|discriminate]).
      - destruct (Hm1 _ eq_refl) as (Hu & vol & -> & Hvol).
        eapply wp_conseq; [apply IH|]. cbv beta. intros r2 s2 (He2 & Hm2).
        split; [assumption|]. intros mo fo Hr. specialize (Hm2 mo fo Hr).
        destruct mo as [m'|]; [|assumption].
        destruct Hm2 as (_ & vols & -> & HF). split; [auto|].
        exists (vol :: vols). rewrite with_subvols_app. split; [reflexivity|].
        constructor; assumption.
      - split; [reflexivity|]. intros mo fo [= <- <-]. eauto. }
    destruct (String.eqb_spec (last_chars 3 fname) "oif") as [E1|E1].
    + wp_step. apply Hreader. auto.
    + destruct (String.eqb_spec (last_chars 3 fname) "oib") as [E2|E2].
      * wp_step. apply Hreader. auto.
      * wp_step. split; [reflexivity|discriminate].
Qed.

Lemma open_mosaic_outcome tree index e env :
  wp (open_mosaic w tree index) (e, env) (fun r s' =>
    fst s' = e
    /\ forall index' m0, r = Ok (index', m0) ->
         subvol m0 = [] /\ overlap_units m0 = "pct"
         /\ (exists ratio, IndexRatio tree = Ok ratio
                           /\ overlap m0 = PFloat (fsub f100 ratio))
         /\ (exists nx ny, XImages tree = Ok nx /\ YImages tree = Ok ny
                           /\ dim m0 = list_to_map [("X", nx); ("Y", ny); ("Z", 1)])
         /\ Dataset.supplement (m_base m0) = <["index" := PInt index']> ∅
         /\ (if index =? -1 then attrib_No tree = Ok index' else index' = index)).
Proof.
  unfold open_mosaic, assert_eq, MosaicDataCuboid_init, MosaicData_init,
    DataSet_init, set_overlap.
  wp_run; fsimp; (split; [reflexivity|]); try discriminate.
  all: intros index' m0 [= <- <-]; fsimp.
  all: unfold set_mosaic_supplement; fsimp.
  all: repeat split; eauto.
  all: try congruence.
Qed.

Lemma add_mosaic_outcome tree index e env :
  wp (add_mosaic w tree index) (e, env) (fun r s' =>
    infile (fst s') = infile e /\ supplement (fst s') = supplement e
    /\ mosaictrees (fst s') = mosaictrees e
    /\ (datasets (fst s') = datasets e
        \/ (r = Ok tt
            /\ exists m,
             datasets (fst s') = datasets e ++ [m]
             /\ Forall2 (tile_of w) (ImageInfos tree) (subvol m)
             /\ overlap_units m = "pct"
             /\ (exists ratio, IndexRatio tree = Ok ratio
                               /\ overlap m = PFloat (fsub f100 ratio))
             /\ (exists i, Dataset.supplement (m_base m) = <["index" := PInt i]> ∅
                           /\ if index =? -1 then attrib_No tree = Ok i else i = index)))).
Proof.
  unfold add_mosaic. wp_step.
  eapply wp_conseq; [apply open_mosaic_outcome|]. cbv beta.
  intros r0 [e0 env0] (He0 & Hm0). cbn [fst] in He0. subst e0.
  wp_step; [|repeat split; now left]. wp_step. wp_step.
  match goal with H : forall _ _, Ok (?i, ?m) = _ -> _ |- _ =>
    destruct (H i m eq_refl) as (Hsub & Hu & Hov & Hdim & Hidx & Hno); clear H end.
  eapply wp_conseq; [apply image_loop_outcome|]. cbv beta.
  intros r1 [e1 env1] (He1 & Hm1). cbn [fst] in He1. subst e1.
  wp_step; [|repeat split; now left]. wp_step. wp_step.
  - unfold add_dataset. wp_run.
    cbn [fst datasets infile supplement mosaictrees append_dataset].
    repeat split. right. split; [reflexivity|].
    match goal with H : forall _ _, Ok (Some ?m, ?f) = _ -> _ |- _ =>
      destruct (H (Some m) f eq_refl) as (_ & vols & -> & HF); clear H end.
    eexists. split; [reflexivity|].
    unfold with_subvols. fsimp. rewrite Hsub. cbn [app].
    split; [exact HF|]. split; [exact Hu|]. split; [exact Hov|].
    eexists; split; [exact Hidx|exact Hno].
  - wp_run. cbn [fst]. repeat split. now left.
Qed.

Lemma tile_of_positioned imgs vols :
  Forall2 (tile_of w) imgs vols ->
  Forall (fun v => exists x y rest, position_relative v = Some (x :: y :: rest)) vols.
Proof.
  induction 1 as [|img vol ? ? Ht _ IH]; constructor; [|assumption].
  destruct Ht as (_ & _ & _ & _ & x & y & Hp). eauto.
Qed.

(** X8.  A call of [add_mosaic] that returns has either added nothing
    or exactly one mosaic, and that mosaic is complete: it holds one
    sub-volume for every [ImageInfo] element of its tree, in the order of
    the elements, each an existing image file with the stage position,
    the grid indices and the number of its element and a relative
    position of two coordinates.  Its overlap is [100.0 - IndexRatio] in
    percent, and [files_and_coords] lists it without an error. *)
Theorem add_mosaic_adds_complete_mosaic tree index e env e' env' :
  add_mosaic w tree index (e, env) = (Ok tt, (e', env')) ->
  infile e' = infile e /\ supplement e' = supplement e
  /\ mosaictrees e' = mosaictrees e
  /\ (datasets e' = datasets e
      \/ exists m,
           datasets e' = datasets e ++ [m]
           /\ Forall2 (tile_of w) (ImageInfos tree) (subvol m)
           /\ overlap_units m = "pct"
           /\ (exists ratio, IndexRatio tree = Ok ratio
                             /\ overlap m = PFloat (fsub f100 ratio))
           /\ (exists i, Dataset.supplement (m_base m) = <["index" := PInt i]> ∅
                         /\ if index =? -1 then attrib_No tree = Ok i else i = index)
           /\ forall sort, exists tiles,
                files_and_coords w m sort = Ok tiles
                /\ length tiles = length (ImageInfos tree)).
Proof.
  intros E.
  destruct (wp_elim _ _ _ _ _ (add_mosaic_outcome tree index e env) E)
    as (Hi & Hs & Ht & Hd).
  cbn [fst] in *. repeat (split; [assumption|]).
  destruct Hd as [Hd|(_ & m & Hd & HF & Hu & Hov & Hidx)]; [now left|right].
  exists m. repeat (split; [assumption|]). intros sort.
  destruct (files_and_coords_total w m sort (tile_of_positioned _ _ HF))
    as (tiles & Htiles & Hlen).
  exists tiles. split; [exact Htiles|]. rewrite Hlen.
  symmetry. eapply Forall2_length. exact HF.
Qed.

(** X9.  A file name that ends neither in [oif] nor in [oib] is not
    a missing tile: the [IOError] for it is raised outside the [try] of
    the loop, so [add_mosaic] raises it, nothing is added, and the loop
    of [add_mosaics] ends there without reading the trees that follow. *)
Theorem add_mosaic_unknown_file_type tree index e env
    index' m0 e0 env0 pre img post m1 last e1 env1 fname :
  open_mosaic w tree index (e, env) = (Ok (index', m0), (e0, env0)) ->
  ImageInfos tree = pre ++ img :: post ->
  image_loop w pre m0 None (e0, env0) = (Ok (Some m1, last), (e1, env1)) ->
  Filename img = Ok fname ->
  last_chars 3 fname <> "oif" -> last_chars 3 fname <> "oib" ->
  add_mosaic w tree index (e, env) = (Raise IOError, (e, env1))
  /\ (index = -1 -> forall trees,
        add_mosaics_loop w (tree :: trees) (e, env) = (Raise IOError, (e, env1))).
Proof.
  intros Hopen Himgs Hpre Hname Hoif Hoib.
  assert (He0 : e0 = e).
  { pose proof (open_mosaic_keeps_self w tree index (e, env)) as K.
    rewrite Hopen in K. exact K. }
  subst e0.
  assert (He1 : e1 = e).
  { pose proof (image_loop_keeps_self w pre m0 None (e, env0)) as K.
    rewrite Hpre in K. exact K. }
  subst e1.
  assert (Hloop : image_loop w (ImageInfos tree) m0 None (e, env0)
                  = (Raise IOError, (e, env1))).
  { rewrite Himgs, (image_loop_app w pre (img :: post) _ _ _ _ _ _ Hpre).
    cbn [image_loop]. unfold bind at 1. unfold lift at 1. rewrite Hname.
    unfold bind at 1.
    destruct (String.eqb_spec (last_chars 3 fname) "oif"); [contradiction|].
    destruct (String.eqb_spec (last_chars 3 fname) "oib"); [contradiction|].
    reflexivity. }
  assert (Hadd : add_mosaic w tree index (e, env) = (Raise IOError, (e, env1))).
  { unfold add_mosaic. unfold bind at 1. rewrite Hopen.
    unfold bind at 1. rewrite Hloop. reflexivity. }
  split; [exact Hadd|].
  intros -> trees. cbn [add_mosaics_loop]. unfold bind at 1. now rewrite Hadd.
Qed.

Lemma add_mosaics_loop_outcome trees : forall e env,
  wp (add_mosaics_loop w trees) (e, env) (fun r s' =>
    infile (fst s') = infile e /\ supplement (fst s') = supplement e
    /\ mosaictrees (fst s') = mosaictrees e
    /\ exists new,
         datasets (fst s') = datasets e ++ new
         /\ (length new <= length trees)%nat
         /\ Forall (fun m => exists tree,
                      In tree trees
                      /\ Forall2 (tile_of w) (ImageInfos tree) (subvol m)) new).
Proof.
  induction trees as [|tree trees IH]; intros e env; cbn [add_mosaics_loop].
  - wp_run. fsimp. repeat split. exists []. rewrite app_nil_r.
    split; [reflexivity|]. split; [reflexivity|constructor].
  - wp_step. eapply wp_conseq; [apply add_mosaic_outcome|]. cbv beta.
    intros r1 [e1 env1] (Hi & Hs & Ht & Hd). cbn [fst] in *.
    assert (Hnew : exists new1,
               datasets e1 = datasets e ++ new1 /\ (length new1 <= 1)%nat
               /\ Forall (fun m => Forall2 (tile_of w) (ImageInfos tree) (subvol m)) new1).
    { destruct Hd as [Hd|(_ & m & Hd & HF & _)].
      - exists []. rewrite app_nil_r. repeat split; [assumption|cbn; lia|constructor].
      - exists [m]. repeat split; [assumption|cbn; lia|]. now constructor. }
    destruct Hnew as (new1 & Hd1 & Hlen1 & HF1).
    wp_step.
    + eapply wp_conseq; [apply IH|]. cbv beta.
      intros r2 s2 (Hi2 & Hs2 & Ht2 & new2 & Hd2 & Hlen2 & HF2).
      repeat split; try congruence.
      exists (new1 ++ new2). rewrite Hd2, Hd1, app_assoc.
      split; [reflexivity|]. split; [rewrite length_app; cbn; lia|].
      apply Forall_app. split.
      * eapply List.Forall_impl; [|exact HF1]. cbv beta. intros m Hm.
        exists tree. split; [now left|assumption].
      * eapply List.Forall_impl; [|exact HF2]. cbv beta.
        intros m (tr & Hin & Hm). exists tr. split; [now right|assumption].
    + cbn [fst]. repeat split; try assumption.
      exists new1. split; [assumption|]. split; [cbn; lia|].
      eapply List.Forall_impl; [|exact HF1]. cbv beta. intros m Hm.
      exists tree. split; [now left|assumption].
Qed.

(** X10.  Whatever the outcome of [add_mosaics], the mosaics that were
    in the experiment before are still there, in front; at most one
    mosaic per tree has been added, each of them complete for one of the
    trees.  An experiment parsed from empty therefore never holds more
    mosaics than it has trees. *)
Theorem add_mosaics_adds_at_most_one_per_tree e env r e' env' :
  add_mosaics w (e, env) = (r, (e', env')) ->
  infile e' = infile e /\ supplement e' = supplement e
  /\ mosaictrees e' = mosaictrees e
  /\ (exists new,
        datasets e' = datasets e ++ new
        /\ (length new <= length (mosaictrees e))%nat
        /\ Forall (fun m => exists tree,
                     In tree (mosaictrees e)
                     /\ Forall2 (tile_of w) (ImageInfos tree) (subvol m)) new)
  /\ (datasets e = [] -> (length (datasets e') <= length (mosaictrees e'))%nat).
Proof.
  intros E.
  assert (H : wp (add_mosaics w) (e, env) (fun r s' =>
    infile (fst s') = infile e /\ supplement (fst s') = supplement e
    /\ mosaictrees (fst s') = mosaictrees e
    /\ exists new,
         datasets (fst s') = datasets e ++ new
         /\ (length new <= length (mosaictrees e))%nat
         /\ Forall (fun m => exists tree,
                      In tree (mosaictrees e)
                      /\ Forall2 (tile_of w) (ImageInfos tree) (subvol m)) new)).
  { unfold add_mosaics. wp_step. wp_step. cbn [fst]. apply add_mosaics_loop_outcome. }
  destruct (wp_elim _ _ _ _ _ H E) as (Hi & Hs & Ht & new & Hd & Hlen & HF).
  cbn [fst] in *. repeat (split; [assumption|]). split; [eauto|].
  intros Hempty. rewrite Hd, Hempty, Ht. cbn [app]. exact Hlen.
Qed.

End CompleteMosaic.

Lemma add_mosaic_adds_complete_mosaic_witness :
  exists e' env' m,
    FluoView.FluoViewMosaic.add_mosaic (Demo.world Demo.project_files)
      Demo.complete_tree (-1) (Demo.project, env0) = (Ok tt, (e', env'))
    /\ FluoView.FluoViewMosaic.datasets e' = [m]
    /\ length (subvol m) = 1%nat.
Proof.
  destruct (FluoView.FluoViewMosaic.add_mosaic (Demo.world Demo.project_files)
              Demo.complete_tree (-1) (Demo.project, env0)) as [r [e' env']] eqn:E.
  assert (Hr : r = Ok tt /\ length (FluoView.FluoViewMosaic.datasets e') = 1%nat).
  { replace r with (fst (FluoView.FluoViewMosaic.add_mosaic
                           (Demo.world Demo.project_files)
                           Demo.complete_tree (-1) (Demo.project, env0)))
      by now rewrite E.
    replace e' with (fst (snd (FluoView.FluoViewMosaic.add_mosaic
                                 (Demo.world Demo.project_files)
                                 Demo.complete_tree (-1) (Demo.project, env0))))
      by now rewrite E.
    vm_compute. split; reflexivity. }
  destruct Hr as [-> Hlen].
  destruct (add_mosaic_adds_complete_mosaic _ _ _ _ _ _ _ E)
    as (_ & _ & _ & [Hd|(m & Hd & HF & _)]).
  - rewrite Hd in Hlen. discriminate Hlen.
  - exists e', env', m. split; [reflexivity|]. split; [exact Hd|].
    apply Forall2_length in HF. cbn in HF. now rewrite <- HF.
Defined.

Lemma add_mosaic_unknown_file_type_witness :
  fst (FluoView.FluoViewMosaic.add_mosaics_loop (Demo.world Demo.project_files)
         [FluoView.FluoViewMosaic.mkMosaicTree (Ok 0) (Ok "LeftToRight")
            (Ok "TopToBottom") (Ok 1) (Ok 1) (Ok Demo.f90)
            [Demo.tile_info "Slide1\Slide1.tif" 0 0 0];
          Demo.complete_tree]
         (Demo.project, env0))
  = Raise IOError.
Proof.
  edestruct (add_mosaic_unknown_file_type (Demo.world Demo.project_files)
               (FluoView.FluoViewMosaic.mkMosaicTree (Ok 0) (Ok "LeftToRight")
                  (Ok "TopToBottom") (Ok 1) (Ok 1) (Ok Demo.f90)
                  [Demo.tile_info "Slide1\Slide1.tif" 0 0 0])
               (-1) Demo.project env0)
    with (pre := @nil FluoView.FluoViewMosaic.ImageInfo)
         (img := Demo.tile_info "Slide1\Slide1.tif" 0 0 0)
         (post := @nil FluoView.FluoViewMosaic.ImageInfo)
    as (_ & Hloop).
  - vm_compute. reflexivity.
  - reflexivity.
  - reflexivity.
  - reflexivity.
  - vm_compute. discriminate.
  - vm_compute. discriminate.
  - rewrite (Hloop eq_refl [Demo.complete_tree]). reflexivity.
Defined.

Lemma add_mosaics_adds_at_most_one_per_tree_witness :
  (length (FluoView.FluoViewMosaic.datasets
             (fst (snd (FluoView.FluoViewMosaic.add_mosaics
                          (Demo.world Demo.project_files) (Demo.project, env0)))))
   <= 2)%nat.
Proof.
  destruct (FluoView.FluoViewMosaic.add_mosaics (Demo.world Demo.project_files)
              (Demo.project, env0)) as [r [e' env']] eqn:E.
  destruct (add_mosaics_adds_at_most_one_per_tree _ _ _ _ _ _ E)
    as (_ & _ & Ht & _ & Hlen).
  cbn [fst snd]. specialize (Hlen eq_refl). rewrite Ht in Hlen. exact Hlen.
Defined.

(** ** [FluoView3kMosaic]: the mosaics of a project *)

Lemma wp_keeps_rest {A} (m : M ImageData A) s :
  keeps_rest m -> wp m s (fun _ s' => rest (fst s') = rest (fst s)).
Proof.
  intros K. apply wp_intro. intros r s' E. specialize (K s). now rewrite E in K.
Qed.

Lemma enumerate_length {A} (l : list A) : forall i,
  length (enumerate i l) = length l.
Proof. induction l as [|x l IH]; intros i; cbn; [reflexivity|now rewrite IH]. Qed.

Section Mosaics3k.

Import FluoView.FluoView3kMosaic.

Variable w : World.

Ltac esimp :=
  cbn [fst snd datasets infile supplement tile_size common_tile_size mosaictrees
       set_tile_size append_dataset env_log env_parsed project_settings].

Lemma share_tile_size_outcome sub e env :
  wp (share_tile_size w sub) (e, env) (fun r s' =>
    project_settings (fst s') = project_settings e
    /\ datasets (fst s') = datasets e
    /\ forall sub', r = Ok sub' -> rest sub' = rest sub).
Proof.
  unfold share_tile_size, tile_size_getitem.
  repeat (cbv beta iota zeta; esimp; fsimp;
          lazymatch goal with
          | |- wp (get_dimensions _) _ _ =>
              eapply wp_conseq;
                [apply wp_keeps_rest, get_dimensions_keeps_rest|];
              cbv beta; intros ? [? ?] Hrest
          | _ => wp_step
          end).
  all: cbv beta iota zeta; esimp; fsimp.
  all: (split; [reflexivity|]); (split; [reflexivity|]).
  all: intros sub' Hs; inversion Hs; subst; clear Hs.
  all: try reflexivity.
  all: cbn [fst] in Hrest; exact Hrest.
Qed.

Lemma parse_area_outcome area e env :
  wp (parse_area w area) (e, env) (fun r s' =>
    project_settings (fst s') = project_settings e
    /\ datasets (fst s') = datasets e
    /\ match r with
       | Ok vol => tile_of_area w area vol
       | Raise err => err = IOError
       end).
Proof.
  unfold parse_area, supplement_getitem.
  wp_step. wp_step. wp_step.
  destruct (image area) as [fname|e0] eqn:Hname;
    [|wp_run; repeat split; reflexivity].
  wp_step. wp_step.
  destruct (xIndex area) as [gx|e0] eqn:Hgx;
    [|wp_run; repeat split; reflexivity].
  wp_step. wp_step.
  destruct (yIndex area) as [gy|e0] eqn:Hgy;
    [|wp_run; repeat split; reflexivity].
  wp_step. wp_step. wp_step. wp_step. wp_step. esimp. wp_step.
  eapply wp_conseq;
    [apply wp_and; [apply (image_init_outcome w ImageDataOIR)
                   |apply wp_keeps_self, (image_init_keeps_self w ImageDataOIR)]|].
  cbv beta. intros r1 [e1 env1] ((_ & Hvol) & He1). cbn [fst] in He1. subst e1.
  wp_step; [|wp_run; repeat split; reflexivity].
  destruct (Hvol _ eq_refl) as (Hcls & _ & Hsup & _ & _ & _ & Hex & _ & _).
  clear Hvol.
  unfold set_stagecoords, set_tilenumbers.
  repeat (cbv beta iota zeta; esimp; fsimp;
          lazymatch goal with
          | |- wp (share_tile_size _ _) _ _ =>
              eapply wp_conseq; [apply share_tile_size_outcome|];
              cbv beta; intros ? [? ?] (Hset & Hdat & Hsub)
          | |- wp (set_relpos _ _) _ _ =>
              eapply wp_conseq; [apply set_relpos_outcome|];
              cbv beta; intros ? [? ?] (Hb & Hst & Hpa & Hcl & Hpos)
          | _ => wp_step
          end).
  all: cbv beta iota zeta; esimp; fsimp.
  all: cbn [fst] in *; (split; [assumption|]); (split; [assumption|]);
    try reflexivity.
  specialize (Hsub _ eq_refl). unfold rest in Hsub. fsimp_in Hsub.
  injection Hsub as Hb0 Hst0 Hpr0 Hpa0 Hcl0.
  destruct Hpos as (x & y & t1 & Hpos & _).
  unfold tile_of_area. rewrite Hcl, Hcl0, Hb, Hb0, Hst, Hst0. fsimp.
  split; [exact Hcls|]. split; [exact Hex|]. split; [reflexivity|].
  split; [|eauto].
  exists fname, gx, gy. rewrite Hsup. repeat split; assumption.
Qed.

(** The loop over the areas: one tile per area, and no failure but the
    [IOError] for a tile. *)
Lemma area_loop_outcome areas : forall m e env,
  wp (area_loop w areas m) (e, env) (fun r s' =>
    project_settings (fst s') = project_settings e
    /\ datasets (fst s') = datasets e
    /\ match r with
       | Ok m' => exists vols, m' = with_subvols m vols
                               /\ Forall2 (tile_of_area w) areas vols
       | Raise err => err = IOError
       end).
Proof.
  induction areas as [|area areas IH]; intros m e env; cbn [area_loop].
  - wp_run. split; [reflexivity|]. split; [reflexivity|].
    exists []. split; [now rewrite with_subvols_nil|constructor].
  - unfold add_subvol. wp_step. wp_step. wp_step. wp_step. wp_step.
    wp_use parse_area_outcome. intros (Hset & Hdat & Hr).
    destruct s' as [e1 env1]. cbn [fst] in Hset, Hdat.
    destruct r as [vol|err].
    + wp_run. eapply wp_conseq; [apply IH|]. cbv beta.
      intros r2 [e2 env2] (Hset2 & Hdat2 & Hr2). cbn [fst] in *.
      split; [congruence|]. split; [congruence|].
      destruct r2 as [m'|err]; [|assumption].
      destruct Hr2 as (vols & -> & HF). exists (vol :: vols).
      split; [|constructor; assumption].
      unfold with_subvols. fsimp. now rewrite <- app_assoc.
    + subst err. wp_run; cbn [fst]; try discriminate.
      repeat split; assumption.
Qed.

Lemma MosaicDataCuboid_init_tree {O} p cx cy cz (s : O * Env) :
  exists env',
    MosaicDataCuboid_init w "tree" p (cx, cy, cz) s
    = (Ok (mkMosaic (mkDataSet "mosaic" (with_type (parse_path w p) "tree") ∅) []
             (list_to_map [("X", cx); ("Y", cy); ("Z", cz)]) (PInt 0) "px"),
       (fst s, env')).
Proof. destruct s. eexists. reflexivity. Qed.

Lemma set_overlap_pct ov m env :
  exists env',
    set_overlap ov "pct" (m, env)
    = (Ok tt, (mkMosaic (m_base m) (subvol m) (dim m) ov "pct", env')).
Proof.
  unfold set_overlap. munfold. cbn [str_in]. 
  destruct (le_5 ov); munfold; eexists; reflexivity.
Qed.

Lemma assemble_mosaic_ds_outcome areas cx cy e env :
  wp (assemble_mosaic_ds w areas cx cy) (e, env) (fun r s' =>
    project_settings (fst s') = project_settings e
    /\ datasets (fst s') = datasets e
    /\ match r with
       | Ok m =>
           Forall2 (tile_of_area w) areas (subvol m)
           /\ overlap_units m = "pct"
           /\ supplement e !! "overlap" = Some (overlap m)
           /\ dim m = list_to_map [("X", cx); ("Y", cy); ("Z", 1)]
           /\ m_base m = mkDataSet "mosaic"
                           (with_type (parse_path w (orig (infile e))) "tree") ∅
       | Raise err =>
           err = IOError \/ (err = KeyError /\ supplement e !! "overlap" = None)
       end).
Proof.
  unfold assemble_mosaic_ds, supplement_getitem.
  wp_step. wp_step. wp_step. cbn [fst].
  destruct (MosaicDataCuboid_init_tree (orig (infile e)) cx cy 1 (e, env))
    as (env1 & E1).
  eapply wp_val; [exact E1|]. cbn [fst].
  wp_step. wp_step. wp_step. cbn [fst].
  destruct (supplement e !! "overlap") as [ov|] eqn:Hov;
    [|wp_run; repeat split; right; split; reflexivity].
  wp_step. wp_step. wp_step.
  match goal with |- wp (set_overlap _ _) (?m, ?en) _ =>
    destruct (set_overlap_pct ov m en) as (env2 & E2) end.
  eapply wp_val; [exact E2|]. cbn [fst snd].
  eapply wp_conseq; [apply area_loop_outcome|]. cbv beta.
  intros r [e3 env3] (Hset & Hdat & Hr). cbn [fst] in *.
  split; [assumption|]. split; [assumption|].
  destruct r as [m|err]; [|left; assumption].
  destruct Hr as (vols & -> & HF). unfold with_subvols. fsimp.
  repeat split; assumption.
Qed.

Lemma eqb_or_inv (s a b : string) :
  negb (String.eqb s a) && negb (String.eqb s b) = false -> s = a \/ s = b.
Proof.
  destruct (String.eqb_spec s a); [now left|].
  destruct (String.eqb_spec s b); [now right|]. discriminate.
Qed.

Lemma str_in_two (s a b : string) : str_in s [a; b] = true -> s = a \/ s = b.
Proof.
  unfold str_in. cbn [existsb].
  destruct (String.eqb_spec s a); [now left|].
  destruct (String.eqb_spec s b); [now right|]. discriminate.
Qed.

Lemma parse_mosaic_outcome tree e env :
  wp (parse_mosaic w tree) (e, env) (fun r s' =>
    project_settings (fst s') = project_settings e
    /\ datasets (fst s') = datasets e
    /\ match r with
       | Ok m => mosaic_of_group w e tree m
       | Raise err =>
           group_accepted tree ->
           err = IOError \/ (err = KeyError /\ supplement e !! "overlap" = None)
       end).
Proof.
  unfold parse_mosaic.
  repeat (cbv beta iota zeta; esimp; fsimp;
          lazymatch goal with
          | |- wp (assemble_mosaic_ds _ _ _ _) _ _ =>
              eapply wp_conseq; [apply assemble_mosaic_ds_outcome|];
              cbv beta; intros ? [? ?] (Hset & Hdat & Hr)
          | _ => wp_step
          end).
  all: cbv beta iota zeta; esimp; fsimp.
  all: cbn [fst] in *; (split; [try assumption; try reflexivity|]);
       (split; [try assumption; try reflexivity|]).
  all: try (intros (Ho & Ht & Hs & He & Hg & Hx & Hy & Haw & Hah);
            destruct Ho as [? Ho], Hg as [? Hg], Hx as [? Hx], Hy as [? Hy],
              Haw as [? Haw], Hah as [? Hah];
            try assumption; try congruence;
            destruct Ht as [Ht|Ht], Hs as [Hs|Hs];
            try congruence;
            rewrite ?Ht, ?Hs, ?He in *;
            repeat match goal with
                   | H : Ok _ = Ok _ |- _ => inversion H; clear H; subst
                   end;
            match goal with
            | H : _ = true |- _ => vm_compute in H; discriminate H
            | H : _ = false |- _ => vm_compute in H; discriminate H
            end).
  destruct Hr as (HF & Hu & Hov & Hdim & Hbase).
  apply eqb_or_inv in Heqb. apply str_in_two in Heqb0.
  apply negb_false_iff, String.eqb_eq in Heqb1. subst.
  unfold mosaic_of_group, group_accepted, set_mosaic_supplement. fsimp.
  rewrite Hbase. fsimp.
  split.
  { split; [eauto|]. split; [destruct Heqb; subst; auto|].
    split; [destruct Heqb0; subst; auto|]. split; [assumption|].
    repeat split; eauto. }
  split; [assumption|]. split; [assumption|]. split; [assumption|].
  split; [eauto|]. split; [reflexivity|]. split; [reflexivity|].
  do 2 eexists. split; [eassumption|]. split; [eassumption|].
  split; reflexivity.
Qed.

Lemma mosaic_of_group_settings e e1 tree m :
  project_settings e1 = project_settings e ->
  mosaic_of_group w e1 tree m -> mosaic_of_group w e tree m.
Proof.
  unfold project_settings, mosaic_of_group. intros H. injection H as Hi Hs _ _.
  now rewrite Hi, Hs.
Qed.

Lemma mosaic_of_group_index e tree m i :
  mosaic_of_group w e tree m ->
  mosaic_of_group w e tree (set_mosaic_supplement "index" (PInt i) m).
Proof.
  unfold mosaic_of_group, set_mosaic_supplement. fsimp.
  intros (Ha & HF & Hu & Hov & Hdim & Hds & Hst & oid & gid & Ho & Hg & H1 & H2).
  repeat (split; [assumption|]).
  exists oid, gid. repeat (split; [assumption|]).
  rewrite !lookup_insert_ne by done. split; assumption.
Qed.

Lemma tile_of_area_positioned areas vols :
  Forall2 (tile_of_area w) areas vols ->
  Forall (fun v => exists x y rest, position_relative v = Some (x :: y :: rest)) vols.
Proof.
  induction 1 as [|area vol ? ? Ht _ IH]; constructor; [|assumption].
  destruct Ht as (_ & _ & _ & _ & x & y & Hp). eauto.
Qed.

Lemma add_mosaic_3k_outcome tree i e env :
  wp (add_mosaic w tree i) (e, env) (fun r s' =>
    project_settings (fst s') = project_settings e
    /\ match r with
       | Ok _ =>
           exists m,
             datasets (fst s') = datasets e ++ [m]
             /\ mosaic_of_group w e tree m
             /\ Dataset.supplement (m_base m) !! "index" = Some (PInt i)
       | Raise err =>
           datasets (fst s') = datasets e
           /\ (group_accepted tree ->
               err = IOError
               \/ (err = KeyError /\ supplement e !! "overlap" = None))
       end).
Proof.
  unfold add_mosaic, add_dataset. wp_step.
  wp_use parse_mosaic_outcome. destruct s' as [e1 env1]. cbn [fst].
  intros (Hset & Hdat & Hr). destruct r as [m|err]; wp_run; esimp.
  - split; [assumption|]. eexists. split; [rewrite Hdat; reflexivity|].
    split; [now apply mosaic_of_group_index|].
    unfold set_mosaic_supplement. fsimp. now rewrite lookup_insert_eq.
  - repeat split; assumption.
Qed.

(** The loop of [add_mosaics]: the mosaics added are those of some of the
    enumerated groups, in their order, each with the position of its
    group as index; an error that ends the loop is none of those the loop
    catches. *)
Lemma add_mosaics_loop_3k_outcome trees : forall i e env,
  wp (add_mosaics_loop w i trees) (e, env) (fun r s' =>
    project_settings (fst s') = project_settings e
    /\ (exists picked new,
          sublist picked (enumerate i trees)
          /\ datasets (fst s') = datasets e ++ new
          /\ Forall2 (fun p m =>
                        mosaic_of_group w e (snd p) m
                        /\ Dataset.supplement (m_base m) !! "index"
                           = Some (PInt (fst p))) picked new)
    /\ forall err, r = Raise err ->
         is_instance err ValueError = false
         /\ is_instance err RuntimeError = false).
Proof.
  induction trees as [|tree trees IH]; intros i e env;
    cbn [add_mosaics_loop enumerate].
  - wp_run. split; [reflexivity|]. split; [|discriminate].
    exists [], []. split; [constructor|]. split; [now rewrite app_nil_r|constructor].
  - wp_step. wp_step.
    wp_use add_mosaic_3k_outcome. destruct s' as [e1 env1]. cbn [fst].
    intros (Hset & Hr).
    assert (Hnext : forall env2,
      datasets e1 = datasets e ->
      wp (add_mosaics_loop w (i + 1) trees) (e1, env2) (fun r s' =>
        project_settings (fst s') = project_settings e
        /\ (exists picked new,
              sublist picked ((i, tree) :: enumerate (i + 1) trees)
              /\ datasets (fst s') = datasets e ++ new
              /\ Forall2 (fun p m =>
                            mosaic_of_group w e (snd p) m
                            /\ Dataset.supplement (m_base m) !! "index"
                               = Some (PInt (fst p))) picked new)
        /\ forall err, r = Raise err ->
             is_instance err ValueError = false
             /\ is_instance err RuntimeError = false)).
    { intros env2 Hdat. eapply wp_conseq; [apply IH|]. cbv beta.
      intros r2 [e2 env3] (Hset2 & (picked & new & Hsub & Hd2 & HF) & Herr).
      cbn [fst] in *. split; [congruence|]. split; [|assumption].
      exists picked, new. split; [now constructor|]. split; [congruence|].
      eapply Forall2_impl; [exact HF|]. cbv beta. intros p m [Hm Hi].
      split; [|assumption]. eapply mosaic_of_group_settings; eassumption. }
    destruct r as [[]|err].
    + destruct Hr as (m & Hdat & Hm & Hidx).
      eapply wp_conseq; [apply IH|]. cbv beta.
      intros r2 [e2 env3] (Hset2 & (picked & new & Hsub & Hd2 & HF) & Herr).
      cbn [fst] in *. split; [congruence|]. split; [|assumption].
      exists ((i, tree) :: picked), (m :: new).
      split; [now constructor|].
      split; [rewrite Hd2, Hdat, <- app_assoc; reflexivity|].
      constructor; [split; assumption|].
      eapply Forall2_impl; [exact HF|]. cbv beta. intros p m' [Hm' Hi].
      split; [|assumption]. eapply mosaic_of_group_settings; eassumption.
    + destruct Hr as (Hdat & _).
      destruct (is_instance err ValueError || is_instance err RuntimeError)
        eqn:Hcatch.
      * destruct (is_instance err ValueError); wp_run; apply Hnext; assumption.
      * apply orb_false_iff in Hcatch as [H1 H2]. cbn [fst].
        split; [assumption|]. split.
        { exists [], []. split; [apply sublist_nil_l|].
          split; [now rewrite app_nil_r|constructor]. }
        intros err' [= <-]. split; assumption.
Qed.

Lemma parse_mosaic_rejected tree e env oid ty :
  objectId tree = Ok oid -> regionInfo_type tree = Ok ty ->
  (ty <> "marker:rectangleRegion" /\ ty <> "marker:polygonRegion")
  \/ ((regionInfo_shape tree = Ok "Rectangle"
       \/ regionInfo_shape tree = Ok "Polygon")
      /\ exists en, enable tree = Ok en /\ en <> "true") ->
  wp (parse_mosaic w tree) (e, env) (fun r s' =>
    fst s' = e /\ env_parsed (snd s') = env_parsed env
    /\ (r = Raise NotImplementedError \/ r = Raise ValueError)).
Proof.
  intros Hoid Hty Hrej. unfold parse_mosaic. rewrite Hoid, Hty.
  wp_step. wp_step. wp_step. wp_step. wp_step. wp_step. wp_step.
  destruct (negb (String.eqb ty "marker:rectangleRegion")
            && negb (String.eqb ty "marker:polygonRegion")) eqn:Hsup.
  { wp_run. repeat split; auto. }
  apply eqb_or_inv in Hsup.
  destruct Hrej as [[H1 H2]|(Hshape & en & Hen & Hdis)];
    [destruct Hsup; contradiction|].
  assert (Hin : exists shape, regionInfo_shape tree = Ok shape
                              /\ str_in shape ["Rectangle"; "Polygon"] = true)
    by (destruct Hshape as [-> | ->]; eexists; split; reflexivity).
  destruct Hin as (shape & -> & Hin). rewrite Hen.
  wp_step. wp_step. wp_step. wp_step. rewrite Hin.
  wp_step. wp_step. wp_step. wp_step. wp_step. wp_step. wp_step. wp_step.
  destruct (String.eqb_spec en "true") as [?|_]; [contradiction|].
  wp_run. repeat split; auto.
Qed.

(** X11.  A call of [add_mosaic] that returns has added exactly one
    mosaic, built from an enabled group with a rectangular or polygonal
    region: it holds one existing [.oir] tile per area, in the order of
    the areas, each with the grid indices of its area and a relative
    position; it has the grid size of the group, the overlap of the stage
    in percent, the identifiers of the group and the given index, and
    [files_and_coords] lists it without an error. *)
Theorem add_mosaic_3k_adds_mosaic_of_group tree index e env e' env' :
  add_mosaic w tree index (e, env) = (Ok tt, (e', env')) ->
  project_settings e' = project_settings e
  /\ exists m,
       datasets e' = datasets e ++ [m]
       /\ mosaic_of_group w e tree m
       /\ Dataset.supplement (m_base m) !! "index" = Some (PInt index)
       /\ forall sort, exists tiles,
            files_and_coords w m sort = Ok tiles
            /\ length tiles = length (areas tree).
Proof.
  intros E.
  destruct (wp_elim _ _ _ _ _ (add_mosaic_3k_outcome tree index e env) E)
    as (Hset & m & Hd & Hm & Hi).
  cbn [fst] in *. split; [assumption|]. exists m.
  repeat (split; [assumption|]). intros sort.
  pose proof Hm as (_ & HF & _).
  destruct (files_and_coords_total w m sort (tile_of_area_positioned _ _ HF))
    as (tiles & Ht & Hlen).
  exists tiles. split; [assumption|].
  rewrite Hlen. symmetry. eapply Forall2_length. eassumption.
Qed.

(** X12.  When [add_mosaic] fails on an enabled group with all its
    fields in a project whose overlap is known, the error is an
    [IOError]: every failure of a tile is turned into one.  The loop of
    [add_mosaics] does not catch it, so nothing is added for the group
    and the groups that follow are not parsed. *)
Theorem add_mosaic_3k_broken_tile_aborts tree trees index e env ov err s1 :
  group_accepted tree -> supplement e !! "overlap" = Some ov ->
  add_mosaic w tree index (e, env) = (Raise err, s1) ->
  err = IOError
  /\ datasets (fst s1) = datasets e
  /\ add_mosaics_loop w index (tree :: trees) (e, env) = (Raise IOError, s1).
Proof.
  intros Hacc Hov E.
  destruct (wp_elim _ _ _ _ _ (add_mosaic_3k_outcome tree index e env) E)
    as (_ & Hd & Herr).
  assert (He : err = IOError)
    by (destruct (Herr Hacc) as [?|[_ Hn]]; [assumption|congruence]).
  subst err. split; [reflexivity|]. split; [assumption|].
  cbn [add_mosaics_loop]. unfold bind at 1. unfold try_except at 1.
  rewrite E. reflexivity.
Qed.

(** X13.  A group with a region type other than rectangle and polygon,
    and a rectangular or polygonal group that is not enabled, are
    skipped: the loop of [add_mosaics] goes on with the next group and
    the next index, the project is as before, and no dimension parser has
    run. *)
Theorem add_mosaics_3k_skips_rejected_group tree trees i e env oid ty :
  objectId tree = Ok oid -> regionInfo_type tree = Ok ty ->
  (ty <> "marker:rectangleRegion" /\ ty <> "marker:polygonRegion")
  \/ ((regionInfo_shape tree = Ok "Rectangle"
       \/ regionInfo_shape tree = Ok "Polygon")
      /\ exists en, enable tree = Ok en /\ en <> "true") ->
  exists env1,
    env_parsed env1 = env_parsed env
    /\ add_mosaics_loop w i (tree :: trees) (e, env)
       = add_mosaics_loop w (i + 1) trees (e, env1).
Proof.
  intros Hoid Hty Hrej.
  destruct (wp_exists _ _ _ (parse_mosaic_rejected tree e env oid ty Hoid Hty Hrej))
    as (r & [e1 env1] & E & He & Hp & Hr).
  cbn [fst snd] in He, Hp. subst e1.
  cbn [add_mosaics_loop]. unfold bind at 1. unfold try_except at 1.
  unfold add_mosaic at 1. unfold bind at 1. rewrite E.
  destruct Hr as [-> | ->]; cbn; eexists; (split; [|reflexivity]); exact Hp.
Qed.

(** X14.  Whatever the outcome of [add_mosaics], the mosaics that were
    in the project before are still there, in front; the mosaics added
    are those of a sub-sequence of the enumerated groups, in the order of
    the groups, each with the position of its group as index.  The loop
    lets no [ValueError], [RuntimeError] or [NotImplementedError]
    through.  A project parsed from empty never holds more mosaics than
    groups. *)
Theorem add_mosaics_3k_keeps_group_order e env r e' env' :
  add_mosaics w (e, env) = (r, (e', env')) ->
  project_settings e' = project_settings e
  /\ (exists picked new,
        sublist picked (enumerate 0 (mosaictrees e))
        /\ datasets e' = datasets e ++ new
        /\ Forall2 (fun p m =>
                      mosaic_of_group w e (snd p) m
                      /\ Dataset.supplement (m_base m) !! "index"
                         = Some (PInt (fst p))) picked new)
  /\ r <> Raise ValueError /\ r <> Raise RuntimeError
  /\ r <> Raise NotImplementedError
  /\ (datasets e = [] -> (length (datasets e') <= length (mosaictrees e'))%nat).
Proof.
  intros E.
  assert (H : wp (add_mosaics w) (e, env) (fun r s' =>
    project_settings (fst s') = project_settings e
    /\ (exists picked new,
          sublist picked (enumerate 0 (mosaictrees e))
          /\ datasets (fst s') = datasets e ++ new
          /\ Forall2 (fun p m =>
                        mosaic_of_group w e (snd p) m
                        /\ Dataset.supplement (m_base m) !! "index"
                           = Some (PInt (fst p))) picked new)
    /\ forall err, r = Raise err ->
         is_instance err ValueError = false
         /\ is_instance err RuntimeError = false)).
  { unfold add_mosaics. wp_step. wp_step. cbn [fst].
    apply add_mosaics_loop_3k_outcome. }
  destruct (wp_elim _ _ _ _ _ H E)
    as (Hset & (picked & new & Hsub & Hd & HF) & Herr).
  cbn [fst] in *. split; [assumption|]. split; [eauto 10|].
  split; [intros ->; now destruct (Herr _ eq_refl)|].
  split; [intros ->; now destruct (Herr _ eq_refl)|].
  split; [intros ->; now destruct (Herr _ eq_refl)|].
  intros Hempty. rewrite Hd, Hempty. cbn [app].
  assert (Ht : mosaictrees e' = mosaictrees e)
    by (unfold project_settings in Hset; congruence).
  rewrite Ht, <- (Forall2_length _ _ _ HF).
  apply sublist_length in Hsub. now rewrite enumerate_length in Hsub.
Qed.

End Mosaics3k.

Lemma add_mosaic_3k_adds_mosaic_of_group_witness :
  exists e' env' m,
    FluoView.FluoView3kMosaic.add_mosaic (Demo.world Demo.files_3k)
      Demo.group_3k 0 (Demo.project_3k, env0) = (Ok tt, (e', env'))
    /\ FluoView.FluoView3kMosaic.datasets e' = [m]
    /\ length (subvol m) = 3%nat.
Proof.
  destruct (FluoView.FluoView3kMosaic.add_mosaic (Demo.world Demo.files_3k)
              Demo.group_3k 0 (Demo.project_3k, env0)) as [r [e' env']] eqn:E.
  assert (Hr : r = Ok tt).
  { replace r with (fst (FluoView.FluoView3kMosaic.add_mosaic
                           (Demo.world Demo.files_3k)
                           Demo.group_3k 0 (Demo.project_3k, env0)))
      by now rewrite E.
    vm_compute. reflexivity. }
  subst r.
  destruct (add_mosaic_3k_adds_mosaic_of_group _ _ _ _ _ _ _ E)
    as (_ & m & Hd & (_ & HF & _) & _).
  exists e', env', m. split; [reflexivity|]. split; [exact Hd|].
  apply Forall2_length in HF. cbn in HF. now rewrite <- HF.
Defined.

Lemma add_mosaic_3k_broken_tile_aborts_witness :
  fst (FluoView.FluoView3kMosaic.add_mosaics_loop (Demo.world ["/data/a0.oir"]) 0
         [Demo.group_3k; Demo.group_3k] (Demo.project_3k, env0))
  = Raise IOError.
Proof.
  destruct (FluoView.FluoView3kMosaic.add_mosaic (Demo.world ["/data/a0.oir"])
              Demo.group_3k 0 (Demo.project_3k, env0)) as [r s1] eqn:E.
  assert (Hr : is_ok r = false).
  { replace r with (fst (FluoView.FluoView3kMosaic.add_mosaic
                           (Demo.world ["/data/a0.oir"])
                           Demo.group_3k 0 (Demo.project_3k, env0)))
      by now rewrite E.
    vm_compute. reflexivity. }
  destruct r as [?|err]; [discriminate|].
  assert (group_3k_accepted : group_accepted Demo.group_3k)
    by (unfold group_accepted; cbn; repeat split; eauto).
  destruct (add_mosaic_3k_broken_tile_aborts (Demo.world ["/data/a0.oir"])
              Demo.group_3k [Demo.group_3k] 0 Demo.project_3k env0 (PInt 10) err s1
              group_3k_accepted eq_refl E) as (_ & _ & Hloop).
  rewrite Hloop. reflexivity.
Defined.

Lemma add_mosaics_3k_skips_rejected_group_witness :
  exists env1,
    FluoView.FluoView3kMosaic.add_mosaics_loop (Demo.world Demo.files_3k) 0
      [Demo.group_3k_ellipse; Demo.group_3k] (Demo.project_3k, env0)
    = FluoView.FluoView3kMosaic.add_mosaics_loop (Demo.world Demo.files_3k) 1
        [Demo.group_3k] (Demo.project_3k, env1).
Proof.
  destruct (add_mosaics_3k_skips_rejected_group (Demo.world Demo.files_3k)
              Demo.group_3k_ellipse [Demo.group_3k] 0 Demo.project_3k env0
              "9" "marker:ellipseRegion" eq_refl eq_refl)
    as (env1 & _ & H).
  - left. split; discriminate.
  - exists env1. exact H.
Defined.

Lemma add_mosaics_3k_keeps_group_order_witness :
  (length (FluoView.FluoView3kMosaic.datasets
             (fst (snd (FluoView.FluoView3kMosaic.add_mosaics
                          (Demo.world Demo.files_3k)
                          (FluoView.FluoView3kMosaic.set_mosaictrees
                             [Demo.group_3k_disabled; Demo.group_3k]
                             Demo.project_3k, env0)))))
   <= 2)%nat.
Proof.
  destruct (FluoView.FluoView3kMosaic.add_mosaics (Demo.world Demo.files_3k)
              (FluoView.FluoView3kMosaic.set_mosaictrees
                 [Demo.group_3k_disabled; Demo.group_3k] Demo.project_3k, env0))
    as [r [e' env']] eqn:E.
  destruct (add_mosaics_3k_keeps_group_order _ _ _ _ _ _ E)
    as (Hset & _ & _ & _ & _ & Hlen).
  cbn [fst snd]. specialize (Hlen eq_refl).
  assert (Ht : FluoView.FluoView3kMosaic.mosaictrees e'
               = [Demo.group_3k_disabled; Demo.group_3k])
    by (unfold project_settings in Hset; injection Hset as _ _ _ Ht; exact Ht).
  rewrite Ht in Hlen. exact Hlen.
Defined.

(** ** [FluoView3kMosaic]: one parsed tile size for the project *)

Section ProjectTileSize.

Import FluoView.FluoView3kMosaic.

Variable w : World.
Hypothesis Hnn : sizes_nonnegative w.

Ltac esimp :=
  cbn [fst snd datasets infile supplement tile_size common_tile_size mosaictrees
       set_tile_size append_dataset env_log env_parsed project_settings].

Lemma unset_not_cached e :
  tile_size e = Some tile_size_unset -> size_cached e -> False.
Proof.
  intros Hu (ts & x & y & Hts & Hx & Hy & Nx & Ny).
  rewrite Hu in Hts. inversion Hts. subst ts.
  vm_compute in Hx. inversion Hx. congruence.
Qed.

Lemma size_cached_tile_size e e' :
  tile_size e' = tile_size e -> size_cached e -> size_cached e'.
Proof. unfold size_cached. now intros ->. Qed.

Lemma tiles_share_size_kept e env e' env' vols :
  size_known_or_unset e ->
  tiles_share_size e env e' env' vols -> cache_kept e env e' env'.
Proof.
  intros Hinv (Hc & [(Hts & Hp & Hv)|(Hu & Hs & first & rest & -> & Hp & Hts)] & _).
  - split; [assumption|]. split.
    { destruct Hinv as [Hu|Hs]; [left; congruence|right].
      eapply size_cached_tile_size; eassumption. }
    split; [exists []; rewrite app_nil_r; split; [assumption|cbn; lia]|].
    intros _. split; assumption.
  - split; [assumption|]. split; [now right|].
    split; [eexists; split; [eassumption|cbn; lia]|].
    intros Hs'. destruct (unset_not_cached _ Hu Hs').
Qed.

Lemma tiles_share_size_inv e env e' env' vols :
  size_known_or_unset e ->
  tiles_share_size e env e' env' vols -> size_known_or_unset e'.
Proof.
  intros Hinv H. exact (proj1 (proj2 (tiles_share_size_kept _ _ _ _ _ Hinv H))).
Qed.

Lemma tiles_share_size_trans e env e1 env1 e2 env2 v1 v2 :
  tiles_share_size e env e1 env1 v1 ->
  tiles_share_size e1 env1 e2 env2 v2 ->
  tiles_share_size e env e2 env2 (v1 ++ v2).
Proof.
  intros (Hc1 & H1 & HF1) (Hc2 & H2 & HF2). split; [assumption|].
  destruct H1 as [(Hts1 & Hp1 & Hv1)|(Hu1 & Hs1 & f1 & r1 & -> & Hp1 & Hts1)];
    destruct H2 as [(Hts2 & Hp2 & Hv2)|(Hu2 & Hs2 & f2 & r2 & -> & Hp2 & Hts2)].
  - split.
    + left. split; [congruence|]. split; [congruence|].
      intros Hne. destruct v1 as [|a v1]; [|apply Hv1; discriminate].
      eapply size_cached_tile_size; [symmetry; exact Hts1|]. now apply Hv2.
    + apply Forall_app. split; [|assumption].
      eapply Forall_impl; [exact HF1|]. cbv beta. intros; congruence.
  - assert (v1 = []) as ->.
    { destruct v1 as [|a v1]; [reflexivity|]. exfalso.
      eapply (unset_not_cached e); [congruence|]. apply Hv1. discriminate. }
    split; [|assumption]. right. split; [congruence|]. split; [assumption|].
    exists f2, r2. split; [reflexivity|]. split; [congruence|assumption].
  - split.
    + right. split; [assumption|].
      split; [eapply size_cached_tile_size; eassumption|].
      exists f1, (r1 ++ v2). split; [reflexivity|]. split; [congruence|congruence].
    + apply Forall_app. split; [|assumption].
      eapply Forall_impl; [exact HF1|]. cbv beta. intros; congruence.
  - destruct (unset_not_cached _ Hu2 Hs1).
Qed.

Lemma cache_kept_trans e env e1 env1 e2 env2 v1 :
  tiles_share_size e env e1 env1 v1 ->
  cache_kept e1 env1 e2 env2 ->
  cache_kept e env e2 env2
  /\ Forall (fun sub => _dim sub = tile_size e2) v1.
Proof.
  intros (Hc1 & H1 & HF1) (Hc2 & Hinv2 & (l2 & Hl2 & Hlen2) & Hk2).
  destruct H1 as [(Hts1 & Hp1 & Hv1)|(Hu1 & Hs1 & f1 & r1 & -> & Hp1 & Hts1)].
  - split.
    + split; [assumption|]. split; [assumption|].
      split; [exists l2; split; [congruence|assumption]|].
      intros Hs. destruct Hk2 as [Hts2 Hp2];
        [eapply size_cached_tile_size; eassumption|].
      split; congruence.
    + destruct v1 as [|a v1]; [constructor|].
      destruct Hk2 as [Hts2 _];
        [eapply size_cached_tile_size; [exact Hts1|apply Hv1; discriminate]|].
      eapply Forall_impl; [exact HF1|]. cbv beta. intros; congruence.
  - destruct (Hk2 Hs1) as [Hts2 Hp2]. split.
    + split; [assumption|]. split; [assumption|].
      split; [eexists; split; [rewrite Hp2; exact Hp1|cbn; lia]|].
      intros Hs. destruct (unset_not_cached _ Hu1 Hs).
    + eapply Forall_impl; [exact HF1|]. cbv beta. intros; congruence.
Qed.

(** From the placeholder, the sharing block either leaves the
    placeholder (the parser of the tile failed) or caches a parsed
    size. *)
Lemma share_tile_size_state d e env :
  common_tile_size e = true -> tile_size e = Some tile_size_unset ->
  cls d = ImageDataOIR -> _dim d = None ->
  wp (share_tile_size w d) (e, env) (fun _ s' => size_known_or_unset (fst s')).
Proof.
  intros Hc Hts Hcls Hdim.
  unfold share_tile_size, tile_size_getitem.
  repeat (cbv beta iota zeta; esimp; rewrite ?Hc, ?Hts;
          try change (dims_getitem (Some tile_size_unset) "X") with (@Ok Z (-1));
          try change (-1 =? -1) with true;
          wp_step).
  cbv beta iota zeta; esimp.
  eapply wp_conseq; [apply get_dimensions_OIR_fresh; assumption|].
  cbv beta. intros r s' (He & Hb & Hd).
  destruct r as [v|err]; [|wp_run; esimp; left; assumption].
  destruct (Hd v eq_refl) as (dims & x & y & fp & b & -> & Hd' & Hx & Hy & Hfp).
  assert (Hs : forall e1, tile_size e1 = Some dims -> size_cached e1).
  { intros e1 H1. destruct (Hnn _ _ _ _ Hfp) as [Hx0 Hy0].
    exists dims, x, y. repeat split; try assumption; lia. }
  wp_run; esimp; right; apply Hs; reflexivity.
Qed.

Lemma parse_area_state area e env :
  common_tile_size e = true -> tile_size e = Some tile_size_unset ->
  wp (parse_area w area) (e, env) (fun _ s' => size_known_or_unset (fst s')).
Proof.
  intros Hc Hts.
  assert (Hleft : size_known_or_unset e) by now left.
  unfold parse_area, set_stagecoords, set_tilenumbers, supplement_getitem.
  repeat (cbv beta iota zeta; esimp; fsimp;
          lazymatch goal with
          | |- wp (ImageDataOIR_init _ _) _ _ =>
              eapply wp_conseq; [apply ImageDataOIR_init_spec|];
              cbv beta; intros ? [? ?] (Hfst & Hpar & Hd); cbn [fst snd] in Hfst;
              subst
          | |- wp (share_tile_size _ _) _ _ =>
              eapply wp_conseq;
                [apply share_tile_size_state; fsimp;
                 first [assumption | eapply Hd; reflexivity] |];
              cbv beta; intros ? [? ?] Hstate; cbn [fst] in Hstate
          | |- wp (set_relpos _ _) _ _ =>
              eapply wp_conseq; [apply set_relpos_outcome|];
              cbv beta; intros ? [? ?] _
          | _ => wp_step
          end).
  all: cbv beta iota zeta; esimp; fsimp; try assumption.
Qed.

Lemma cache_kept_refl e env env' :
  common_tile_size e = true -> size_known_or_unset e ->
  env_parsed env' = env_parsed env -> cache_kept e env e env'.
Proof.
  intros Hc Hinv Hp. split; [assumption|]. split; [assumption|].
  split; [exists []; rewrite app_nil_r; split; [assumption|cbn; lia]|].
  intros _. split; [reflexivity|assumption].
Qed.

Lemma tiles_share_size_nil e env env' :
  common_tile_size e = true ->
  env_parsed env' = env_parsed env -> tiles_share_size e env e env' [].
Proof.
  intros Hc Hp. split; [assumption|]. split; [|constructor].
  left. split; [reflexivity|]. split; [assumption|]. now intros [].
Qed.

(** The predicates read the record of parser runs only. *)
Lemma cache_kept_env e env0 env e' env' :
  env_parsed env0 = env_parsed env ->
  cache_kept e env0 e' env' -> cache_kept e env e' env'.
Proof. unfold cache_kept. now intros ->. Qed.

Lemma tiles_share_size_env e env0 env e' env' vols :
  env_parsed env0 = env_parsed env ->
  tiles_share_size e env0 e' env' vols -> tiles_share_size e env e' env' vols.
Proof. unfold tiles_share_size. now intros ->. Qed.

Lemma cache_kept_env' e env e' env1 env' :
  env_parsed env' = env_parsed env1 ->
  cache_kept e env e' env1 -> cache_kept e env e' env'.
Proof. unfold cache_kept. now intros ->. Qed.

Lemma tiles_share_size_env' e env e' env1 env' vols :
  env_parsed env' = env_parsed env1 ->
  tiles_share_size e env e' env1 vols -> tiles_share_size e env e' env' vols.
Proof. unfold tiles_share_size. now intros ->. Qed.

Lemma parse_area_cache area e env :
  common_tile_size e = true -> size_known_or_unset e ->
  wp (parse_area w area) (e, env) (fun r s' =>
    cache_kept e env (fst s') (snd s')
    /\ forall sub, r = Ok sub -> tiles_share_size e env (fst s') (snd s') [sub]).
Proof.
  intros Hc [Hu|Hs].
  - eapply wp_conseq;
      [apply wp_and; [apply parse_area_fresh; assumption
                     |apply parse_area_state; assumption]|].
    cbv beta. intros r [e1 env1] ((Hc1 & _ & _ & Hl & Hok) & Hinv).
    cbn [fst snd] in *. split.
    + split; [assumption|]. split; [assumption|]. split; [assumption|].
      intros Hs. destruct (unset_not_cached _ Hu Hs).
    + intros sub Hr. destruct (Hok sub Hr) as (Hp & Hts & Hcached).
      split; [assumption|]. split; [|constructor; [congruence|constructor]].
      right. split; [assumption|]. split; [assumption|].
      exists sub, []. auto.
  - eapply wp_conseq; [apply parse_area_cached; assumption|].
    cbv beta. intros r [e1 env1] (He1 & Hp & Hok). cbn [fst snd] in *. subst e1.
    split; [apply cache_kept_refl; auto; now right|].
    intros sub Hr. split; [assumption|]. split.
    + left. split; [reflexivity|]. split; [assumption|]. now intros _.
    + constructor; [now apply Hok|constructor].
Qed.

(** The loop over the areas of one mosaic. *)
Lemma area_loop_cache areas : forall m e env,
  common_tile_size e = true -> size_known_or_unset e ->
  wp (area_loop w areas m) (e, env) (fun r s' =>
    datasets (fst s') = datasets e
    /\ cache_kept e env (fst s') (snd s')
    /\ match r with
       | Ok m' =>
           exists vols,
             m' = with_subvols m vols
             /\ tiles_share_size e env (fst s') (snd s') vols
       | Raise err => err = IOError
       end).
Proof.
  induction areas as [|area areas IH]; intros m e env Hc Hinv; cbn [area_loop].
  - wp_run. split; [reflexivity|].
    split; [now apply cache_kept_refl|].
    exists []. split; [now rewrite with_subvols_nil|now apply tiles_share_size_nil].
  - unfold add_subvol. wp_step. wp_step. wp_step. wp_step. wp_step.
    eapply wp_conseq;
      [apply wp_and; [apply parse_area_outcome
                     |apply parse_area_cache; assumption]|].
    cbv beta. intros r [e1 env1] ((Hset & Hdat & Hr) & (Hk & Hok)).
    cbn [fst snd] in *.
    destruct r as [vol|err].
    + specialize (Hok vol eq_refl).
      assert (Hc1 : common_tile_size e1 = true) by apply Hok.
      assert (Hinv1 : size_known_or_unset e1)
        by (eapply tiles_share_size_inv; eassumption).
      wp_run. eapply wp_conseq; [apply IH; assumption|]. cbv beta.
      intros r2 [e2 env2] (Hdat2 & Hk2 & Hr2). cbn [fst snd] in *.
      assert (Hok1 : tiles_share_size e env e1
                       (mkEnv (env_log env1 ++
                                 [LogEntry DEBUG "Dataset type: %s" []])
                          (env_parsed env1)) [vol])
        by (eapply tiles_share_size_env'; [|exact Hok]; reflexivity).
      split; [congruence|].
      split; [exact (proj1 (cache_kept_trans _ _ _ _ _ _ _ Hok1 Hk2))|].
      destruct r2 as [m'|err]; [|assumption].
      destruct Hr2 as (vols & -> & Hshare). exists (vol :: vols).
      split; [unfold with_subvols; fsimp; now rewrite <- app_assoc|].
      exact (tiles_share_size_trans _ _ _ _ _ _ [vol] vols Hok1 Hshare).
    + subst err. wp_run; cbn [fst snd]; try discriminate.
      split; [assumption|]. split; [|reflexivity].
      eapply cache_kept_env'; [|exact Hk]. reflexivity.
Qed.

Lemma assemble_mosaic_ds_cache areas cx cy e env :
  common_tile_size e = true -> size_known_or_unset e ->
  wp (assemble_mosaic_ds w areas cx cy) (e, env) (fun r s' =>
    datasets (fst s') = datasets e
    /\ cache_kept e env (fst s') (snd s')
    /\ match r with
       | Ok m => tiles_share_size e env (fst s') (snd s') (subvol m)
       | Raise err => err = IOError \/ (err = KeyError /\ untouched e env s')
       end).
Proof.
  intros Hc Hinv. unfold assemble_mosaic_ds, supplement_getitem.
  wp_step. wp_step. wp_step. cbn [fst].
  destruct (MosaicDataCuboid_init_tree w (orig (infile e)) cx cy 1 (e, env))
    as (env1 & E1).
  assert (Hp1 : env_parsed env1 = env_parsed env).
  { pose proof (MosaicDataCuboid_init_keeps_parsed w (O:=t) "tree"
                  (orig (infile e)) (cx, cy, 1) (e, env)) as K.
    rewrite E1 in K. exact K. }
  eapply wp_val; [exact E1|]. cbn [fst].
  wp_step. wp_step. wp_step. cbn [fst].
  destruct (supplement e !! "overlap") as [ov|] eqn:Hov.
  2:{ wp_run. cbn [fst snd]. split; [reflexivity|].
      split; [now apply cache_kept_refl|].
      right. split; [reflexivity|]. repeat split; assumption. }
  wp_step. wp_step. wp_step.
  match goal with |- wp (set_overlap _ _) (?m, ?en) _ =>
    destruct (set_overlap_pct ov m en) as (env2 & E2);
    pose proof (set_overlap_keeps_parsed ov "pct" (m, en)) as K2;
    rewrite E2 in K2; cbn [fst snd] in K2
  end.
  eapply wp_val; [exact E2|]. cbn [fst snd].
  eapply wp_conseq; [apply area_loop_cache; assumption|]. cbv beta.
  intros r [e3 env3] (Hdat & Hk & Hr). cbn [fst snd] in *.
  assert (Hp2 : env_parsed env2 = env_parsed env) by congruence.
  split; [assumption|].
  split; [eapply cache_kept_env; eassumption|].
  destruct r as [m|err]; [|now left].
  destruct Hr as (vols & -> & Hshare). unfold with_subvols. fsimp.
  eapply tiles_share_size_env; eassumption.
Qed.

Lemma parse_mosaic_cache tree e env :
  common_tile_size e = true -> size_known_or_unset e ->
  wp (parse_mosaic w tree) (e, env) (fun r s' =>
    datasets (fst s') = datasets e
    /\ cache_kept e env (fst s') (snd s')
    /\ match r with
       | Ok m => tiles_share_size e env (fst s') (snd s') (subvol m)
       | Raise err => err = IOError \/ untouched e env s'
       end).
Proof.
  intros Hc Hinv. unfold parse_mosaic.
  repeat (cbv beta iota zeta; esimp; fsimp;
          lazymatch goal with
          | |- wp (assemble_mosaic_ds _ _ _ _) _ _ =>
              eapply wp_conseq; [apply assemble_mosaic_ds_cache; assumption|];
              cbv beta; intros ? [? ?] (Hdat & Hk & Hr)
          | _ => wp_step
          end).
  all: cbv beta iota zeta; esimp; fsimp; cbn [fst snd] in *.
  all: (split; [try assumption; try reflexivity|]).
  all: try (split; [now apply cache_kept_refl|];
            right; repeat split; reflexivity).
  all: (split; [eapply cache_kept_env; [|eassumption]; reflexivity|]).
  - unfold set_mosaic_supplement. fsimp.
    eapply tiles_share_size_env; [|eassumption]. reflexivity.
  - destruct Hr as [?|[_ (H1 & H2 & H3)]]; [now left|right].
    cbn [fst snd] in *. repeat split; assumption.
Qed.

Lemma add_mosaic_cache tree i e env :
  common_tile_size e = true -> size_known_or_unset e ->
  wp (add_mosaic w tree i) (e, env) (fun r s' =>
    cache_kept e env (fst s') (snd s')
    /\ match r with
       | Ok _ =>
           exists m, datasets (fst s') = datasets e ++ [m]
                     /\ tiles_share_size e env (fst s') (snd s') (subvol m)
       | Raise err =>
           datasets (fst s') = datasets e
           /\ (err = IOError \/ untouched e env s')
       end).
Proof.
  intros Hc Hinv. unfold add_mosaic, add_dataset. wp_step.
  eapply wp_conseq; [apply parse_mosaic_cache; assumption|]. cbv beta.
  intros r [e1 env1] (Hdat & Hk & Hr). cbn [fst snd] in *.
  destruct r as [m|err]; wp_run; esimp.
  - split; [eapply cache_kept_env'; [|exact Hk]; reflexivity|].
    eexists. split; [rewrite Hdat; reflexivity|].
    unfold set_mosaic_supplement. fsimp.
    destruct Hr as (Hc1 & Hcases & HF). split; [exact Hc1|]. split; assumption.
  - split; [assumption|]. split; assumption.
Qed.

Lemma tiles_of_app l1 l2 : tiles_of (l1 ++ l2) = tiles_of l1 ++ tiles_of l2.
Proof. unfold tiles_of. now rewrite map_app, concat_app. Qed.

(** The loop of [add_mosaics]: the cache is shared by all mosaics. *)
Lemma add_mosaics_loop_cache trees : forall i e env,
  common_tile_size e = true -> size_known_or_unset e ->
  wp (add_mosaics_loop w i trees) (e, env) (fun r s' =>
    cache_kept e env (fst s') (snd s')
    /\ exists new,
         datasets (fst s') = datasets e ++ new
         /\ Forall (fun sub => _dim sub = tile_size (fst s')) (tiles_of new)
         /\ (r = Ok tt -> tiles_share_size e env (fst s') (snd s') (tiles_of new))).
Proof.
  induction trees as [|tree trees IH]; intros i e env Hc Hinv;
    cbn [add_mosaics_loop].
  - wp_run. split; [now apply cache_kept_refl|].
    exists []. split; [now rewrite app_nil_r|]. split; [constructor|].
    intros _. now apply tiles_share_size_nil.
  - wp_step. wp_step.
    eapply wp_conseq; [apply add_mosaic_cache; assumption|]. cbv beta.
    intros r [e1 env1] (Hk & Hr). cbn [fst snd] in *.
    assert (Hnext : forall env2 new1,
      env_parsed env2 = env_parsed env1 ->
      datasets e1 = datasets e ++ new1 ->
      tiles_share_size e env e1 env1 (tiles_of new1) ->
      wp (add_mosaics_loop w (i + 1) trees) (e1, env2) (fun r s' =>
        cache_kept e env (fst s') (snd s')
        /\ exists new,
             datasets (fst s') = datasets e ++ new
             /\ Forall (fun sub => _dim sub = tile_size (fst s')) (tiles_of new)
             /\ (r = Ok tt ->
                 tiles_share_size e env (fst s') (snd s') (tiles_of new)))).
    { intros env2 new1 Hp2 Hd1 Hshare.
      assert (Hshare2 : tiles_share_size e env e1 env2 (tiles_of new1))
        by (eapply tiles_share_size_env'; eassumption).
      eapply wp_conseq;
        [apply IH; [apply Hshare|eapply tiles_share_size_inv; eassumption]|].
      cbv beta. intros r2 [e2 env3] (Hk2 & new2 & Hd2 & HF2 & Hok2).
      cbn [fst snd] in *.
      destruct (cache_kept_trans _ _ _ _ _ _ _ Hshare2 Hk2) as [Hk' HF1].
      split; [assumption|]. exists (new1 ++ new2).
      split; [rewrite Hd2, Hd1, <- app_assoc; reflexivity|].
      rewrite tiles_of_app.
      split; [apply Forall_app; split; assumption|].
      intros Hr2. eapply tiles_share_size_trans; [exact Hshare2|now apply Hok2]. }
    destruct r as [[]|err].
    + destruct Hr as (m & Hd & Hshare).
      apply (Hnext env1 [m]); [reflexivity|assumption|].
      unfold tiles_of. cbn [map concat]. now rewrite app_nil_r.
    + destruct Hr as (Hd & Herr).
      destruct (is_instance err ValueError || is_instance err RuntimeError)
        eqn:Hcatch.
      * assert (Hu : untouched e env (e1, env1)).
        { destruct Herr as [->|?]; [discriminate Hcatch|assumption]. }
        destruct Hu as (Hts & Hc1 & Hp1). cbn [fst snd] in *.
        assert (Hshare : tiles_share_size e env e1 env1 (tiles_of [])).
        { split; [congruence|]. split; [|constructor].
          left. split; [assumption|]. split; [assumption|]. now intros []. }
        destruct (is_instance err ValueError); wp_run;
          apply (Hnext _ []); try reflexivity; try assumption;
          now rewrite app_nil_r.
      * cbn [fst snd]. split; [assumption|].
        exists []. split; [now rewrite app_nil_r|]. split; [constructor|].
        discriminate.
Qed.

(** C9.  With the common tile size switched on, the size is cached for
    the project and not for one mosaic.  Whatever the outcome of the
    loop of [add_mosaics], at most one dimension parser has been
    started, and none if a size was cached before; every tile of every
    mosaic added holds the size cached at the end.  When the loop
    returns from a project without a cached size, the one parser run is
    on the image file of the first tile of the first mosaic that has
    tiles, and the dimensions it returned are the cached size: the tiles
    that follow in that mosaic and all tiles of the mosaics after it,
    the first ones included, got that size without a parser run. *)
Theorem add_mosaics_common_tile_size i trees e env r e' env' :
  common_tile_size e = true ->
  tile_size e = Some tile_size_unset \/ size_cached e ->
  add_mosaics_loop w i trees (e, env) = (r, (e', env')) ->
  common_tile_size e' = true
  /\ (tile_size e' = Some tile_size_unset \/ size_cached e')
  /\ (exists l, env_parsed env' = env_parsed env ++ l /\ (length l <= 1)%nat)
  /\ (size_cached e ->
      tile_size e' = tile_size e /\ env_parsed env' = env_parsed env)
  /\ exists new,
       datasets e' = datasets e ++ new
       /\ Forall (fun m => Forall (fun sub => _dim sub = tile_size e') (subvol m))
            new
       /\ (r = Ok tt -> tile_size e = Some tile_size_unset ->
           match tiles_of new with
           | [] => tile_size e' = tile_size e /\ env_parsed env' = env_parsed env
           | first :: _ =>
               env_parsed env' = env_parsed env ++ [full (storage (base first))]
               /\ tile_size e' = _dim first
               /\ (exists dims, _dim first = Some dims)
           end).
Proof.
  intros Hc Hinv E.
  destruct (wp_elim _ _ _ _ _ (add_mosaics_loop_cache trees i e env Hc Hinv) E)
    as ((Hc' & Hinv' & Hl & Hk) & new & Hd & HF & Hok).
  cbn [fst snd] in *.
  repeat (split; [assumption|]). exists new. split; [assumption|]. split.
  - unfold tiles_of in HF. clear - HF. induction new as [|m new IH];
      [constructor|].
    cbn [map concat] in HF. apply Forall_app in HF as [H1 H2].
    constructor; [assumption|now apply IH].
  - intros Hr Hu. destruct (Hok Hr) as (_ & Hcases & _).
    destruct Hcases as [(Hts & Hp & Hv)|(_ & Hs & first & rest & -> & Hp & Hts)].
    + destruct (tiles_of new) as [|first rest]; [now split|].
      exfalso. apply (unset_not_cached _ Hu). apply Hv. discriminate.
    + split; [assumption|]. split; [assumption|].
      destruct Hs as (ts & _ & _ & Hts' & _). exists ts. congruence.
Qed.

End ProjectTileSize.

Lemma add_mosaics_common_tile_size_witness :
  exists l,
    env_parsed (snd (snd (FluoView.FluoView3kMosaic.add_mosaics_loop
                            (Demo.world (Demo.files_3k ++ Demo.files_3k_b)) 0
                            [Demo.group_3k; Demo.group_3k_b]
                            (Demo.project_3k, env0))))
    = env_parsed env0 ++ l
    /\ (length l <= 1)%nat.
Proof.
  destruct (FluoView.FluoView3kMosaic.add_mosaics_loop
              (Demo.world (Demo.files_3k ++ Demo.files_3k_b)) 0
              [Demo.group_3k; Demo.group_3k_b] (Demo.project_3k, env0))
    as [r [e' env']] eqn:E.
  destruct (add_mosaics_common_tile_size
              (Demo.world (Demo.files_3k ++ Demo.files_3k_b))
              (sizes_nonnegative_demo _) 0 [Demo.group_3k; Demo.group_3k_b]
              Demo.project_3k env0 r e' env'
              eq_refl (or_introl eq_refl) E) as (_ & _ & Hl & _).
  exact Hl.
Defined.

(** C9, counterexample.  Two mosaics of one project: both are added, and
    the only parser run is on the first tile of the first mosaic; the
    first tile of the second mosaic is not parsed. *)
Lemma second_mosaic_first_tile_not_parsed :
  let out := FluoView.FluoView3kMosaic.add_mosaics_loop
               (Demo.world (Demo.files_3k ++ Demo.files_3k_b)) 0
               [Demo.group_3k; Demo.group_3k_b] (Demo.project_3k, env0) in
  fst out = Ok tt
  /\ map (fun m => map (fun sub => full (storage (base sub))) (subvol m))
       (FluoView.FluoView3kMosaic.datasets (fst (snd out)))
     = [["/data/a0.oir"; "/data/a1.oir"; "/data/a2.oir"];
        ["/data/b0.oir"; "/data/b1.oir"]]
  /\ env_parsed (snd (snd out)) = ["/data/a0.oir"].
Proof. vm_compute. repeat split. Qed.

(** ** The constructors of the project classes *)

Lemma text_eqb_true t s : text_eqb t s = true -> t = Some s.
Proof.
  destruct t as [x|]; cbn; [|discriminate].
  intros H. apply String.eqb_eq in H. now subst.
Qed.

Section MosaicLogProject.

Import FluoView.FluoViewMosaic.

Variable w : World.
Variable parse_xml : string -> res XYStage.

Lemma validate_xml_log_outcome e env :
  wp (validate_xml parse_xml) (e, env) (fun r s' =>
    env_parsed (snd s') = env_parsed env
    /\ match r with
       | Ok tree =>
           exists mcount,
             parse_xml (full (infile e)) = Ok tree
             /\ root_tag tree = "XYStage"
             /\ XAxisDirection tree = Ok (Some "LeftToRight")
             /\ YAxisDirection tree = Ok (Some "TopToBottom")
             /\ NumberOfMosaics tree = Ok mcount
             /\ fst s' = set_supplement
                           (list_to_map [("xdir", PStr "LeftToRight");
                                         ("ydir", PStr "TopToBottom");
                                         ("mcount", PInt mcount)]) e
       | Raise _ => fst s' = e
       end).
Proof.
  unfold validate_xml. wp_run; cbn [fst snd env_parsed]; (split; [reflexivity|]);
    try reflexivity.
  match goal with H : _ || _ = false |- _ =>
    apply orb_false_iff in H as [Hx Hy] end.
  apply negb_false_iff, text_eqb_true in Hx, Hy. subst.
  match goal with H : negb _ = false |- _ =>
    apply negb_false_iff, String.eqb_eq in H end.
  eexists. repeat split; eassumption.
Qed.

Lemma FluoViewMosaic_init_spec {O} path runparser (s : O * Env) :
  wp (__init__ w parse_xml path runparser) s (fun r s' =>
    fst s' = fst s
    /\ forall e, r = Ok e ->
       exists tree mcount,
         parse_xml (full (parse_path w path)) = Ok tree
         /\ root_tag tree = "XYStage"
         /\ XAxisDirection tree = Ok (Some "LeftToRight")
         /\ YAxisDirection tree = Ok (Some "TopToBottom")
         /\ NumberOfMosaics tree = Ok mcount
         /\ infile e = parse_path w path
         /\ supplement e = list_to_map [("xdir", PStr "LeftToRight");
                                        ("ydir", PStr "TopToBottom");
                                        ("mcount", PInt mcount)]
         /\ mosaictrees e = Mosaics tree
         /\ (length (datasets e) <= length (Mosaics tree))%nat
         /\ Forall (fun m => exists t,
                      In t (Mosaics tree)
                      /\ Forall2 (tile_of w) (ImageInfos t) (subvol m))
              (datasets e)
         /\ (runparser = false ->
             datasets e = [] /\ env_parsed (snd s') = env_parsed (snd s))).
Proof.
  unfold __init__, MosaicExperiment_init, find_mosaictrees, add_mosaics.
  repeat (cbv beta iota zeta; fsimp;
          lazymatch goal with
          | |- wp (validate_xml _) _ _ =>
              eapply wp_conseq; [apply validate_xml_log_outcome|];
              cbv beta; intros ? [? ?] (Hp & Hr)
          | |- wp (add_mosaics_loop _ _) _ _ =>
              eapply wp_conseq; [apply add_mosaics_loop_outcome|];
              cbv beta; intros ? [? ?] (Hi & Hs & Ht & new & Hd & Hlen & HF)
          | |- wp (if runparser then _ else _) _ _ => destruct runparser
          | _ => wp_step
          end).
  all: cbv beta iota zeta; fsimp; cbn [fst snd] in *.
  all: (split; [reflexivity|]); try discriminate.
  all: intros e1 He1; inversion He1; subst e1; clear He1;
       destruct Hr as (mcount & Hparse & Hroot & Hxd & Hyd & Hn & ->);
       cbn [infile supplement mosaictrees datasets set_supplement set_mosaictrees]
         in *;
       exists a, mcount; repeat (split; [assumption|]).
  - rewrite Hd. cbn [app]. split; [assumption|]. split; [assumption|].
    intros; discriminate.
  - cbn [length]. split; [reflexivity|]. split; [reflexivity|].
    split; [reflexivity|]. split; [lia|]. split; [constructor|].
    intros _. split; [reflexivity|assumption].
Qed.

(** X15.  A [FluoViewMosaic] object that the constructor returns was
    read from a file whose root element is [XYStage], with the X axis
    running left to right and the Y axis top to bottom.  Its supplement
    holds exactly the two directions and the mosaic count read from the
    file, its trees are the [Mosaic] children of the root, and it holds
    at most one mosaic per tree, each complete for one of the trees;
    without [runparser] it holds none and no dimension parser has run. *)
Theorem FluoViewMosaic_init_outcome {O} path runparser (s s' : O * Env) e :
  __init__ w parse_xml path runparser s = (Ok e, s') ->
  fst s' = fst s
  /\ exists tree mcount,
       parse_xml (full (parse_path w path)) = Ok tree
       /\ root_tag tree = "XYStage"
       /\ XAxisDirection tree = Ok (Some "LeftToRight")
       /\ YAxisDirection tree = Ok (Some "TopToBottom")
       /\ NumberOfMosaics tree = Ok mcount
       /\ infile e = parse_path w path
       /\ supplement e = list_to_map [("xdir", PStr "LeftToRight");
                                      ("ydir", PStr "TopToBottom");
                                      ("mcount", PInt mcount)]
       /\ mosaictrees e = Mosaics tree
       /\ (length (datasets e) <= length (Mosaics tree))%nat
       /\ Forall (fun m => exists t,
                    In t (Mosaics tree)
                    /\ Forall2 (tile_of w) (ImageInfos t) (subvol m))
            (datasets e)
       /\ (runparser = false ->
           datasets e = [] /\ env_parsed (snd s') = env_parsed (snd s)).
Proof.
  intros E.
  destruct (wp_elim _ _ _ _ _ (FluoViewMosaic_init_spec path runparser s) E)
    as (Hs & H).
  split; [assumption|]. exact (H e eq_refl).
Qed.

(** X16.  The constructor of [FluoViewMosaic] rejects a file whose
    root element is not [XYStage], and a file with both directions and a
    mosaic count whose axes do not run left to right and top to bottom,
    with a [TypeError]; nothing has been parsed by then. *)
Theorem FluoViewMosaic_init_rejects {O} path runparser (s : O * Env) tree :
  parse_xml (full (parse_path w path)) = Ok tree ->
  root_tag tree <> "XYStage"
  \/ (exists xdir ydir mcount,
        XAxisDirection tree = Ok xdir /\ YAxisDirection tree = Ok ydir
        /\ NumberOfMosaics tree = Ok mcount
        /\ (xdir <> Some "LeftToRight" \/ ydir <> Some "TopToBottom")) ->
  exists env',
    __init__ w parse_xml path runparser s = (Raise TypeError, (fst s, env'))
    /\ env_parsed env' = env_parsed (snd s).
Proof.
  intros Hparse Hbad. unfold __init__, MosaicExperiment_init, validate_xml.
  destruct s as [o env]. munfold. cbn [infile]. rewrite Hparse.
  destruct (String.eqb_spec (root_tag tree) "XYStage") as [Hroot|Hroot];
    munfold; [|eexists; split; reflexivity].
  destruct Hbad as [?|(xdir & ydir & mcount & -> & -> & -> & Hax)];
    [contradiction|]. munfold.
  destruct (text_eqb xdir "LeftToRight") eqn:Hx1;
    [apply text_eqb_true in Hx1|];
    (destruct (text_eqb ydir "TopToBottom") eqn:Hy1;
     [apply text_eqb_true in Hy1|]);
    munfold; try (eexists; split; reflexivity).
  exfalso. destruct Hax; contradiction.
Qed.

End MosaicLogProject.

Section Omp2infoProject.

Import FluoView.FluoView3kMosaic.

Variable w : World.
Variable parse_xml : string -> res Properties.

(** The root tag [validate_xml] expects. *)
Let rt_expected : string :=
  "{http://www.olympus.co.jp/hpf/protocol/matl/model/matl}properties".

Lemma validate_xml_3k_outcome e env :
  wp (validate_xml parse_xml) (e, env) (fun r s' =>
    env_parsed (snd s') = env_parsed env
    /\ match r with
       | Ok tree =>
           exists ov,
             parse_xml (full (infile e)) = Ok tree
             /\ root_tag tree = rt_expected
             /\ attrib_version tree = Ok "2.2"
             /\ stage_name tree = Ok (Some "PRIOR,H101F")
             /\ stage_overlap tree = Ok ov
             /\ fst s' = set_supplement "overlap" (PInt ov) e
       | Raise _ => fst s' = e
       end).
Proof.
  unfold validate_xml. wp_run; cbn [fst snd env_parsed]; (split; [reflexivity|]);
    try reflexivity.
  repeat match goal with
         | H : negb (String.eqb _ _) = false |- _ =>
             apply negb_false_iff, String.eqb_eq in H
         | H : negb (text_eqb _ _) = false |- _ =>
             apply negb_false_iff, text_eqb_true in H
         end.
  subst. eexists. repeat split; try eassumption.
Qed.

Lemma groups_loop_outcome grps : forall acc e env,
  wp (groups_loop grps acc) (e, env) (fun r s' =>
    fst s' = e /\ env_parsed (snd s') = env_parsed env
    /\ forall found, r = Ok found ->
         found = acc ++ map group (List.filter is_tiling_group grps)).
Proof.
  induction grps as [|grp grps IH]; intros acc e env; cbn [groups_loop].
  - wp_run. repeat split. intros found [= <-]. cbn. now rewrite app_nil_r.
  - unfold is_tiling_group in *. cbn [List.filter].
    wp_step. wp_step. destruct (xsi_type grp) as [ty|err] eqn:Hty;
      [|repeat split; discriminate].
    destruct (String.eqb_spec ty "matl:DefineMatrixROI") as [->|Hn1].
    + cbn [orb map]. wp_run; try (repeat split; discriminate).
      all: try discriminate.
      eapply wp_conseq; [apply IH|]. cbv beta.
      intros r [e1 env1] (-> & Hp & Hr). cbn [fst snd] in *.
      repeat split; try assumption. intros found Hf.
      rewrite (Hr _ Hf), <- app_assoc. reflexivity.
    + cbn [orb]. destruct (String.eqb_spec ty "matl:MosaicROI") as [->|Hn2].
      * cbn [map]. wp_run; try (repeat split; discriminate).
        eapply wp_conseq; [apply IH|]. cbv beta.
        intros r [e1 env1] (-> & Hp & Hr). cbn [fst snd] in *.
        repeat split; try assumption. intros found Hf.
        rewrite (Hr _ Hf), <- app_assoc. reflexivity.
      * wp_run. eapply wp_conseq; [apply IH|]. cbv beta.
        intros r [e1 env1] (-> & Hp & Hr). cbn [fst snd] in *.
        repeat split; try assumption.
Qed.

Lemma FluoView3kMosaic_init_spec {O} path runparser same (s : O * Env) :
  wp (__init__ w parse_xml path runparser same) s (fun r s' =>
    fst s' = fst s
    /\ forall e, r = Ok e ->
       exists tree ov,
         parse_xml (full (parse_path w path)) = Ok tree
         /\ root_tag tree = rt_expected
         /\ attrib_version tree = Ok "2.2"
         /\ stage_name tree = Ok (Some "PRIOR,H101F")
         /\ stage_overlap tree = Ok ov
         /\ infile e = parse_path w path
         /\ supplement e = <["overlap" := PInt ov]> ∅
         /\ common_tile_size e = same
         /\ mosaictrees e = map group (List.filter is_tiling_group (groups tree))
         /\ (exists picked,
               sublist picked (enumerate 0 (mosaictrees e))
               /\ Forall2 (fun p m =>
                             mosaic_of_group w e (snd p) m
                             /\ Dataset.supplement (m_base m) !! "index"
                                = Some (PInt (fst p))) picked (datasets e))
         /\ (runparser = false ->
             datasets e = [] /\ tile_size e = Some tile_size_unset
             /\ env_parsed (snd s') = env_parsed (snd s))).
Proof.
  unfold __init__, find_matrix_roi_groups, add_mosaics.
  repeat (cbv beta iota zeta; fsimp;
          lazymatch goal with
          | |- wp (validate_xml _) _ _ =>
              eapply wp_conseq; [apply validate_xml_3k_outcome|];
              cbv beta; intros ? [? ?] (Hp & Hr)
          | |- wp (groups_loop _ _) _ _ =>
              eapply wp_conseq; [apply groups_loop_outcome|];
              cbv beta; intros ? [? ?] (Hg1 & Hg2 & Hg3)
          | |- wp (add_mosaics_loop _ _ _) _ _ =>
              eapply wp_conseq; [apply add_mosaics_loop_3k_outcome|];
              cbv beta;
              intros ? [? ?] (Hset & (picked & new & Hsub & Hd & HF) & _)
          | |- wp (if runparser then _ else _) _ _ => destruct runparser
          | _ => wp_step
          end).
  all: cbv beta iota zeta; fsimp; cbn [fst snd] in *.
  all: (split; [reflexivity|]); try discriminate.
  all: intros efin Hfin; inversion Hfin; subst efin; clear Hfin;
       destruct Hr as (ov & Hparse & Hroot & Hver & Hname & Hov & ->);
       subst;
       match goal with H : forall found, Ok ?a = Ok found -> _ |- _ =>
         pose proof (H a eq_refl) as Hfound; clear H end;
       cbn [app] in Hfound; subst;
       cbn [infile supplement mosaictrees datasets tile_size common_tile_size
            set_supplement set_mosaictrees project_settings] in *;
       exists a, ov; repeat (split; [assumption|]).
  - pose proof Hset as Hset'. unfold project_settings in Hset.
    cbn [infile supplement mosaictrees common_tile_size set_supplement
         set_mosaictrees] in Hset.
    injection Hset as Hi Hs Hc Ht. cbn [app] in Hd.
    repeat (split; [assumption|]).
    split; [|intros; discriminate].
    exists picked. rewrite Ht, Hd. split; [assumption|].
    eapply Forall2_impl; [exact HF|]. cbv beta. intros p m [Hm Hidx].
    split; [|assumption].
    eapply mosaic_of_group_settings; [symmetry; exact Hset'|exact Hm].
  - repeat (split; [reflexivity|]). split.
    { exists []. split; [apply sublist_nil_l|constructor]. }
    intros _. split; [reflexivity|]. split; [reflexivity|].
    cbn [env_parsed] in Hp, Hg2. congruence.
Qed.

(** X17.  A [FluoView3kMosaic] object that the constructor returns was
    read from a file with the root tag of a MATL properties file, version
    [2.2] and the stage [PRIOR,H101F].  Its supplement holds exactly the
    overlap of the stage, its trees are the groups of type
    [matl:DefineMatrixROI] or [matl:MosaicROI] in the order of the file,
    and its mosaics are those of a sub-sequence of the enumerated trees,
    in their order, each with the position of its tree as index; without
    [runparser] it holds none, the tile size is unset and no dimension
    parser has run. *)
Theorem FluoView3kMosaic_init_outcome {O} path runparser same (s s' : O * Env) e :
  __init__ w parse_xml path runparser same s = (Ok e, s') ->
  fst s' = fst s
  /\ exists tree ov,
       parse_xml (full (parse_path w path)) = Ok tree
       /\ root_tag tree
          = "{http://www.olympus.co.jp/hpf/protocol/matl/model/matl}properties"
       /\ attrib_version tree = Ok "2.2"
       /\ stage_name tree = Ok (Some "PRIOR,H101F")
       /\ stage_overlap tree = Ok ov
       /\ infile e = parse_path w path
       /\ supplement e = <["overlap" := PInt ov]> ∅
       /\ common_tile_size e = same
       /\ mosaictrees e = map group (List.filter is_tiling_group (groups tree))
       /\ (exists picked,
             sublist picked (enumerate 0 (mosaictrees e))
             /\ Forall2 (fun p m =>
                           mosaic_of_group w e (snd p) m
                           /\ Dataset.supplement (m_base m) !! "index"
                              = Some (PInt (fst p))) picked (datasets e))
       /\ (runparser = false ->
           datasets e = [] /\ tile_size e = Some tile_size_unset
           /\ env_parsed (snd s') = env_parsed (snd s)).
Proof.
  intros E.
  destruct (wp_elim _ _ _ _ _ (FluoView3kMosaic_init_spec path runparser same s) E)
    as (Hs & H).
  split; [assumption|]. exact (H e eq_refl).
Qed.

Lemma validate_xml_3k_rejects e env tree :
  parse_xml (full (infile e)) = Ok tree ->
  wp (validate_xml parse_xml) (e, env) (fun r s' =>
    env_parsed (snd s') = env_parsed env
    /\ (root_tag tree <> rt_expected -> r = Raise TypeError)
    /\ (root_tag tree = rt_expected ->
        (exists v av pv i,
           attrib_version tree = Ok v
           /\ attrib_applicationVersion tree = Ok av
           /\ attrib_platformVersion tree = Ok pv
           /\ attrib_id tree = Ok i
           /\ (v <> "2.2"
               \/ exists name, stage_name tree = Ok name
                               /\ name <> Some "PRIOR,H101F")) ->
        r = Raise ValueError)).
Proof.
  intros Hparse. unfold validate_xml. wp_step. wp_step. wp_step. wp_step.
  wp_step. wp_step. cbn [fst]. rewrite Hparse. wp_step. wp_step.
  cbv beta iota.
  destruct (String.eqb_spec (root_tag tree) rt_expected) as [Hroot|Hroot].
  - wp_run; cbn [fst snd env_parsed]; (split; [reflexivity|]);
      (split; [intros; contradiction|]); intros _ Hbad.
    all: try match goal with
         | H : negb (String.eqb (root_tag _) _) = true |- _ =>
             rewrite Hroot in H; vm_compute in H; discriminate H
         end.
    all: destruct Hbad as (v & av & pv & i & Hv & Hav & Hpv & Hi & Hbad).
    all: try congruence.
    all: repeat match goal with
         | H : negb (String.eqb _ _) = false |- _ =>
             apply negb_false_iff, String.eqb_eq in H
         | H : negb (text_eqb _ _) = false |- _ =>
             apply negb_false_iff, text_eqb_true in H
         end.
    all: destruct Hbad as [Hbad|(name & Hname & Hbad)]; congruence.
  - wp_run; cbn [fst snd env_parsed]; (split; [reflexivity|]);
      (split; [|intros; contradiction]); intros _; try reflexivity.
    all: exfalso; apply Hroot;
      match goal with
      | H : negb (String.eqb (root_tag _) _) = false |- _ =>
          apply negb_false_iff, String.eqb_eq in H; exact H
      end.
Qed.

(** X18.  The constructor of [FluoView3kMosaic] rejects a file with
    another root tag with a [TypeError], and a file with the right root
    tag and the four attributes it logs with a [ValueError] if the
    version is not [2.2] or if the stage has a name other than
    [PRIOR,H101F]; the caller's object is as before and no dimension
    parser has run. *)
Theorem FluoView3kMosaic_init_rejects {O} path runparser same (s : O * Env) tree :
  parse_xml (full (parse_path w path)) = Ok tree ->
  root_tag tree
  <> "{http://www.olympus.co.jp/hpf/protocol/matl/model/matl}properties"
  \/ (exists v av pv i,
        attrib_version tree = Ok v
        /\ attrib_applicationVersion tree = Ok av
        /\ attrib_platformVersion tree = Ok pv
        /\ attrib_id tree = Ok i
        /\ (v <> "2.2"
            \/ exists name, stage_name tree = Ok name
                            /\ name <> Some "PRIOR,H101F")) ->
  exists err env',
    __init__ w parse_xml path runparser same s = (Raise err, (fst s, env'))
    /\ env_parsed env' = env_parsed (snd s)
    /\ err = if String.eqb (root_tag tree)
                  "{http://www.olympus.co.jp/hpf/protocol/matl/model/matl}properties"
             then ValueError else TypeError.
Proof.
  intros Hparse Hbad.
  assert (H : wp (__init__ w parse_xml path runparser same) s (fun r s' =>
    fst s' = fst s /\ env_parsed (snd s') = env_parsed (snd s)
    /\ r = Raise (if String.eqb (root_tag tree) rt_expected
                  then ValueError else TypeError))).
  { unfold __init__. wp_step. wp_step. wp_step. wp_step. wp_step. wp_step.
    wp_step. wp_step.
    eapply wp_conseq; [apply (validate_xml_3k_rejects _ _ tree); exact Hparse|].
    cbv beta. intros r [e1 env1] (Hp & Ht & Hv). cbn [fst snd env_parsed] in *.
    assert (Hr : r = Raise (if String.eqb (root_tag tree) rt_expected
                            then ValueError else TypeError)).
    { destruct (String.eqb_spec (root_tag tree) rt_expected) as [Hroot|Hroot];
        [|auto].
      apply Hv; [assumption|]. destruct Hbad as [?|?]; [contradiction|assumption]. }
    subst r. repeat split; assumption. }
  destruct (wp_exists _ _ _ H) as (r & [o' env'] & E & Ho & Hp & ->).
  cbn [fst snd] in *. subst o'. eauto.
Qed.

End Omp2infoProject.

Lemma FluoViewMosaic_init_outcome_witness :
  exists e s',
    FluoView.FluoViewMosaic.__init__ (Demo.world Demo.project_files)
      Demo.parse_xml_log "/data/MATL_Mosaic.log" true (tt, env0) = (Ok e, s')
    /\ FluoView.FluoViewMosaic.supplement e
       = list_to_map [("xdir", PStr "LeftToRight"); ("ydir", PStr "TopToBottom");
                      ("mcount", PInt 1)]
    /\ (length (FluoView.FluoViewMosaic.datasets e) <= 2)%nat.
Proof.
  destruct (FluoView.FluoViewMosaic.__init__ (Demo.world Demo.project_files)
              Demo.parse_xml_log "/data/MATL_Mosaic.log" true (tt, env0))
    as [r s'] eqn:E.
  assert (Hr : is_ok r = true).
  { replace r with (fst (FluoView.FluoViewMosaic.__init__
                           (Demo.world Demo.project_files)
                           Demo.parse_xml_log "/data/MATL_Mosaic.log" true
                           (tt, env0))) by now rewrite E.
    vm_compute. reflexivity. }
  destruct r as [e|]; [|discriminate].
  destruct (FluoViewMosaic_init_outcome _ _ _ _ _ _ _ E)
    as (_ & tree & mcount & Hparse & _ & _ & _ & Hn & _ & Hs & _ & Hlen & _).
  vm_compute in Hparse. inversion Hparse. subst tree.
  cbn in Hn. inversion Hn. subst mcount.
  exists e, s'. split; [reflexivity|]. split; [exact Hs|exact Hlen].
Defined.

Lemma FluoViewMosaic_init_rejects_witness :
  fst (FluoView.FluoViewMosaic.__init__ (Demo.world Demo.project_files)
         (fun _ => Ok (FluoView.FluoViewMosaic.mkXYStage "XYStage"
                         (Ok (Some "RightToLeft")) (Ok (Some "TopToBottom")) (Ok 1)
                         [Demo.complete_tree]))
         "/data/MATL_Mosaic.log" true (tt, env0))
  = Raise TypeError.
Proof.
  destruct (FluoViewMosaic_init_rejects (Demo.world Demo.project_files)
              (fun _ => Ok (FluoView.FluoViewMosaic.mkXYStage "XYStage"
                              (Ok (Some "RightToLeft")) (Ok (Some "TopToBottom"))
                              (Ok 1) [Demo.complete_tree]))
              "/data/MATL_Mosaic.log" true (tt, env0) _ eq_refl)
    as (env' & E & _).
  - right. exists (Some "RightToLeft"), (Some "TopToBottom"), 1.
    repeat split; try reflexivity. left. discriminate.
  - rewrite E. reflexivity.
Defined.

Lemma FluoView3kMosaic_init_outcome_witness :
  exists e s',
    FluoView.FluoView3kMosaic.__init__ (Demo.world Demo.files_3k)
      Demo.parse_xml_3k "/data/matl.omp2info" true true (tt, env0) = (Ok e, s')
    /\ FluoView.FluoView3kMosaic.mosaictrees e
       = [Demo.group_3k_disabled; Demo.group_3k]
    /\ FluoView.FluoView3kMosaic.supplement e = <["overlap" := PInt 10]> ∅.
Proof.
  destruct (FluoView.FluoView3kMosaic.__init__ (Demo.world Demo.files_3k)
              Demo.parse_xml_3k "/data/matl.omp2info" true true (tt, env0))
    as [r s'] eqn:E.
  assert (Hr : is_ok r = true).
  { replace r with (fst (FluoView.FluoView3kMosaic.__init__
                           (Demo.world Demo.files_3k)
                           Demo.parse_xml_3k "/data/matl.omp2info" true true
                           (tt, env0))) by now rewrite E.
    vm_compute. reflexivity. }
  destruct r as [e|]; [|discriminate].
  destruct (FluoView3kMosaic_init_outcome _ _ _ _ _ _ _ _ E)
    as (_ & tree & ov & Hparse & _ & _ & _ & Hov & _ & Hs & _ & Ht & _).
  vm_compute in Hparse. inversion Hparse. subst tree.
  cbn in Hov. inversion Hov. subst ov.
  exists e, s'. split; [reflexivity|]. split; [exact Ht|exact Hs].
Defined.

Lemma FluoView3kMosaic_init_rejects_witness :
  fst (FluoView.FluoView3kMosaic.__init__ (Demo.world Demo.files_3k)
         (fun _ => Ok (FluoView.FluoView3kMosaic.mkProperties
                         "{http://www.olympus.co.jp/hpf/protocol/matl/model/matl}properties"
                         (Ok "2.1") (Ok "2.1.1.98") (Ok "2.1.1.98") (Ok "0")
                         (Ok (Some "PRIOR,H101F")) (Ok 10) []))
         "/data/matl.omp2info" true true (tt, env0))
  = Raise ValueError.
Proof.
  destruct (FluoView3kMosaic_init_rejects (Demo.world Demo.files_3k)
              (fun _ => Ok (FluoView.FluoView3kMosaic.mkProperties
                              "{http://www.olympus.co.jp/hpf/protocol/matl/model/matl}properties"
                              (Ok "2.1") (Ok "2.1.1.98") (Ok "2.1.1.98") (Ok "0")
                              (Ok (Some "PRIOR,H101F")) (Ok 10) []))
              "/data/matl.omp2info" true true (tt, env0) _ eq_refl)
    as (err & env' & E & _ & Herr).
  - right. exists "2.1", "2.1.1.98", "2.1.1.98", "0".
    repeat split; try reflexivity. left. discriminate.
  - rewrite E. cbn [fst]. rewrite Herr. reflexivity.
Defined.

(** ** [gen_tile_config]: the tile configuration of a mosaic *)

Lemma rfind_from_none sub s : forall i,
  contains sub s = false -> rfind_from sub s i = -1.
Proof.
  induction s as [|c t IH]; intros i; cbn [contains rfind_from].
  - rewrite orb_false_r. now intros ->.
  - intros H. apply orb_false_iff in H as [Hp Hc]. rewrite (IH _ Hc), Hp.
    reflexivity.
Qed.

Lemma rfind_from_last_dot stem ext : forall i,
  0 <= i -> contains "." ext = false ->
  rfind_from "." (String.append stem (String "."%char ext)) i = i + len stem.
Proof.
  unfold len. induction stem as [|c t IH]; intros i Hi Hext;
    rewrite ?append_nil, ?append_cons; cbn [rfind_from String.length].
  - rewrite (rfind_from_none _ _ _ Hext). cbn.
    replace (String.prefix "" ext) with true by now destruct ext.
    lia.
  - rewrite IH by (assumption || lia).
    destruct (0 <=? i + 1 + Z.of_nat (String.length t)) eqn:E; [lia|].
    apply Z.leb_gt in E. lia.
Qed.

Lemma substring_app_length stem t :
  substring 0 (String.length stem) (String.append stem t) = stem.
Proof.
  induction stem as [|c s IH];
    rewrite ?append_nil, ?append_cons; cbn [String.length substring].
  - now destruct t.
  - now rewrite IH.
Qed.

Lemma slice_to_app stem t : slice_to (String.append stem t) (len stem) = stem.
Proof.
  unfold slice_to, len. destruct (Z.ltb_spec (Z.of_nat (String.length stem)) 0);
    [lia|].
  rewrite Nat2Z.id. apply substring_app_length.
Qed.

Section GenTileConfig.

Import ImageJ.

Variable w : World.
Variable version : string.
Variable format_f : float -> string.

Lemma wp_call_subvol0 {A} (m : M ImageData A) (s : MosaicDataCuboid * Env) Q :
  match subvol (fst s) with
  | [] => Q (Raise IndexError) s
  | vol :: vols =>
      wp m (vol, snd s) (fun r s1 =>
        Q r (mkMosaic (m_base (fst s)) (fst s1 :: vols) (dim (fst s))
               (overlap (fst s)) (overlap_units (fst s)), snd s1))
  end ->
  wp (call_subvol0 m) s Q.
Proof.
  intros H. apply wp_intro. intros r s' E. unfold call_subvol0 in E.
  destruct (subvol (fst s)) as [|vol vols].
  - inversion E. subst. exact H.
  - destruct (m (vol, snd s)) as [r1 [vol' env']] eqn:E1.
    inversion E. subst. exact (wp_elim _ _ _ _ _ H E1).
Qed.

Lemma rindex_raises s sub e : rindex s sub = Raise e -> e = ValueError.
Proof. unfold rindex. destruct (rfind s sub <? 0); congruence. Qed.

Lemma replace_suffix_outcome {O} fname suffix (s : O * Env) :
  wp (replace_suffix fname suffix) s (fun r s' =>
    fst s' = fst s /\ env_parsed (snd s') = env_parsed (snd s)
    /\ match r with
       | Ok name => config_name suffix fname name
       | Raise e => e = ValueError /\ suffix <> ""
                    /\ rindex fname "." = Raise ValueError
       end).
Proof.
  unfold replace_suffix, config_name.
  destruct (String.eqb_spec suffix "") as [->|Hs]; cbn [negb].
  - wp_run. repeat split. now left.
  - wp_step. wp_step. wp_step.
    destruct (rindex fname ".") as [i|e] eqn:Hi.
    + wp_run. repeat split. right. eauto.
    + apply rindex_raises in Hi as He. subst e. cbn [is_instance exn_eqb orb andb].
      wp_run. repeat split; assumption.
Qed.

Lemma percent_f_coords_text fmt three coords out :
  percent_f format_f fmt coords = Ok out ->
  (fmt = String.append "(%f, %f)" nl ->
   coords_text format_f false coords = Some out /\ length coords = 2%nat)
  /\ (fmt = String.append (if three : bool then "(%f, %f, %f)"
                           else "(%f, %f, 0.0)") nl ->
      coords_text format_f true coords = Some out
      /\ length coords = (if three then 3 else 2)%nat).
Proof.
  intros H. split; intros ->.
  - destruct coords as [|x [|y [|z rest]]]; cbn in H; try discriminate.
    inversion H. split; reflexivity.
  - destruct three.
    + destruct coords as [|x [|y [|z [|t rest]]]]; cbn in H; try discriminate.
      inversion H. split; reflexivity.
    + destruct coords as [|x [|y [|z rest]]]; cbn in H; try discriminate.
      inversion H. split; reflexivity.
Qed.

Lemma percent_f_cons2 c c2 f args :
  percent_f format_f (String c (String c2 f)) args
  = if Ascii.eqb c "%" && Ascii.eqb c2 "f" then
      match args with
      | a :: args' =>
          res_bind (percent_f format_f f args')
            (fun out => Ok (String.append (format_f a) out))
      | [] => Raise TypeError
      end
    else res_bind (percent_f format_f (String c2 f) args)
           (fun out => Ok (String c out)).
Proof. reflexivity. Qed.

Lemma percent_f_raises fmt : forall args e,
  percent_f format_f fmt args = Raise e -> e = TypeError.
Proof.
  enough (H : (forall args e, percent_f format_f fmt args = Raise e -> e = TypeError)
              /\ forall c args e,
                   percent_f format_f (String c fmt) args = Raise e -> e = TypeError)
    by apply H.
  induction fmt as [|c2 f [IH1 IH2]].
  - split.
    + intros [|a l] e; cbn; congruence.
    + intros c [|a l] e; cbn; congruence.
  - split; [exact (IH2 c2)|]. intros c args e. rewrite percent_f_cons2.
    destruct (Ascii.eqb c "%" && Ascii.eqb c2 "f").
    + destruct args as [|a l]; [congruence|].
      destruct (percent_f format_f f l) eqn:E; cbn [res_bind]; [discriminate|].
      intros [= <-]. eapply IH1. eassumption.
    + destruct (percent_f format_f (String c2 f) args) eqn:E; cbn [res_bind];
        [discriminate|].
      intros [= <-]. eapply IH2. eassumption.
Qed.

(** The loop over the tiles: one line per tile, in the order of the
    tiles; it fails with a [ValueError] at a file name without a dot and
    with a [TypeError] at a tile whose coordinates do not fit the
    format. *)
Lemma tile_lines_outcome {O} suffix fmt tiles : forall conf (s : O * Env),
  wp (tile_lines format_f tiles suffix fmt conf) s (fun r s' =>
    fst s' = fst s /\ env_parsed (snd s') = env_parsed (snd s)
    /\ match r with
       | Ok out =>
           exists lines,
             out = conf ++ lines
             /\ Forall2 (fun tile line =>
                  exists name text,
                    config_name suffix (fst tile) name
                    /\ percent_f format_f fmt (snd tile) = Ok text
                    /\ line = String.append (String.append name "; ; ") text)
                  tiles lines
       | Raise e =>
           (e = ValueError
            /\ suffix <> ""
            /\ Exists (fun tile => rindex (fst tile) "." = Raise ValueError) tiles)
           \/ (e = TypeError
               /\ Exists (fun tile =>
                    percent_f format_f fmt (snd tile) = Raise TypeError) tiles)
       end).
Proof.
  induction tiles as [|tile tiles IH]; intros conf s; cbn [tile_lines].
  - wp_run. repeat split. exists []. split; [now rewrite app_nil_r|constructor].
  - wp_step.
    eapply wp_conseq; [apply (replace_suffix_outcome (O:=O))|]. cbv beta.
    intros r s' (Hs & Hp & Hr).
    destruct r as [name|e].
    + wp_step. wp_step.
      destruct (percent_f format_f fmt (snd tile)) as [text|e] eqn:Ht.
      * eapply wp_conseq; [apply IH|]. cbv beta.
        intros r2 s2 (Hs2 & Hp2 & Hr2).
        split; [congruence|]. split; [congruence|].
        destruct r2 as [out|e].
        -- destruct Hr2 as (lines & -> & HF). eexists (_ :: lines).
           split; [now rewrite <- app_assoc|].
           constructor; [|assumption]. eauto.
        -- destruct Hr2 as [(-> & Hn & HE)|(-> & HE)]; [left|right];
             repeat split; try assumption; now apply Exists_cons_tl.
      * split; [assumption|]. split; [assumption|]. right.
        pose proof (percent_f_raises _ _ _ Ht). subst e.
        split; [reflexivity|]. now apply Exists_cons_hd.
    + destruct Hr as (-> & Hn & Hi). split; [assumption|]. split; [assumption|].
      left. repeat split; try assumption. now apply Exists_cons_hd.
Qed.

Lemma files_and_coords_shape m sort tiles :
  files_and_coords w m sort = Ok tiles ->
  length tiles = length (subvol m)
  /\ exists raw,
       Permutation tiles raw
       /\ Forall2 (fun vol t =>
            exists x y rest, position_relative vol = Some (x :: y :: rest)
                             /\ snd t = firstn 3 (x :: y :: rest))
          (subvol m) raw.
Proof.
  unfold files_and_coords.
  destruct (collect_tiles w m (subvol m) []) as [ts|e] eqn:E; [|discriminate].
  cbn [res_bind]. intros [= <-].
  apply collect_tiles_shape in E as (new & -> & H2 & _). cbn [app].
  assert (P : Permutation (if sort
                           then sorted (sorted new (coord 0) fltb true) (coord 1) fltb true
                           else new) new).
  { destruct sort; [etransitivity; apply sorted_reverse_perm|reflexivity]. }
  split.
  - transitivity (length new); [exact (Permutation_length P)|].
    symmetry. eapply Forall2_length. eassumption.
  - exists new. split; [exact P|].
    eapply Forall2_impl; [exact H2|]. cbv beta. intros vol t [_ H]. exact H.
Qed.

Lemma same_count_positions (vols : list ImageData) (raw : list (string * list float)) n :
  Forall2 (fun vol t =>
     exists x y rest, position_relative vol = Some (x :: y :: rest)
                      /\ snd t = firstn 3 (x :: y :: rest)) vols raw ->
  Forall (fun t => length (snd t) = n) raw ->
  Forall (fun v => exists p, position_relative v = Some p
                             /\ length (firstn 3 p) = n) vols.
Proof.
  induction 1 as [|vol t vols raw (x & y & rest & Hp & Ht) _ IH]; intros HF.
  - constructor.
  - inversion HF as [|? ? Hn HF']; subst. constructor; [|now apply IH].
    exists (x :: y :: rest). split; [assumption|]. now rewrite <- Ht.
Qed.

(** What a run of [gen_tile_config] that returns has done. *)
Lemma gen_tile_config_outcome sort suffix force_2d m env :
  wp (gen_tile_config w version format_f sort suffix force_2d) (m, env) (fun r s' =>
    forall conf, r = Ok conf ->
      exists tiles tile0 vol vols vol' dims z,
        files_and_coords w m sort = Ok tiles
        /\ head tiles = Some tile0
        /\ subvol m = vol :: vols
        /\ fst s' = mkMosaic (m_base m) (vol' :: vols) (dim m) (overlap m)
                      (overlap_units m)
        /\ rest vol' = rest vol
        /\ _dim vol' = Some dims /\ dims !! "Z" = Some z
        /\ (_dim vol = None ->
            env_parsed (snd s') = env_parsed env ++ [full (storage (base vol))])
        /\ (forall cached, _dim vol = Some cached ->
              vol' = vol /\ env_parsed (snd s') = env_parsed env)
        /\ let stack := (1 <? z) && negb force_2d in
           let three := 2 <? Z.of_nat (length (snd tile0)) in
           let fmt := if stack
                      then String.append (if three then "(%f, %f, %f)"
                                          else "(%f, %f, 0.0)") nl
                      else String.append "(%f, %f)" nl in
           exists lines,
             conf = config_header version stack ++ lines
             /\ Forall2 (fun tile line =>
                  exists name text,
                    config_name suffix (fst tile) name
                    /\ percent_f format_f fmt (snd tile) = Ok text
                    /\ line = String.append (String.append name "; ; ") text)
                  tiles lines).
Proof.
  unfold gen_tile_config. wp_step. wp_step. wp_step. wp_step. wp_step. wp_step.
  destruct (files_and_coords w m sort) as [tiles|e] eqn:Hfc; [|discriminate].
  wp_step. wp_step.
  destruct tiles as [|tile0 tiles']; [discriminate|].
  wp_step. wp_step. wp_step.
  apply wp_call_subvol0. cbn [fst snd subvol].
  destruct (subvol m) as [|vol vols] eqn:Hsub; [discriminate|].
  eapply wp_conseq;
    [apply wp_and; [apply get_dimensions_spec
                   |apply wp_keeps_rest, get_dimensions_keeps_rest]|].
  cbv beta. intros r1 [vol' env1] (Hdim & Hrest). cbn [fst snd] in Hdim, Hrest.
  destruct r1 as [v|e]; [|discriminate].
  destruct (Hdim v eq_refl) as ((dims & -> & Hd) & Hnone & Hsome).
  wp_step. wp_step. unfold dims_getitem, dim_get.
  destruct (dims !! "Z") as [z|] eqn:Hz; [|discriminate].
  wp_step. wp_step.
  match goal with |- wp _ _ ?Q => set (post := Q) end.
  assert (Hgoal : forall fmt head3 env2,
    fmt = (if (1 <? z) && negb force_2d
           then String.append (if 2 <? Z.of_nat (length (snd tile0))
                               then "(%f, %f, %f)" else "(%f, %f, 0.0)") nl
           else String.append "(%f, %f)" nl) ->
    head3 = config_header version ((1 <? z) && negb force_2d) ->
    env_parsed env2 = env_parsed env1 ->
    wp (tile_lines format_f (tile0 :: tiles') suffix fmt head3)
      (mkMosaic (m_base m) (vol' :: vols) (dim m) (overlap m) (overlap_units m),
       env2) post).
  { intros fmt head3 env2 -> -> Henv2. subst post.
    eapply wp_conseq; [apply tile_lines_outcome|]. cbv beta. fsimp.
    intros r2 s2 (Hs2 & Hp2 & Hr2) conf ->.
    destruct Hr2 as (lines & -> & HF).
    exists (tile0 :: tiles'), tile0, vol, vols, vol', dims, z.
    split; [reflexivity|]. split; [reflexivity|]. split; [reflexivity|].
    split; [assumption|]. split; [assumption|]. split; [assumption|].
    split; [assumption|]. split.
    { intros Hn. rewrite Hp2, Henv2. fsimp_in Hnone. now apply Hnone. }
    split.
    { intros cached Hc. fsimp_in Hsome. specialize (Hsome cached Hc).
      inversion Hsome. subst. split; [reflexivity|]. rewrite Hp2, Henv2.
      reflexivity. }
    exists lines. split; [reflexivity|exact HF]. }
  cbn [fst snd].
  destruct (1 <? z) eqn:Hz1, force_2d,
    (2 <? Z.of_nat (length (snd tile0))) eqn:H3;
    cbv beta iota zeta; apply Hgoal; reflexivity.
Qed.

(** X19.  A configuration that [gen_tile_config] returns is laid out as
    follows: the four lines of the header, which say [dim = 3] exactly
    when the first sub-volume has more than one plane and [force_2d] is
    off, and then one line per sub-volume, in the order of
    [files_and_coords]: the name of the tile, ["; ; "] and its
    coordinates, written with a third coordinate exactly for a stack.
    All sub-volumes have the same number of coordinates, two or three,
    and two if the configuration is for planes.  The only change to the
    mosaic is that its first sub-volume now has its dimensions cached. *)
Theorem gen_tile_config_layout sort suffix force_2d m env conf m' env' :
  gen_tile_config w version format_f sort suffix force_2d (m, env)
  = (Ok conf, (m', env')) ->
  exists tiles vol vols vol' dims z lines n,
    files_and_coords w m sort = Ok tiles
    /\ subvol m = vol :: vols
    /\ m' = mkMosaic (m_base m) (vol' :: vols) (dim m) (overlap m) (overlap_units m)
    /\ rest vol' = rest vol
    /\ _dim vol' = Some dims /\ dims !! "Z" = Some z
    /\ (forall cached, _dim vol = Some cached ->
          m' = m /\ env_parsed env' = env_parsed env)
    /\ conf = config_header version ((1 <? z) && negb force_2d) ++ lines
    /\ Forall2 (config_line format_f ((1 <? z) && negb force_2d) suffix) tiles lines
    /\ length conf = (4 + length (subvol m))%nat
    /\ (n = 2 \/ n = 3)%nat
    /\ ((1 <? z) && negb force_2d = false -> n = 2%nat)
    /\ Forall (fun t => length (snd t) = n) tiles
    /\ Forall (fun v => exists p, position_relative v = Some p
                                  /\ length (firstn 3 p) = n) (subvol m).
Proof.
  intros E.
  pose proof (wp_elim _ _ _ _ _ (gen_tile_config_outcome sort suffix force_2d m env) E)
    as H. cbv beta in H.
  destruct (H conf eq_refl)
    as (tiles & tile0 & vol & vols & vol' & dims & z & Hfc & Hhd & Hsub & Hm'
        & Hrest & Hd & Hz & _ & Hsome & lines & Hconf & HF).
  cbn [fst snd] in Hm', Hsome. clear H.
  set (stack := (1 <? z) && negb force_2d) in *.
  set (three := 2 <? Z.of_nat (length (snd tile0))) in *.
  set (n := if stack && three then 3%nat else 2%nat).
  destruct (files_and_coords_shape _ _ _ Hfc) as (Hlen & raw & Hperm & Hraw).
  assert (Hlines : Forall2 (fun tile line =>
            config_line format_f stack suffix tile line /\ length (snd tile) = n)
            tiles lines).
  { eapply Forall2_impl; [exact HF|]. cbv beta.
    intros tile line (name & text & Hname & Htext & ->).
    destruct (percent_f_coords_text _ three _ _ Htext) as [Hplane Hstack].
    subst n. destruct stack; cbn [andb].
    - destruct (Hstack eq_refl) as [Hc Hl]. split; [|exact Hl].
      exists name, text. auto.
    - destruct (Hplane eq_refl) as [Hc Hl]. split; [|exact Hl].
      exists name, text. auto. }
  assert (Hn : Forall (fun t => length (snd t) = n) tiles).
  { clear -Hlines. induction Hlines as [|? ? ? ? [_ H] _ IH]; constructor; auto. }
  exists tiles, vol, vols, vol', dims, z, lines, n.
  split; [assumption|]. split; [assumption|]. split; [assumption|].
  split; [assumption|]. split; [assumption|]. split; [assumption|].
  split.
  { intros cached Hc. destruct (Hsome cached Hc) as [-> Hp]. split; [|exact Hp].
    rewrite Hm'. destruct m. cbn [subvol] in Hsub. cbn. now rewrite Hsub. }
  split; [assumption|]. split.
  { eapply Forall2_impl; [exact Hlines|]. cbv beta. now intros ? ? [? _]. }
  split.
  { rewrite Hconf, length_app. cbn [config_header length].
    rewrite <- (Forall2_length _ _ _ HF), Hlen. reflexivity. }
  split; [subst n; destruct (stack && three); auto|].
  split; [intros Hs; unfold n; change (stack = false) in Hs; now rewrite Hs|].
  split; [assumption|].
  eapply same_count_positions; [exact Hraw|].
  eapply Permutation_Forall; [exact Hperm|exact Hn].
Qed.

(** X20.  For a mosaic without sub-volumes [gen_tile_config] returns no
    configuration, not even the header: it raises [IndexError], with the
    mosaic as it was and no dimension parser run. *)
Theorem gen_tile_config_empty_mosaic sort suffix force_2d m env :
  subvol m = [] ->
  exists env',
    gen_tile_config w version format_f sort suffix force_2d (m, env)
    = (Raise IndexError, (m, env'))
    /\ env_parsed env' = env_parsed env.
Proof.
  intros Hsub.
  assert (Hfc : files_and_coords w m sort = Ok []).
  { unfold files_and_coords. rewrite Hsub. destruct sort; reflexivity. }
  assert (H : wp (gen_tile_config w version format_f sort suffix force_2d) (m, env)
                (fun r s' => r = Raise IndexError /\ fst s' = m
                             /\ env_parsed (snd s') = env_parsed env)).
  { unfold gen_tile_config. wp_step. wp_step. wp_step. wp_step. wp_step. wp_step.
    rewrite Hfc. wp_run. auto. }
  destruct (gen_tile_config w version format_f sort suffix force_2d (m, env))
    as [r [m' env']] eqn:E.
  destruct (wp_elim _ _ _ _ _ H E) as (-> & Hm & Hp). cbn [fst snd] in Hm, Hp.
  subst m'. exists env'. split; [reflexivity|assumption].
Qed.

(** X21.  With a suffix, the name of a tile in the configuration is its
    file name up to the last dot, followed by the suffix: for a file
    name [stem.ext] with no dot in [ext] it is [stem] and the suffix.  A
    file name without a dot is a [ValueError], whatever the suffix, and
    without a suffix the file name is taken as it is. *)
Theorem replace_suffix_from_last_dot {O} fname suffix (s : O * Env) :
  (suffix = "" -> replace_suffix fname suffix s = (Ok fname, s))
  /\ (suffix <> "" ->
      (forall stem ext,
         fname = String.append stem (String "."%char ext) ->
         contains "." ext = false ->
         replace_suffix fname suffix s = (Ok (String.append stem suffix), s))
      /\ (contains "." fname = false ->
          exists env',
            replace_suffix fname suffix s = (Raise ValueError, (fst s, env'))
            /\ env_parsed env' = env_parsed (snd s))).
Proof.
  split; [intros ->; destruct s; reflexivity|]. intros Hs.
  assert (Hne : negb (String.eqb suffix "") = true)
    by (destruct (String.eqb_spec suffix ""); [contradiction|reflexivity]).
  split.
  - intros stem ext -> Hext. unfold replace_suffix, rindex, rfind.
    rewrite Hne, rfind_from_last_dot by (assumption || lia).
    destruct (Z.ltb_spec (0 + len stem) 0) as [Hlt|_]; [unfold len in Hlt; lia|].
    munfold. cbn [Z.add]. rewrite slice_to_app. destruct s. reflexivity.
  - intros Hno. unfold replace_suffix, rindex, rfind.
    rewrite Hne, rfind_from_none by assumption.
    destruct s as [o env]. munfold. eexists. split; reflexivity.
Qed.

End GenTileConfig.

Lemma gen_tile_config_layout_witness :
  exists conf m' env',
    ImageJ.gen_tile_config (Demo.world []) "1.0" Demo.format_f true "-max.ics" false
      (Demo.mosaic_stacks, env0) = (Ok conf, (m', env'))
    /\ length conf = 6%nat
    /\ Forall (fun v => exists p, position_relative v = Some p /\ length p = 2%nat)
         (subvol Demo.mosaic_stacks).
Proof.
  destruct (ImageJ.gen_tile_config (Demo.world []) "1.0" Demo.format_f true "-max.ics"
              false (Demo.mosaic_stacks, env0)) as [r [m' env']] eqn:E.
  destruct r as [conf|e]; [|vm_compute in E; discriminate E].
  exists conf, m', env'. split; [reflexivity|].
  destruct (gen_tile_config_layout _ _ _ _ _ _ _ _ _ _ _ E)
    as (tiles & vol & vols & vol' & dims & z & lines & n & _ & _ & _ & _ & _ & _ & _
        & _ & _ & Hlen & _ & _ & _ & _).
  split; [exact Hlen|]. repeat constructor; eexists; split; reflexivity.
Defined.

(** The configuration for the two stacks, sorted, for their maximum
    projections stored as ICS files. *)
Example gen_tile_config_two_stacks :
  fst (ImageJ.gen_tile_config (Demo.world []) "1.0" Demo.format_f true "-max.ics" false
         (Demo.mosaic_stacks, env0))
  = Ok [String.append "# Generated by micrometa.imagej (1.0)."
          (String.append ImageJ.nl (String.append "#" ImageJ.nl));
        String.append "# Define the number of dimensions we are working on" ImageJ.nl;
        String.append "dim = 3" ImageJ.nl;
        String.append "# Define the image coordinates (in pixels)" ImageJ.nl;
        String.append "t10-max.ics; ; (90.000000, 0.000000, 0.0)" ImageJ.nl;
        String.append "t00-max.ics; ; (0.000000, 0.000000, 0.0)" ImageJ.nl].
Proof. vm_compute. reflexivity. Qed.

Lemma gen_tile_config_empty_mosaic_witness :
  fst (ImageJ.gen_tile_config (Demo.world []) "1.0" Demo.format_f true "" false
         (mkMosaic (m_base Demo.mosaic_2x2) [] (dim Demo.mosaic_2x2) (PInt 10) "pct",
          env0))
  = Raise IndexError.
Proof.
  destruct (gen_tile_config_empty_mosaic (Demo.world []) "1.0" Demo.format_f true ""
              false
              (mkMosaic (m_base Demo.mosaic_2x2) [] (dim Demo.mosaic_2x2) (PInt 10) "pct")
              env0 eq_refl) as (env' & -> & _).
  reflexivity.
Defined.

Lemma replace_suffix_from_last_dot_witness :
  ImageJ.replace_suffix "Slide1/Slide1_01.oif" "-max.ics" (tt, env0)
  = (Ok "Slide1/Slide1_01-max.ics", (tt, env0)).
Proof.
  apply (proj1 (proj2 (replace_suffix_from_last_dot "Slide1/Slide1_01.oif" "-max.ics"
                         (tt, env0)) ltac:(discriminate))
           "Slide1/Slide1_01" "oif"); reflexivity.
Defined.
